(* ===== verification/_CoqProject ===== *)
-Q . S2P
Prelude.v
GoBytes.v
Cursor.v
GoStrings.v
Stateful.v
Crypto.v
Toy.v
Span.v
Cert.v
Method.v
Validate.v
Grant.v
Envelope.v
Wire.v
GrantChain.v
GrantFlow.v
Noise.v
Handshake.v
Transport.v
Resource.v
Capture.v
Goroutines.v
Flags.v
Sys.v
Lastro.v
LastroSpec.v
KeygenSpec.v
Blind.v
MainSpec.v
Interop.v
InteropSpec.v
Session.v
