(* ===== verification/Prelude.v ===== *)
(** * Verification of lastro

    lastro mints and verifies receipts: signed records ("spans") that a key
    observed the output of a command.  The repository has two parts:

    - the package [wire] ([src/wire/*.go]): the formats of spans, certificates,
      grants, envelopes, intents and refusals; their signatures; the validation
      of certificate chains and of grants; a Noise IK handshake, and the
      transport packets and binding frames sent over it;
    - two commands: [lastro] ([src/cmd/lastro/main.go]: keygen, run, verify) and
      [interop] ([src/cmd/interop/main.go]: one live session with a daemon).

    [cmdRun] starts a child process, captures its output through a bounded
    writer, and has [wire] encode and sign a span over the digest of what was
    captured; [cmdVerify] has [wire] parse the span and a certificate, and check
    the chain to trusted CA keys.  [interop] shakes hands with a daemon, checks
    that the daemon's certificate is bound to the session, and sends an intent.
    A grant answers an intent: [VerifyGrant] is what an executor runs on it.

    ** How Go is modelled

    Bytes are [Byte.byte], strings and slices lists of bytes, machine integers
    [Z] with the wrap-around written out ([u16], [u64] of GoBytes.v).  A call
    that may fail returns a [res]: a value, an error value of the code, or
    [Panic] (an index or slice out of bounds, a nil dereference, a key of the
    wrong length given to [crypto/ed25519]); that no panic is reachable is
    proved, not assumed.  The names of types, fields, functions and errors are
    the code's; a method [T.m] is [T_m].  Where the code changes an object in
    place and may fail half way (the handshake), the operation is a computation
    of the monad [M] of Stateful.v, which keeps the state on error paths.  The
    commands are programs over system calls (Sys.v), and a theorem about a
    command is a theorem about all its traces.

    ** The files

    - Prelude.v (here): the error monad [res] and its reasoning principles, hint
      databases, list and append automation.
    - GoBytes.v: bytes, integers, slices, [encoding/binary], [bytes.Compare]
      (a strict total order), [strings.HasPrefix], [encoding/hex].
    - GoStrings.v: iteration over code points (the UTF-8 decoding a [for range]
      does), [strings.Contains], [Split], [ReplaceAll], [ToLower] and
      [TrimSpace].
    - Cursor.v: [wire/cursor.go].  The parsers are composed of its readers; the
      calculus of this file gives, for each parser, the set of byte strings it
      accepts (class [Codec]), so that a parser's theorems follow from the
      format it implements.
    - Crypto.v, Toy.v: [wire/crypto.go]; the primitives and their laws; an
      instance of the laws, for the witnesses.
    - Span.v, Cert.v, Grant.v, Envelope.v: the parsers of [wire/span.go],
      [cert.go], [grant.go], [envelope.go] and the encoders of [encode.go].
      Wire.v: the grammars of grants, envelopes, intents and refusals, and what
      the six parsers have in common.
    - Method.v, Validate.v: [wire/method.go], [wire/validate.go] and the clocked
      [ValidateCert].  GrantChain.v: [wire/grantchain.go]; GrantFlow.v: a grant
      from its issue to its check, through the encoders and the parsers.
    - Stateful.v, Noise.v, Handshake.v: the state monad, [wire/noise.go], its
      theorems.  Transport.v: [wire/transport.go].
    - Resource.v ([validateResource], [resolveShaTemplate]), Capture.v
      ([captureWriter], with a copied chunk as one step), Goroutines.v (the two
      copying goroutines, one instruction at a time), Flags.v (the [flag]
      package), Sys.v (system calls, programs, traces), Lastro.v ([cmdKeygen],
      [cmdRun], [cmdVerify], [main]): [cmd/lastro/main.go].  LastroSpec.v,
      KeygenSpec.v, Blind.v and MainSpec.v are the theorems about run and verify,
      about keygen, about what a receipt leaves out, and about the command line
      as a whole.
    - Interop.v: [cmd/interop/main.go], one definition per stage.  InteropSpec.v:
      theorems for any peer.  Session.v: a daemon built on [Responder] and the
      transport of [wire], a network that delivers, and the session with it.

    ** What is proved

    - Formats.  Each parser accepts exactly the encodings of its records, byte
      for byte ([ParseSpan_exact], [ParseCert_exact], [parsers_exact]): no two
      inputs parse to the same record and nothing may follow one.  Parsers never
      panic, on any input, and no accepted string extends another
      ([parsers_total]).  What is built, encoded or signed parses back and
      its signature verifies ([BuildSpan_roundtrip], [mint_cert_roundtrip],
      [BuildSignedEnvelope_roundtrip]).
    - Trust.  [VerifyReceipt_spec] and [ValidateCertChainNoClock_spec] give the
      exact conditions of acceptance; an approver's certificate needs two
      different trusted CAs ([approver_quorum]), which rests on the strict order
      of CA keys that the parser enforces.
    - Grants.  [VerifyGrant_spec]: accepted exactly when authorised, for the
      declarative [grant_authorized]; [VerifyGrant_first_failure]: otherwise the
      error reported is that of the first failing check in the code's order.
      [scopeCoversResource_spec]: the walk over the resource's ancestors decides
      prefix coverage; [checkExpiry_spec]: the three clocks, with the wrap-around
      of the sums.  [issued_grant_authorizes]: the check accepts what an entitled
      approver issues, end to end.
    - Handshake.  The two parties end with the same transcript hash and with
      mirrored keys ([handshake_agreement]); a message with a wrong mac1 changes
      nothing and costs no key agreement ([mac1_first]); hostile messages lead to
      an error and not to a panic ([handshake_readers_total]).
    - Transport and binding: the exact conditions under which a packet or a
      frame is accepted ([OpenTransport_spec], [VerifyBindingFrame_spec]).
    - The session.  Whatever the peer and the network do, [interop] sends an
      intent, or ends with 0, only after the handshake and a binding it verified
      ([interop_binding_first]); and with an honest daemon every run ends with 0,
      the daemon accepting what it was sent ([interop_completes]).
    - The command.  Every run of [cmdRun] is refused before a child is tried, or
      its child does not start, or the observation is not complete, or a receipt
      is stored; each end has its exit code ([cmdRun_contract]).  The receipt is
      over the captured output and the exit-code trailer ([cmdRun_receipt]), and
      [cmdVerify] verifies it against a certificate of the key
      ([run_then_verify]).  Each exit code of [cmdVerify] has its exact conditions
      ([cmdVerify_exit]).  [cmdKeygen] writes nothing when [sig.key] exists, and
      otherwise four files in order ([cmdKeygen_safe]).  The names it accepts for
      resources are those of the documented grammar ([validateResource_spec],
      [resolveShaTemplate_spec], with the alphabets written out).
    - The capture.  After every interleaving of the copying goroutines it holds
      what each stream had before the first chunk this process could not write
      out, or is marked exceeded ([capture_complete]).  The goroutines, under
      every schedule of their instructions, refine copies that are atomic
      ([goroutines_refine]), and neither deadlock nor run forever
      ([goroutines_terminate]).
    - The command line.  No subcommand panics or uses the network, only [run]
      executes processes, and only [run] and [keygen] change the disk
      ([main_effects]); what [run] stores does not depend on the command it ran,
      only on its output and exit code ([receipt_omits_command]).

    ** Fuel

    Loops are structural where the code counts or ranges.  Elsewhere:
    [scope_loop] runs on one unit more than the resource's length and each
    iteration shortens the prefix ([scope_loop_spec] proves it ends in time);
    [runes_loop] and [ReplaceAll_loop] run on the length of the string and
    consume at least one byte an iteration ([runes_loop_fuel],
    [ReplaceAll_loop_fuel]: more fuel changes nothing); [flag_Parse] runs on the
    number of arguments and consumes at least one an iteration
    ([flag_Parse_fuel]); [ParseCert_loop] runs on the number of CAs the parser
    has read, at most 255.  Programs are finite trees of calls, so every run of a
    command ends; copying ends by [goroutines_terminate].

    ** Parameters

    Ed25519, BLAKE2s, X25519 and ChaCha20-Poly1305 are not code of the
    repository: they are the class [Primitives].  The class [PrimitivesLaws]
    states their documented behaviour (lengths; a signature verifies; a sealed
    text opens; the two ends of a key agreement agree), and nothing about
    forgery.  The Unicode tables behind [strings.ToLower] and [TrimSpace] are the
    class [Unicode]; in the ASCII range they are defined.  [GrantContext] holds
    the [IsRevoked] callback.  The system's replies are unconstrained but for
    [reply_ok] (entropy of the length asked for, a 64-bit clock, a datagram cut to
    the buffer it is read into, and [cmd.Wait], which returns when the goroutines
    of Goroutines.v have ended).  [interop_completes] has the network and the
    daemon of Session.v as its environment.

    ** Not modelled

    - Positions in byte strings are unbounded, where the code has 63 bits; the
      capacity of a slice beyond its length; the 256 GB limit of the cipher.
    - Printed lines are calls with their format and arguments; their rendering
      and the texts of the system's errors are not modelled.  [filepath.Join] is
      kept as a pair of directory and name.
    - Standard input, which the child inherits; what [git rev-parse] answers,
      which is a reply; the expiry of the connection's deadline, which is one
      of the errors a read may reply with.
    - Tests and vectors: the vectors are values of the real primitives.

    ** What modelling showed

    [inverted_window_accepted]: the cap on a privileged certificate's lifetime
    is computed in 64 bits, and a window that ends before it begins passes it.
    [lossy_capture_minted]: a write error on the command's own output ends the
    copying of the child's, and the receipt is still minted when the child
    fails.  [receipt_omits_command]: no receipt says which command ran, which the
    README says it does.  [verify_file_first]: with the arguments in the order the
    README gives, [lastro verify] never verifies.  [keygen_overwrites_static]:
    [lastro keygen] replaces a [static.key] that exists when [sig.key] does not.
    The manifest lists these and the places where a comment and the code
    disagree. *)

From Stdlib Require Export ZArith Lia List String.
From stdpp Require Export base tactics list numbers strings sets.

#[global] Set Default Goal Selector "!".

Declare Scope lastro_scope.
Delimit Scope lastro_scope with lastro.
#[global] Open Scope lastro_scope.
#[global] Open Scope Z_scope.

(** * Go errors and outcomes *)

(** A Go [error] made by [errors.New].  Go compares such values by identity;
    no two of the package's sentinel errors share a text, so the text
    identifies the value.  An error made by [fmt.Errorf] is its format and the
    arguments it formats (the code points of a string, a rune); none is ever
    compared. *)
Inductive error : Type :=
  | errors_New (msg : string)
  | fmt_Errorf (format : string) (args : list (list Z)).

#[global] Instance error_eq_dec : EqDecision error.
Proof. solve_decision. Defined.

(** What a Go call does: return a value with a nil error, return a non-nil
    error, or panic (an index or slice expression out of range, a library call
    outside its documented domain). *)
Inductive res (A : Type) : Type :=
  | Ok (a : A)
  | Err (e : error)
  | Panic.
Arguments Ok {A} _.
Arguments Err {A} _.
Arguments Panic {A}.

#[global] Instance res_ret : MRet res := λ A, Ok.
#[global] Instance res_bind : MBind res := λ A B f m,
  match m with
  | Ok a => f a
  | Err e => Err e
  | Panic => Panic
  end.

#[global] Instance res_eq_dec `{EqDecision A} : EqDecision (res A).
Proof. solve_decision. Defined.

(** [if err := m; err != nil { return ..., e }]: every error of [m] is
    replaced by [e]. *)
Definition replace_err {A} (m : res A) (e : error) : res A :=
  match m with
  | Err _ => Err e
  | r => r
  end.

(** [if cond { return ..., e }]. *)
Definition fail_if (cond : bool) (e : error) : res unit :=
  if cond then Err e else Ok tt.

Definition is_Ok {A} (m : res A) : bool :=
  match m with Ok _ => true | _ => false end.

(** The length of a Go slice or string, as Go's [int]. *)
Abbreviation len l := (Z.of_nat (List.length l)).

(** * Laws of the outcome monad *)

Lemma bind_Ok {A B} (m : res A) (f : A → res B) b :
  m ≫= f = Ok b ↔ ∃ a, m = Ok a ∧ f a = Ok b.
Proof. destruct m; cbn; naive_solver. Qed.

Lemma bind_not_Panic {A B} (m : res A) (f : A → res B) :
  m ≫= f ≠ Panic ↔ m ≠ Panic ∧ ∀ a, m = Ok a → f a ≠ Panic.
Proof. destruct m; cbn; naive_solver. Qed.

Lemma bind_Err {A B} (m : res A) (f : A → res B) e :
  m ≫= f = Err e ↔ m = Err e ∨ ∃ a, m = Ok a ∧ f a = Err e.
Proof. destruct m; cbn; naive_solver. Qed.

Lemma bind_assoc {A B C} (m : res A) (f : A → res B) (g : B → res C) :
  (m ≫= f) ≫= g = m ≫= λ a, f a ≫= g.
Proof. by destruct m. Qed.

Lemma fail_if_Ok c e u : fail_if c e = Ok u ↔ c = false.
Proof. destruct c, u; cbn; naive_solver. Qed.

(** A guard followed by the rest of the function. *)
Lemma fail_if_bind_Ok {A} c e (m : res A) a :
  (fail_if c e;; m) = Ok a ↔ c = false ∧ m = Ok a.
Proof. destruct c; cbn; naive_solver. Qed.

Lemma check_bind_Ok {A} (m : res unit) (k : res A) a :
  (m;; k) = Ok a ↔ m = Ok tt ∧ k = Ok a.
Proof. destruct m as [[]| |]; cbn; naive_solver. Qed.

Lemma gtb_false x y : (x >? y) = false ↔ x ≤ y.
Proof. rewrite Z.gtb_ltb. apply Z.ltb_ge. Qed.

Lemma fail_if_not_Panic c e : fail_if c e ≠ Panic.
Proof. by destruct c. Qed.

Lemma replace_err_Ok {A} (m : res A) e a : replace_err m e = Ok a ↔ m = Ok a.
Proof. destruct m; cbn; naive_solver. Qed.

Lemma replace_err_not_Panic {A} (m : res A) e : m ≠ Panic → replace_err m e ≠ Panic.
Proof. by destruct m. Qed.

Lemma is_Ok_true {A} (m : res A) : is_Ok m = true ↔ ∃ a, m = Ok a.
Proof. destruct m; cbn; naive_solver. Qed.

(** Rewriting an equation [m = Ok a] down to its atomic conditions. *)
Create Rewrite HintDb res.
#[export] Hint Rewrite @bind_Ok fail_if_Ok @replace_err_Ok : res.

Create HintDb nopanic.
#[export] Hint Resolve fail_if_not_Panic replace_err_not_Panic : nopanic.
#[export] Hint Extern 1 (Ok _ ≠ Panic) => discriminate : nopanic.
#[export] Hint Extern 1 (mret _ ≠ Panic) => discriminate : nopanic.
#[export] Hint Extern 1 (Err _ ≠ Panic) => discriminate : nopanic.

(** The first failing check of a list of conditions and their errors. *)
Fixpoint first_failure (checks : list (bool * error)) : res unit :=
  match checks with
  | [] => Ok tt
  | (c, e) :: checks' => if c then first_failure checks' else Err e
  end.

Lemma first_failure_Ok checks :
  first_failure checks = Ok tt ↔ Forall (λ c, c.1 = true) checks.
Proof.
  induction checks as [|[[] e] checks IH]; cbn; rewrite ?Forall_nil, ?Forall_cons; naive_solver.
Qed.

Lemma first_failure_not_Panic checks : first_failure checks ≠ Panic.
Proof. induction checks as [|[[] e] checks IH]; done. Qed.

Lemma first_failure_Err checks e :
  first_failure checks = Err e ↔
  ∃ pre post, checks = pre ++ (false, e) :: post ∧ Forall (λ c, c.1 = true) pre.
Proof.
  induction checks as [|[[] e'] checks IH]; cbn.
  - split; [done|]. by intros ([|] & ? & ? & _).
  - rewrite IH. split.
    + intros (pre & post & -> & Hpre). exists ((true, e') :: pre), post. by repeat constructor.
    + intros ([|c pre] & post & [= <- ->] & Hpre). apply Forall_cons in Hpre as [_ Hpre].
      by exists pre, post.
  - split.
    + intros [= ->]. by exists [], checks.
    + intros ([|c pre] & post & [= <- ->] & Hpre); [done|]. by apply Forall_inv in Hpre.
Qed.

Lemma check_first c e checks :
  (fail_if (negb c) e;; first_failure checks) = first_failure ((c, e) :: checks).
Proof. by destruct c. Qed.

Lemma replace_err_fail_if (m : res unit) e :
  m ≠ Panic → replace_err m e = fail_if (negb (is_Ok m)) e.
Proof. by destruct m as [[]| |]. Qed.

(** Split a no-panic goal along the binds of a computation. *)
Ltac no_panic :=
  repeat (apply bind_not_Panic; split; [by auto with nopanic|intros ? ?]);
  auto with nopanic.

(** Take a computation known to return [Ok] apart, one call at a time. *)
Ltac inv_ok :=
  repeat match goal with
  | H : _ ≫= _ = Ok _ |- _ =>
      apply bind_Ok in H; destruct H as (? & ? & H)
  | H : fail_if _ _ = Ok _ |- _ => apply fail_if_Ok in H
  | H : replace_err _ _ = Ok _ |- _ => apply replace_err_Ok in H
  | H : mret _ = Ok _ |- _ => injection H as H
  | H : Ok _ = Ok _ |- _ => injection H as H
  end; subst.

(** * Lists *)

Lemma take_app_exact {A} (l k : list A) n : n = length l → take n (l ++ k) = l.
Proof. intros ->. apply take_app_length. Qed.

Lemma drop_app_exact {A} (l k : list A) n : n = length l → drop n (l ++ k) = k.
Proof. intros ->. apply drop_app_length. Qed.

Lemma app_eq_inv_length {A} (a b c d : list A) :
  length a = length c → a ++ b = c ++ d → a = c ∧ b = d.
Proof. apply app_inj_1. Qed.

Lemma take_S_snoc {A} (l : list A) n x :
  l !! n = Some x → take (S n) l = take n l ++ [x].
Proof. apply take_S_r. Qed.

(** Equality of two concatenations up to associativity and [[]]. *)
Ltac app_norm := repeat (progress (rewrite ?app_nil_r, <- ?(assoc_L (++)); cbn [app])).
Ltac app_eq := app_norm; reflexivity.
