(* ===== verification/GoBytes.v ===== *)
(** Go bytes, machine integers, slices and the parts of the Go standard
    library ([encoding/binary], [bytes], [encoding/hex], [strings]) that the
    wire package uses. *)

From Stdlib Require Export Strings.Byte.
From S2P Require Import Prelude.

(** * Bytes and machine integers *)

Abbreviation bytes := (list byte).

#[global] Instance byte_eq_dec : EqDecision byte := Byte.byte_eq_dec.

(** The value of a byte, and the conversion [byte(x)] that keeps the low eight bits. *)
Definition b2z (b : byte) : Z := Z.of_N (Byte.to_N b).
Definition z2b (z : Z) : byte :=
  match Byte.of_N (Z.to_N (z mod 256)) with
  | Some b => b
  | None => x00
  end.

(** Unsigned arithmetic of width 16, 32 and 64 keeps the low bits. *)
Definition u16 (z : Z) : Z := z mod 2 ^ 16.
Definition u32 (z : Z) : Z := z mod 2 ^ 32.
Definition u64 (z : Z) : Z := z mod 2 ^ 64.

Definition in_u16 (z : Z) : Prop := 0 ≤ z < 2 ^ 16.
Definition in_u32 (z : Z) : Prop := 0 ≤ z < 2 ^ 32.
Definition in_u64 (z : Z) : Prop := 0 ≤ z < 2 ^ 64.

Lemma b2z_range b : 0 ≤ b2z b < 256.
Proof.
  unfold b2z. pose proof (Byte.to_N_bounded b). lia.
Qed.

Lemma b2z_z2b z : b2z (z2b z) = z mod 256.
Proof.
  unfold b2z, z2b. pose proof (Z.mod_pos_bound z 256 eq_refl) as Hz.
  destruct (Byte.of_N (Z.to_N (z mod 256))) as [b|] eqn:E.
  - apply Byte.to_of_N in E. rewrite E. lia.
  - apply Byte.of_N_None_iff in E. lia.
Qed.

Lemma b2z_inj a b : b2z a = b2z b → a = b.
Proof.
  unfold b2z. intros H. apply N2Z.inj in H.
  pose proof (Byte.of_to_N a). pose proof (Byte.of_to_N b). congruence.
Qed.

Lemma z2b_b2z b : z2b (b2z b) = b.
Proof.
  apply b2z_inj. rewrite b2z_z2b. apply Z.mod_small, b2z_range.
Qed.

Lemma u64_range z : in_u64 (u64 z).
Proof. apply Z.mod_pos_bound. lia. Qed.

Lemma u64_small z : in_u64 z → u64 z = z.
Proof. apply Z.mod_small. Qed.

(** * Slices *)

(** [b[i]] *)
Definition index {A} (l : list A) (i : Z) : res A :=
  if bool_decide (0 ≤ i) then
    match l !! Z.to_nat i with
    | Some b => Ok b
    | None => Panic
    end
  else Panic.

(** [b[i:j]]: a slice expression outside the operand's length panics (spare
    capacity is not modelled). *)
Definition slice (l : bytes) (i j : Z) : res bytes :=
  if bool_decide (0 ≤ i ≤ j ∧ j ≤ len l)
  then Ok (take (Z.to_nat (j - i)) (drop (Z.to_nat i) l))
  else Panic.

(** [copy(dst[off:], src)] on a destination already known to be that long. *)
Definition copy_at (dst : bytes) (off : nat) (src : bytes) : bytes :=
  take off dst ++ take (length dst - off) src ++ drop (off + length src) dst.

Lemma slice_app pre x post i j :
  i = len pre → j = len pre + len x → slice (pre ++ x ++ post) i j = Ok x.
Proof.
  intros -> ->. unfold slice. rewrite bool_decide_true.
  - rewrite drop_app_exact by lia. by rewrite take_app_exact by lia.
  - rewrite !length_app. lia.
Qed.

Lemma slice_not_Panic l i j : 0 ≤ i ≤ j → j ≤ len l → slice l i j ≠ Panic.
Proof. intros. unfold slice. by rewrite bool_decide_true. Qed.

Lemma slice_Ok l i j x :
  slice l i j = Ok x ↔
  ∃ pre post, l = pre ++ x ++ post ∧ i = len pre ∧ j = len pre + len x.
Proof.
  split.
  - unfold slice. case_bool_decide as Hb; [|done]. intros [= <-].
    exists (take (Z.to_nat i) l), (drop (Z.to_nat (j - i)) (drop (Z.to_nat i) l)).
    rewrite !take_drop, !length_take, length_drop. split; [done|lia].
  - intros (pre & post & -> & Hi & Hj). by apply slice_app.
Qed.

(** * Big-endian integers *)

(** The [n] low bytes of [v], most significant first: the bytes
    [byte(v>>8*(n-1)), ..., byte(v)] that [binary.BigEndian] writes. *)
Fixpoint be (n : nat) (v : Z) : bytes :=
  match n with
  | O => []
  | S n' => z2b (Z.shiftr v (8 * Z.of_nat n')) :: be n' v
  end.

(** The value of a big-endian byte string. *)
Definition unbe (bs : bytes) : Z :=
  fold_left (λ acc b, Z.lor (Z.shiftl acc 8) (b2z b)) bs 0.

Definition AppendUint16 (out : bytes) (v : Z) : bytes := out ++ be 2 v.
Definition AppendUint32 (out : bytes) (v : Z) : bytes := out ++ be 4 v.
Definition AppendUint64 (out : bytes) (v : Z) : bytes := out ++ be 8 v.

Lemma length_be n v : length (be n v) = n.
Proof. induction n; cbn; congruence. Qed.

Lemma lor_shift_byte a b : Z.lor (Z.shiftl a 8) (b2z b) = a * 256 + b2z b.
Proof.
  pose proof (b2z_range b) as Hb.
  enough (Z.land (Z.shiftl a 8) (b2z b) = 0) as Hl.
  { pose proof (Z.add_lor_land (Z.shiftl a 8) (b2z b)) as Ha.
    rewrite Hl, Z.shiftl_mul_pow2 in Ha by lia.
    rewrite Z.shiftl_mul_pow2 by lia. change (2 ^ 8) with 256 in *. lia. }
  apply Z.bits_inj'. intros i Hi. rewrite Z.land_spec, Z.bits_0.
  destruct (Z.lt_ge_cases i 8).
  - by rewrite Z.shiftl_spec_low by lia.
  - replace (b2z b) with (b2z b mod 2 ^ 8).
    + rewrite Z.mod_pow2_bits_high by lia. apply andb_false_r.
    + apply Z.mod_small. lia.
Qed.

Lemma unbe_snoc bs b : unbe (bs ++ [b]) = unbe bs * 256 + b2z b.
Proof. unfold unbe. rewrite fold_left_app. cbn. apply lor_shift_byte. Qed.

Lemma pow256_S n : 256 ^ Z.of_nat (S n) = 256 ^ Z.of_nat n * 256.
Proof. rewrite Nat2Z.inj_succ, Z.pow_succ_r by lia. lia. Qed.

Lemma unbe_cons b bs : unbe (b :: bs) = b2z b * 256 ^ len bs + unbe bs.
Proof.
  induction bs as [|c bs IH] using rev_ind.
  - change [b] with ([] ++ [b]). rewrite unbe_snoc. unfold unbe. cbn. lia.
  - rewrite app_comm_cons, !unbe_snoc, IH, length_app. cbn [length].
    rewrite Nat.add_1_r, pow256_S. ring.
Qed.

Lemma unbe_range bs : 0 ≤ unbe bs < 256 ^ len bs.
Proof.
  induction bs as [|b bs IH]; [done|].
  rewrite unbe_cons. cbn [length]. rewrite pow256_S.
  pose proof (b2z_range b). nia.
Qed.

Lemma pow256 n : 256 ^ Z.of_nat n = 2 ^ (8 * Z.of_nat n).
Proof. rewrite Z.pow_mul_r by lia. done. Qed.

Lemma unbe_be n v : unbe (be n v) = v mod 256 ^ Z.of_nat n.
Proof.
  induction n as [|n IH]; [by rewrite Z.mod_1_r|].
  cbn [be]. rewrite unbe_cons, length_be, IH, b2z_z2b, pow256_S.
  rewrite Z.shiftr_div_pow2, <- pow256 by lia.
  assert (0 < 256 ^ Z.of_nat n) by (apply Z.pow_pos_nonneg; lia).
  rewrite (Z.rem_mul_r v (256 ^ Z.of_nat n) 256) by lia. lia.
Qed.

Lemma unbe_inj bs cs : length bs = length cs → unbe bs = unbe cs → bs = cs.
Proof.
  revert cs. induction bs as [|b bs IH]; intros [|c cs] Hl; try done.
  rewrite !unbe_cons. injection Hl as Hl. rewrite <- Hl. intros Hv.
  pose proof (unbe_range bs). pose proof (unbe_range cs) as Hc. rewrite <- Hl in Hc.
  assert (b2z b = b2z c) as Hbc by nia.
  apply b2z_inj in Hbc as ->. f_equal. apply IH; [done|lia].
Qed.

Lemma be_unbe bs n : n = length bs → be n (unbe bs) = bs.
Proof.
  intros ->. apply unbe_inj; [by rewrite length_be|].
  rewrite unbe_be. apply Z.mod_small, unbe_range.
Qed.

Lemma unbe_be_small n v : 0 ≤ v < 256 ^ Z.of_nat n → unbe (be n v) = v.
Proof. intros. rewrite unbe_be. by apply Z.mod_small. Qed.

Lemma be_inj n v w :
  0 ≤ v < 256 ^ Z.of_nat n → 0 ≤ w < 256 ^ Z.of_nat n → be n v = be n w → v = w.
Proof.
  intros Hv Hw H. rewrite <- (unbe_be_small n v), <- (unbe_be_small n w) by done.
  by rewrite H.
Qed.

#[global] Arguments be : simpl never.
#[global] Arguments unbe : simpl never.
#[global] Arguments b2z : simpl never.
#[global] Arguments z2b : simpl never.

(** * Comparisons and prefixes *)

(** [bytes.Equal] *)
Definition bytes_Equal (a b : bytes) : bool := bool_decide (a = b).

(** [bytes.Compare], and [<], [<=] on strings: lexicographic order. *)
Fixpoint bytes_Compare (a b : bytes) : comparison :=
  match a, b with
  | [], [] => Eq
  | [], _ :: _ => Lt
  | _ :: _, [] => Gt
  | x :: a', y :: b' =>
      match Z.compare (b2z x) (b2z y) with
      | Eq => bytes_Compare a' b'
      | c => c
      end
  end.

(** [bytes.HasPrefix], [strings.HasPrefix] *)
Definition HasPrefix (l p : bytes) : bool := bool_decide (take (length p) l = p).

Definition bytes_lt (a b : bytes) : Prop := bytes_Compare a b = Lt.

Lemma bytes_Equal_true a b : bytes_Equal a b = true ↔ a = b.
Proof. apply bool_decide_eq_true. Qed.

Lemma bytes_Equal_false a b : bytes_Equal a b = false ↔ a ≠ b.
Proof. apply bool_decide_eq_false. Qed.

Lemma HasPrefix_true l p : HasPrefix l p = true ↔ ∃ k, l = p ++ k.
Proof.
  unfold HasPrefix. rewrite bool_decide_eq_true. split.
  - intros H. exists (drop (length p) l). rewrite <- H at 1. by rewrite take_drop.
  - intros [k ->]. by apply take_app_exact.
Qed.

Lemma bytes_Compare_eq a b : bytes_Compare a b = Eq ↔ a = b.
Proof.
  revert b. induction a as [|x a IH]; intros [|y b]; cbn; try done.
  destruct (Z.compare_spec (b2z x) (b2z y)) as [H|H|H].
  - apply b2z_inj in H as ->. rewrite IH. naive_solver.
  - split; [done|]. intros [= -> _]. lia.
  - split; [done|]. intros [= -> _]. lia.
Qed.

Lemma bytes_Compare_antisym a b : bytes_Compare b a = CompOpp (bytes_Compare a b).
Proof.
  revert b. induction a as [|x a IH]; intros [|y b]; cbn; try done.
  rewrite (Z.compare_antisym (b2z x) (b2z y)).
  destruct (Z.compare (b2z x) (b2z y)); cbn; auto.
Qed.

#[global] Instance bytes_lt_irrefl : Irreflexive bytes_lt.
Proof. intros a H. unfold bytes_lt in H. rewrite (proj2 (bytes_Compare_eq a a)) in H; done. Qed.

#[global] Instance bytes_lt_trans : Transitive bytes_lt.
Proof.
  unfold bytes_lt. intros a. induction a as [|x a IH]; intros [|y b] [|z c]; cbn; try done.
  destruct (Z.compare_spec (b2z x) (b2z y)) as [Hx|Hx|Hx];
    destruct (Z.compare_spec (b2z y) (b2z z)) as [Hy|Hy|Hy];
    destruct (Z.compare_spec (b2z x) (b2z z)) as [Hz|Hz|Hz]; try lia; try done.
  apply IH.
Qed.

#[global] Instance bytes_lt_dec : RelDecision bytes_lt.
Proof. intros a b. unfold bytes_lt. apply _. Defined.

(** * Strings and hexadecimal *)

(** [[]byte(s)]: a Go string is its bytes. *)
Definition s2b (s : string) : bytes := list_byte_of_string s.

(** [hex.EncodeToString] *)
Definition hex_digit (n : Z) : byte := if n <? 10 then z2b (48 + n) else z2b (87 + n).
Definition hex_EncodeToString (l : bytes) : bytes :=
  flat_map (λ b, [hex_digit (Z.shiftr (b2z b) 4); hex_digit (Z.land (b2z b) 15)]) l.

Lemma length_hex l : length (hex_EncodeToString l) = (2 * length l)%nat.
Proof. induction l as [|b l IH]; cbn [hex_EncodeToString flat_map app length]; [done|].
  unfold hex_EncodeToString in IH. rewrite IH. lia. Qed.
