(* ===== verification/Cursor.v ===== *)
(** The bounds-checked reader of [wire/cursor.go] (and [field32] of
    [wire/envelope.go]): state, operations, and the calculus the parsers'
    proofs are composed with. *)

From S2P Require Import Prelude GoBytes.

(** * Errors *)

Definition ErrTruncated : error := errors_New "wire: truncated".
Definition ErrOversize : error := errors_New "wire: length exceeds declared bound".
Definition ErrTrailingBytes : error := errors_New "wire: trailing bytes".
Definition ErrMalformed : error := errors_New "wire: malformed".

(** The errors a parser of the package may return. *)
Definition parse_errors : list error :=
  [ErrTruncated; ErrOversize; ErrTrailingBytes; ErrMalformed].

(** * The reader *)

Record cursor : Type := mk_cursor {
  buf : bytes;
  pos : Z;
}.

(** A method of [*cursor]: it reads and moves the cursor, or fails. *)
Definition Cur (A : Type) : Type := cursor → res (A * cursor).

#[global] Instance Cur_ret : MRet Cur := λ A a c, Ok (a, c).
#[global] Instance Cur_bind : MBind Cur := λ A B f p c,
  match p c with
  | Ok (a, c') => f a c'
  | Err e => Err e
  | Panic => Panic
  end.

(** A computation that does not touch the cursor. *)
Definition lift {A} (m : res A) : Cur A := λ c, a ← m; mret (a, c).

(** [c.pos], [c.pos += n], [c.buf[c.pos+i]], [c.buf[i:c.pos]] *)
Definition get_pos : Cur Z := λ c, Ok (pos c, c).
Definition advance (n : Z) : Cur unit := λ c, Ok (tt, mk_cursor (buf c) (pos c + n)).
Definition byte_at (i : Z) : Cur byte := λ c, lift (index (buf c) (pos c + i)) c.
Definition slice_from (i : Z) : Cur bytes := λ c, lift (slice (buf c) i (pos c)) c.

Module cur.

Definition need (n : Z) : Cur unit := λ c,
  if len (buf c) - pos c <? n then Err ErrTruncated else Ok (tt, c).

Definition u8 : Cur byte :=
  need 1;;
  v ← byte_at 0;
  advance 1;;
  mret v.

Definition u16be : Cur Z :=
  need 2;;
  b0 ← byte_at 0;
  b1 ← byte_at 1;
  advance 2;;
  mret (Z.lor (u16 (Z.shiftl (b2z b0) 8)) (b2z b1)).

Definition u32be : Cur Z :=
  need 4;;
  b0 ← byte_at 0;
  b1 ← byte_at 1;
  b2 ← byte_at 2;
  b3 ← byte_at 3;
  advance 4;;
  mret (Z.lor (Z.lor (Z.lor (u32 (Z.shiftl (b2z b0) 24)) (u32 (Z.shiftl (b2z b1) 16)))
                     (u32 (Z.shiftl (b2z b2) 8))) (b2z b3)).

(** [for i := 0; i < 8; i++ { v = v<<8 | uint64(c.buf[c.pos+i]) }], with
    [k] the iterations left. *)
Fixpoint u64be_loop (k : nat) (i : Z) (v : Z) : Cur Z :=
  match k with
  | O => mret v
  | S k' =>
      b ← byte_at i;
      u64be_loop k' (i + 1) (Z.lor (u64 (Z.shiftl v 8)) (b2z b))
  end.

Definition u64be : Cur Z :=
  need 8;;
  v ← u64be_loop 8 0 0;
  advance 8;;
  mret v.

Definition take (n : Z) : Cur bytes :=
  need n;;
  out ← (λ c, lift (slice (buf c) (pos c) (pos c + n)) c);
  advance n;;
  mret out.

Definition field16 (max : Z) : Cur bytes :=
  n ← u16be;
  lift (fail_if (n >? max) ErrOversize);;
  take n.

Definition field32 (max : Z) : Cur bytes :=
  n ← u32be;
  lift (fail_if (n >? max) ErrOversize);;
  take n.

(** [if c.pos != len(buf) { return nil, ErrTrailingBytes }] *)
Definition at_end : Cur unit := λ c,
  if pos c =? len (buf c) then Ok (tt, c) else Err ErrTrailingBytes.

(** [c := cursor{buf: buf}], then the parser's body. *)
Definition run {A} (p : Cur A) (input : bytes) : res A :=
  '(a, _) ← p (mk_cursor input 0);
  mret a.

End cur.

(** * Cursors as a consumed and a remaining part *)

Definition zipper (pre rest : bytes) : cursor := mk_cursor (pre ++ rest) (len pre).

Lemma zipper_nil l : mk_cursor l 0 = zipper [] l.
Proof. done. Qed.

Lemma index_zipper (pre rest : bytes) i : 0 ≤ i → index (pre ++ rest) (len pre + i) = index rest i.
Proof.
  intros Hi. unfold index. rewrite !bool_decide_true by lia.
  rewrite lookup_app_r by lia.
  by replace (Z.to_nat (len pre + i) - length pre)%nat with (Z.to_nat i) by lia.
Qed.

Lemma byte_at_zipper pre rest i b :
  0 ≤ i → rest !! Z.to_nat i = Some b → byte_at i (zipper pre rest) = Ok (b, zipper pre rest).
Proof.
  intros Hi Hb. unfold byte_at, lift, zipper; cbn. rewrite index_zipper by done.
  unfold index. rewrite bool_decide_true by done. by rewrite Hb.
Qed.

Lemma advance_zipper pre b rest n :
  n = len b → advance n (zipper pre (b ++ rest)) = Ok (tt, zipper (pre ++ b) rest).
Proof.
  intros ->. unfold advance, zipper; cbn. rewrite <- app_assoc, length_app. do 3 f_equal. lia.
Qed.

Lemma need_zipper pre rest n :
  cur.need n (zipper pre rest) =
  if len rest <? n then Err ErrTruncated else Ok (tt, zipper pre rest).
Proof.
  unfold cur.need, zipper; cbn. rewrite length_app.
  replace (Z.of_nat (length pre + length rest) - len pre) with (len rest) by lia. done.
Qed.

(** * Readers and the byte strings they consume *)

(** [Reads pre p F]: at a cursor that has consumed [pre], the reader [p]
    returns [a] exactly when the remaining input starts with a byte string
    that [F] relates to [a], and consumes that string; it fails with
    [ErrTruncated] when the input stops inside such a string; it never reads
    outside the buffer, and fails with the package's parse errors only. *)
Record Reads {A} (pre : bytes) (p : Cur A) (F : A → bytes → Prop) : Prop := {
  reads_ok rest a c :
    p (zipper pre rest) = Ok (a, c) ↔
    ∃ b rest', F a b ∧ rest = b ++ rest' ∧ c = zipper (pre ++ b) rest';
  reads_trunc a b n :
    F a b → (n < length b)%nat → p (zipper pre (firstn n b)) = Err ErrTruncated;
  reads_err rest :
    match p (zipper pre rest) with
    | Ok _ => True
    | Err e => e ∈ parse_errors
    | Panic => False
    end;
}.
Arguments reads_ok {A pre p F}.
Arguments reads_trunc {A pre p F}.
Arguments reads_err {A pre p F}.

(** [Accepts pre p F]: the same for a reader that ends by checking that the
    whole input has been consumed. *)
Record Accepts {A} (pre : bytes) (p : Cur A) (F : A → bytes → Prop) : Prop := {
  accepts_ok rest a c :
    p (zipper pre rest) = Ok (a, c) ↔ F a rest ∧ c = zipper (pre ++ rest) [];
  accepts_trunc a b n :
    F a b → (n < length b)%nat → p (zipper pre (firstn n b)) = Err ErrTruncated;
  accepts_trail a b x :
    F a b → x ≠ [] → p (zipper pre (b ++ x)) = Err ErrTrailingBytes;
  accepts_err rest :
    match p (zipper pre rest) with
    | Ok _ => True
    | Err e => e ∈ parse_errors
    | Panic => False
    end;
}.
Arguments accepts_ok {A pre p F}.
Arguments accepts_trunc {A pre p F}.
Arguments accepts_trail {A pre p F}.
Arguments accepts_err {A pre p F}.

Lemma reads_app {A} {pre} {p : Cur A} {F} (H : Reads pre p F) a b rest :
  F a b → p (zipper pre (b ++ rest)) = Ok (a, zipper (pre ++ b) rest).
Proof. intros HF. apply (reads_ok H). eauto. Qed.

Lemma Reads_iff {A} pre (p : Cur A) F G :
  (∀ a b, F a b ↔ G a b) → Reads pre p F → Reads pre p G.
Proof.
  intros HFG [Hok Htr Herr]. split; [|intros a b n ?%HFG; eauto|done].
  intros. rewrite Hok. by setoid_rewrite HFG.
Qed.

Lemma Accepts_iff {A} pre (p : Cur A) F G :
  (∀ a b, F a b ↔ G a b) → Accepts pre p F → Accepts pre p G.
Proof.
  intros HFG [Hok Htr Htl Herr].
  split; [|intros a b n ?%HFG; eauto|intros a b n ?%HFG; eauto|done].
  intros. by rewrite Hok, HFG.
Qed.

Lemma Reads_ret {A} pre (x : A) : Reads pre (mret x) (λ a b, a = x ∧ b = []).
Proof.
  split; [|by intros a b n [_ ->] ?%Nat.nlt_0_r|done].
  intros rest a c. unfold mret, Cur_ret. split.
  - intros [= <- <-]. exists [], rest. by rewrite app_nil_r.
  - intros (b & rest' & [-> ->] & -> & ->). by rewrite app_nil_r.
Qed.

Lemma Reads_bind {A B} pre (p : Cur A) (f : A → Cur B) F G :
  Reads pre p F →
  (∀ a b, F a b → Reads (pre ++ b) (f a) (G a b)) →
  Reads pre (p ≫= f) (λ r bb, ∃ a b, F a b ∧ ∃ b', G a b r b' ∧ bb = b ++ b').
Proof.
  intros Hp Hf. unfold mbind, Cur_bind. split.
  - intros rest r c. split.
    + destruct (p _) as [[a c1]| |] eqn:E; try done.
      apply (reads_ok Hp) in E as (b & rest' & HF & -> & ->).
      intros (b' & rest'' & HG & -> & ->)%(reads_ok (Hf a b HF)).
      exists (b ++ b'), rest''. rewrite !(assoc_L (++)). naive_solver.
    + intros (bb & rest' & (a & b & HF & b' & HG & ->) & -> & ->).
      rewrite <- (assoc_L (++)), (reads_app Hp a b) by done.
      rewrite (reads_app (Hf a b HF) r b') by done. by rewrite (assoc_L (++)).
  - intros r bb n (a & b & HF & b' & HG & ->) Hn. rewrite length_app in Hn.
    destruct (decide (n < length b)%nat) as [Hlt|Hge].
    + rewrite take_app_le, (reads_trunc Hp a b) by (done || lia). done.
    + rewrite take_app_ge by lia. rewrite (reads_app Hp a b) by done.
      apply (reads_trunc (Hf a b HF) r b'); [done|lia].
  - intros rest. pose proof (reads_err Hp rest) as He.
    destruct (p _) as [[a c1]| |] eqn:E; try done.
    apply (reads_ok Hp) in E as (b & rest' & HF & -> & ->).
    apply (reads_err (Hf a b HF)).
Qed.

Lemma Accepts_bind {A B} pre (p : Cur A) (f : A → Cur B) F G :
  Reads pre p F →
  (∀ a b, F a b → Accepts (pre ++ b) (f a) (G a b)) →
  Accepts pre (p ≫= f) (λ r bb, ∃ a b, F a b ∧ ∃ b', G a b r b' ∧ bb = b ++ b').
Proof.
  intros Hp Hf. unfold mbind, Cur_bind. split.
  - intros rest r c. split.
    + destruct (p _) as [[a c1]| |] eqn:E; try done.
      apply (reads_ok Hp) in E as (b & rest' & HF & -> & ->).
      intros (HG & ->)%(accepts_ok (Hf a b HF)). rewrite (assoc_L (++)). naive_solver.
    + intros [(a & b & HF & b' & HG & ->) ->].
      rewrite (reads_app Hp a b) by done.
      apply (accepts_ok (Hf a b HF)). by rewrite (assoc_L (++)).
  - intros r bb n (a & b & HF & b' & HG & ->) Hn. rewrite length_app in Hn.
    destruct (decide (n < length b)%nat) as [Hlt|Hge].
    + rewrite take_app_le, (reads_trunc Hp a b) by (done || lia). done.
    + rewrite take_app_ge by lia. rewrite (reads_app Hp a b) by done.
      apply (accepts_trunc (Hf a b HF) r b'); [done|lia].
  - intros r bb x (a & b & HF & b' & HG & ->) Hx.
    rewrite <- (assoc_L (++)), (reads_app Hp a b) by done.
    by apply (accepts_trail (Hf a b HF) r b').
  - intros rest. pose proof (reads_err Hp rest) as He.
    destruct (p _) as [[a c1]| |] eqn:E; try done.
    apply (reads_ok Hp) in E as (b & rest' & HF & -> & ->).
    apply (accepts_err (Hf a b HF)).
Qed.

Lemma at_end_zipper pre rest :
  cur.at_end (zipper pre rest) =
  if decide (rest = []) then Ok (tt, zipper pre []) else Err ErrTrailingBytes.
Proof.
  unfold cur.at_end, zipper; cbn. rewrite length_app.
  case_decide as Hr.
  - subst. by rewrite Nat.add_0_r, Z.eqb_refl.
  - destruct rest; [done|]. cbn. by rewrite (proj2 (Z.eqb_neq _ _)) by lia.
Qed.

Lemma Accepts_end {A} pre (x : A) :
  Accepts pre (cur.at_end;; mret x) (λ a b, a = x ∧ b = []).
Proof.
  unfold mbind, Cur_bind. split.
  - intros rest a c. rewrite at_end_zipper. case_decide as Hr; [subst|naive_solver].
    unfold mret, Cur_ret. rewrite app_nil_r. naive_solver.
  - intros a b n [_ ->] ?%Nat.nlt_0_r. done.
  - intros a b y [_ ->] Hy. by rewrite at_end_zipper, decide_False.
  - intros rest. rewrite at_end_zipper. case_decide; [done|]. set_solver.
Qed.

Lemma Reads_lift_fail pre c e :
  e ∈ parse_errors →
  Reads pre (lift (fail_if c e)) (λ _ b, c = false ∧ b = []).
Proof.
  intros He. split.
  - intros rest [] d. unfold lift. destruct c; cbn.
    + split; [done|]. by intros (? & ? & [? _] & _).
    + split.
      * intros [= <-]. exists [], rest. by rewrite app_nil_r.
      * intros (b & r & [_ ->] & -> & ->). by rewrite app_nil_r.
  - by intros a b n [_ ->] ?%Nat.nlt_0_r.
  - intros rest. by destruct c.
Qed.

(** A reader that only looks at what has been consumed. *)
Lemma Reads_pure {A} pre (p : Cur A) x :
  (∀ rest, p (zipper pre rest) = Ok (x, zipper pre rest)) →
  Reads pre p (λ a b, a = x ∧ b = []).
Proof.
  intros H. destruct (Reads_ret pre x) as [Hok Htr Herr].
  split; intros *; rewrite H; [apply Hok|apply Htr|done].
Qed.

Lemma Reads_get_pos pre : Reads pre get_pos (λ a b, a = len pre ∧ b = []).
Proof. by apply Reads_pure. Qed.

Lemma Reads_slice_from pre i pre0 b :
  i = len pre0 → pre = pre0 ++ b → Reads pre (slice_from i) (λ a b', a = b ∧ b' = []).
Proof.
  intros -> ->. apply Reads_pure. intros rest. unfold slice_from, lift, zipper; cbn.
  rewrite <- app_assoc, (slice_app pre0 b rest); [done..|]. rewrite length_app; lia.
Qed.

Lemma Reads_slice_all pre : Reads pre (slice_from 0) (λ a b, a = pre ∧ b = []).
Proof. by apply (Reads_slice_from pre 0 [] pre). Qed.

(** A reader that checks for [n] bytes and returns a function [f] of them. *)
Lemma Reads_block {A} pre (p : Cur A) (n : nat) (f : bytes → A) :
  (∀ rest, (length rest < n)%nat → p (zipper pre rest) = Err ErrTruncated) →
  (∀ b rest, length b = n →
    p (zipper pre (b ++ rest)) = Ok (f b, zipper (pre ++ b) rest)) →
  Reads pre p (λ a b, length b = n ∧ a = f b).
Proof.
  intros Hshort Hlong.
  assert (∀ rest, (n ≤ length rest)%nat →
    p (zipper pre rest) = Ok (f (firstn n rest), zipper (pre ++ firstn n rest) (skipn n rest)))
    as Hge.
  { intros rest Hr. rewrite <- Hlong; [by rewrite take_drop|]. rewrite length_take. lia. }
  split.
  - intros rest a c. split.
    + intros H. destruct (decide (n ≤ length rest)%nat) as [Hr|Hr].
      * rewrite Hge in H by done. injection H as <- <-.
        exists (firstn n rest), (skipn n rest). rewrite take_drop, length_take.
        split_and!; [lia|done..].
      * rewrite Hshort in H; [done|lia].
    + intros (b & rest' & [Hb ->] & -> & ->). auto.
  - intros a b k [Hb ->] Hk. apply Hshort. rewrite length_take. lia.
  - intros rest. destruct (decide (n ≤ length rest)%nat) as [Hr|Hr].
    + by rewrite Hge.
    + rewrite Hshort by lia. set_solver.
Qed.

Lemma need_short pre rest n :
  len rest < n → cur.need n (zipper pre rest) = Err ErrTruncated.
Proof. intros. rewrite need_zipper. by rewrite (proj2 (Z.ltb_lt _ _)). Qed.

Lemma need_long pre rest n :
  n ≤ len rest → cur.need n (zipper pre rest) = Ok (tt, zipper pre rest).
Proof. intros. rewrite need_zipper. by rewrite (proj2 (Z.ltb_ge _ _)). Qed.

Lemma Reads_u8 pre : Reads pre cur.u8 (λ v b, b = [v]).
Proof.
  eapply Reads_iff; cycle 1.
  - apply (Reads_block _ _ 1 (λ b, default x00 (b !! 0%nat))).
    + intros rest Hr. unfold cur.u8, mbind, Cur_bind. rewrite need_short by lia. done.
    + intros [|x [|??]] rest Hb; try done. unfold cur.u8, mbind, Cur_bind.
      rewrite need_long by (rewrite length_app; cbn [length]; lia).
      rewrite (byte_at_zipper _ _ _ x) by done.
      by rewrite (advance_zipper _ [x]).
  - intros v [|x [|??]]; cbn; naive_solver.
Qed.

Lemma u16_lor x y : Z.lor (u16 (Z.shiftl (b2z x) 8)) (b2z y) = unbe [x; y].
Proof.
  unfold u16, unbe; cbn [fold_left]. pose proof (b2z_range x).
  rewrite Z.mod_small; [done|]. rewrite Z.shiftl_mul_pow2 by lia. lia.
Qed.

Lemma u32_lor x y z w :
  Z.lor (Z.lor (Z.lor (u32 (Z.shiftl (b2z x) 24)) (u32 (Z.shiftl (b2z y) 16)))
               (u32 (Z.shiftl (b2z z) 8))) (b2z w) = unbe [x; y; z; w].
Proof.
  unfold u32, unbe; cbn [fold_left].
  pose proof (b2z_range x). pose proof (b2z_range y). pose proof (b2z_range z).
  rewrite !Z.mod_small by (rewrite Z.shiftl_mul_pow2 by lia; lia).
  rewrite !Z.shiftl_0_l, !Z.lor_0_l, !Z.shiftl_lor, !Z.shiftl_shiftl by lia. done.
Qed.

Lemma be_length_unbe n v b :
  length b = n ∧ v = unbe b ↔ (0 ≤ v < 256 ^ Z.of_nat n) ∧ b = be n v.
Proof.
  split.
  - intros [Hb ->]. rewrite be_unbe by done. subst n. split; [apply unbe_range|done].
  - intros [Hv ->]. by rewrite length_be, unbe_be_small.
Qed.

Lemma Reads_u16be pre : Reads pre cur.u16be (λ v b, in_u16 v ∧ b = be 2 v).
Proof.
  apply (Reads_iff _ _ (λ v b, length b = 2%nat ∧ v = unbe b));
    [intros v b; apply (be_length_unbe 2)|].
  apply Reads_block; unfold cur.u16be, mbind, Cur_bind.
  - intros rest Hr. rewrite need_short by lia. done.
  - intros [|x [|y [|??]]] rest Hb; try done.
    rewrite need_long by (rewrite length_app; cbn [length]; lia).
    rewrite (byte_at_zipper _ _ _ x), (byte_at_zipper _ _ _ y) by done.
    rewrite (advance_zipper _ [x; y]) by done. by rewrite u16_lor.
Qed.

Lemma Reads_u32be pre : Reads pre cur.u32be (λ v b, in_u32 v ∧ b = be 4 v).
Proof.
  apply (Reads_iff _ _ (λ v b, length b = 4%nat ∧ v = unbe b));
    [intros v b; apply (be_length_unbe 4)|].
  apply Reads_block; unfold cur.u32be, mbind, Cur_bind.
  - intros rest Hr. rewrite need_short by lia. done.
  - intros [|x [|y [|z [|w [|??]]]]] rest Hb; try done.
    rewrite need_long by (rewrite length_app; cbn [length]; lia).
    rewrite (byte_at_zipper _ _ _ x), (byte_at_zipper _ _ _ y), (byte_at_zipper _ _ _ z),
      (byte_at_zipper _ _ _ w) by done.
    rewrite (advance_zipper _ [x; y; z; w]) by done. by rewrite u32_lor.
Qed.

Lemma u64be_loop_spec pre b rest k done :
  length (done ++ b) = 8%nat → length b = k →
  cur.u64be_loop k (len done) (unbe done) (zipper pre ((done ++ b) ++ rest))
  = Ok (unbe (done ++ b), zipper pre ((done ++ b) ++ rest)).
Proof.
  revert done b. induction k as [|k IH]; intros done b Hl Hb.
  - destruct b; [|done]. by rewrite app_nil_r.
  - destruct b as [|x b]; [done|]. cbn [cur.u64be_loop]. unfold mbind, Cur_bind.
    rewrite (byte_at_zipper _ _ _ x); [|lia|].
    2:{ rewrite Nat2Z.id, <- app_assoc, lookup_app_r, Nat.sub_diag by lia. done. }
    replace (u64 (Z.shiftl (unbe done) 8)) with (Z.shiftl (unbe done) 8).
    2:{ unfold u64. rewrite Z.mod_small; [done|].
        rewrite Z.shiftl_mul_pow2 by lia. pose proof (unbe_range done) as Hr.
        rewrite length_app in Hl. cbn in Hl.
        assert (256 ^ len done ≤ 256 ^ 7) by (apply Z.pow_le_mono_r; lia). lia. }
    rewrite lor_shift_byte, <- unbe_snoc.
    replace (len done + 1) with (len (done ++ [x])) by (rewrite length_app; cbn; lia).
    replace (done ++ x :: b) with ((done ++ [x]) ++ b) in * by (by rewrite <- app_assoc).
    apply IH; [done|]. cbn in Hb. lia.
Qed.

Lemma Reads_u64be pre : Reads pre cur.u64be (λ v b, in_u64 v ∧ b = be 8 v).
Proof.
  apply (Reads_iff _ _ (λ v b, length b = 8%nat ∧ v = unbe b));
    [intros v b; apply (be_length_unbe 8)|].
  apply Reads_block; unfold cur.u64be, mbind, Cur_bind.
  - intros rest Hr. rewrite need_short by lia. done.
  - intros b rest Hb. rewrite need_long by (rewrite length_app; lia).
    pose proof (u64be_loop_spec pre b rest 8 [] Hb Hb) as Hloop.
    cbn [app List.length] in Hloop. change (unbe []) with 0 in Hloop.
    change (Z.of_nat 0) with 0 in Hloop. rewrite Hloop.
    by rewrite advance_zipper by lia.
Qed.

Lemma Reads_take pre n :
  0 ≤ n → Reads pre (cur.take n) (λ v b, b = v ∧ len v = n).
Proof.
  intros Hn. eapply Reads_iff; cycle 1.
  - apply (Reads_block _ _ (Z.to_nat n) id); unfold cur.take, mbind, Cur_bind.
    + intros rest Hr. rewrite need_short by lia. done.
    + intros b rest Hb. rewrite need_long by (rewrite length_app; lia).
      unfold lift.
      assert (slice (buf (zipper pre (b ++ rest))) (len pre) (len pre + n) = Ok b)
        as Hsl by (apply slice_app; lia).
      change (pos (zipper pre (b ++ rest))) with (len pre).
      rewrite Hsl. cbn [mbind res_bind mret res_ret].
      by rewrite advance_zipper by lia.
  - intros v b. unfold id. naive_solver lia.
Qed.

(** [field16]: a two-byte length, at most [max], and that many bytes. *)
Lemma Reads_field16 pre max :
  max < 2 ^ 16 →
  Reads pre (cur.field16 max) (λ v b, len v ≤ max ∧ b = be 2 (len v) ++ v).
Proof.
  intros Hmax. eapply Reads_iff; cycle 1.
  - unfold cur.field16. eapply Reads_bind; [apply Reads_u16be|intros n b [Hn Hb]].
    eapply Reads_bind; [apply Reads_lift_fail; set_solver|intros ? ? [_ _]].
    apply Reads_take, Hn.
  - intros v b. setoid_rewrite gtb_false. split.
    + naive_solver.
    + intros [Hv ->]. exists (len v), (be 2 (len v)). unfold in_u16.
      split; [split; [lia|done]|]. exists v. naive_solver.
Qed.

Lemma Reads_field32 pre max :
  max < 2 ^ 32 →
  Reads pre (cur.field32 max) (λ v b, len v ≤ max ∧ b = be 4 (len v) ++ v).
Proof.
  intros Hmax. eapply Reads_iff; cycle 1.
  - unfold cur.field32. eapply Reads_bind; [apply Reads_u32be|intros n b [Hn Hb]].
    eapply Reads_bind; [apply Reads_lift_fail; set_solver|intros ? ? [_ _]].
    apply Reads_take, Hn.
  - intros v b. setoid_rewrite gtb_false. split.
    + naive_solver.
    + intros [Hv ->]. exists (len v), (be 4 (len v)). unfold in_u32.
      split; [split; [lia|done]|]. exists v. naive_solver.
Qed.

(** * Exact parsers *)

(** What a parser of the package promises to its callers: it accepts exactly
    the byte strings of the format [F]; every strict prefix of an accepted
    string is [ErrTruncated], every extension of one [ErrTrailingBytes]; on any
    input it returns, without reading outside the buffer. *)
Class Codec {A} (parse : bytes → res A) (F : A → bytes → Prop) : Prop := {
  codec_exact input a : parse input = Ok a ↔ F a input;
  codec_trunc a b n : F a b → (n < length b)%nat → parse (firstn n b) = Err ErrTruncated;
  codec_trail a b x : F a b → x ≠ [] → parse (b ++ x) = Err ErrTrailingBytes;
  codec_total input :
    match parse input with
    | Ok _ => True
    | Err e => e ∈ parse_errors
    | Panic => False
    end;
}.

Lemma Codec_run {A} (p : Cur A) F : Accepts [] p F → Codec (cur.run p) F.
Proof.
  intros H. unfold cur.run. split.
  - intros input a. rewrite zipper_nil, bind_Ok. split.
    + intros ([a' c] & Hp & [= ->]). by apply (accepts_ok H) in Hp as [? _].
    + intros HF. exists (a, zipper input []). split; [|done].
      by apply (accepts_ok H).
  - intros a b n HF Hn. rewrite zipper_nil. by rewrite (accepts_trunc H a b).
  - intros a b x HF Hx. rewrite zipper_nil. by rewrite (accepts_trail H a b).
  - intros input. rewrite zipper_nil. pose proof (accepts_err H input) as He.
    by destruct (p _) as [[]| |].
Qed.

Lemma codec_not_Panic `{Codec A parse F} input : parse input ≠ Panic.
Proof. intros Hp. pose proof (codec_total input) as Ht. by rewrite Hp in Ht. Qed.

(** A format an exact parser decides determines its value, and no encoding is
    a strict prefix of another. *)
Lemma codec_functional `{Codec A parse F} a a' b : F a b → F a' b → a = a'.
Proof. rewrite <- !codec_exact. congruence. Qed.

Lemma codec_prefix_free `{Codec A parse F} a a' b x : F a b → F a' (b ++ x) → x = [].
Proof.
  intros HF HF'. destruct (decide (x = [])) as [|Hx]; [done|].
  apply codec_exact in HF'. by rewrite (codec_trail a b x) in HF'.
Qed.

Create HintDb reads.
#[export] Hint Extern 1 (_ ∈ parse_errors) => set_solver : reads.
#[export] Hint Resolve Reads_u8 Reads_u16be Reads_u32be Reads_u64be Reads_lift_fail
  Reads_get_pos Reads_ret Accepts_end : reads.

(** Compose the specification of a reader along its code. *)
Ltac reads_prim :=
  lazymatch goal with
  | |- Reads _ (cur.take _) _ =>
      apply Reads_take;
      first [done | apply Z.mul_nonneg_nonneg; [by apply b2z_range|done]
            |match goal with H : in_u32 ?n ∧ _ |- 0 ≤ ?n => apply H end]
  | |- Reads _ (cur.field16 _) _ => apply Reads_field16; done
  | |- Reads _ (cur.field32 _) _ => apply Reads_field32; done
  | |- Reads _ (slice_from 0) _ => apply Reads_slice_all
  | |- Reads _ (slice_from _) _ =>
      eapply Reads_slice_from;
        [match goal with H : ?i = len _ ∧ _ |- ?i = _ => exact (proj1 H) end
        |rewrite <- ?(assoc_L (++)); reflexivity]
  | |- Reads _ (mret _) _ => apply Reads_ret
  | |- _ => eauto with reads
  end.

Ltac reads :=
  repeat match goal with
  | |- Reads _ (_ ≫= _) _ => eapply Reads_bind; [reads_prim|intros ? ? ?; cbv beta in *]
  | |- Accepts _ (cur.at_end ≫= _) _ => apply Accepts_end
  | |- Accepts _ (_ ≫= _) _ => eapply Accepts_bind; [reads_prim|intros ? ? ?; cbv beta in *]
  end; try reads_prim.

(** Take the composed description of a consumed string apart, and build one:
    the values are found by unification. *)
Ltac unpack :=
  repeat match goal with
  | H : ex _ |- _ => destruct H
  | H : _ ∧ _ |- _ => destruct H
  end.
Ltac repack :=
  repeat match goal with
  | |- ex _ => eexists
  | |- _ ∧ _ => split
  end.
