(* ===== verification/GoStrings.v ===== *)
(** Go strings: the iteration over code points, and the operations of the
    [strings] package the command line uses. *)

From S2P Require Import Prelude GoBytes.

(** * Code points *)

Definition in_range (lo hi : Z) (b : byte) : bool := (lo <=? b2z b) && (b2z b <=? hi).

(** A continuation byte. *)
Definition cont (b : byte) : bool := in_range 0x80 0xbf b.
Definition low6 (b : byte) : Z := Z.land (b2z b) 0x3f.

(** The range of the second byte, for the first byte [b0] of a sequence of
    three or four bytes: no overlong form, no surrogate, nothing above U+10FFFF. *)
Definition second_ok (b0 b1 : byte) : bool :=
  match b2z b0 with
  | 0xe0 => in_range 0xa0 0xbf b1
  | 0xed => in_range 0x80 0x9f b1
  | 0xf0 => in_range 0x90 0xbf b1
  | 0xf4 => in_range 0x80 0x8f b1
  | _ => cont b1
  end.

Definition RuneError : Z := 0xfffd.

(** The first code point of a non-empty string and its width in bytes;
    [RuneError] and one byte where the string is not valid UTF-8. *)
Definition DecodeRune (b0 : byte) (s : bytes) : Z * nat :=
  if b2z b0 <? 0x80 then (b2z b0, 1%nat)
  else if in_range 0xc2 0xdf b0 then
    match s with
    | b1 :: _ => if cont b1
        then (Z.lor (Z.shiftl (Z.land (b2z b0) 0x1f) 6) (low6 b1), 2%nat)
        else (RuneError, 1%nat)
    | _ => (RuneError, 1%nat)
    end
  else if in_range 0xe0 0xef b0 then
    match s with
    | b1 :: b2 :: _ => if second_ok b0 b1 && cont b2
        then (Z.lor (Z.lor (Z.shiftl (Z.land (b2z b0) 0x0f) 12) (Z.shiftl (low6 b1) 6)) (low6 b2),
              3%nat)
        else (RuneError, 1%nat)
    | _ => (RuneError, 1%nat)
    end
  else if in_range 0xf0 0xf4 b0 then
    match s with
    | b1 :: b2 :: b3 :: _ => if second_ok b0 b1 && cont b2 && cont b3
        then (Z.lor (Z.lor (Z.shiftl (Z.land (b2z b0) 0x07) 18) (Z.shiftl (low6 b1) 12))
                    (Z.lor (Z.shiftl (low6 b2) 6) (low6 b3)), 4%nat)
        else (RuneError, 1%nat)
    | _ => (RuneError, 1%nat)
    end
  else (RuneError, 1%nat).

(** The code points [for _, c := range s] visits.  Every code point takes at
    least one byte, so the length is enough fuel. *)
Fixpoint runes_loop (fuel : nat) (s : bytes) : list Z :=
  match fuel, s with
  | S fuel', b0 :: s' =>
      let '(r, w) := DecodeRune b0 s' in
      r :: runes_loop fuel' (drop (w - 1) s')
  | _, _ => []
  end.
Definition runes (s : bytes) : list Z := runes_loop (length s) s.

Lemma runes_loop_fuel n s : (length s <= n)%nat → runes_loop n s = runes s.
Proof.
  unfold runes. assert (∀ m, (length s <= n)%nat → (length s <= m)%nat →
    runes_loop n s = runes_loop m s) as H; [|by auto].
  revert s. induction n as [|n IH]; intros [|b s] [|m] Hn Hm; cbn in *; try done; [lia..|].
  destruct (DecodeRune b s) as [r w]. f_equal. apply IH; rewrite length_drop; lia.
Qed.

(** The ASCII code points are the bytes themselves, and every byte outside
    ASCII is part of a code point outside ASCII. *)
Lemma DecodeRune_ascii b0 s : b2z b0 < 0x80 → DecodeRune b0 s = (b2z b0, 1%nat).
Proof. intros H. unfold DecodeRune. by rewrite (proj2 (Z.ltb_lt _ _) H). Qed.

(** A boolean fact of all bytes, by computation. *)
Lemma all_bytes (Q : byte → bool) :
  forallb Q (map (λ n, z2b (Z.of_nat n)) (seq 0 256)) = true → ∀ b, Q b = true.
Proof.
  intros H b. rewrite forallb_forall in H. apply H. apply in_map_iff.
  exists (Z.to_nat (b2z b)). pose proof (b2z_range b). rewrite Z2Nat.id by lia. split.
  - apply z2b_b2z.
  - apply in_seq. lia.
Qed.

Lemma lor_ge a b : 0 ≤ a → 0 ≤ b → a ≤ Z.lor a b.
Proof.
  intros Ha Hb. apply Z.ldiff_le; [by apply Z.lor_nonneg|].
  apply Z.bits_inj'. intros i Hi. rewrite Z.ldiff_spec, Z.lor_spec, Z.bits_0.
  by destruct (Z.testbit a i), (Z.testbit b i).
Qed.

Lemma low6_nonneg b : 0 ≤ low6 b.
Proof. apply Z.land_nonneg. right. lia. Qed.

Lemma shiftl_ge a n k : 0 ≤ n → k ≤ a → k * 2 ^ n ≤ Z.shiftl a n.
Proof. intros Hn Hk. rewrite Z.shiftl_mul_pow2 by done. pose proof (Z.pow_pos_nonneg 2 n). nia. Qed.

(** The bits the first byte contributes. *)
Lemma first_byte_2 b : in_range 0xc2 0xdf b = true → 2 ≤ Z.land (b2z b) 0x1f.
Proof.
  intros H. pose proof (all_bytes (λ b, implb (in_range 0xc2 0xdf b) (2 <=? Z.land (b2z b) 0x1f))
    ltac:(vm_compute; reflexivity) b) as Hb. cbv beta in Hb. rewrite H in Hb. by apply Z.leb_le.
Qed.

Lemma first_bytes_3 b b1 :
  in_range 0xe0 0xef b = true → second_ok b b1 = true →
  1 ≤ Z.land (b2z b) 0x0f ∨ 2 ≤ low6 b1.
Proof.
  intros H Hs. destruct (Z.eq_dec (b2z b) 0xe0) as [He|He].
  - right. unfold second_ok in Hs. rewrite He in Hs.
    pose proof (all_bytes (λ b, implb (in_range 0xa0 0xbf b) (2 <=? low6 b))
      ltac:(vm_compute; reflexivity) b1) as Hb. cbv beta in Hb. rewrite Hs in Hb. by apply Z.leb_le.
  - left. pose proof (all_bytes (λ b, implb (in_range 0xe0 0xef b)
      ((b2z b =? 0xe0) || (1 <=? Z.land (b2z b) 0x0f))) ltac:(vm_compute; reflexivity) b) as Hb.
    cbv beta in Hb. rewrite H in Hb. cbn [implb] in Hb.
    apply orb_true_iff in Hb as [Hb%Z.eqb_eq|Hb%Z.leb_le]; done.
Qed.

Lemma first_bytes_4 b b1 :
  in_range 0xf0 0xf4 b = true → second_ok b b1 = true →
  1 ≤ Z.land (b2z b) 0x07 ∨ 2 ≤ low6 b1.
Proof.
  intros H Hs. destruct (Z.eq_dec (b2z b) 0xf0) as [He|He].
  - right. unfold second_ok in Hs. rewrite He in Hs.
    pose proof (all_bytes (λ b, implb (in_range 0x90 0xbf b) (2 <=? low6 b))
      ltac:(vm_compute; reflexivity) b1) as Hb. cbv beta in Hb. rewrite Hs in Hb. by apply Z.leb_le.
  - left. pose proof (all_bytes (λ b, implb (in_range 0xf0 0xf4 b)
      ((b2z b =? 0xf0) || (1 <=? Z.land (b2z b) 0x07))) ltac:(vm_compute; reflexivity) b) as Hb.
    cbv beta in Hb. rewrite H in Hb. cbn [implb] in Hb.
    apply orb_true_iff in Hb as [Hb%Z.eqb_eq|Hb%Z.leb_le]; done.
Qed.

Lemma lor_ge_l a b k : 0 ≤ a → 0 ≤ b → k ≤ a → k ≤ Z.lor a b.
Proof. intros Ha Hb Hk. pose proof (lor_ge a b Ha Hb). lia. Qed.
Lemma lor_ge_r a b k : 0 ≤ a → 0 ≤ b → k ≤ b → k ≤ Z.lor a b.
Proof. rewrite Z.lor_comm. intros. by apply lor_ge_l. Qed.

Lemma DecodeRune_wide b0 s : 0x80 ≤ b2z b0 → 0x80 ≤ (DecodeRune b0 s).1.
Proof.
  intros H. unfold DecodeRune, RuneError. rewrite (proj2 (Z.ltb_ge _ _) H).
  pose proof (λ z, proj2 (Z.land_nonneg (b2z b0) z)) as Hl.
  pose proof low6_nonneg as H6.
  assert (∀ a n, 0 ≤ a → 0 ≤ Z.shiftl a n) as Hs0 by (intros; by apply Z.shiftl_nonneg).
  destruct (in_range 0xc2 0xdf b0) eqn:E2.
  { destruct s as [|b1 s]; [done|]. destruct (cont b1); [|done]. cbn [fst].
    apply lor_ge_l; auto with lia. apply (shiftl_ge _ 6 2); [lia|by apply first_byte_2]. }
  destruct (in_range 0xe0 0xef b0) eqn:E3.
  { destruct s as [|b1 [|b2 s]]; [done..|]. destruct (second_ok b0 b1 && cont b2) eqn:Ec; [|done].
    apply andb_true_iff in Ec as [Ec _]. cbn [fst].
    apply lor_ge_l; [apply Z.lor_nonneg; auto with lia|done|].
    destruct (first_bytes_3 _ _ E3 Ec); [apply lor_ge_l|apply lor_ge_r]; auto with lia.
    - pose proof (shiftl_ge (Z.land (b2z b0) 0x0f) 12 1). lia.
    - pose proof (shiftl_ge (low6 b1) 6 2). lia. }
  destruct (in_range 0xf0 0xf4 b0) eqn:E4; [|done].
  destruct s as [|b1 [|b2 [|b3 s]]]; [done..|].
  destruct (second_ok b0 b1 && cont b2 && cont b3) eqn:Ec; [|done].
  apply andb_true_iff in Ec as [Ec _]. apply andb_true_iff in Ec as [Ec _]. cbn [fst].
  apply lor_ge_l; [apply Z.lor_nonneg; auto with lia|apply Z.lor_nonneg; auto with lia|].
  destruct (first_bytes_4 _ _ E4 Ec); [apply lor_ge_l|apply lor_ge_r]; auto with lia.
  - pose proof (shiftl_ge (Z.land (b2z b0) 0x07) 18 1). lia.
  - pose proof (shiftl_ge (low6 b1) 12 2). lia.
Qed.

(** A test that only ASCII code points pass holds of all code points of a
    string exactly when it holds of all its bytes. *)
Lemma runes_Forall (ok : Z → bool) s :
  (∀ c, 0x80 ≤ c → ok c = false) →
  Forall (λ c, ok c = true) (runes s) ↔ Forall (λ b, ok (b2z b) = true) s.
Proof.
  intros Hok. unfold runes. induction s as [|b s IH]; cbn [length runes_loop]; [done|].
  destruct (Z.lt_ge_cases (b2z b) 0x80) as [Hb|Hb].
  - rewrite DecodeRune_ascii by done. cbn [Nat.sub]. rewrite drop_0, !Forall_cons, IH. done.
  - pose proof (DecodeRune_wide b s Hb) as Hw. destruct (DecodeRune b s) as [r w]. cbn in Hw.
    rewrite !Forall_cons, !Hok by done. naive_solver.
Qed.

(** * Searching, splitting, replacing *)

(** [strings.Contains] *)
Fixpoint Contains (s sub : bytes) : bool :=
  if HasPrefix s sub then true
  else match s with
       | [] => false
       | _ :: s' => Contains s' sub
       end.

(** [sub] occurs in [s]. *)
Definition occurs (sub s : bytes) : Prop := ∃ a b, s = a ++ sub ++ b.

Lemma occurs_cons sub b s : occurs sub (b :: s) ↔ HasPrefix (b :: s) sub = true ∨ occurs sub s.
Proof.
  rewrite HasPrefix_true. split.
  - intros ([|b' x] & y & Hs); [left; by exists y|]. injection Hs as -> ->. right. by exists x, y.
  - intros [[k Hk]|(x & y & ->)]; [by exists [], k|by exists (b :: x), y].
Qed.

Lemma Contains_true s sub : Contains s sub = true ↔ occurs sub s.
Proof.
  induction s as [|b s IH].
  - cbn. destruct (HasPrefix [] sub) eqn:E.
    + apply HasPrefix_true in E as [k Hk]. split; [|done]. intros _. by exists [], k.
    + split; [done|]. intros (x & y & H). exfalso. symmetry in H. apply app_nil in H as [_ [-> _]%app_nil].
      by apply not_true_iff_false in E.
  - rewrite occurs_cons, <- IH. cbn [Contains].
    destruct (HasPrefix (b :: s) sub); naive_solver.
Qed.

(** [strings.Split(s, sep)] for a one-byte separator: the pieces between its
    occurrences, at least one. *)
Fixpoint Split (s : bytes) (sep : byte) : list bytes :=
  match s with
  | [] => [[]]
  | b :: s' =>
      if bool_decide (b = sep) then [] :: Split s' sep
      else match Split s' sep with
           | seg :: segs => (b :: seg) :: segs
           | [] => [[b]]
           end
  end.

(** [strings.ReplaceAll] for a non-empty [old]: the non-overlapping
    occurrences, from the left; every step takes a byte or more. *)
Fixpoint ReplaceAll_loop (fuel : nat) (s old new : bytes) : bytes :=
  match fuel, s with
  | S fuel', b :: s' =>
      if HasPrefix s old then new ++ ReplaceAll_loop fuel' (drop (length old) s) old new
      else b :: ReplaceAll_loop fuel' s' old new
  | _, _ => []
  end.
Definition ReplaceAll (s old new : bytes) : bytes := ReplaceAll_loop (length s) s old new.

Lemma ReplaceAll_loop_fuel n s old new :
  old ≠ [] → (length s <= n)%nat → ReplaceAll_loop n s old new = ReplaceAll s old new.
Proof.
  intros Hold. unfold ReplaceAll. assert (∀ m, (length s <= n)%nat → (length s <= m)%nat →
    ReplaceAll_loop n s old new = ReplaceAll_loop m s old new) as H; [|by auto].
  assert (1 <= length old)%nat by (destruct old; cbn; [done|lia]).
  revert s. induction n as [|n IH]; intros [|b s] [|m] Hn Hm; cbn in *; try done; [lia..|].
  destruct (HasPrefix _ _); f_equal; apply IH; rewrite ?length_drop; cbn; lia.
Qed.

(** Pieces with [sep] between them. *)
Fixpoint glue (sep : bytes) (pieces : list bytes) : bytes :=
  match pieces with
  | [] => []
  | [x] => x
  | x :: pieces' => x ++ sep ++ glue sep pieces'
  end.

Lemma glue_cons sep x y pieces : glue sep (x :: y :: pieces) = x ++ sep ++ glue sep (y :: pieces).
Proof. done. Qed.

(** Every string is cut by the occurrences of a non-empty one. *)
Lemma pieces_exist old s :
  old ≠ [] → ∃ x xs, s = glue old (x :: xs) ∧ Forall (λ x, ¬ occurs old x) (x :: xs).
Proof.
  intros Hold. assert (¬ occurs old []) as Hnil.
  { intros (x & y & H). symmetry in H. by apply app_nil in H as [_ [-> _]%app_nil]. }
  induction s as [s IH] using (induction_ltof1 _ (@length byte)). unfold ltof in IH.
  destruct s as [|b s]; [exists [], []; by repeat constructor|].
  destruct (HasPrefix (b :: s) old) eqn:Hp.
  - apply HasPrefix_true in Hp as [k Hk]. destruct (IH k) as (x & xs & -> & Hx).
    { rewrite Hk, length_app. destruct old; [done|cbn; lia]. }
    exists [], (x :: xs). split; [by rewrite Hk|by constructor].
  - destruct (IH s) as (x & xs & -> & [Hx Hxs]%Forall_cons); [cbn; lia|].
    exists (b :: x), xs. split; [by destruct xs|]. constructor; [|done].
    rewrite occurs_cons. intros [[k Hk]%HasPrefix_true|?]; [|done].
    apply not_true_iff_false in Hp. apply Hp, HasPrefix_true.
    destruct xs as [|y xs]; [by exists k|].
    exists (k ++ old ++ glue old (y :: xs)). rewrite glue_cons, app_comm_cons, Hk.
    by rewrite <- !(assoc_L (++)).
Qed.

(** [ReplaceAll] replaces what is between the pieces, for a string whose first
    byte occurs in it only once, so that no occurrence overlaps another. *)
Section Pieces.
Context (c : byte) (o : bytes) (Hc : c ∉ o).

Lemma prefix_after x rest : HasPrefix (x ++ (c :: o) ++ rest) (c :: o) = true → x = [] ∨ occurs (c :: o) x.
Proof.
  intros [k Hk]%HasPrefix_true. apply app_eq_inv in Hk as [(l & -> & _)|(l & Hl & Hr)].
  - right. exists [], l. done.
  - destruct x as [|b x]; [by left|]. injection Hl as <- Ho.
    destruct l as [|c' l]; [right; exists [], []; subst o; by rewrite !app_nil_r|].
    injection Hr as <- _. exfalso. apply Hc. rewrite Ho. apply elem_of_app. right. by left.
Qed.

Lemma ReplaceAll_cons b s new :
  ReplaceAll (b :: s) (c :: o) new =
    if HasPrefix (b :: s) (c :: o) then new ++ ReplaceAll (drop (length o) s) (c :: o) new
    else b :: ReplaceAll s (c :: o) new.
Proof.
  unfold ReplaceAll at 1. cbn [length ReplaceAll_loop drop].
  destruct (HasPrefix _ _); [|done]. f_equal. apply ReplaceAll_loop_fuel; [done|].
  rewrite length_drop. lia.
Qed.

Lemma ReplaceAll_piece x new : ¬ occurs (c :: o) x → ReplaceAll x (c :: o) new = x.
Proof.
  induction x as [|b x IH]; [done|]. rewrite occurs_cons. intros Hx. rewrite ReplaceAll_cons.
  destruct (HasPrefix (b :: x) (c :: o)); [by destruct Hx; left|]. f_equal. apply IH. tauto.
Qed.

Lemma ReplaceAll_app x rest new :
  ¬ occurs (c :: o) x →
  ReplaceAll (x ++ (c :: o) ++ rest) (c :: o) new = x ++ new ++ ReplaceAll rest (c :: o) new.
Proof.
  induction x as [|b x IH]; intros Hx.
  - cbn [app]. rewrite ReplaceAll_cons, (proj2 (HasPrefix_true _ _)) by (by exists rest).
    by rewrite drop_app_length.
  - rewrite <- app_comm_cons, ReplaceAll_cons.
    destruct (HasPrefix _ _) eqn:Hp.
    + rewrite app_comm_cons in Hp. by apply prefix_after in Hp as [?|?].
    + cbn [app]. f_equal. apply IH. rewrite occurs_cons in Hx. tauto.
Qed.

Lemma ReplaceAll_glue pieces new :
  Forall (λ x, ¬ occurs (c :: o) x) pieces →
  ReplaceAll (glue (c :: o) pieces) (c :: o) new = glue new pieces.
Proof.
  induction 1 as [|x xs Hx _ IH]; [done|]. destruct xs as [|y xs]; [by apply ReplaceAll_piece|].
  by rewrite !glue_cons, ReplaceAll_app, IH.
Qed.

End Pieces.

(** [strings.ToLower] and [strings.TrimSpace] on ASCII.  Outside it they
    depend on the Unicode tables, which are a parameter: the class holds the
    operations and their ASCII behaviour. *)
Definition lower (b : byte) : byte := if in_range 0x41 0x5a b then z2b (b2z b + 32) else b.
Definition is_space (b : byte) : bool :=
  in_range 0x09 0x0d b || (b2z b =? 0x20).
Definition ascii (s : bytes) : Prop := Forall (λ b, b2z b < 0x80) s.

Fixpoint trim_left (s : bytes) : bytes :=
  match s with
  | b :: s' => if is_space b then trim_left s' else s
  | [] => []
  end.
Definition trim (s : bytes) : bytes := rev (trim_left (rev (trim_left s))).

Class Unicode : Type := {
  ToLower : bytes → bytes;
  TrimSpace : bytes → bytes;
  ToLower_ascii s : ascii s → ToLower s = map lower s;
  TrimSpace_ascii s : ascii s → TrimSpace s = trim s;
}.

#[export] Instance ascii_unicode : Unicode := {|
  ToLower := map lower;
  TrimSpace := trim;
  ToLower_ascii _ _ := eq_refl;
  TrimSpace_ascii _ _ := eq_refl;
|}.

(** The pieces are the string: joined with the separator they give it back,
    and none contains the separator. *)
Fixpoint join (sep : byte) (segs : list bytes) : bytes :=
  match segs with
  | [] => []
  | [seg] => seg
  | seg :: segs' => seg ++ sep :: join sep segs'
  end.

Lemma Split_cons s sep : ∃ seg segs, Split s sep = seg :: segs.
Proof.
  induction s as [|b s (seg & segs & IH)]; [by exists [], []|]. cbn. rewrite IH.
  case_bool_decide; eauto.
Qed.

Lemma join_Split s sep : join sep (Split s sep) = s.
Proof.
  induction s as [|b s IH]; [done|]. cbn. destruct (Split_cons s sep) as (seg & segs & Hs).
  rewrite Hs in *. case_bool_decide as Hb; [subst b; cbn [join app]; by f_equal|].
  destruct segs; cbn [join app] in *; by rewrite <- IH.
Qed.

Lemma Split_no_sep s sep : Forall (λ seg, sep ∉ seg) (Split s sep).
Proof.
  induction s as [|b s IH]; cbn; [repeat constructor; set_solver|].
  destruct (Split_cons s sep) as (seg & segs & Hs). rewrite Hs in *.
  case_bool_decide as Hb; [constructor; [set_solver|done]|].
  apply Forall_cons in IH as [Hn IH]. constructor; [|done]. set_solver.
Qed.

(** Splitting is the inverse of joining pieces that do not hold the separator. *)
Lemma Split_app_sep seg s sep : sep ∉ seg → Split (seg ++ sep :: s) sep = seg :: Split s sep.
Proof.
  induction seg as [|b seg IH]; intros Hn; cbn.
  - by rewrite bool_decide_true.
  - rewrite bool_decide_false by set_solver. by rewrite IH by set_solver.
Qed.

Lemma Split_single seg sep : sep ∉ seg → Split seg sep = [seg].
Proof.
  induction seg as [|b seg IH]; intros Hn; [done|]. cbn.
  rewrite bool_decide_false by set_solver. by rewrite IH by set_solver.
Qed.

Lemma Split_join segs sep :
  segs ≠ [] → Forall (λ seg, sep ∉ seg) segs → Split (join sep segs) sep = segs.
Proof.
  intros Hne. induction 1 as [|seg segs Hn Hs IH]; [done|]. destruct segs as [|seg' segs].
  - by apply Split_single.
  - change (join sep (seg :: seg' :: segs)) with (seg ++ sep :: join sep (seg' :: segs)).
    rewrite Split_app_sep by done. by rewrite IH.
Qed.
