(* ===== verification/Stateful.v ===== *)
(** Go methods that change the objects they are given: a computation takes the
    state, and returns an outcome together with the state it leaves, on error
    paths too.  Also the stores into byte slices such methods perform. *)

From S2P Require Import Prelude GoBytes.

(** * Computations on a state *)

Definition M (S A : Type) : Type := S → res A * S.

#[global] Instance M_ret {S} : MRet (M S) := λ A a s, (Ok a, s).
#[global] Instance M_bind {S} : MBind (M S) := λ A B f m s,
  match m s with
  | (Ok a, s') => f a s'
  | (Err e, s') => (Err e, s')
  | (Panic, s') => (Panic, s')
  end.

Section State.
Context {S : Type}.

(** A call that does not touch the state, a read and a write of it. *)
Definition try {A} (r : res A) : M S A := λ s, (r, s).
Definition get : M S S := λ s, (Ok s, s).
Definition modify (f : S → S) : M S unit := λ s, (Ok tt, f s).

End State.

(** A state that holds another one: the object a method is called on, next to
    the slice it writes into. *)
Definition on_fst {S T A} (m : M S A) : M (S * T) A := λ '(s, t),
  let '(r, s') := m s in (r, (s', t)).
Definition on_snd {S T} (f : T → res T) : M (S * T) unit := λ '(s, t),
  match f t with
  | Ok t' => (Ok tt, (s, t'))
  | Err e => (Err e, (s, t))
  | Panic => (Panic, (s, t))
  end.

(** * Equations *)

Lemma M_bind_Ok {S A B} (m : M S A) (f : A → M S B) s s' a :
  m s = (Ok a, s') → (m ≫= f) s = f a s'.
Proof. unfold mbind, M_bind. by intros ->. Qed.

Lemma M_step {S A B} (m : M S A) (f : A → M S B) s s' a r :
  m s = (Ok a, s') → f a s' = r → (m ≫= f) s = r.
Proof. intros H <-. by apply M_bind_Ok. Qed.

Lemma M_bind_Err {S A B} (m : M S A) (f : A → M S B) s s' e :
  m s = (Err e, s') → (m ≫= f) s = (Err e, s').
Proof. unfold mbind, M_bind. by intros ->. Qed.

(** The outcome alone. *)
Lemma M_step_outcome {S A B} (m : M S A) (f : A → M S B) s s' a r :
  m s = (Ok a, s') → (f a s').1 = r → ((m ≫= f) s).1 = r.
Proof. intros H <-. by rewrite (M_bind_Ok _ _ _ _ _ H). Qed.

Lemma M_fail_outcome {S A B} (m : M S A) (f : A → M S B) s e :
  (m s).1 = Err e → ((m ≫= f) s).1 = Err e.
Proof. unfold mbind, M_bind. destruct (m s) as [[] ?]; cbn; congruence. Qed.

Lemma M_bind_assoc {S A B C} (m : M S A) (f : A → M S B) (g : B → M S C) s :
  ((m ≫= f) ≫= g) s = (m ≫= λ a, f a ≫= g) s.
Proof. unfold mbind, M_bind. by destruct (m s) as [[] ?]. Qed.

Lemma on_snd_Ok {S T} (f : T → res T) (s : S) t t' :
  f t = Ok t' → on_snd f (s, t) = (Ok tt, (s, t')).
Proof. unfold on_snd. by intros ->. Qed.

Lemma on_fst_Ok {S T A} (m : M S A) s s' a (t : T) :
  m s = (Ok a, s') → on_fst m (s, t) = (Ok a, (s', t)).
Proof. unfold on_fst. by intros ->. Qed.

Lemma try_Ok {S A} (r : res A) a (s : S) : r = Ok a → try r s = (Ok a, s).
Proof. by intros ->. Qed.

(** ** Outcomes *)

(** From a state where [Pre] holds, the computation returns with [Post], or
    fails with one of the errors [es]; it does not panic. *)
Definition triple {S A} (Pre : S → Prop) (m : M S A) (es : list error)
    (Post : A → S → Prop) : Prop :=
  ∀ s, Pre s →
    match m s with
    | (Ok a, s') => Post a s'
    | (Err e, _) => e ∈ es
    | (Panic, _) => False
    end.

(** One rule per kind of call at the head of a computation. *)
Section Triple.
Context {S A : Type} (Pre : S → Prop) (es : list error) (Post : A → S → Prop).

Lemma triple_try {B} (r : res B) f :
  match r with Ok b => triple Pre (f b) es Post | Err e => e ∈ es | Panic => False end →
  triple Pre (try r ≫= f) es Post.
Proof. intros H s Hs. destruct r; [by apply H|done..]. Qed.

Lemma triple_check c e f :
  e ∈ es → (c = false → triple Pre (f tt) es Post) →
  triple Pre (try (fail_if c e) ≫= f) es Post.
Proof. intros He Hf. apply triple_try. destruct c; [done|by apply Hf]. Qed.

Lemma triple_get f : (∀ a, triple Pre (f a) es Post) → triple Pre (get ≫= f) es Post.
Proof. intros H s Hs. by apply (H s). Qed.

Lemma triple_bind {B} (Mid : S → Prop) (m : M S B) f :
  triple Pre m es (λ _, Mid) → (∀ b, triple Mid (f b) es Post) → triple Pre (m ≫= f) es Post.
Proof.
  intros Hm Hf s Hs. specialize (Hm s Hs). unfold mbind, M_bind.
  destruct (m s) as [[b|e|] s']; [by apply (Hf b)|done..].
Qed.

Lemma triple_ret a : (∀ s, Pre s → Post a s) → triple Pre (mret a) es Post.
Proof. intros H s Hs. by apply H. Qed.

Lemma triple_modify (Mid : S → Prop) g f :
  (∀ s, Pre s → Mid (g s)) → triple Mid (f tt) es Post → triple Pre (modify g ≫= f) es Post.
Proof. intros Hg Hf s Hs. by apply Hf, Hg. Qed.

End Triple.

(** * Stores into a slice *)

(** [copy(out[off:], src)] *)
Definition copy_to (off : Z) (src out : bytes) : res bytes :=
  if bool_decide (0 ≤ off ≤ len out) then Ok (copy_at out (Z.to_nat off) src) else Panic.

(** [binary.BigEndian.PutUint32(out[off:], v)] and [PutUint64], with [src] the
    bytes of [v]: they need all of them to fit. *)
Definition put_at (off : Z) (src out : bytes) : res bytes :=
  if bool_decide (0 ≤ off ∧ off + len src ≤ len out)
  then Ok (copy_at out (Z.to_nat off) src) else Panic.

(** [out[i] = b] *)
Definition store (i : Z) (b : byte) (out : bytes) : res bytes :=
  if bool_decide (0 ≤ i < len out) then Ok (copy_at out (Z.to_nat i) [b]) else Panic.

Lemma copy_at_app pre x post src n :
  n = length pre → length x = length src → copy_at (pre ++ x ++ post) n src = pre ++ src ++ post.
Proof.
  intros -> Hl. unfold copy_at. rewrite take_app_length, !length_app.
  rewrite (take_ge src) by lia. f_equal. f_equal.
  rewrite (assoc_L (++)), drop_app_exact; [done|]. rewrite length_app. lia.
Qed.

Lemma copy_to_Ok off src out :
  0 ≤ off ≤ len out → copy_to off src out = Ok (copy_at out (Z.to_nat off) src).
Proof. intros H. unfold copy_to. by rewrite bool_decide_true. Qed.

Lemma copy_to_app off pre x post src :
  off = len pre → length x = length src →
  copy_to off src (pre ++ x ++ post) = Ok (pre ++ src ++ post).
Proof.
  intros -> Hl. unfold copy_to. rewrite bool_decide_true by (rewrite length_app; lia).
  by rewrite copy_at_app by lia.
Qed.

Lemma put_at_app off pre x post src :
  off = len pre → length x = length src →
  put_at off src (pre ++ x ++ post) = Ok (pre ++ src ++ post).
Proof.
  intros -> Hl. unfold put_at. rewrite bool_decide_true by (rewrite !length_app; lia).
  by rewrite copy_at_app by lia.
Qed.

Lemma store_app i pre x post b :
  i = len pre → length x = 1%nat → store i b (pre ++ x ++ post) = Ok (pre ++ [b] ++ post).
Proof.
  intros -> Hl. unfold store. rewrite bool_decide_true by (rewrite !length_app, Hl; lia).
  by rewrite copy_at_app by (cbn; lia).
Qed.

(** [copy(arr[:], src)] into an array that [src] fills. *)
Lemma copy_at_fill dst src : length src = length dst → copy_at dst 0 src = src.
Proof.
  intros Hl. unfold copy_at. rewrite take_0, (take_ge src), drop_ge by lia.
  apply app_nil_r.
Qed.

(** Stores keep the length of what they write into. *)
Lemma length_copy_at dst n src : (n ≤ length dst)%nat → length (copy_at dst n src) = length dst.
Proof.
  intros H. unfold copy_at. rewrite !length_app, !length_take, length_drop. lia.
Qed.

(** * Buffers as a list of segments *)

Lemma concat_update {A} (segs : list (list A)) i x src :
  segs !! i = Some x →
  concat segs = concat (take i segs) ++ x ++ concat (drop (S i) segs) ∧
  concat (<[i := src]> segs) = concat (take i segs) ++ src ++ concat (drop (S i) segs).
Proof.
  intros Hx. pose proof (lookup_lt_Some _ _ _ Hx) as Hi. split.
  - rewrite <- (take_drop_middle segs i x Hx) at 1. by rewrite concat_app.
  - by rewrite insert_take_drop, concat_app by done.
Qed.

(** The three stores, on the segment with index [i]. *)
Lemma copy_to_seg segs i off x src :
  segs !! i = Some x → length x = length src → off = len (concat (take i segs)) →
  copy_to off src (concat segs) = Ok (concat (<[i := src]> segs)).
Proof.
  intros Hx Hl ->. destruct (concat_update segs i x src Hx) as [-> ->]. by apply copy_to_app.
Qed.

Lemma put_at_seg segs i off x src :
  segs !! i = Some x → length x = length src → off = len (concat (take i segs)) →
  put_at off src (concat segs) = Ok (concat (<[i := src]> segs)).
Proof.
  intros Hx Hl ->. destruct (concat_update segs i x src Hx) as [-> ->]. by apply put_at_app.
Qed.

Lemma store_seg segs i off x b :
  segs !! i = Some x → length x = 1%nat → off = len (concat (take i segs)) →
  store off b (concat segs) = Ok (concat (<[i := [b]]> segs)).
Proof.
  intros Hx Hl ->. destruct (concat_update segs i x [b] Hx) as [-> ->]. by apply store_app.
Qed.

(** A slice that starts and ends at segment boundaries. *)
Lemma slice_segs segs a n i j :
  i = len (concat (take a segs)) → j = i + len (concat (take n (drop a segs))) →
  slice (concat segs) i j = Ok (concat (take n (drop a segs))).
Proof.
  intros -> ->.
  assert (concat segs = concat (take a segs) ++ concat (take n (drop a segs)) ++
                        concat (drop n (drop a segs))) as ->.
  { rewrite <- !concat_app. by rewrite !take_drop. }
  by apply slice_app.
Qed.

(** One segment. *)
Lemma slice_seg segs k i j x :
  segs !! k = Some x → i = len (concat (take k segs)) → j = i + len x →
  slice (concat segs) i j = Ok x.
Proof.
  intros Hx -> ->. destruct (concat_update segs k x [] Hx) as [-> _]. by apply slice_app.
Qed.

(** Cut a prefix of a given length off a list. *)
Lemma cut {A} n (l : list A) :
  (n ≤ length l)%nat → ∃ x k, l = x ++ k ∧ length x = n.
Proof.
  intros H. exists (take n l), (drop n l). rewrite take_drop, length_take. split; [done|lia].
Qed.

(** Any buffer is a list of segments of the lengths [ns], and a rest. *)
Lemma segments {A} (ns : list nat) (l : list A) :
  (sum_list ns ≤ length l)%nat →
  ∃ segs rest, l = concat (segs ++ [rest]) ∧ Forall2 (λ n x, length x = n) ns segs.
Proof.
  revert l. induction ns as [|n ns IH]; intros l Hl; cbn in Hl.
  - exists [], l. cbn. by rewrite app_nil_r.
  - destruct (cut n l) as (x & k & -> & Hx); [lia|]. rewrite length_app in Hl.
    destruct (IH k) as (segs & rest & -> & Hs); [lia|].
    exists (x :: segs), rest. split; [done|]. by constructor.
Qed.
