(* ===== verification/Crypto.v ===== *)
(** The cryptographic operations of [wire/crypto.go].

    Ed25519, BLAKE2s, X25519 and ChaCha20-Poly1305 are not code of the
    repository: their operations are the class [Primitives], a parameter of
    every definition that uses them, and what the code relies on (lengths,
    correctness of signing, of sealing, and of key agreement) is the class
    [PrimitivesLaws]. *)

From S2P Require Import Prelude GoBytes.

(** * The primitives *)

Class Primitives : Type := {
  (** crypto/ed25519, on keys and seeds of the documented length *)
  prim_key_from_seed : bytes → bytes;
  prim_public : bytes → bytes;
  prim_sign : bytes → bytes → bytes;
  prim_verify : bytes → bytes → bytes → bool;
  (** golang.org/x/crypto/blake2s: unkeyed 256-bit, keyed 128-bit *)
  prim_sum256 : bytes → bytes;
  prim_mac128 : bytes → bytes → bytes;
  (** golang.org/x/crypto/curve25519: scalar, point *)
  prim_x25519 : bytes → bytes → option bytes;
  prim_basepoint : bytes;
  (** golang.org/x/crypto/chacha20poly1305: key, nonce, text, additional data *)
  prim_seal : bytes → bytes → bytes → bytes → bytes;
  prim_open : bytes → bytes → bytes → bytes → option bytes;
}.

Class PrimitivesLaws {P : Primitives} : Prop := {
  length_key_from_seed seed :
    length seed = 32%nat → length (prim_key_from_seed seed) = 64%nat;
  length_public priv : length priv = 64%nat → length (prim_public priv) = 32%nat;
  length_sign priv msg : length (prim_sign priv msg) = 64%nat;
  verify_sign seed msg :
    length seed = 32%nat →
    let priv := prim_key_from_seed seed in
    prim_verify (prim_public priv) msg (prim_sign priv msg) = true;
  length_sum256 data : length (prim_sum256 data) = 32%nat;
  length_mac128 key data : length (prim_mac128 key data) = 16%nat;
  length_x25519 k p r :
    length k = 32%nat → length p = 32%nat → prim_x25519 k p = Some r → length r = 32%nat;
  length_basepoint : length prim_basepoint = 32%nat;
  x25519_agree a b pa pb :
    length a = 32%nat → length b = 32%nat →
    prim_x25519 a prim_basepoint = Some pa → prim_x25519 b prim_basepoint = Some pb →
    prim_x25519 a pb = prim_x25519 b pa;
  length_seal key nonce pt ad :
    length (prim_seal key nonce pt ad) = (length pt + 16)%nat;
  open_seal key nonce pt ad :
    prim_open key nonce (prim_seal key nonce pt ad) ad = Some pt;
}.

Section Crypto.
Context `{P : Primitives}.

(** crypto/ed25519 as the code calls it: keys, seeds of another length panic. *)
Definition ed25519_SeedSize : Z := 32.
Definition ed25519_PublicKeySize : Z := 32.
Definition ed25519_PrivateKeySize : Z := 64.
Definition ed25519_SignatureSize : Z := 64.

Definition ed25519_NewKeyFromSeed (seed : bytes) : res bytes :=
  if len seed =? ed25519_SeedSize then Ok (prim_key_from_seed seed) else Panic.
Definition ed25519_Sign (priv msg : bytes) : res bytes :=
  if len priv =? ed25519_PrivateKeySize then Ok (prim_sign priv msg) else Panic.
Definition ed25519_Verify (pub msg sig : bytes) : res bool :=
  if len pub =? ed25519_PublicKeySize then Ok (prim_verify pub msg sig) else Panic.

(** * Domain tags *)

Definition DomainCert : byte := x01.
Definition DomainEnvelope : byte := x02.
Definition DomainSpan : byte := x03.
Definition DomainGrant : byte := x04.
Definition DomainBinding : byte := x05.
Definition DomainRefusal : byte := x06.
Definition DomainRelayReg : byte := x07.
Definition DomainResourceSet : byte := x08.

Definition ErrMalformedKey : error := errors_New "wire: malformed public key".
Definition ErrBadSignature : error := errors_New "wire: signature verification failed".

(** * Signatures *)

Definition VerifySigned (tag : byte) (tbs sig pubkey : bytes) : res unit :=
  fail_if (negb (len pubkey =? ed25519_PublicKeySize)) ErrMalformedKey;;
  fail_if (negb (len sig =? ed25519_SignatureSize)) ErrBadSignature;;
  let msg := tag :: tbs in
  ok ← ed25519_Verify pubkey msg sig;
  fail_if (negb ok) ErrBadSignature.

Definition SignTagged (tag : byte) (tbs priv : bytes) : res bytes :=
  let msg := tag :: tbs in
  ed25519_Sign priv msg.

Definition SignTaggedSeed (tag : byte) (tbs seed : bytes) : res bytes :=
  priv ← ed25519_NewKeyFromSeed seed;
  SignTagged tag tbs priv.

(** * Hashes *)

Definition Blake2s256 (data : bytes) : bytes := prim_sum256 data.

(** [0xfd || h[:15]] *)
Definition OverlayAddr (sigPubkey : bytes) : bytes :=
  let h := prim_sum256 sigPubkey in
  copy_at (xfd :: replicate 15 x00) 1 (take 15 h).

Definition Fingerprint (sigPubkey : bytes) : bytes :=
  let h := prim_sum256 sigPubkey in
  hex_EncodeToString (take 8 h).

(** * What they guarantee *)

(** [sig] is a signature of [tbs] under [tag] by the key [pub]. *)
Record signed_by (tag : byte) (tbs sig pub : bytes) : Prop := {
  signed_pub : len pub = 32;
  signed_sig : len sig = 64;
  signed_ok : prim_verify pub (tag :: tbs) sig = true;
}.

Lemma VerifySigned_Ok tag tbs sig pub u :
  VerifySigned tag tbs sig pub = Ok u ↔ signed_by tag tbs sig pub.
Proof.
  unfold VerifySigned, ed25519_Verify, ed25519_PublicKeySize, ed25519_SignatureSize.
  destruct u. split.
  - destruct (len pub =? 32) eqn:Hp; [|done]. destruct (len sig =? 64) eqn:Hs; [|done].
    cbn. destruct (prim_verify _ _ _) eqn:Hv; [|done]. intros _. split; [lia..|done].
  - intros [Hp Hs Hv]. rewrite Hp, Hs; cbn. by rewrite Hv.
Qed.

Lemma VerifySigned_not_Panic tag tbs sig pub : VerifySigned tag tbs sig pub ≠ Panic.
Proof.
  unfold VerifySigned, ed25519_Verify.
  destruct (len pub =? _) eqn:Hp; [|done]. destruct (len sig =? _) eqn:Hs; [|done].
  cbn. by destruct (prim_verify _ _ _).
Qed.

#[global] Instance signed_by_dec tag tbs sig pub : Decision (signed_by tag tbs sig pub).
Proof.
  destruct (VerifySigned tag tbs sig pub) as [u|e|] eqn:E.
  - left. by eapply VerifySigned_Ok.
  - right. intros H%(VerifySigned_Ok _ _ _ _ tt). by rewrite E in H.
  - right. intros H%(VerifySigned_Ok _ _ _ _ tt). by rewrite E in H.
Defined.

Lemma NewKeyFromSeed_Ok seed :
  length seed = 32%nat → ed25519_NewKeyFromSeed seed = Ok (prim_key_from_seed seed).
Proof. intros H. unfold ed25519_NewKeyFromSeed. by rewrite H. Qed.

Lemma Sign_Ok priv msg :
  length priv = 64%nat → ed25519_Sign priv msg = Ok (prim_sign priv msg).
Proof. intros H. unfold ed25519_Sign. by rewrite H. Qed.

Context {L : PrimitivesLaws}.

Lemma SignTaggedSeed_signed tag tbs seed :
  length seed = 32%nat →
  ∃ sig, SignTaggedSeed tag tbs seed = Ok sig ∧
         signed_by tag tbs sig (prim_public (prim_key_from_seed seed)).
Proof.
  intros Hs. exists (prim_sign (prim_key_from_seed seed) (tag :: tbs)).
  unfold SignTaggedSeed, SignTagged. rewrite NewKeyFromSeed_Ok by done. cbn.
  rewrite Sign_Ok by (by apply length_key_from_seed).
  split; [done|]. split.
  - by rewrite length_public by (by apply length_key_from_seed).
  - by rewrite length_sign.
  - by apply verify_sign.
Qed.

Lemma length_Fingerprint pub : length (Fingerprint pub) = 16%nat.
Proof.
  unfold Fingerprint. rewrite length_hex, length_take, length_sum256. lia.
Qed.

Lemma OverlayAddr_eq pub : OverlayAddr pub = xfd :: take 15 (Blake2s256 pub).
Proof.
  unfold OverlayAddr, Blake2s256, copy_at. cbn [take app length replicate].
  pose proof (length_sum256 pub) as Hl. generalize dependent (prim_sum256 pub).
  intros h Hl. rewrite length_take, Hl. cbn. rewrite app_nil_r, take_take. done.
Qed.

End Crypto.

#[export] Hint Resolve VerifySigned_not_Panic : nopanic.
