(* ===== verification/Toy.v ===== *)
(** Concrete primitives that satisfy [PrimitivesLaws]: they show the laws are
    consistent, and let witnesses run the model.  They are not secure. *)

From S2P Require Import Prelude GoBytes Crypto.

Module toy.

(** A 32-byte checksum of a byte string. *)
Definition mask : Z := 18446744073709551615.
Definition spread : Z :=
  95324586135460182357981163087235687165324586135460182357981163087235687165.
Definition sum256 (data : bytes) : bytes :=
  be 32 (fold_left (λ acc b, Z.land (acc * 65599 + b2z b + 1) mask) data 7 * spread).

Definition public (priv : bytes) : bytes := take 32 (drop 32 priv).
Definition key_from_seed (seed : bytes) : bytes :=
  seed ++ map (λ b, z2b (Z.lxor (b2z b) 90)) seed.
Definition tag_of (pub msg : bytes) : bytes := sum256 (pub ++ msg) ++ sum256 (msg ++ pub).
Definition sign (priv msg : bytes) : bytes := tag_of (public priv) msg.
Definition verify (pub msg sig : bytes) : bool := bool_decide (sig = tag_of pub msg).

Definition mac128 (key data : bytes) : bytes := take 16 (sum256 (key ++ data)).

Definition xor (a b : bytes) : bytes := zip_with (λ x y, z2b (Z.lxor (b2z x) (b2z y))) a b.
Definition basepoint : bytes := x09 :: replicate 31 x00.
Definition x25519 (k p : bytes) : option bytes :=
  let r := xor k p in
  if bool_decide (r = replicate 32 x00) then None else Some r.

Definition seal (key nonce pt ad : bytes) : bytes :=
  pt ++ mac128 (key ++ nonce) (ad ++ pt).
Definition open (key nonce ct ad : bytes) : option bytes :=
  let pt := take (length ct - 16) ct in
  if bool_decide (ct = seal key nonce pt ad) then Some pt else None.

End toy.

#[export] Instance toy_primitives : Primitives := {|
  prim_key_from_seed := toy.key_from_seed;
  prim_public := toy.public;
  prim_sign := toy.sign;
  prim_verify := toy.verify;
  prim_sum256 := toy.sum256;
  prim_mac128 := toy.mac128;
  prim_x25519 := toy.x25519;
  prim_basepoint := toy.basepoint;
  prim_seal := toy.seal;
  prim_open := toy.open;
|}.

Lemma toy_length_xor a b : length a = length b → length (toy.xor a b) = length a.
Proof. intros H. unfold toy.xor. rewrite length_zip_with. lia. Qed.

Lemma lxor_byte_range x y : 0 ≤ Z.lxor (b2z x) (b2z y) < 256.
Proof.
  pose proof (b2z_range x) as Hx. pose proof (b2z_range y) as Hy.
  assert (0 ≤ Z.lxor (b2z x) (b2z y)) as H0 by (apply Z.lxor_nonneg; lia).
  split; [done|]. destruct (decide (Z.lxor (b2z x) (b2z y) = 0)) as [->|Hn]; [lia|].
  apply (Z.log2_lt_pow2 _ 8); [lia|].
  assert (∀ b, Z.log2 (b2z b) < 8) as Hl.
  { intros b. pose proof (b2z_range b). destruct (decide (b2z b = 0)) as [->|]; [done|].
    apply Z.log2_lt_pow2; lia. }
  pose proof (Z.log2_lxor (b2z x) (b2z y)). pose proof (Hl x). pose proof (Hl y). lia.
Qed.

Lemma b2z_xor_byte x y : b2z (z2b (Z.lxor (b2z x) (b2z y))) = Z.lxor (b2z x) (b2z y).
Proof. rewrite b2z_z2b. apply Z.mod_small, lxor_byte_range. Qed.

Lemma toy_xor_agree a b g :
  length a = length b → length g = length a →
  toy.xor a (toy.xor b g) = toy.xor b (toy.xor a g).
Proof.
  unfold toy.xor. revert b g. induction a as [|x a IH]; intros [|y b] [|z g]; try done.
  intros [= Hl] [= Hg]. cbn. f_equal; [|by apply IH].
  f_equal. rewrite !b2z_xor_byte, <- !Z.lxor_assoc. f_equal. apply Z.lxor_comm.
Qed.

Lemma toy_x25519_Some k p r : toy.x25519 k p = Some r → r = toy.xor k p.
Proof. unfold toy.x25519. case_bool_decide; [done|]. by intros [= <-]. Qed.

#[export] Instance toy_laws : PrimitivesLaws.
Proof.
  split; cbn.
  - intros seed H. unfold toy.key_from_seed. rewrite length_app, length_map. lia.
  - intros priv H. unfold toy.public. rewrite length_take, length_drop. lia.
  - intros. unfold toy.sign, toy.tag_of, toy.sum256. by rewrite length_app, !length_be.
  - intros seed msg H. unfold toy.verify, toy.sign. by apply bool_decide_eq_true.
  - intros. apply length_be.
  - intros. unfold toy.mac128, toy.sum256. rewrite length_take, length_be. lia.
  - intros k p r Hk Hp ->%toy_x25519_Some. rewrite toy_length_xor; congruence.
  - done.
  - intros a b pa pb Ha Hb ->%toy_x25519_Some ->%toy_x25519_Some.
    unfold toy.x25519. rewrite toy_xor_agree; [done|congruence|by rewrite Ha].
  - intros. unfold toy.seal, toy.mac128, toy.sum256.
    rewrite length_app, length_take, length_be. lia.
  - intros. unfold toy.open.
    assert (take (length (toy.seal key nonce pt ad) - 16) (toy.seal key nonce pt ad) = pt) as ->.
    { unfold toy.seal. apply take_app_exact. unfold toy.mac128, toy.sum256.
      rewrite length_app, length_take, length_be. lia. }
    by rewrite bool_decide_true.
Qed.
