(* ===== verification/Span.v ===== *)
(** Spans: the parser of [wire/span.go] and the encoder of [wire/encode.go]. *)

From S2P Require Import Prelude GoBytes Cursor Crypto Toy.

Definition LenPubkey : Z := 32.
Definition LenSpanID : Z := 16.
Definition LenTraceID : Z := 16.
Definition MaxResource : Z := 256.
Definition LenOrigin : Z := 32.
Definition LenDigest : Z := 32.
Definition LenSig : Z := 64.

Definition VolatilityVolatile : byte := x01.
Definition VolatilityStable : byte := x02.

Definition ErrFieldBounds : error := errors_New "wire: field exceeds declared bound".

(** * Data *)

Record Span : Type := mk_Span {
  sp_Version : byte;
  sp_SpanID : bytes;
  sp_TraceID : bytes;
  sp_ResourceID : bytes;
  sp_MethodID : byte;
  sp_Volatility : byte;
  sp_Origin : bytes;
  sp_ObservedAt : Z;
  sp_Digest : bytes;
  sp_Executor : bytes;
  sp_TBS : bytes;
  sp_Sig : bytes;
}.

Record SpanFields : Type := mk_SpanFields {
  sf_Version : byte;
  sf_SpanID : bytes;
  sf_TraceID : bytes;
  sf_ResourceID : bytes;
  sf_MethodID : byte;
  sf_Volatility : byte;
  sf_Origin : bytes;
  sf_ObservedAt : Z;
  sf_Digest : bytes;
  sf_Executor : bytes;
}.

(** What Go's types [[16]byte], [[32]byte] and [uint64] guarantee. *)
Record SpanFields_wf (f : SpanFields) : Prop := {
  wf_SpanID : len (sf_SpanID f) = LenSpanID;
  wf_TraceID : len (sf_TraceID f) = LenTraceID;
  wf_Origin : len (sf_Origin f) = LenOrigin;
  wf_ObservedAt : in_u64 (sf_ObservedAt f);
  wf_Digest : len (sf_Digest f) = LenDigest;
  wf_Executor : len (sf_Executor f) = LenPubkey;
}.

(** * Operations *)

Definition readSpan : Cur Span :=
  start ← get_pos;
  version ← cur.u8;
  spanID ← cur.take LenSpanID;
  traceID ← cur.take LenTraceID;
  resourceID ← cur.field16 MaxResource;
  methodID ← cur.u8;
  volatility ← cur.u8;
  origin ← cur.take LenOrigin;
  observedAt ← cur.u64be;
  digest ← cur.take LenDigest;
  executor ← cur.take LenPubkey;
  tbs ← slice_from start;
  sig ← cur.take LenSig;
  mret (mk_Span version spanID traceID resourceID methodID volatility origin
          observedAt digest executor tbs sig).

Definition ParseSpan (buf : bytes) : res Span :=
  cur.run (s ← readSpan; cur.at_end;; mret s) buf.

Definition EncodeSpanTBS (f : SpanFields) : res bytes :=
  fail_if (len (sf_ResourceID f) >? MaxResource) ErrFieldBounds;;
  let out := [] ++ [sf_Version f] in
  let out := out ++ sf_SpanID f in
  let out := out ++ sf_TraceID f in
  let out := AppendUint16 out (u16 (len (sf_ResourceID f))) in
  let out := out ++ sf_ResourceID f in
  let out := out ++ [sf_MethodID f; sf_Volatility f] in
  let out := out ++ sf_Origin f in
  let out := AppendUint64 out (sf_ObservedAt f) in
  let out := out ++ sf_Digest f in
  let out := out ++ sf_Executor f in
  mret out.

Section Sign.
Context `{P : Primitives}.

Definition BuildSpan (f : SpanFields) (priv : bytes) : res bytes :=
  tbs ← EncodeSpanTBS f;
  sig ← SignTagged DomainSpan tbs priv;
  mret (tbs ++ sig).

Definition Span_VerifySig (s : Span) : res unit :=
  VerifySigned DomainSpan (sp_TBS s) (sp_Sig s) (sp_Executor s).

End Sign.

(** * The format *)

(** The span with the fields [f], signed part [tbs] and signature [sig]. *)
Definition span_of (f : SpanFields) (tbs sig : bytes) : Span :=
  mk_Span (sf_Version f) (sf_SpanID f) (sf_TraceID f) (sf_ResourceID f) (sf_MethodID f)
    (sf_Volatility f) (sf_Origin f) (sf_ObservedAt f) (sf_Digest f) (sf_Executor f) tbs sig.

(** A span's bytes are what the encoder writes for its fields, and 64 bytes
    of signature. *)
Definition span_format (s : Span) (b : bytes) : Prop :=
  ∃ f tbs sig, SpanFields_wf f ∧ EncodeSpanTBS f = Ok tbs ∧ len sig = LenSig ∧
    s = span_of f tbs sig ∧ b = tbs ++ sig.

Lemma EncodeSpanTBS_Ok f tbs :
  EncodeSpanTBS f = Ok tbs ↔
  len (sf_ResourceID f) ≤ MaxResource ∧
  tbs = [sf_Version f] ++ sf_SpanID f ++ sf_TraceID f ++
        be 2 (len (sf_ResourceID f)) ++ sf_ResourceID f ++
        [sf_MethodID f] ++ [sf_Volatility f] ++ sf_Origin f ++ be 8 (sf_ObservedAt f) ++
        sf_Digest f ++ sf_Executor f.
Proof.
  unfold EncodeSpanTBS, AppendUint16, AppendUint64.
  rewrite fail_if_bind_Ok, gtb_false.
  assert (len (sf_ResourceID f) ≤ MaxResource →
          u16 (len (sf_ResourceID f)) = len (sf_ResourceID f)) as Hu.
  { intros. apply Z.mod_small. unfold MaxResource in *. lia. }
  rewrite <- ?(assoc_L (++)). cbn [app]. split.
  - intros (Hb & [= <-]). by rewrite Hu.
  - intros [Hb ->]. by rewrite Hu.
Qed.

Lemma Reads_readSpan pre : Reads pre readSpan span_format.
Proof.
  eapply Reads_iff; cycle 1.
  - unfold readSpan. reads.
  - intros s b. cbv beta. split.
    + intros H. unpack. subst.
      eexists (mk_SpanFields _ _ _ _ _ _ _ _ _ _), _, _. rewrite EncodeSpanTBS_Ok.
      split_and!; [|cbn; eassumption|reflexivity| |reflexivity|]; [by split|done|].
      cbn [sf_Version sf_SpanID sf_TraceID sf_ResourceID sf_MethodID sf_Volatility sf_Origin
        sf_ObservedAt sf_Digest sf_Executor]. app_eq.
    + intros (f & tbs & sig & [] & [Hr ->]%EncodeSpanTBS_Ok & Hs & -> & ->).
      repack. all: try reflexivity. all: try eassumption. app_eq.
Qed.

#[global] Instance ParseSpan_codec : Codec ParseSpan span_format.
Proof.
  apply Codec_run. eapply Accepts_iff; cycle 1.
  - eapply Accepts_bind; [apply Reads_readSpan|intros; apply Accepts_end].
  - intros s b. cbv beta. split.
    + intros H. unpack. subst. by rewrite app_nil_r.
    + intros H. repack; [done..|]. by rewrite app_nil_r.
Qed.

(** * Properties *)

(** [C18] [ParseSpan] accepts exactly the byte strings made of what
    [EncodeSpanTBS] writes for some fields and a 64-byte signature, and
    returns those fields, the signed bytes and the signature: parser and
    encoder are inverse to each other. *)
Theorem ParseSpan_exact buf s :
  ParseSpan buf = Ok s ↔
  ∃ f tbs sig, SpanFields_wf f ∧ EncodeSpanTBS f = Ok tbs ∧ len sig = LenSig ∧
    s = span_of f tbs sig ∧ buf = tbs ++ sig.
Proof. exact (codec_exact (F := span_format) buf s). Qed.

(** Two field lists with the same to-be-signed bytes are the same. *)
Lemma EncodeSpanTBS_inj f g tbs :
  SpanFields_wf f → SpanFields_wf g →
  EncodeSpanTBS f = Ok tbs → EncodeSpanTBS g = Ok tbs → f = g.
Proof.
  intros Hf Hg Ef Eg. set (sig := replicate 64 x00).
  assert (span_of f tbs sig = span_of g tbs sig) as H.
  { apply (codec_functional (parse := ParseSpan) (F := span_format) _ _ (tbs ++ sig)).
    - by exists f, tbs, sig.
    - by exists g, tbs, sig. }
  destruct f, g. cbn in H. by injection H as -> -> -> -> -> -> -> -> -> ->.
Qed.

Section Roundtrip.
Context `{P : Primitives}.

Lemma BuildSpan_Ok f priv receipt :
  length priv = 64%nat →
  BuildSpan f priv = Ok receipt ↔
  ∃ tbs, EncodeSpanTBS f = Ok tbs ∧ receipt = tbs ++ prim_sign priv (DomainSpan :: tbs).
Proof.
  intros Hp. unfold BuildSpan, SignTagged. rewrite bind_Ok.
  split; intros (tbs & Ht & H); exists tbs; (split; [done|]).
  - rewrite Sign_Ok in H by done. by injection H as <-.
  - rewrite Sign_Ok by done. by rewrite H.
Qed.

Context {L : PrimitivesLaws}.

(** What [BuildSpan] returns for the private key of the executor. *)
Lemma BuildSpan_parses f seed receipt :
  SpanFields_wf f → length seed = 32%nat →
  sf_Executor f = prim_public (prim_key_from_seed seed) →
  BuildSpan f (prim_key_from_seed seed) = Ok receipt →
  ∃ tbs sig, EncodeSpanTBS f = Ok tbs ∧ ParseSpan receipt = Ok (span_of f tbs sig) ∧
    Span_VerifySig (span_of f tbs sig) = Ok tt.
Proof.
  intros Hf Hs Hx Hb.
  assert (length (prim_key_from_seed seed) = 64%nat) as Hk by (by apply length_key_from_seed).
  apply BuildSpan_Ok in Hb as (tbs & Ht & ->); [|done].
  set (sig := prim_sign (prim_key_from_seed seed) (DomainSpan :: tbs)).
  exists tbs, sig. split_and!; [done| |].
  - apply (codec_exact (F := span_format)). exists f, tbs, sig. split_and!; try done.
    unfold sig. by rewrite length_sign.
  - apply VerifySigned_Ok. cbn. rewrite Hx. split.
    + by rewrite length_public.
    + unfold sig. by rewrite length_sign.
    + by apply verify_sign.
Qed.

(** [C17] A span built by [BuildSpan] with the private key of its executor
    parses back to the fields it was built from, and its signature verifies. *)
Theorem BuildSpan_roundtrip f seed :
  SpanFields_wf f →
  len (sf_ResourceID f) ≤ MaxResource →
  len seed = ed25519_SeedSize →
  sf_Executor f = prim_public (prim_key_from_seed seed) →
  ∃ receipt tbs sig,
    BuildSpan f (prim_key_from_seed seed) = Ok receipt ∧
    ParseSpan receipt = Ok (span_of f tbs sig) ∧
    EncodeSpanTBS f = Ok tbs ∧
    Span_VerifySig (span_of f tbs sig) = Ok tt.
Proof.
  intros Hf Hr Hs Hx.
  assert (length seed = 32%nat) as Hs' by (unfold ed25519_SeedSize in Hs; lia).
  destruct (EncodeSpanTBS f) as [tbs|e|] eqn:Et.
  2,3: by rewrite (proj2 (EncodeSpanTBS_Ok f _) (conj Hr eq_refl)) in Et.
  destruct (BuildSpan f (prim_key_from_seed seed)) as [receipt| |] eqn:Hb.
  - destruct (BuildSpan_parses f seed receipt) as (tbs' & sig & Ht & Hp & Hv); [done..|].
    exists receipt, tbs', sig. rewrite Et in Ht. by injection Ht as <-.
  - unfold BuildSpan, SignTagged in Hb. rewrite Et in Hb; cbn in Hb.
    by rewrite Sign_Ok in Hb by (by apply length_key_from_seed).
  - unfold BuildSpan, SignTagged in Hb. rewrite Et in Hb; cbn in Hb.
    by rewrite Sign_Ok in Hb by (by apply length_key_from_seed).
Qed.

(** [EncodeSpanTBS] and [BuildSpan] refuse a resource id above
    [MaxResource] with [ErrFieldBounds], and nothing else. *)
Lemma BuildSpan_bounds f priv :
  len priv = ed25519_PrivateKeySize →
  BuildSpan f priv = Err ErrFieldBounds ↔ MaxResource < len (sf_ResourceID f).
Proof.
  intros Hp. unfold BuildSpan, EncodeSpanTBS, SignTagged, fail_if.
  rewrite Z.gtb_ltb. destruct (Z.ltb_spec MaxResource (len (sf_ResourceID f))); cbn.
  - done.
  - unfold ed25519_PrivateKeySize in Hp. rewrite Sign_Ok by lia. cbn. split; [done|lia].
Qed.

End Roundtrip.

Definition example_fields : SpanFields :=
  let seed := replicate 32 x07 in
  mk_SpanFields x02 (replicate 16 x01) (replicate 16 x02) (s2b "bol:fp/git/demo") x01 x01
    (replicate 32 x00) 1700000000000 (replicate 32 x05)
    (toy.public (toy.key_from_seed seed)).

Lemma BuildSpan_roundtrip_witness :
  ∃ receipt tbs sig,
    BuildSpan example_fields (toy.key_from_seed (replicate 32 x07)) = Ok receipt ∧
    ParseSpan receipt = Ok (span_of example_fields tbs sig) ∧
    EncodeSpanTBS example_fields = Ok tbs ∧
    Span_VerifySig (span_of example_fields tbs sig) = Ok tt.
Proof.
  apply (BuildSpan_roundtrip (P := toy_primitives) example_fields (replicate 32 x07)).
  - split; vm_compute; done.
  - vm_compute; done.
  - vm_compute; done.
  - vm_compute; done.
Defined.
