(* ===== verification/Cert.v ===== *)
(** Certificates: [wire/cert.go] and the certificate encoder of
    [wire/encode.go]. *)

From Stdlib Require Import Sorted.
From S2P Require Import Prelude GoBytes Cursor Crypto Toy Span.

Definition LenKexPubkey : Z := 32.
Definition LenScopeID : Z := 8.
Definition MaxName : Z := 64.
Definition MaxScope : Z := 8.
Definition MaxCASigs : Z := 4.
Definition LenCAKey : Z := 32.
Definition LenCASig : Z := 64.

Definition RoleParticipant : Z := Z.shiftl 1 0.
Definition RoleAgent : Z := Z.shiftl 1 1.
Definition RoleExecutor : Z := Z.shiftl 1 2.
Definition RoleApprover : Z := Z.shiftl 1 3.
Definition RoleLighthouse : Z := Z.shiftl 1 4.
Definition RoleRelay : Z := Z.shiftl 1 5.

(** * Data *)

Record Cert : Type := mk_Cert {
  ct_Version : byte;
  ct_RoleBits : byte;
  ct_SigPubkey : bytes;
  ct_KexPubkey : bytes;
  ct_NotBefore : Z;
  ct_NotAfter : Z;
  ct_Name : bytes;
  ct_ScopeCount : byte;
  ct_ScopeIDs : bytes;
  ct_CASigCount : byte;
  ct_CASigs : bytes;
  ct_TBS : bytes;
}.

Record CAPair : Type := mk_CAPair {
  cp_Key : bytes;
  cp_Sig : bytes;
}.

Record CertFields : Type := mk_CertFields {
  cf_Version : byte;
  cf_RoleBits : byte;
  cf_SigPubkey : bytes;
  cf_KexPubkey : bytes;
  cf_NotBefore : Z;
  cf_NotAfter : Z;
  cf_Name : bytes;
  cf_ScopeIDs : list bytes;
}.

(** What Go's types [[32]byte], [[8]byte] and [uint64] guarantee. *)
Record CertFields_wf (f : CertFields) : Prop := {
  wf_SigPubkey : len (cf_SigPubkey f) = LenPubkey;
  wf_KexPubkey : len (cf_KexPubkey f) = LenKexPubkey;
  wf_NotBefore : in_u64 (cf_NotBefore f);
  wf_NotAfter : in_u64 (cf_NotAfter f);
  wf_ScopeIDs : Forall (λ s, length s = 8%nat) (cf_ScopeIDs f);
}.

(** * Parsing *)

(** [bytes.Compare(a, b) <= 0] *)
Definition bytes_le (a b : bytes) : bool :=
  match bytes_Compare a b with Gt => false | _ => true end.

(** The loop over the [(ca_key, ca_sig)] pairs, with [k] iterations left. *)
Fixpoint ParseCert_loop (k : nat) (i : Z) (prev : bytes) : Cur unit :=
  match k with
  | O => mret tt
  | S k' =>
      key ← cur.take LenCAKey;
      lift (fail_if ((i >? 0) && bytes_le key prev) ErrMalformed);;
      cur.take LenCASig;;
      ParseCert_loop k' (i + 1) key
  end.

Definition ParseCert (buf : bytes) : res Cert :=
  cur.run (
    version ← cur.u8;
    roleBits ← cur.u8;
    sigPub ← cur.take LenPubkey;
    kexPub ← cur.take LenKexPubkey;
    notBefore ← cur.u64be;
    notAfter ← cur.u64be;
    name ← cur.field16 MaxName;
    scopeCount ← cur.u8;
    lift (fail_if (b2z scopeCount >? MaxScope) ErrOversize);;
    scopeIDs ← cur.take (b2z scopeCount * LenScopeID);
    tbs ← slice_from 0;
    caCount ← cur.u8;
    lift (fail_if ((b2z caCount =? 0) || (b2z caCount >? MaxCASigs)) ErrMalformed);;
    caStart ← get_pos;
    ParseCert_loop (Z.to_nat (b2z caCount)) 0 [];;
    caSigs ← slice_from caStart;
    cur.at_end;;
    mret (mk_Cert version roleBits sigPub kexPub notBefore notAfter name scopeCount
            scopeIDs caCount caSigs tbs)) buf.

Definition pairLen : Z := LenCAKey + LenCASig.

Fixpoint CAPairs_loop (ct : Cert) (k : nat) (i : Z) (pairs : list CAPair) : res (list CAPair) :=
  match k with
  | O => mret pairs
  | S k' =>
      let off := i * pairLen in
      key ← slice (ct_CASigs ct) off (off + LenCAKey);
      sig ← slice (ct_CASigs ct) (off + LenCAKey) (off + pairLen);
      CAPairs_loop ct k' (i + 1) (pairs ++ [mk_CAPair key sig])
  end.

Definition CAPairs (ct : Cert) : res (list CAPair) :=
  CAPairs_loop ct (Z.to_nat (b2z (ct_CASigCount ct))) 0 [].

(** * Encoding *)

Definition EncodeCertTBS (f : CertFields) : res bytes :=
  fail_if ((len (cf_Name f) >? MaxName) || (len (cf_ScopeIDs f) >? MaxScope)) ErrFieldBounds;;
  let out := [] ++ [cf_Version f; cf_RoleBits f] in
  let out := out ++ cf_SigPubkey f in
  let out := out ++ cf_KexPubkey f in
  let out := AppendUint64 out (cf_NotBefore f) in
  let out := AppendUint64 out (cf_NotAfter f) in
  let out := AppendUint16 out (u16 (len (cf_Name f))) in
  let out := out ++ cf_Name f in
  let out := out ++ [z2b (len (cf_ScopeIDs f))] in
  let out := fold_left (λ out s, out ++ s) (cf_ScopeIDs f) out in
  mret out.

Fixpoint AppendCertSignatures_loop (pairs rest : list CAPair) (i : Z) (out : bytes) : res bytes :=
  match rest with
  | [] => mret out
  | p :: rest' =>
      fail_if (negb (len (cp_Key p) =? LenCAKey) || negb (len (cp_Sig p) =? LenCASig))
        ErrFieldBounds;;
      (if i >? 0 then
         prev ← index pairs (i - 1);
         fail_if (bytes_le (cp_Key p) (cp_Key prev)) ErrMalformed
       else mret tt);;
      let out := out ++ cp_Key p in
      let out := out ++ cp_Sig p in
      AppendCertSignatures_loop pairs rest' (i + 1) out
  end.

Definition AppendCertSignatures (tbs : bytes) (pairs : list CAPair) : res bytes :=
  fail_if ((len pairs =? 0) || (len pairs >? MaxCASigs)) ErrFieldBounds;;
  let out := ([] ++ tbs) ++ [z2b (len pairs)] in
  AppendCertSignatures_loop pairs pairs 0 out.

(** * Checking the CA signatures *)

Fixpoint inSet (key : bytes) (set : list bytes) : bool :=
  match set with
  | [] => false
  | k :: set' => if bytes_Equal k key then true else inSet key set'
  end.

Section Verify.
Context `{P : Primitives}.

(** A nil [trusted] slice is [None]. *)
Fixpoint VerifyCASignatures_loop (ct : Cert) (trusted : option (list bytes))
    (pairs : list CAPair) : res unit :=
  match pairs with
  | [] => mret tt
  | p :: pairs' =>
      VerifySigned DomainCert (ct_TBS ct) (cp_Sig p) (cp_Key p);;
      fail_if (match trusted with Some set => negb (inSet (cp_Key p) set) | None => false end)
        ErrBadSignature;;
      VerifyCASignatures_loop ct trusted pairs'
  end.

Definition VerifyCASignatures (ct : Cert) (trusted : option (list bytes)) : res unit :=
  pairs ← CAPairs ct;
  VerifyCASignatures_loop ct trusted pairs.

End Verify.

(** * The pairs of a certificate *)

Record CAPair_wf (p : CAPair) : Prop := {
  wf_Key : length (cp_Key p) = 32%nat;
  wf_Sig : length (cp_Sig p) = 64%nat;
}.

Definition pair_bytes (p : CAPair) : bytes := cp_Key p ++ cp_Sig p.
Definition pairs_bytes (ps : list CAPair) : bytes := concat (map pair_bytes ps).

(** Keys strictly ascending, the first one above [prev] when there is one. *)
Fixpoint ascending (prev : option bytes) (ps : list CAPair) : Prop :=
  match ps with
  | [] => True
  | p :: ps' =>
      match prev with Some k => bytes_lt k (cp_Key p) | None => True end ∧
      ascending (Some (cp_Key p)) ps'
  end.

(** What the parser requires of the pairs of a certificate. *)
Record pairs_ok (ps : list CAPair) : Prop := {
  pairs_count : 1 ≤ len ps ≤ MaxCASigs;
  pairs_wf : Forall CAPair_wf ps;
  pairs_ascending : ascending None ps;
}.

Lemma bytes_le_false a b : bytes_le a b = false ↔ bytes_lt b a.
Proof.
  unfold bytes_le, bytes_lt. rewrite (bytes_Compare_antisym b a).
  destruct (bytes_Compare b a); naive_solver.
Qed.

Lemma ascending_sorted k ps :
  ascending (Some k) ps → Forall (bytes_lt k) (map cp_Key ps) ∧
    StronglySorted bytes_lt (map cp_Key ps).
Proof.
  revert k. induction ps as [|p ps IH]; intros k; cbn; [by repeat constructor|].
  intros [Hk [Hf Hs]%IH]. split; constructor; try done.
  eapply Forall_impl; [exact Hf|]. intros x. by apply transitivity.
Qed.

Lemma ascending_None_sorted ps :
  ascending None ps → StronglySorted bytes_lt (map cp_Key ps).
Proof.
  destruct ps as [|p ps]; cbn; [constructor|].
  intros [_ [Hf Hs]%ascending_sorted]. by constructor.
Qed.

Lemma sorted_NoDup l : StronglySorted bytes_lt l → NoDup l.
Proof.
  induction 1 as [|k l _ IH Hk]; constructor; [|done].
  intros Hin. rewrite Forall_forall in Hk. apply Hk in Hin.
  by apply (irreflexivity bytes_lt k).
Qed.

Lemma ascending_NoDup ps : ascending None ps → NoDup (map cp_Key ps).
Proof. intros H. by apply sorted_NoDup, ascending_None_sorted. Qed.

Lemma length_pairs_bytes ps :
  Forall CAPair_wf ps → length (pairs_bytes ps) = (length ps * 96)%nat.
Proof.
  induction 1 as [|p ps [Hk Hs] _ IH]; [done|].
  unfold pairs_bytes in *; cbn. rewrite length_app, IH. unfold pair_bytes.
  rewrite length_app. lia.
Qed.

Definition prev_key (i : Z) (prev : bytes) : option bytes :=
  if i >? 0 then Some prev else None.

Lemma Reads_ParseCert_loop k i prev pre :
  0 ≤ i →
  Reads pre (ParseCert_loop k i prev)
    (λ _ b, ∃ ps, length ps = k ∧ Forall CAPair_wf ps ∧
              ascending (prev_key i prev) ps ∧ b = pairs_bytes ps).
Proof.
  revert i prev pre. induction k as [|k IH]; intros i prev pre Hi; cbn [ParseCert_loop].
  - eapply Reads_iff; [|apply Reads_ret]. intros [] b. split.
    + intros [_ ->]. by exists [].
    + intros (ps & Hl & _ & _ & ->). by destruct ps.
  - eapply Reads_iff; cycle 1.
    + reads. apply IH. lia.
    + intros [] b. cbv beta. split.
      * intros H. unpack. subst.
        match goal with
        | H : len ?key = LenCAKey, H' : len ?sig = LenCASig, H'' : Forall CAPair_wf ?ps |- _ =>
            exists (mk_CAPair key sig :: ps)
        end.
        match goal with H : _ && _ = false |- _ => rename H into Hle end.
        unfold LenCAKey, LenCASig in *. split_and!.
        -- cbn. congruence.
        -- constructor; [split; cbn; lia|done].
        -- cbn [ascending cp_Key]. unfold prev_key in *. split.
           ++ destruct (i >? 0); [|done]. by apply bytes_le_false.
           ++ match goal with H : ascending _ _ |- _ => revert H end.
              by rewrite (proj2 (Z.gtb_lt (i + 1) 0)) by lia.
        -- unfold pairs_bytes. cbn. unfold pair_bytes; cbn. app_eq.
      * intros (ps & Hl & Hwf & Hasc & ->). destruct ps as [|[key sig] ps]; [done|].
        apply Forall_cons in Hwf as [[Hk Hs] Hwf]. destruct Hasc as [Hlt Hasc].
        cbn in Hk, Hs, Hlt. injection Hl as Hl.
        exists key, key. split; [unfold LenCAKey; split; [done|lia]|].
        exists (sig ++ pairs_bytes ps).
        split; [|unfold pairs_bytes, pair_bytes; cbn; app_eq].
        exists tt, []. split.
        { split; [|done]. unfold prev_key in *. destruct (i >? 0); [|done].
          by apply bytes_le_false. }
        exists (sig ++ pairs_bytes ps). split; [|done].
        exists sig, sig. split; [unfold LenCASig; split; [done|lia]|].
        exists (pairs_bytes ps). split; [|done].
        exists ps. split_and!; try done.
        unfold prev_key. by rewrite (proj2 (Z.gtb_lt (i + 1) 0)) by lia.
Qed.

#[local] Hint Resolve Reads_ParseCert_loop Z.le_refl : reads.

(** * The encoders, in closed form *)

Lemma EncodeCertTBS_Ok f tbs :
  EncodeCertTBS f = Ok tbs ↔
  len (cf_Name f) ≤ MaxName ∧ len (cf_ScopeIDs f) ≤ MaxScope ∧
  tbs = [cf_Version f] ++ [cf_RoleBits f] ++ cf_SigPubkey f ++ cf_KexPubkey f ++
        be 8 (cf_NotBefore f) ++ be 8 (cf_NotAfter f) ++
        be 2 (len (cf_Name f)) ++ cf_Name f ++
        [z2b (len (cf_ScopeIDs f))] ++ concat (cf_ScopeIDs f).
Proof.
  unfold EncodeCertTBS, AppendUint16, AppendUint64.
  rewrite fail_if_bind_Ok, orb_false_iff, !gtb_false.
  assert (∀ l out, fold_left (λ out s : bytes, out ++ s) l out = out ++ concat l) as Hfold.
  { intros l. induction l as [|s l IH]; intros out; cbn; [by rewrite app_nil_r|].
    by rewrite IH, (assoc_L (++)). }
  rewrite Hfold.
  assert (len (cf_Name f) ≤ MaxName → u16 (len (cf_Name f)) = len (cf_Name f)) as Hu.
  { intros. apply Z.mod_small. unfold MaxName in *. lia. }
  rewrite <- ?(assoc_L (++)). cbn [app]. split.
  - intros ([Hb Hs] & [= <-]). by rewrite Hu.
  - intros (Hb & Hs & ->). by rewrite Hu.
Qed.

(** The last key already written. *)
Definition last_key (done : list CAPair) : option bytes := cp_Key <$> last done.

Lemma AppendCertSignatures_loop_Ok done rest out b :
  AppendCertSignatures_loop (done ++ rest) rest (len done) out = Ok b ↔
  Forall CAPair_wf rest ∧ ascending (last_key done) rest ∧ b = out ++ pairs_bytes rest.
Proof.
  revert done out. induction rest as [|p rest IH]; intros done out.
  - cbn. rewrite app_nil_r. split; [intros [= <-]; done|intros (_ & _ & ->); done].
  - cbn [AppendCertSignatures_loop ascending]. rewrite fail_if_bind_Ok.
    rewrite orb_false_iff, !negb_false_iff, !Z.eqb_eq.
    assert ((((if len done >? 0 then
         prev ← index (done ++ p :: rest) (len done - 1);
         fail_if (bytes_le (cp_Key p) (cp_Key prev)) ErrMalformed
       else mret tt) : res unit) = Ok tt ↔
       match last_key done with Some k => bytes_lt k (cp_Key p) | None => True end)) as Hprev.
    { destruct done as [|q done _] using rev_ind; [done|].
      unfold last_key. rewrite last_snoc; cbn [fmap option_fmap option_map].
      rewrite length_app; cbn [length].
      rewrite (proj2 (Z.gtb_lt _ _)) by lia. unfold index. rewrite bool_decide_true by lia.
      rewrite <- (assoc_L (++)). cbn [app]. rewrite list_lookup_middle by lia. cbn.
      by rewrite fail_if_Ok, bytes_le_false. }
    specialize (IH (done ++ [p]) (out ++ cp_Key p ++ cp_Sig p)).
    rewrite <- (assoc_L (++)), length_app in IH. cbn [app length] in IH.
    replace (Z.of_nat (length done + 1)) with (len done + 1) in IH by lia.
    unfold last_key in IH. rewrite last_snoc in IH. cbn [fmap option_fmap option_map] in IH.
    rewrite <- !(assoc_L (++)), Forall_cons. unfold pairs_bytes in *. cbn [map concat].
    unfold pair_bytes at 1. rewrite <- !(assoc_L (++)) in *.
    destruct (if len done >? 0 then _ else _) as [[]| |] eqn:E in Hprev |- *.
    + cbn [mbind res_bind]. rewrite IH. split.
      * intros ([Hk Hs] & Hwf & Hasc & ->).
        split_and!; try done; [split|by apply Hprev]; unfold LenCAKey, LenCASig in *; lia.
      * intros ([[Hk Hs] Hwf] & [_ Hasc] & ->).
        split_and!; try done; unfold LenCAKey, LenCASig; lia.
    + cbn [mbind res_bind]. split; [by intros [_ ?]|].
      intros (_ & [H%Hprev _] & _). done.
    + cbn [mbind res_bind]. split; [by intros [_ ?]|].
      intros (_ & [H%Hprev _] & _). done.
Qed.

Lemma AppendCertSignatures_Ok tbs ps b :
  AppendCertSignatures tbs ps = Ok b ↔
  pairs_ok ps ∧ b = tbs ++ [z2b (len ps)] ++ pairs_bytes ps.
Proof.
  unfold AppendCertSignatures. rewrite fail_if_bind_Ok, orb_false_iff, gtb_false, Z.eqb_neq.
  pose proof (AppendCertSignatures_loop_Ok [] ps (tbs ++ [z2b (len ps)]) b) as H.
  cbn [app length] in *. change (Z.of_nat 0) with 0 in H. rewrite H. clear H.
  rewrite <- (assoc_L (++)). split.
  - intros ([H0 Hm] & Hwf & Hasc & ->). split; [|done]. split; [lia|done..].
  - intros ([Hc Hwf Hasc] & ->). split_and!; [lia|lia|done..].
Qed.

(** * The format *)

(** The certificate with the fields [f], signed part [tbs] and pairs [ps]. *)
Definition cert_of (f : CertFields) (ps : list CAPair) (tbs : bytes) : Cert :=
  mk_Cert (cf_Version f) (cf_RoleBits f) (cf_SigPubkey f) (cf_KexPubkey f) (cf_NotBefore f)
    (cf_NotAfter f) (cf_Name f) (z2b (len (cf_ScopeIDs f))) (concat (cf_ScopeIDs f))
    (z2b (len ps)) (pairs_bytes ps) tbs.

(** A certificate's bytes are what the two encoders write. *)
Definition cert_format (ct : Cert) (b : bytes) : Prop :=
  ∃ f ps tbs, CertFields_wf f ∧ EncodeCertTBS f = Ok tbs ∧
    AppendCertSignatures tbs ps = Ok b ∧ ct = cert_of f ps tbs.

Lemma b2z_z2b_small z : 0 ≤ z < 256 → b2z (z2b z) = z.
Proof. intros. rewrite b2z_z2b. by apply Z.mod_small. Qed.

Lemma length_concat_const {A} (n : nat) (ls : list (list A)) :
  Forall (λ l, length l = n) ls → length (concat ls) = (length ls * n)%nat.
Proof.
  induction 1 as [|l ls Hl _ IH]; [done|]. cbn. rewrite length_app, Hl, IH. done.
Qed.

(** A flat list of [k * n] bytes is [k] pieces of [n] bytes. *)
Lemma split_flat {A} (n k : nat) (l : list A) :
  length l = (k * n)%nat →
  ∃ ls, length ls = k ∧ Forall (λ x, length x = n) ls ∧ concat ls = l.
Proof.
  revert l. induction k as [|k IH]; intros l Hl.
  - exists []. apply nil_length_inv in Hl as ->. by repeat constructor.
  - destruct (IH (drop n l)) as (ls & Hk & Hn & Hc); [rewrite length_drop; lia|].
    exists (take n l :: ls). split_and!; [cbn; congruence| |].
    + constructor; [rewrite length_take; lia|done].
    + cbn. by rewrite Hc, take_drop.
Qed.

Lemma CAPairs_loop_Ok ct done rest :
  ct_CASigs ct = pairs_bytes (done ++ rest) → Forall CAPair_wf (done ++ rest) →
  CAPairs_loop ct (length rest) (len done) done = Ok (done ++ rest).
Proof.
  revert done. induction rest as [|[key sig] rest IH]; intros done Hb Hwf.
  - by rewrite app_nil_r.
  - cbn [CAPairs_loop length].
    assert (ct_CASigs ct = pairs_bytes done ++ key ++ sig ++ pairs_bytes rest) as Hb'.
    { rewrite Hb. unfold pairs_bytes. rewrite map_app, concat_app. cbn.
      unfold pair_bytes at 2; cbn. app_eq. }
    assert (Forall CAPair_wf done ∧ CAPair_wf (mk_CAPair key sig)) as [Hd [Hk Hs]].
    { rewrite Forall_app, Forall_cons in Hwf. tauto. }
    pose proof (length_pairs_bytes done Hd) as Hl. cbn in Hk, Hs.
    set (off := len done * pairLen).
    assert (slice (ct_CASigs ct) off (off + LenCAKey) = Ok key) as ->.
    { rewrite Hb'. unfold off, pairLen, LenCAKey, LenCASig. apply slice_app; lia. }
    assert (slice (ct_CASigs ct) (off + LenCAKey) (off + pairLen) = Ok sig) as ->.
    { rewrite Hb', (assoc_L (++)). unfold off, pairLen, LenCAKey, LenCASig.
      apply slice_app; rewrite length_app; lia. }
    cbn [mbind res_bind].
    specialize (IH (done ++ [mk_CAPair key sig])).
    rewrite <- (assoc_L (++)), length_app in IH. cbn [app length] in IH.
    replace (len done + 1) with (Z.of_nat (length done + 1)) by lia. auto.
Qed.

Lemma CAPairs_cert_of f ps tbs :
  pairs_ok ps → CAPairs (cert_of f ps tbs) = Ok ps.
Proof.
  intros [Hc Hwf _]. unfold CAPairs, cert_of; cbn [ct_CASigCount]. unfold MaxCASigs in Hc.
  rewrite b2z_z2b_small, Nat2Z.id by lia. by apply (CAPairs_loop_Ok _ [] ps).
Qed.

Lemma b2z_eq b z : 0 ≤ z < 256 → b2z b = z → b = z2b z.
Proof. intros Hz <-. by rewrite z2b_b2z. Qed.

(** The layout of the signed part. *)
Definition cert_tbs (v r : byte) (sp kp : bytes) (nb na : Z) (nm : bytes) (sc : byte)
    (ids : bytes) : bytes :=
  [v] ++ [r] ++ sp ++ kp ++ be 8 nb ++ be 8 na ++ be 2 (len nm) ++ nm ++ [sc] ++ ids.

Lemma cert_format_intro v r sp kp nb na nm sc ids cc ps casigs tbs b :
  len sp = LenPubkey → len kp = LenKexPubkey → in_u64 nb → in_u64 na →
  len nm ≤ MaxName → b2z sc ≤ MaxScope → len ids = b2z sc * LenScopeID →
  length ps = Z.to_nat (b2z cc) → pairs_ok ps →
  casigs = pairs_bytes ps →
  tbs = cert_tbs v r sp kp nb na nm sc ids →
  b = tbs ++ [cc] ++ pairs_bytes ps →
  cert_format (mk_Cert v r sp kp nb na nm sc ids cc casigs tbs) b.
Proof.
  intros Hsp Hkp Hnb Hna Hnm Hsc Hids Hcc Hps -> Htbs ->.
  pose proof (b2z_range sc). pose proof (b2z_range cc). unfold MaxScope, LenScopeID in *.
  destruct (split_flat 8 (Z.to_nat (b2z sc)) ids) as (ls & Hl & H8 & Hc); [lia|].
  exists (mk_CertFields v r sp kp nb na nm ls), ps, tbs.
  assert (sc = z2b (len ls)) as Hscl by (apply b2z_eq; lia).
  assert (cc = z2b (len ps)) as Hccl by (apply b2z_eq; lia).
  split_and!.
  - by split.
  - apply EncodeCertTBS_Ok. unfold MaxScope. cbn. split_and!; [done|lia|].
    rewrite Htbs. unfold cert_tbs. by rewrite <- Hscl, Hc.
  - apply AppendCertSignatures_Ok. by rewrite <- Hccl.
  - unfold cert_of; cbn. by rewrite Hc, <- Hscl, <- Hccl.
Qed.

#[global] Instance ParseCert_codec : Codec ParseCert cert_format.
Proof.
  apply Codec_run. eapply Accepts_iff; cycle 1.
  - reads.
  - intros ct b. cbv beta. split.
    + intros H. unpack. subst.
      match goal with
      | H : (b2z ?sc >? MaxScope) = false, H' : _ || _ = false,
        Hl : length ?ps = Z.to_nat (b2z ?cc), Hw : Forall CAPair_wf ?ps, Ha : ascending _ ?ps |- _ =>
          apply gtb_false in H; apply orb_false_iff in H' as [Hz%Z.eqb_neq Hm%gtb_false];
          assert (pairs_ok ps) by (pose proof (b2z_range cc); split; [lia|done..])
      end.
      eapply cert_format_intro; try eassumption; [done|unfold cert_tbs; app_eq|app_eq].
    + intros (f & ps & tbs & Hf & (Hnm & Hsc & ->)%EncodeCertTBS_Ok &
                ([Hc Hw Ha] & ->)%AppendCertSignatures_Ok & ->).
      destruct Hf as [Hsp Hkp Hnb Hna Hids].
      pose proof (length_concat_const _ _ Hids).
      unfold MaxScope, MaxCASigs, LenScopeID, cert_of in *.
      repack.
      all: lazymatch goal with |- mk_Cert _ _ _ _ _ _ _ _ _ _ _ _ = _ => f_equal | _ => idtac end.
      all: try reflexivity. all: try eassumption.
      all: rewrite ?b2z_z2b_small by lia.
      all: try (apply gtb_false; lia). all: try lia.
      all: try (rewrite orb_false_iff, Z.eqb_neq, gtb_false; lia).
      all: try app_eq.
Qed.

(** * Properties *)

(** [C19] [ParseCert] accepts exactly the byte strings [EncodeCertTBS] and
    [AppendCertSignatures] produce, and returns the fields and pairs they were
    produced from. *)
Theorem ParseCert_exact buf ct :
  ParseCert buf = Ok ct ↔
  ∃ f ps tbs, CertFields_wf f ∧ EncodeCertTBS f = Ok tbs ∧
    AppendCertSignatures tbs ps = Ok buf ∧ ct = cert_of f ps tbs.
Proof. exact (codec_exact (F := cert_format) buf ct). Qed.

Lemma ParseCert_cert_of buf ct :
  ParseCert buf = Ok ct → ∃ f ps, CertFields_wf f ∧ EncodeCertTBS f = Ok (ct_TBS ct) ∧
    pairs_ok ps ∧ ct = cert_of f ps (ct_TBS ct).
Proof.
  rewrite (codec_exact (F := cert_format)). intros (f & ps & tbs & Hf & Ht & Hps & ->).
  apply AppendCertSignatures_Ok in Hps as [Hps _]. by exists f, ps.
Qed.

Lemma pairs_ok_iff ps :
  pairs_ok ps ↔
  1 ≤ len ps ≤ MaxCASigs ∧ Forall CAPair_wf ps ∧ StronglySorted bytes_lt (map cp_Key ps).
Proof.
  split.
  - intros [Hc Hw Ha]. split; [done|]. split; [done|]. by apply ascending_None_sorted.
  - intros (Hc & Hw & Hs). split; try done. destruct ps as [|p ps]; [done|].
    split; [done|]. clear Hc Hw. revert p Hs.
    induction ps as [|q ps IH]; intros p Hs; [done|].
    apply StronglySorted_inv in Hs as [Hs Hp]. split; [by apply Forall_inv in Hp|].
    by apply IH.
Qed.

(** The pairs of a parsed certificate. *)
Lemma CAPairs_parsed buf ct :
  ParseCert buf = Ok ct →
  ∃ ps, CAPairs ct = Ok ps ∧ len ps = b2z (ct_CASigCount ct) ∧ pairs_ok ps.
Proof.
  intros (f & ps & _ & _ & Hps & ->)%ParseCert_cert_of. exists ps.
  split_and!; [by apply CAPairs_cert_of| |done].
  destruct Hps as [Hc _ _]. unfold MaxCASigs in Hc. cbn. by rewrite b2z_z2b_small by lia.
Qed.

(** [C34] A certificate that parses carries between one and four CA pairs, as
    many as its count byte says, of full-length keys and signatures, whose
    keys are strictly ascending and so pairwise distinct: no CA key can be
    counted twice towards a quorum. *)
Theorem ParseCert_pairs buf ct :
  ParseCert buf = Ok ct →
  ∃ ps, CAPairs ct = Ok ps ∧ len ps = b2z (ct_CASigCount ct) ∧ 1 ≤ len ps ≤ MaxCASigs ∧
    Forall CAPair_wf ps ∧ StronglySorted bytes_lt (map cp_Key ps) ∧ NoDup (map cp_Key ps).
Proof.
  intros (ps & Hp & Hl & (Hc & Hw & Hs)%pairs_ok_iff)%CAPairs_parsed. exists ps.
  split_and!; [done..|lia|lia|done|done|by apply sorted_NoDup].
Qed.

(** [C35] [AppendCertSignatures] completes a certificate exactly when there are
    one to four pairs, of full-length keys and signatures, in strictly
    ascending key order; what it then writes parses back to the fields and
    pairs it was given. *)
Theorem mint_cert_roundtrip f tbs ps :
  CertFields_wf f → EncodeCertTBS f = Ok tbs →
  ((∃ b, AppendCertSignatures tbs ps = Ok b) ↔
     1 ≤ len ps ≤ MaxCASigs ∧ Forall CAPair_wf ps ∧ StronglySorted bytes_lt (map cp_Key ps)) ∧
  ∀ b, AppendCertSignatures tbs ps = Ok b →
    ParseCert b = Ok (cert_of f ps tbs) ∧ CAPairs (cert_of f ps tbs) = Ok ps.
Proof.
  intros Hf Ht. split.
  - rewrite <- pairs_ok_iff. setoid_rewrite AppendCertSignatures_Ok. naive_solver.
  - intros b Hb. split.
    + apply (codec_exact (F := cert_format)). by exists f, ps, tbs.
    + apply AppendCertSignatures_Ok in Hb as [Hps _]. by apply CAPairs_cert_of.
Qed.

Lemma inSet_true key set : inSet key set = true ↔ key ∈ set.
Proof.
  induction set as [|k set IH]; cbn; [by rewrite elem_of_nil|].
  rewrite elem_of_cons. destruct (bytes_Equal k key) eqn:E.
  - apply bytes_Equal_true in E as ->. naive_solver.
  - apply bytes_Equal_false in E. rewrite IH. naive_solver.
Qed.

Section CASignatures.
Context `{P : Primitives}.

(** Every pair of the list is a valid signature of [tbs]. *)
Definition all_signed (tbs : bytes) (ps : list CAPair) : Prop :=
  Forall (λ p, signed_by DomainCert tbs (cp_Sig p) (cp_Key p)) ps.

Lemma VerifyCASignatures_loop_Ok ct trusted ps u :
  VerifyCASignatures_loop ct trusted ps = Ok u ↔
  all_signed (ct_TBS ct) ps ∧
  match trusted with Some set => Forall (λ p, cp_Key p ∈ set) ps | None => True end.
Proof.
  destruct u. unfold all_signed. induction ps as [|p ps IH]; cbn [VerifyCASignatures_loop].
  - destruct trusted; split; try done; repeat constructor.
  - rewrite check_bind_Ok, VerifySigned_Ok, fail_if_bind_Ok, IH, Forall_cons. destruct trusted as [set|].
    + rewrite Forall_cons, negb_false_iff, inSet_true. naive_solver.
    + naive_solver.
Qed.

(** [VerifyCASignatures] accepts a parsed certificate exactly when every
    one of its pairs signs its to-be-signed bytes under the certificate tag
    and, when a trusted set is given, every key is in it. *)
Lemma VerifyCASignatures_spec buf ct trusted :
  ParseCert buf = Ok ct →
  ∃ ps, CAPairs ct = Ok ps ∧
    (VerifyCASignatures ct trusted = Ok tt ↔
      all_signed (ct_TBS ct) ps ∧
      match trusted with Some set => Forall (λ p, cp_Key p ∈ set) ps | None => True end).
Proof.
  intros (ps & Hps & _)%CAPairs_parsed. exists ps. split; [done|].
  unfold VerifyCASignatures. rewrite Hps. cbn [mbind res_bind].
  apply VerifyCASignatures_loop_Ok.
Qed.

End CASignatures.

(** A certificate of the toy primitives signed by two CAs. *)
Definition example_priv (n : Z) : bytes := toy.key_from_seed (replicate 32 (z2b n)).
Definition example_pub (n : Z) : bytes := toy.public (example_priv n).

Definition example_cert_fields (role : Z) (owner : Z) : CertFields :=
  mk_CertFields x03 (z2b role) (example_pub owner) (replicate 32 x09)
    1700000000000 1700000600000 (s2b "agent-1") [take 8 (toy.sum256 (s2b "bol:org"))].

Definition example_ca_pair (tbs : bytes) (n : Z) : CAPair :=
  mk_CAPair (example_pub n) (toy.sign (example_priv n) (DomainCert :: tbs)).

Definition example_cert_bytes (role : Z) (owner : Z) : bytes :=
  match
    tbs ← EncodeCertTBS (example_cert_fields role owner);
    AppendCertSignatures tbs [example_ca_pair tbs 2; example_ca_pair tbs 1]
  with Ok b => b | _ => [] end.

Definition example_cert (role : Z) (owner : Z) : Cert :=
  match ParseCert (example_cert_bytes role owner) with
  | Ok ct => ct
  | _ => mk_Cert x00 x00 [] [] 0 0 [] x00 [] x00 [] []
  end.

Lemma ParseCert_pairs_witness :
  ParseCert (example_cert_bytes RoleAgent 5) = Ok (example_cert RoleAgent 5) ∧
  ∃ ps, CAPairs (example_cert RoleAgent 5) = Ok ps ∧
    len ps = b2z (ct_CASigCount (example_cert RoleAgent 5)) ∧ 1 ≤ len ps ≤ MaxCASigs ∧
    Forall CAPair_wf ps ∧ StronglySorted bytes_lt (map cp_Key ps) ∧ NoDup (map cp_Key ps).
Proof.
  assert (ParseCert (example_cert_bytes RoleAgent 5) = Ok (example_cert RoleAgent 5)) as H
    by (vm_compute; reflexivity).
  split; [exact H|]. exact (ParseCert_pairs _ _ H).
Defined.

Lemma mint_cert_roundtrip_witness :
  let f := example_cert_fields RoleAgent 5 in
  ∃ tbs, EncodeCertTBS f = Ok tbs ∧
  let ps := [example_ca_pair tbs 2; example_ca_pair tbs 1] in
  ((∃ b, AppendCertSignatures tbs ps = Ok b) ↔
     1 ≤ len ps ≤ MaxCASigs ∧ Forall CAPair_wf ps ∧ StronglySorted bytes_lt (map cp_Key ps)) ∧
  ∀ b, AppendCertSignatures tbs ps = Ok b →
    ParseCert b = Ok (cert_of f ps tbs) ∧ CAPairs (cert_of f ps tbs) = Ok ps.
Proof.
  intros f. eexists. split; [vm_compute; reflexivity|]. intros ps.
  apply mint_cert_roundtrip; [|vm_compute; reflexivity].
  split; [vm_compute; done..|]. repeat constructor.
Defined.
