(* ===== verification/Method.v ===== *)
(** Evidence classes and their ceilings: [wire/method.go]. *)

From S2P Require Import Prelude GoBytes.

(** The type [Class]. *)
Inductive EvidenceClass : Type :=
  | Inference
  | Documentation
  | ExpertTestimony
  | DirectObservation.

#[global] Instance EvidenceClass_eq_dec : EqDecision EvidenceClass.
Proof. solve_decision. Defined.

Definition Class_String (c : EvidenceClass) : string :=
  match c with
  | DirectObservation => "DirectObservation"
  | ExpertTestimony => "ExpertTestimony"
  | Documentation => "Documentation"
  | _ => "Inference"
  end.

Definition CeilingDirectObservation : Z := 242.
Definition CeilingExpertTestimony : Z := 216.
Definition CeilingDocumentation : Z := 191.
Definition CeilingInference : Z := 165.

Definition MethodSubprocess : byte := x01.
Definition MethodFileRead : byte := x02.
Definition MethodNetworkFetch : byte := x03.
Definition MethodDatabaseQuery : byte := x04.
Definition MethodStaticConfig : byte := x05.
Definition MethodToolSchema : byte := x06.
Definition MethodSignedExpert : byte := x07.
Definition MethodDerived : byte := x08.

Definition ClassOf (methodID : byte) : EvidenceClass * Z :=
  if bool_decide (methodID ∈ [MethodSubprocess; MethodFileRead; MethodNetworkFetch;
                              MethodDatabaseQuery])
  then (DirectObservation, CeilingDirectObservation)
  else if bool_decide (methodID ∈ [MethodStaticConfig; MethodToolSchema])
  then (Documentation, CeilingDocumentation)
  else if bool_decide (methodID = MethodSignedExpert)
  then (ExpertTestimony, CeilingExpertTestimony)
  else (Inference, CeilingInference).

(** The confidence of a class, in hundredths (SPEC §7.4). *)
Definition confidence (c : EvidenceClass) : Z :=
  match c with
  | DirectObservation => 95
  | ExpertTestimony => 85
  | Documentation => 75
  | Inference => 65
  end.

(** The ceiling of a method is its class's confidence times 255, rounded
    toward zero, as the normative integer column asks; it never falls below the Inference
    floor, and every method id outside 1..7 (unknown mechanisms and derived
    spans) gets exactly that floor. *)
Lemma ClassOf_ceiling methodID :
  let '(c, q) := ClassOf methodID in
  q = confidence c * 255 / 100 ∧ CeilingInference ≤ q ≤ CeilingDirectObservation ∧
  (c = Inference ↔ ¬ (1 ≤ b2z methodID ≤ 7)).
Proof.
  destruct methodID; vm_compute; (split; [reflexivity|]; split; [done|]);
    split; try done; intros; try tauto; try (destruct_and!; done); exfalso; naive_solver.
Qed.
