(* ===== verification/Validate.v ===== *)
(** Certificate chain validation without a clock and receipt verification:
    [wire/validate.go]; the clocked [ValidateCert] of [wire/grantchain.go]. *)

From S2P Require Import Prelude GoBytes Cursor Crypto Toy Span Cert.

Definition ApproverQuorum : Z := 2.
Definition MaxPrivilegedLifetimeMS : Z := 2592000000.

Definition ErrRolePairForbidden : error := errors_New "wire: forbidden role pairing (BE-ID-03)".
Definition ErrApproverNoQuorum : error :=
  errors_New "wire: approver cert below CA quorum (BE-ID-04)".
Definition ErrCertTooLongLived : error :=
  errors_New "wire: privileged cert exceeds 30-day cap (BE-REV-01)".
Definition ErrUntrustedCA : error := errors_New "wire: CA key not in trusted set (BE-ID-02)".
Definition ErrNoExecutorRole : error :=
  errors_New "wire: cert lacks executor role (BE-EVID-01)".
Definition ErrNotSigner : error := errors_New "wire: cert is not the span signer's".
Definition ErrWrongFingerprint : error :=
  errors_New "wire: resource fingerprint does not name this executor (BE-RES-04)".
Definition ErrOutsideWindow : error := errors_New "cert: outside validity window (BE-ID-02)".

(** [bits & mask != 0] *)
Definition has_role (bits : byte) (mask : Z) : bool := negb (Z.land (b2z bits) mask =? 0).

Definition CheckRoleConstraints (roleBits : byte) : res unit :=
  let agent := has_role roleBits RoleAgent in
  let approver := has_role roleBits RoleApprover in
  let executor := has_role roleBits RoleExecutor in
  fail_if ((agent && approver) || (agent && executor) || (approver && executor))
    ErrRolePairForbidden.

Section Validate.
Context `{P : Primitives}.

Fixpoint ValidateCertChainNoClock_loop (cert : Cert) (trusted : list bytes)
    (pairs : list CAPair) : res unit :=
  match pairs with
  | [] => mret tt
  | p :: pairs' =>
      VerifySigned DomainCert (ct_TBS cert) (cp_Sig p) (cp_Key p);;
      fail_if (negb (inSet (cp_Key p) trusted)) ErrUntrustedCA;;
      ValidateCertChainNoClock_loop cert trusted pairs'
  end.

Definition ValidateCertChainNoClock (cert : Cert) (trusted : list bytes) : res unit :=
  CheckRoleConstraints (ct_RoleBits cert);;
  fail_if (has_role (ct_RoleBits cert) RoleApprover &&
           (b2z (ct_CASigCount cert) <? ApproverQuorum)) ErrApproverNoQuorum;;
  fail_if (has_role (ct_RoleBits cert) (Z.lor RoleApprover RoleExecutor) &&
           (u64 (ct_NotAfter cert - ct_NotBefore cert) >? MaxPrivilegedLifetimeMS))
    ErrCertTooLongLived;;
  pairs ← CAPairs cert;
  ValidateCertChainNoClock_loop cert trusted pairs.

Definition VerifyReceipt (span : Span) (cert : Cert) (trusted : list bytes) : res unit :=
  Span_VerifySig span;;
  ValidateCertChainNoClock cert trusted;;
  fail_if (negb (has_role (ct_RoleBits cert) RoleExecutor)) ErrNoExecutorRole;;
  fail_if (negb (bytes_Equal (ct_SigPubkey cert) (sp_Executor span))) ErrNotSigner;;
  let fp := Fingerprint (ct_SigPubkey cert) in
  let want := s2b "bol:" ++ fp ++ s2b "/" in
  fail_if (negb (HasPrefix (sp_ResourceID span) want)) ErrWrongFingerprint;;
  mret tt.

Definition ValidateCert (cert : Cert) (trusted : list bytes) (nowMS : Z) : res unit :=
  ValidateCertChainNoClock cert trusted;;
  fail_if ((nowMS <? ct_NotBefore cert) || (nowMS >=? ct_NotAfter cert)) ErrOutsideWindow;;
  mret tt.

(** * What validation decides *)

(** The three roles no certificate may combine. *)
Definition exclusive_roles : list Z := [RoleAgent; RoleApprover; RoleExecutor].

Definition roles_ok (bits : byte) : Prop :=
  ∀ r1 r2, r1 ∈ exclusive_roles → r2 ∈ exclusive_roles →
    has_role bits r1 = true → has_role bits r2 = true → r1 = r2.

Definition privileged (bits : byte) : bool :=
  has_role bits RoleApprover || has_role bits RoleExecutor.

(** The clock-free conditions on a certificate with the pairs [ps]. *)
Record chain_valid (cert : Cert) (trusted : list bytes) (ps : list CAPair) : Prop := {
  cv_roles : roles_ok (ct_RoleBits cert);
  cv_quorum : has_role (ct_RoleBits cert) RoleApprover = true → ApproverQuorum ≤ len ps;
  cv_lifetime : privileged (ct_RoleBits cert) = true →
    u64 (ct_NotAfter cert - ct_NotBefore cert) ≤ MaxPrivilegedLifetimeMS;
  cv_signed : all_signed (ct_TBS cert) ps;
  cv_trusted : Forall (λ p, cp_Key p ∈ trusted) ps;
}.

Lemma CheckRoleConstraints_Ok bits : CheckRoleConstraints bits = Ok tt ↔ roles_ok bits.
Proof.
  unfold CheckRoleConstraints. rewrite fail_if_Ok, !orb_false_iff, !andb_false_iff.
  unfold roles_ok, exclusive_roles. split.
  - intros Hc r1 r2 Hr1 Hr2. rewrite !elem_of_cons, elem_of_nil in Hr1, Hr2.
    destruct Hr1 as [->|[->|[->|[]]]], Hr2 as [->|[->|[->|[]]]]; try done;
      intros H1 H2; rewrite H1, H2 in Hc; naive_solver.
  - intros Hall.
    assert (∀ r1 r2, r1 ∈ exclusive_roles → r2 ∈ exclusive_roles → r1 ≠ r2 →
              has_role bits r1 = false ∨ has_role bits r2 = false) as H.
    { intros r1 r2 H1 H2 Hne. specialize (Hall r1 r2 H1 H2).
      destruct (has_role bits r1), (has_role bits r2); naive_solver. }
    unfold exclusive_roles in H. split; [split|]; apply H; (set_solver || done).
Qed.

(** [CheckRoleConstraints] returns nil exactly when the role bits carry at
    most one of the agent, approver and executor roles (whatever the other five bits),
    and [ErrRolePairForbidden] otherwise. *)
Lemma CheckRoleConstraints_spec bits :
  (roles_ok bits ∧ CheckRoleConstraints bits = Ok tt) ∨
  (¬ roles_ok bits ∧ CheckRoleConstraints bits = Err ErrRolePairForbidden).
Proof.
  rewrite <- CheckRoleConstraints_Ok. unfold CheckRoleConstraints.
  destruct (_ || _); [right|left]; naive_solver.
Qed.

Lemma ValidateCertChainNoClock_loop_Ok cert trusted ps :
  ValidateCertChainNoClock_loop cert trusted ps = Ok tt ↔
  all_signed (ct_TBS cert) ps ∧ Forall (λ p, cp_Key p ∈ trusted) ps.
Proof.
  unfold all_signed. induction ps as [|p ps IH]; cbn [ValidateCertChainNoClock_loop].
  - split; repeat constructor.
  - rewrite check_bind_Ok, VerifySigned_Ok, fail_if_bind_Ok, IH, !Forall_cons.
    rewrite negb_false_iff, inSet_true. naive_solver.
Qed.

Lemma has_role_privileged bits :
  has_role bits (Z.lor RoleApprover RoleExecutor) = privileged bits.
Proof. by destruct bits. Qed.

Lemma chain_valid_iff cert trusted ps :
  CAPairs cert = Ok ps → len ps = b2z (ct_CASigCount cert) →
  ValidateCertChainNoClock cert trusted = Ok tt ↔ chain_valid cert trusted ps.
Proof.
  intros Hps Hlen. unfold ValidateCertChainNoClock.
  rewrite check_bind_Ok, CheckRoleConstraints_Ok, !fail_if_bind_Ok, Hps.
  cbn [mbind res_bind]. rewrite ValidateCertChainNoClock_loop_Ok, has_role_privileged.
  rewrite !andb_false_iff, gtb_false, Z.ltb_ge, <- Hlen. split.
  - intros (Hr & Hq & Hl & Hs & Ht). split; try done.
    + intros Ha. destruct Hq as [Hq|Hq]; [congruence|done].
    + intros Ha. destruct Hl as [Hl|Hl]; [congruence|done].
  - intros [Hr Hq Hl Hs Ht]. split; [done|]. split; [|split; [|done]].
    + destruct (has_role _ RoleApprover); naive_solver.
    + destruct (privileged _); naive_solver.
Qed.

Lemma parsed_chain_valid buf cert trusted :
  ParseCert buf = Ok cert →
  ∃ ps, CAPairs cert = Ok ps ∧
    (ValidateCertChainNoClock cert trusted = Ok tt ↔ chain_valid cert trusted ps).
Proof.
  intros (ps & Hps & Hlen & _)%CAPairs_parsed.
  exists ps. split; [done|]. by apply chain_valid_iff.
Qed.

(** [C13] On every certificate that parses, [ValidateCertChainNoClock] returns
    nil exactly when the role constraints hold, an approver has at least two
    CA signatures, an approver's or executor's lifetime (computed in 64 bits)
    is at most 30 days, every pair signs the certificate and every CA key is
    trusted. *)
Theorem ValidateCertChainNoClock_spec buf cert trusted :
  ParseCert buf = Ok cert →
  ∃ ps, CAPairs cert = Ok ps ∧
    (ValidateCertChainNoClock cert trusted = Ok tt ↔
      roles_ok (ct_RoleBits cert) ∧
      (has_role (ct_RoleBits cert) RoleApprover = true → ApproverQuorum ≤ len ps) ∧
      (privileged (ct_RoleBits cert) = true →
        u64 (ct_NotAfter cert - ct_NotBefore cert) ≤ MaxPrivilegedLifetimeMS) ∧
      Forall (λ p, signed_by DomainCert (ct_TBS cert) (cp_Sig p) (cp_Key p)) ps ∧
      Forall (λ p, cp_Key p ∈ trusted) ps).
Proof.
  intros (ps & Hps & Hv)%(parsed_chain_valid _ _ trusted). exists ps. split; [done|].
  rewrite Hv. split; [intros []|intros (?&?&?&?&?)]; by repeat split.
Qed.

(** [C14] Quorum: an approver certificate that parses and validates carries the
    valid signatures of at least two different trusted CA keys. *)
Theorem approver_quorum buf cert trusted :
  ParseCert buf = Ok cert →
  ValidateCertChainNoClock cert trusted = Ok tt →
  has_role (ct_RoleBits cert) RoleApprover = true →
  ∃ k1 k2 s1 s2, k1 ≠ k2 ∧ k1 ∈ trusted ∧ k2 ∈ trusted ∧
    signed_by DomainCert (ct_TBS cert) s1 k1 ∧ signed_by DomainCert (ct_TBS cert) s2 k2.
Proof.
  intros Hc Hv Ha.
  destruct (CAPairs_parsed buf cert Hc) as (ps & Hps & Hlen & [_ _ Hnd%ascending_NoDup]).
  apply (chain_valid_iff _ _ ps) in Hv as [_ Hq _ Hs Ht]; [|done..].
  specialize (Hq Ha). unfold ApproverQuorum in Hq.
  destruct ps as [|[k1 s1] [|[k2 s2] ps]]; [cbn in Hq; lia..|].
  unfold all_signed in Hs. rewrite !Forall_cons in Hs, Ht. cbn in Hnd.
  exists k1, k2, s1, s2. split; [|naive_solver].
  intros ->. apply NoDup_cons in Hnd as [Hin _]. set_solver.
Qed.

Lemma ParseCert_window buf cert :
  ParseCert buf = Ok cert → in_u64 (ct_NotBefore cert) ∧ in_u64 (ct_NotAfter cert).
Proof. intros (f & ps & [] & _ & _ & H)%ParseCert_cert_of. by rewrite H. Qed.

Lemma ValidateCert_Ok cert trusted now :
  ValidateCert cert trusted now = Ok tt ↔
  ValidateCertChainNoClock cert trusted = Ok tt ∧ ct_NotBefore cert ≤ now < ct_NotAfter cert.
Proof.
  unfold ValidateCert. rewrite check_bind_Ok, fail_if_bind_Ok, orb_false_iff.
  rewrite Z.geb_leb, Z.leb_gt, Z.ltb_ge. naive_solver.
Qed.

(** [C33] A privileged certificate accepted at some time [nowMS] by
    [ValidateCert] has a proper validity window around it, of at most 30 days:
    the 64-bit wrap-around of the lifetime check cannot let a longer or
    inverted window through once the clock is checked. *)
Theorem ValidateCert_window buf cert trusted nowMS :
  ParseCert buf = Ok cert →
  ValidateCert cert trusted nowMS = Ok tt →
  ct_NotBefore cert ≤ nowMS < ct_NotAfter cert ∧
  (privileged (ct_RoleBits cert) = true →
     ct_NotAfter cert - ct_NotBefore cert ≤ MaxPrivilegedLifetimeMS).
Proof.
  intros Hc [Hv Hw]%ValidateCert_Ok. split; [done|]. intros Hp.
  destruct (CAPairs_parsed buf cert Hc) as (ps & Hps & Hlen & _).
  apply (chain_valid_iff _ _ ps) in Hv as [_ _ Hl _ _]; [|done..]. specialize (Hl Hp).
  destruct (ParseCert_window _ _ Hc) as [Hb Ha]. unfold in_u64 in *.
  rewrite u64_small in Hl; [done|unfold in_u64; lia].
Qed.

Lemma ValidateCertChainNoClock_not_Panic buf cert trusted :
  ParseCert buf = Ok cert → ValidateCertChainNoClock cert trusted ≠ Panic.
Proof.
  intros (ps & Hps & _)%CAPairs_parsed. unfold ValidateCertChainNoClock, CheckRoleConstraints.
  rewrite Hps. no_panic. simplify_eq. clear Hps.
  match goal with |- ValidateCertChainNoClock_loop _ _ ?l ≠ _ => rename l into qs end.
  induction qs as [|p qs IH]; [discriminate|]. cbn [ValidateCertChainNoClock_loop].
  no_panic.
Qed.

Lemma VerifyReceipt_not_Panic buf span cert trusted :
  ParseCert buf = Ok cert → VerifyReceipt span cert trusted ≠ Panic.
Proof.
  intros Hc. unfold VerifyReceipt, Span_VerifySig.
  pose proof (ValidateCertChainNoClock_not_Panic buf cert trusted Hc). no_panic.
Qed.

Lemma ValidateCert_not_Panic buf cert trusted now :
  ParseCert buf = Ok cert → ValidateCert cert trusted now ≠ Panic.
Proof.
  intros Hc. unfold ValidateCert.
  pose proof (ValidateCertChainNoClock_not_Panic buf cert trusted Hc). no_panic.
Qed.

(** [C12] [VerifyReceipt] returns nil exactly when the span is signed by its
    executor, the certificate's chain is valid under the trusted set, the
    certificate carries the executor role and the span's executor key, and
    the resource id starts with [bol:<fingerprint of that key>/]. *)
Theorem VerifyReceipt_spec span cert trusted :
  VerifyReceipt span cert trusted = Ok tt ↔
  signed_by DomainSpan (sp_TBS span) (sp_Sig span) (sp_Executor span) ∧
  ValidateCertChainNoClock cert trusted = Ok tt ∧
  has_role (ct_RoleBits cert) RoleExecutor = true ∧
  ct_SigPubkey cert = sp_Executor span ∧
  ∃ rest, sp_ResourceID span =
    s2b "bol:" ++ Fingerprint (sp_Executor span) ++ s2b "/" ++ rest.
Proof.
  unfold VerifyReceipt, Span_VerifySig.
  rewrite !check_bind_Ok, VerifySigned_Ok, !fail_if_Ok, !negb_false_iff.
  rewrite bytes_Equal_true, HasPrefix_true. split.
  - intros (Hs & Hv & Hr & Hk & [rest Hp] & _). rewrite Hk in Hp.
    split_and!; try done. exists rest. by rewrite Hp, <- !(assoc_L (++)).
  - intros (Hs & Hv & Hr & Hk & [rest Hp]). split_and!; try done.
    exists rest. by rewrite Hp, Hk, <- !(assoc_L (++)).
Qed.

End Validate.

(** * Witnesses *)

Definition example_trusted : list bytes := [example_pub 1; example_pub 2].

Lemma ValidateCertChainNoClock_spec_witness :
  let cert := example_cert RoleExecutor 7 in
  ValidateCertChainNoClock cert example_trusted = Ok tt ∧
  ∃ ps, CAPairs cert = Ok ps ∧
    (ValidateCertChainNoClock cert example_trusted = Ok tt ↔
      roles_ok (ct_RoleBits cert) ∧
      (has_role (ct_RoleBits cert) RoleApprover = true → ApproverQuorum ≤ len ps) ∧
      (privileged (ct_RoleBits cert) = true →
        u64 (ct_NotAfter cert - ct_NotBefore cert) ≤ MaxPrivilegedLifetimeMS) ∧
      Forall (λ p, signed_by DomainCert (ct_TBS cert) (cp_Sig p) (cp_Key p)) ps ∧
      Forall (λ p, cp_Key p ∈ example_trusted) ps).
Proof.
  intros cert. split; [vm_compute; reflexivity|].
  apply (ValidateCertChainNoClock_spec (example_cert_bytes RoleExecutor 7)).
  vm_compute; reflexivity.
Defined.

Lemma approver_quorum_witness :
  let cert := example_cert RoleApprover 6 in
  ∃ k1 k2 s1 s2, k1 ≠ k2 ∧ k1 ∈ example_trusted ∧ k2 ∈ example_trusted ∧
    signed_by DomainCert (ct_TBS cert) s1 k1 ∧ signed_by DomainCert (ct_TBS cert) s2 k2.
Proof.
  apply (approver_quorum (example_cert_bytes RoleApprover 6)); vm_compute; reflexivity.
Defined.

Lemma ValidateCert_window_witness :
  let cert := example_cert RoleApprover 6 in
  ct_NotBefore cert ≤ 1700000300000 < ct_NotAfter cert ∧
  (privileged (ct_RoleBits cert) = true →
     ct_NotAfter cert - ct_NotBefore cert ≤ MaxPrivilegedLifetimeMS).
Proof.
  apply (ValidateCert_window (example_cert_bytes RoleApprover 6) _ example_trusted);
    vm_compute; reflexivity.
Defined.




