(* ===== verification/Grant.v ===== *)
(** Grants: [wire/grant.go]. *)

From S2P Require Import Prelude GoBytes Cursor Crypto Toy Span.

Definition LenGrantID : Z := 16.
Definition LenIntentID : Z := 16.
Definition LenActionDigest : Z := 32.

Record Grant : Type := mk_Grant {
  g_Version : byte;
  g_GrantID : bytes;
  g_IntentID : bytes;
  g_Approver : bytes;
  g_Subject : bytes;
  g_Executor : bytes;
  g_ResourceID : bytes;
  g_ActionDigest : bytes;
  g_NotAfter : Z;
  g_TBS : bytes;
  g_Sig : bytes;
}.

Record GrantFields : Type := mk_GrantFields {
  gf_Version : byte;
  gf_GrantID : bytes;
  gf_IntentID : bytes;
  gf_Approver : bytes;
  gf_Subject : bytes;
  gf_Executor : bytes;
  gf_ResourceID : bytes;
  gf_ActionDigest : bytes;
  gf_NotAfter : Z;
}.

(** What Go's array types and [uint64] guarantee. *)
Record GrantFields_wf (f : GrantFields) : Prop := {
  wf_GrantID : len (gf_GrantID f) = LenGrantID;
  wf_IntentID : len (gf_IntentID f) = LenIntentID;
  wf_Approver : len (gf_Approver f) = LenPubkey;
  wf_Subject : len (gf_Subject f) = LenPubkey;
  wf_GrantExecutor : len (gf_Executor f) = LenPubkey;
  wf_ActionDigest : len (gf_ActionDigest f) = LenActionDigest;
  wf_GrantNotAfter : in_u64 (gf_NotAfter f);
}.

Definition ParseGrant (buf : bytes) : res Grant :=
  cur.run (
    version ← cur.u8;
    grantID ← cur.take LenGrantID;
    intentID ← cur.take LenIntentID;
    approver ← cur.take LenPubkey;
    subject ← cur.take LenPubkey;
    executor ← cur.take LenPubkey;
    resourceID ← cur.field16 MaxResource;
    actionDigest ← cur.take LenActionDigest;
    notAfter ← cur.u64be;
    tbs ← slice_from 0;
    sig ← cur.take LenSig;
    cur.at_end;;
    mret (mk_Grant version grantID intentID approver subject executor resourceID
            actionDigest notAfter tbs sig)) buf.

Definition EncodeGrantTBS (f : GrantFields) : res bytes :=
  fail_if (len (gf_ResourceID f) >? MaxResource) ErrFieldBounds;;
  let out := [gf_Version f] in
  let out := out ++ gf_GrantID f in
  let out := out ++ gf_IntentID f in
  let out := out ++ gf_Approver f in
  let out := out ++ gf_Subject f in
  let out := out ++ gf_Executor f in
  let out := AppendUint16 out (u16 (len (gf_ResourceID f))) in
  let out := out ++ gf_ResourceID f in
  let out := out ++ gf_ActionDigest f in
  let out := AppendUint64 out (gf_NotAfter f) in
  mret out.

Definition grant_of (f : GrantFields) (tbs sig : bytes) : Grant :=
  mk_Grant (gf_Version f) (gf_GrantID f) (gf_IntentID f) (gf_Approver f) (gf_Subject f)
    (gf_Executor f) (gf_ResourceID f) (gf_ActionDigest f) (gf_NotAfter f) tbs sig.

Definition grant_format (g : Grant) (b : bytes) : Prop :=
  ∃ f tbs sig, GrantFields_wf f ∧ EncodeGrantTBS f = Ok tbs ∧ len sig = LenSig ∧
    g = grant_of f tbs sig ∧ b = tbs ++ sig.

Lemma EncodeGrantTBS_Ok f tbs :
  EncodeGrantTBS f = Ok tbs ↔
  len (gf_ResourceID f) ≤ MaxResource ∧
  tbs = [gf_Version f] ++ gf_GrantID f ++ gf_IntentID f ++ gf_Approver f ++ gf_Subject f ++
        gf_Executor f ++ be 2 (len (gf_ResourceID f)) ++ gf_ResourceID f ++
        gf_ActionDigest f ++ be 8 (gf_NotAfter f).
Proof.
  unfold EncodeGrantTBS, AppendUint16, AppendUint64.
  rewrite fail_if_bind_Ok, gtb_false.
  assert (len (gf_ResourceID f) ≤ MaxResource →
          u16 (len (gf_ResourceID f)) = len (gf_ResourceID f)) as Hu.
  { intros. apply Z.mod_small. unfold MaxResource in *. lia. }
  rewrite <- ?(assoc_L (++)). cbn [app]. split.
  - intros (Hb & [= <-]). by rewrite Hu.
  - intros [Hb ->]. by rewrite Hu.
Qed.

#[global] Instance ParseGrant_codec : Codec ParseGrant grant_format.
Proof.
  apply Codec_run. eapply Accepts_iff; cycle 1.
  - reads.
  - intros g b. cbv beta. split.
    + intros H. unpack. subst.
      match goal with
      | |- grant_format (mk_Grant ?v ?gi ?ii ?a ?s ?e ?r ?d ?n ?t ?sg) _ =>
          exists (mk_GrantFields v gi ii a s e r d n), t, sg
      end.
      rewrite EncodeGrantTBS_Ok. cbn. split; [by split|].
      split; [split; [done|app_eq]|]. split; [done|]. split; [done|app_eq].
    + intros (f & tbs & sig & [] & [Hr ->]%EncodeGrantTBS_Ok & Hs & -> & ->).
      unfold grant_of. repack.
      all: lazymatch goal with |- mk_Grant _ _ _ _ _ _ _ _ _ _ _ = _ => f_equal | _ => idtac end.
      all: try reflexivity. all: try eassumption. all: app_eq.
Qed.

(** [ParseGrant] accepts exactly what [EncodeGrantTBS] writes for some
    fields followed by a 64-byte signature, and returns those fields, the
    signed bytes and the signature. *)
Lemma ParseGrant_exact buf g :
  ParseGrant buf = Ok g ↔
  ∃ f tbs sig, GrantFields_wf f ∧ EncodeGrantTBS f = Ok tbs ∧ len sig = LenSig ∧
    g = grant_of f tbs sig ∧ buf = tbs ++ sig.
Proof. exact (codec_exact (F := grant_format) buf g). Qed.
