(* ===== verification/Envelope.v ===== *)
(** Envelopes, intents and refusals: [wire/envelope.go]. *)

From S2P Require Import Prelude GoBytes Cursor Crypto Toy Span Cert Grant.

Definition LenChannelID : Z := 32.
Definition LenParent : Z := 32.
Definition MaxParents : Z := 4.
Definition MaxAction : Z := 256 * 1024.
Definition MaxRationale : Z := 4 * 1024.
Definition MaxNote : Z := 1024.
Definition MaxMessage : Z := Z.shiftl 1 20.
Definition MaxHeader : Z := 512.
Definition MaxBody : Z := MaxMessage - MaxHeader.

Definition BodyUtterance : byte := x01.
Definition BodyIntent : byte := x02.
Definition BodyGrant : byte := x03.
Definition BodyEffect : byte := x04.
Definition BodyControl : byte := x05.
Definition BodyRefusal : byte := x06.

(** * Data *)

Record Envelope : Type := mk_Envelope {
  e_Version : byte;
  e_ChannelID : bytes;
  e_Sender : bytes;
  e_Seq : Z;
  e_ParentCount : byte;
  e_Parents : bytes;
  e_Ts : Z;
  e_BodyType : byte;
  e_Body : bytes;
  e_TBS : bytes;
  e_Sig : bytes;
}.

Record Intent : Type := mk_Intent {
  it_IntentID : bytes;
  it_ResourceID : bytes;
  it_Action : bytes;
  it_Rationale : bytes;
}.

Record Refusal : Type := mk_Refusal {
  rf_IntentID : bytes;
  rf_Note : bytes;
  rf_TBS : bytes;
  rf_Sig : bytes;
}.

(** * Parsing *)

Definition ParseEnvelope (buf : bytes) : res Envelope :=
  cur.run (
    version ← cur.u8;
    channelID ← cur.take LenChannelID;
    sender ← cur.take LenPubkey;
    seq ← cur.u64be;
    parentCount ← cur.u8;
    lift (fail_if (b2z parentCount >? MaxParents) ErrOversize);;
    parents ← cur.take (b2z parentCount * LenParent);
    ts ← cur.u64be;
    bodyType ← cur.u8;
    bodyLen ← cur.u32be;
    lift (fail_if (bodyLen >? MaxBody) ErrOversize);;
    body ← cur.take bodyLen;
    tbs ← slice_from 0;
    sig ← cur.take LenSig;
    cur.at_end;;
    mret (mk_Envelope version channelID sender seq parentCount parents ts bodyType body
            tbs sig)) buf.

Definition ParseIntent (buf : bytes) : res Intent :=
  cur.run (
    intentID ← cur.take LenIntentID;
    resourceID ← cur.field16 MaxResource;
    action ← cur.field32 MaxAction;
    rationale ← cur.field16 MaxRationale;
    cur.at_end;;
    mret (mk_Intent intentID resourceID action rationale)) buf.

Definition ParseRefusal (buf : bytes) : res Refusal :=
  cur.run (
    intentID ← cur.take LenIntentID;
    note ← cur.field16 MaxNote;
    tbs ← slice_from 0;
    sig ← cur.take LenSig;
    cur.at_end;;
    mret (mk_Refusal intentID note tbs sig)) buf.

(** * Encoding *)

Definition EncodeIntentBody (it : Intent) : res bytes :=
  fail_if (negb (len (it_IntentID it) =? LenIntentID) || (len (it_ResourceID it) >? MaxResource)
           || (len (it_Action it) >? MaxAction) || (len (it_Rationale it) >? MaxRationale))
    ErrFieldBounds;;
  let out := [] ++ it_IntentID it in
  let out := AppendUint16 out (u16 (len (it_ResourceID it))) in
  let out := out ++ it_ResourceID it in
  let out := AppendUint32 out (u32 (len (it_Action it))) in
  let out := out ++ it_Action it in
  let out := AppendUint16 out (u16 (len (it_Rationale it))) in
  let out := out ++ it_Rationale it in
  mret out.

Section Sign.
Context `{P : Primitives}.

Definition Envelope_VerifySig (e : Envelope) : res unit :=
  VerifySigned DomainEnvelope (e_TBS e) (e_Sig e) (e_Sender e).

Definition Refusal_VerifySigAgainst (r : Refusal) (sender : bytes) : res unit :=
  VerifySigned DomainRefusal (rf_TBS r) (rf_Sig r) sender.

Definition BuildSignedEnvelope (version : byte) (channelID sender : bytes) (seq : Z)
    (parents : bytes) (parentCount : byte) (ts : Z) (bodyType : byte) (body : bytes)
    (sigSeed : bytes) : res bytes :=
  fail_if (negb (len channelID =? LenChannelID) || negb (len sender =? LenPubkey)
           || negb (b2z parentCount * LenParent =? len parents)) ErrFieldBounds;;
  fail_if (len body >? MaxBody) ErrOversize;;
  let out := [version] in
  let out := out ++ channelID in
  let out := out ++ sender in
  let out := AppendUint64 out seq in
  let out := out ++ [parentCount] in
  let out := out ++ parents in
  let out := AppendUint64 out ts in
  let out := out ++ [bodyType] in
  let out := AppendUint32 out (u32 (len body)) in
  let out := out ++ body in
  sig ← SignTaggedSeed DomainEnvelope out sigSeed;
  mret (out ++ sig).

End Sign.

(** * The formats *)

(** The signed part of an envelope. *)
Definition envelope_tbs (e : Envelope) : bytes :=
  [e_Version e] ++ e_ChannelID e ++ e_Sender e ++ be 8 (e_Seq e) ++ [e_ParentCount e] ++
  e_Parents e ++ be 8 (e_Ts e) ++ [e_BodyType e] ++ be 4 (len (e_Body e)) ++ e_Body e.

Record Envelope_wf (e : Envelope) : Prop := {
  wf_ChannelID : len (e_ChannelID e) = LenChannelID;
  wf_Sender : len (e_Sender e) = LenPubkey;
  wf_Seq : in_u64 (e_Seq e);
  wf_ParentCount : b2z (e_ParentCount e) ≤ MaxParents;
  wf_Parents : len (e_Parents e) = b2z (e_ParentCount e) * LenParent;
  wf_Ts : in_u64 (e_Ts e);
  wf_Body : len (e_Body e) ≤ MaxBody;
  wf_EnvelopeSig : len (e_Sig e) = LenSig;
}.

Definition envelope_format (e : Envelope) (b : bytes) : Prop :=
  Envelope_wf e ∧ e_TBS e = envelope_tbs e ∧ b = e_TBS e ++ e_Sig e.

Definition intent_format (it : Intent) (b : bytes) : Prop := EncodeIntentBody it = Ok b.

Record Refusal_wf (r : Refusal) : Prop := {
  wf_RefusalIntentID : len (rf_IntentID r) = LenIntentID;
  wf_Note : len (rf_Note r) ≤ MaxNote;
  wf_RefusalSig : len (rf_Sig r) = LenSig;
}.

Definition refusal_format (r : Refusal) (b : bytes) : Prop :=
  Refusal_wf r ∧ rf_TBS r = rf_IntentID r ++ be 2 (len (rf_Note r)) ++ rf_Note r ∧
  b = rf_TBS r ++ rf_Sig r.

Lemma EncodeIntentBody_Ok it b :
  EncodeIntentBody it = Ok b ↔
  len (it_IntentID it) = LenIntentID ∧ len (it_ResourceID it) ≤ MaxResource ∧
  len (it_Action it) ≤ MaxAction ∧ len (it_Rationale it) ≤ MaxRationale ∧
  b = it_IntentID it ++ be 2 (len (it_ResourceID it)) ++ it_ResourceID it ++
      be 4 (len (it_Action it)) ++ it_Action it ++
      be 2 (len (it_Rationale it)) ++ it_Rationale it.
Proof.
  unfold EncodeIntentBody, AppendUint16, AppendUint32.
  rewrite fail_if_bind_Ok, !orb_false_iff, !gtb_false, negb_false_iff, Z.eqb_eq.
  assert (∀ z, z ≤ MaxRationale → 0 ≤ z → u16 z = z) as Hu.
  { intros. apply Z.mod_small. unfold MaxRationale in *. lia. }
  assert (len (it_Action it) ≤ MaxAction → u32 (len (it_Action it)) = len (it_Action it)) as Ha.
  { intros. apply Z.mod_small. unfold MaxAction in *. lia. }
  rewrite <- ?(assoc_L (++)). cbn [app].
  assert (MaxResource ≤ MaxRationale) by done.
  split.
  - intros ([[[Hi Hr] Hc] Ht] & [= <-]). by rewrite !Hu, Ha by lia.
  - intros (Hi & Hr & Hc & Ht & ->). by rewrite !Hu, Ha by lia.
Qed.

Lemma EncodeIntentBody_not_Panic it : EncodeIntentBody it ≠ Panic.
Proof. unfold EncodeIntentBody. by destruct (_ || _). Qed.

#[global] Instance ParseIntent_codec : Codec ParseIntent intent_format.
Proof.
  apply Codec_run. eapply Accepts_iff; cycle 1.
  - reads.
  - intros it b. cbv beta. unfold intent_format. rewrite EncodeIntentBody_Ok. split.
    + intros H. unpack. subst. cbn. split_and!; try done. app_eq.
    + destruct it; cbn. intros (Hi & Hr & Ha & Ht & ->). repack.
      all: lazymatch goal with |- mk_Intent _ _ _ _ = _ => f_equal | _ => idtac end.
      all: try reflexivity. all: try eassumption. all: app_eq.
Qed.

#[global] Instance ParseRefusal_codec : Codec ParseRefusal refusal_format.
Proof.
  apply Codec_run. eapply Accepts_iff; cycle 1.
  - reads.
  - intros r b. cbv beta. unfold refusal_format. split.
    + intros H. unpack. subst. cbn. split_and!; [by split|app_eq|app_eq].
    + destruct r; cbn. intros ([Hi Hn Hs] & -> & ->). repack.
      all: lazymatch goal with |- mk_Refusal _ _ _ _ = _ => f_equal | _ => idtac end.
      all: try reflexivity. all: try eassumption. all: app_eq.
Qed.

#[global] Instance ParseEnvelope_codec : Codec ParseEnvelope envelope_format.
Proof.
  apply Codec_run. eapply Accepts_iff; cycle 1.
  - reads.
  - intros e b. cbv beta. unfold envelope_format, envelope_tbs. split.
    + intros H. unpack. subst.
      repeat match goal with H : (_ >? _) = false |- _ => apply gtb_false in H end.
      cbn. split_and!; [split; cbn; (done || lia)|app_eq|app_eq].
    + destruct e; cbn. intros ([Hc Hs Hq Hp Hps Ht Hb Hsg] & -> & ->). cbn in *. repack.
      all: lazymatch goal with |- mk_Envelope _ _ _ _ _ _ _ _ _ _ _ = _ => f_equal | _ => idtac end.
      all: try reflexivity. all: try eassumption.
      all: try (apply gtb_false; eassumption).
      * unfold in_u32. change MaxBody with 1048064 in *. lia.
      * app_eq.
      * app_eq.
Qed.

(** * Properties *)

(** [ParseEnvelope] accepts exactly the byte strings that lay out an
    envelope whose fixed fields are full-length, whose parents are as many as
    its count byte says and at most four, and whose body is at most [MaxBody]
    bytes; it returns that envelope, with its signed part. *)
Lemma ParseEnvelope_exact buf e :
  ParseEnvelope buf = Ok e ↔
  Envelope_wf e ∧ e_TBS e = envelope_tbs e ∧ buf = e_TBS e ++ e_Sig e.
Proof. exact (codec_exact (F := envelope_format) buf e). Qed.

(** [ParseIntent] and [EncodeIntentBody] are inverse to each other: one
    accepts a byte string as an intent exactly when the other writes that
    string for that intent, within the same bounds. *)
Lemma ParseIntent_exact buf it : ParseIntent buf = Ok it ↔ EncodeIntentBody it = Ok buf.
Proof. exact (codec_exact (F := intent_format) buf it). Qed.

(** [ParseRefusal] accepts exactly an intent id, a note of at most
    [MaxNote] bytes with its length, and a signature; the signed part is all
    that precedes the signature. *)
Lemma ParseRefusal_exact buf r :
  ParseRefusal buf = Ok r ↔
  Refusal_wf r ∧ rf_TBS r = rf_IntentID r ++ be 2 (len (rf_Note r)) ++ rf_Note r ∧
  buf = rf_TBS r ++ rf_Sig r.
Proof. exact (codec_exact (F := refusal_format) buf r). Qed.

Section Roundtrip.
Context `{P : Primitives} {L : PrimitivesLaws}.

(** What the builder returns parses to an envelope of its arguments. *)
Lemma BuildSignedEnvelope_parses version channelID sender seq parents parentCount ts
    bodyType body sigSeed :
  in_u64 seq → in_u64 ts → b2z parentCount ≤ MaxParents →
  len sigSeed = 32 →
  sender = prim_public (prim_key_from_seed sigSeed) →
  len channelID = LenChannelID →
  len parents = b2z parentCount * LenParent →
  len body ≤ MaxBody →
  ∃ tbs sig,
    let e := mk_Envelope version channelID sender seq parentCount parents ts bodyType body tbs sig in
    BuildSignedEnvelope version channelID sender seq parents parentCount ts bodyType body
      sigSeed = Ok (tbs ++ sig) ∧
    ParseEnvelope (tbs ++ sig) = Ok e ∧ Envelope_VerifySig e = Ok tt.
Proof.
  intros Hseq Hts Hpc Hseed Hsender Hch Hpar Hbody.
  assert (len sender = LenPubkey) as Hsl.
  { subst sender. rewrite length_public; [done|]. apply length_key_from_seed. lia. }
  set (tbs := [version] ++ channelID ++ sender ++ be 8 seq ++ [parentCount] ++ parents ++
                be 8 ts ++ [bodyType] ++ be 4 (len body) ++ body).
  destruct (SignTaggedSeed_signed DomainEnvelope tbs sigSeed) as (sig & Hsig & Hok); [lia|].
  rewrite <- Hsender in Hok.
  exists tbs, sig. cbv zeta. split; [|split; [|by apply VerifySigned_Ok]].
  - unfold BuildSignedEnvelope. rewrite Hch, Hsl, Hpar, !Z.eqb_refl.
    rewrite (proj2 (gtb_false _ _) Hbody). cbn [negb orb fail_if mbind res_bind].
    assert (u32 (len body) = len body) as ->.
    { apply Z.mod_small. change MaxBody with 1048064 in *. lia. }
    cbv zeta. unfold AppendUint64, AppendUint32.
    match goal with
    | |- context [SignTaggedSeed _ ?out _] => assert (out = tbs) as -> by (unfold tbs; app_eq)
    end.
    by rewrite Hsig.
  - apply (codec_exact (F := envelope_format)). split_and!; [|done|done]. destruct Hok as [_ Hs _].
    by split.
Qed.

(** [C36] An envelope built by [BuildSignedEnvelope] for the key of [sigSeed]
    parses back to the values it was built from, and its signature verifies;
    the builder accepts exactly the lengths the parser accepts (for at most
    [MaxParents] parents). *)
Theorem BuildSignedEnvelope_roundtrip version channelID sender seq parents parentCount ts
    bodyType body sigSeed :
  in_u64 seq → in_u64 ts → b2z parentCount ≤ MaxParents →
  len sigSeed = 32 →
  sender = prim_public (prim_key_from_seed sigSeed) →
  len channelID = LenChannelID →
  len parents = b2z parentCount * LenParent →
  len body ≤ MaxBody →
  ∃ wire e,
    BuildSignedEnvelope version channelID sender seq parents parentCount ts bodyType body
      sigSeed = Ok wire ∧
    ParseEnvelope wire = Ok e ∧ Envelope_VerifySig e = Ok tt ∧
    e_Version e = version ∧ e_ChannelID e = channelID ∧ e_Sender e = sender ∧
    e_Seq e = seq ∧ e_Parents e = parents ∧ e_ParentCount e = parentCount ∧
    e_Ts e = ts ∧ e_BodyType e = bodyType ∧ e_Body e = body.
Proof.
  intros Hseq Hts Hpc Hseed Hsender Hch Hpar Hbody.
  destruct (BuildSignedEnvelope_parses version channelID sender seq parents parentCount ts bodyType
    body sigSeed) as (tbs & sig & H1 & H2 & H3); [done..|].
  do 2 eexists. split; [exact H1|]. split; [exact H2|]. by split.
Qed.

End Roundtrip.

Lemma BuildSignedEnvelope_roundtrip_witness :
  let seed := replicate 32 x07 in
  let sender := example_pub 7 in
  ∃ wire e,
    BuildSignedEnvelope x02 (replicate 32 x00) sender 1 (replicate 32 x05) x01 1700000010000
      BodyIntent (s2b "body") seed = Ok wire ∧
    ParseEnvelope wire = Ok e ∧ Envelope_VerifySig e = Ok tt ∧
    e_Version e = x02 ∧ e_ChannelID e = replicate 32 x00 ∧ e_Sender e = sender ∧
    e_Seq e = 1 ∧ e_Parents e = replicate 32 x05 ∧ e_ParentCount e = x01 ∧
    e_Ts e = 1700000010000 ∧ e_BodyType e = BodyIntent ∧ e_Body e = s2b "body".
Proof.
  apply BuildSignedEnvelope_roundtrip; vm_compute; done.
Defined.
