(* ===== verification/Wire.v ===== *)
(** The wire format as a whole: what all six parsers of the package promise
    (the comment at the top of [wire/cursor.go]). *)

From S2P Require Import Prelude GoBytes Cursor Crypto Span Cert Grant Envelope.

(** The structures the package parses. *)
Inductive structure : Type :=
  | SSpan
  | SCert
  | SGrant
  | SEnvelope
  | SIntent
  | SRefusal.

(** The parser of a structure, its result forgotten. *)
Definition parse (k : structure) (buf : bytes) : res unit :=
  match k with
  | SSpan => ParseSpan buf;; mret tt
  | SCert => ParseCert buf;; mret tt
  | SGrant => ParseGrant buf;; mret tt
  | SEnvelope => ParseEnvelope buf;; mret tt
  | SIntent => ParseIntent buf;; mret tt
  | SRefusal => ParseRefusal buf;; mret tt
  end.

(** Any exact parser, its result forgotten, is one for the encodable strings. *)
Lemma Codec_forget {A} (p : bytes → res A) F :
  Codec p F → Codec (λ buf, p buf;; mret tt) (λ _ b, ∃ a, F a b).
Proof.
  intros Hc. split.
  - intros input []. rewrite bind_Ok. setoid_rewrite codec_exact. naive_solver.
  - intros _ b n [a HF] Hn. by rewrite (codec_trunc a b n).
  - intros _ b x [a HF] Hx. by rewrite (codec_trail a b x).
  - intros input. pose proof (codec_total (parse := p) input). by destruct (p input).
Qed.

Lemma parse_codec k : ∃ F : unit → bytes → Prop, Codec (parse k) F.
Proof. destruct k; eexists; apply Codec_forget, _. Qed.

(** [C21] The grammars of grants, envelopes, intents and refusals.  [ParseGrant]
    accepts exactly what [EncodeGrantTBS] writes for some fields followed by a
    64-byte signature; [ParseEnvelope] exactly the layouts of envelopes whose
    fixed fields are full-length, with the number of parents the count byte
    says, at most four, and a body within [MaxBody]; [ParseIntent] exactly what
    [EncodeIntentBody] writes; [ParseRefusal] exactly an intent id, a note with
    its length, at most [MaxNote], and a signature.  Each returns the structure
    laid out, with its signed part. *)
Theorem parsers_exact buf :
  (∀ g, ParseGrant buf = Ok g ↔
    ∃ f tbs sig, GrantFields_wf f ∧ EncodeGrantTBS f = Ok tbs ∧ len sig = LenSig ∧
      g = grant_of f tbs sig ∧ buf = tbs ++ sig) ∧
  (∀ e, ParseEnvelope buf = Ok e ↔
    Envelope_wf e ∧ e_TBS e = envelope_tbs e ∧ buf = e_TBS e ++ e_Sig e) ∧
  (∀ it, ParseIntent buf = Ok it ↔ EncodeIntentBody it = Ok buf) ∧
  (∀ r, ParseRefusal buf = Ok r ↔
    Refusal_wf r ∧ rf_TBS r = rf_IntentID r ++ be 2 (len (rf_Note r)) ++ rf_Note r ∧
    buf = rf_TBS r ++ rf_Sig r).
Proof.
  split_and!; intros;
    [apply ParseGrant_exact|apply ParseEnvelope_exact|apply ParseIntent_exact|
     apply ParseRefusal_exact].
Qed.

(** [C20] Totality and delimitation, of all six parsers.  On every input a parser
    either returns a structure or one of the package's four parse errors; it never
    reads outside the buffer.  And an accepted byte string is [ErrTruncated] when
    cut anywhere and [ErrTrailingBytes] with anything appended, so that no
    encoding is a prefix of another one. *)
Theorem parsers_total k buf :
  (parse k buf = Ok tt ∨
   ∃ e, parse k buf = Err e ∧ e ∈ [ErrTruncated; ErrOversize; ErrTrailingBytes; ErrMalformed]) ∧
  (parse k buf = Ok tt →
   (∀ n, (n < length buf)%nat → parse k (take n buf) = Err ErrTruncated) ∧
   (∀ x, x ≠ [] → parse k (buf ++ x) = Err ErrTrailingBytes)).
Proof.
  destruct (parse_codec k) as [F HF]. split.
  - pose proof (codec_total (parse := parse k) buf) as H.
    destruct (parse k buf) as [[]|e|]; [by left|right|done]. by exists e.
  - intros Hb%(codec_exact (parse := parse k)).
    split; intros; [by apply (codec_trunc tt)|by apply (codec_trail tt)].
Qed.

Lemma parsers_total_witness :
  let buf := example_cert_bytes RoleAgent 5 in
  (∀ n, (n < length buf)%nat → parse SCert (take n buf) = Err ErrTruncated) ∧
  (∀ x, x ≠ [] → parse SCert (buf ++ x) = Err ErrTrailingBytes).
Proof. intros buf. apply (parsers_total SCert buf). vm_compute; reflexivity. Defined.
