(* ===== verification/GrantChain.v ===== *)
(** The grant verification chain: [wire/grantchain.go]. *)

From S2P Require Import Prelude GoBytes Cursor Crypto Toy Span Cert Validate Grant Envelope.

(** * Errors *)

Definition ErrBadVersion : error := errors_New "grant: version != 2 (check 0)".
Definition ErrBadEnvelopeBinding : error :=
  errors_New "grant: not body_type=3, or sender != approver (check 1)".
Definition ErrGrantBadSignature : error :=
  errors_New "grant: signature does not verify (check 2)".
Definition ErrBadApproverCert : error :=
  errors_New "grant: approver cert invalid/wrong-role/not-grant-approver (check 3)".
Definition ErrApproverRevoked : error :=
  errors_New "grant: approver key revoked (check 3, BE-REV-02)".
Definition ErrApproverOutOfScope : error :=
  errors_New "grant: approver scope does not cover resource (check 3a)".
Definition ErrBadSubjectCert : error :=
  errors_New "grant: subject cert invalid/wrong-role/not-grant-subject (check 4)".
Definition ErrSubjectRevoked : error :=
  errors_New "grant: subject key revoked (check 4, BE-REV-02)".
Definition ErrSubjectOutOfScope : error :=
  errors_New "grant: subject scope does not cover resource (check 4a)".
Definition ErrWrongExecutor : error :=
  errors_New "grant: executor != this executor's key (check 5)".
Definition ErrWrongSubject : error :=
  errors_New "grant: subject != pending intent's sender (check 6)".
Definition ErrNoMatchingIntent : error :=
  errors_New "grant: intent_id matches no pending intent (check 7)".
Definition ErrWrongResource : error :=
  errors_New "grant: resource_id != pending intent's canonical (check 8)".
Definition ErrActionDigestMismatch : error :=
  errors_New "grant: BLAKE2s(action) != action_digest (check 9, BE-GRANT-02)".
Definition ErrExpired : error := errors_New "grant: expiry failed (check 10, BE-GRANT-05)".

(** * State *)

Record PendingIntent : Type := mk_PendingIntent {
  pi_IntentID : bytes;
  pi_Sender : bytes;
  pi_ResourceID : bytes;
  pi_Action : bytes;
}.

(** Pointers and the [IsRevoked] hook may be nil: [None]. *)
Record GrantContext : Type := mk_GrantContext {
  EnvelopeBodyType : byte;
  EnvelopeSender : bytes;
  OwnPubkey : bytes;
  TrustedCAs : list bytes;
  ApproverCert : option Cert;
  SubjectCert : option Cert;
  Pending : option PendingIntent;
  NowMS : Z;
  FirstReceipt : Z;
  TMaxSeconds : Z;
  TRecvSeconds : Z;
  IsRevoked : option (bytes → bool);
}.

(** Using the target of a pointer. *)
Definition deref {A} (p : option A) : res A :=
  match p with Some a => Ok a | None => Panic end.

Section GrantChain.
Context `{P : Primitives}.

(** * Expiry *)

Definition checkExpiry (notAfter nowMS firstReceiptMS tMaxS tRecvS : Z) : res unit :=
  let tMaxMS := u64 (tMaxS * 1000) in
  let tRecvMS := u64 (tRecvS * 1000) in
  fail_if (nowMS >=? notAfter) ErrExpired;;
  fail_if (notAfter >? u64 (firstReceiptMS + tMaxMS)) ErrExpired;;
  fail_if (nowMS >? u64 (firstReceiptMS + tRecvMS)) ErrExpired;;
  mret tt.

(** * Scope *)

(** The loop of [certCarriesScope], with [k] iterations left. *)
Fixpoint certCarriesScope_loop (cert : Cert) (scope : bytes) (k : nat) (i : Z) : res bool :=
  match k with
  | O => mret false
  | S k' =>
      let off := i * LenScopeID in
      s ← slice (ct_ScopeIDs cert) off (off + LenScopeID);
      if bytes_Equal s scope then mret true
      else certCarriesScope_loop cert scope k' (i + 1)
  end.

Definition certCarriesScope (cert : Cert) (scope : bytes) : res bool :=
  certCarriesScope_loop cert scope (Z.to_nat (b2z (ct_ScopeCount cert))) 0.

(** [for newEnd > 0 && resourceID[newEnd-1] != '/' { newEnd-- }] *)
Fixpoint previous_slash (resourceID : bytes) (newEnd : nat) : res nat :=
  match newEnd with
  | O => mret O
  | S n =>
      c ← index resourceID (Z.of_nat newEnd - 1);
      if bool_decide (c = x2f) then mret newEnd else previous_slash resourceID n
  end.

(** The outer loop: [None] when the fuel runs out, which never happens with
    as much fuel as [scopeCoversResource] gives it ([scope_loop_spec]). *)
Fixpoint scope_loop (fuel : nat) (cert : Cert) (resourceID : bytes) (end_ : nat)
    : option (res bool) :=
  match fuel with
  | O => None
  | S fuel' =>
      if bool_decide (0 < end_)%nat then
        match
          prefix ← slice resourceID 0 (Z.of_nat end_);
          let h := Blake2s256 prefix in
          h8 ← slice h 0 8;
          certCarriesScope cert h8
        with
        | Ok true => Some (mret true)
        | Ok false =>
            match previous_slash resourceID end_ with
            | Ok O => Some (mret false)
            | Ok (S n) => scope_loop fuel' cert resourceID n
            | Err e => Some (Err e)
            | Panic => Some Panic
            end
        | Err e => Some (Err e)
        | Panic => Some Panic
        end
      else Some (mret false)
  end.

Definition scopeCoversResource (cert : Cert) (resourceID : bytes) : res bool :=
  default Panic (scope_loop (S (length resourceID)) cert resourceID (length resourceID)).

(** * The chain *)

Definition is_revoked (ctx : GrantContext) (key : bytes) : bool :=
  match IsRevoked ctx with Some f => f key | None => false end.

(** [cert.Version >= 3 && !scopeCoversResource(cert, resource)] *)
Definition check_scope (cert : Cert) (resource : bytes) (e : error) : res unit :=
  if b2z (ct_Version cert) >=? 3 then
    covers ← scopeCoversResource cert resource;
    fail_if (negb covers) e
  else mret tt.

Definition VerifyGrant (g : Grant) (ctx : GrantContext) : res unit :=
  (* 0. version *)
  fail_if (negb (bool_decide (g_Version g = x02))) ErrBadVersion;;
  (* 1. envelope binding *)
  fail_if (negb (bool_decide (EnvelopeBodyType ctx = BodyGrant)) ||
           negb (bytes_Equal (EnvelopeSender ctx) (g_Approver g))) ErrBadEnvelopeBinding;;
  (* 2. signature *)
  replace_err (VerifySigned DomainGrant (g_TBS g) (g_Sig g) (g_Approver g))
    ErrGrantBadSignature;;
  (* 3. approver certificate *)
  approver ← deref (ApproverCert ctx);
  replace_err (ValidateCert approver (TrustedCAs ctx) (NowMS ctx)) ErrBadApproverCert;;
  fail_if (negb (has_role (ct_RoleBits approver) RoleApprover)) ErrBadApproverCert;;
  fail_if (negb (bytes_Equal (ct_SigPubkey approver) (g_Approver g))) ErrBadApproverCert;;
  fail_if (is_revoked ctx (ct_SigPubkey approver)) ErrApproverRevoked;;
  (* 3a. approver scope *)
  check_scope approver (g_ResourceID g) ErrApproverOutOfScope;;
  (* 4. subject certificate *)
  subject ← deref (SubjectCert ctx);
  replace_err (ValidateCert subject (TrustedCAs ctx) (NowMS ctx)) ErrBadSubjectCert;;
  fail_if (negb (has_role (ct_RoleBits subject) RoleAgent)) ErrBadSubjectCert;;
  fail_if (negb (bytes_Equal (ct_SigPubkey subject) (g_Subject g))) ErrBadSubjectCert;;
  fail_if (is_revoked ctx (ct_SigPubkey subject)) ErrSubjectRevoked;;
  (* 4a. subject scope *)
  check_scope subject (g_ResourceID g) ErrSubjectOutOfScope;;
  (* 5. executor *)
  fail_if (negb (bytes_Equal (g_Executor g) (OwnPubkey ctx))) ErrWrongExecutor;;
  (* 6..8. the pending intent *)
  pending ← deref (Pending ctx);
  fail_if (negb (bytes_Equal (g_Subject g) (pi_Sender pending))) ErrWrongSubject;;
  fail_if (negb (bytes_Equal (g_IntentID g) (pi_IntentID pending))) ErrNoMatchingIntent;;
  fail_if (negb (bytes_Equal (g_ResourceID g) (pi_ResourceID pending))) ErrWrongResource;;
  (* 9. action digest *)
  let d := Blake2s256 (pi_Action pending) in
  fail_if (negb (bytes_Equal (g_ActionDigest g) d)) ErrActionDigestMismatch;;
  (* 10. expiry *)
  checkExpiry (g_NotAfter g) (NowMS ctx) (FirstReceipt ctx) (TMaxSeconds ctx)
    (TRecvSeconds ctx);;
  mret tt.

(** * What the scope walk decides *)

(** [p] is the resource itself or what precedes one of its slashes. *)
Definition ancestor (p r : bytes) : Prop := p = r ∨ ∃ s, r = p ++ [x2f] ++ s.

(** One of the scope ids is the truncated hash of a non-empty ancestor. *)
Definition covers (ids : list bytes) (r : bytes) : Prop :=
  ∃ p, p ≠ [] ∧ ancestor p r ∧ take 8 (Blake2s256 p) ∈ ids.

Fixpoint chunks (n k : nat) (l : bytes) : list bytes :=
  match k with
  | O => []
  | S k' => take n l :: chunks n k' (drop n l)
  end.

(** The scope ids of a certificate, as a list. *)
Definition scope_ids (cert : Cert) : list bytes :=
  chunks 8 (Z.to_nat (b2z (ct_ScopeCount cert))) (ct_ScopeIDs cert).

(** The flat scope bytes have the length the count byte announces. *)
Definition scopes_wf (cert : Cert) : Prop :=
  len (ct_ScopeIDs cert) = b2z (ct_ScopeCount cert) * LenScopeID.

Lemma ParseCert_scopes_wf buf cert : ParseCert buf = Ok cert → scopes_wf cert.
Proof.
  intros (f & ps & Hf & (_ & Hs & _)%EncodeCertTBS_Ok & _ & H)%ParseCert_cert_of.
  rewrite H. unfold scopes_wf, cert_of, LenScopeID, MaxScope in *; cbn.
  rewrite (length_concat_const _ _ (wf_ScopeIDs _ Hf)), b2z_z2b_small by lia. lia.
Qed.

Lemma certCarriesScope_loop_spec cert scope k pre rest :
  ct_ScopeIDs cert = pre ++ rest → length rest = (8 * k)%nat →
  ∀ i, len pre = i * LenScopeID →
  certCarriesScope_loop cert scope k i = Ok (bool_decide (scope ∈ chunks 8 k rest)).
Proof.
  revert pre rest. induction k as [|k IH]; intros pre rest Hc Hl i Hi; [done|].
  cbn [certCarriesScope_loop chunks].
  assert (slice (ct_ScopeIDs cert) (i * LenScopeID) (i * LenScopeID + LenScopeID)
          = Ok (take 8 rest)) as ->.
  { rewrite Hc, <- (take_drop 8 rest) at 1. unfold LenScopeID in *.
    apply slice_app; [lia|]. rewrite length_take. lia. }
  cbn [mbind res_bind]. destruct (bytes_Equal _ _) eqn:E.
  - apply bytes_Equal_true in E as <-. rewrite bool_decide_true; [done|left].
  - apply bytes_Equal_false in E.
    rewrite (IH (pre ++ take 8 rest) (drop 8 rest)).
    + f_equal. apply bool_decide_ext. rewrite elem_of_cons. naive_solver.
    + by rewrite <- (assoc_L (++)), take_drop.
    + rewrite length_drop. lia.
    + unfold LenScopeID in *. rewrite length_app, length_take. lia.
Qed.

Lemma certCarriesScope_spec cert scope :
  scopes_wf cert → certCarriesScope cert scope = Ok (bool_decide (scope ∈ scope_ids cert)).
Proof.
  intros Hw. unfold scopes_wf, LenScopeID in Hw. pose proof (b2z_range (ct_ScopeCount cert)).
  apply (certCarriesScope_loop_spec cert scope _ [] (ct_ScopeIDs cert)); [done|lia|done].
Qed.

Lemma previous_slash_spec r n :
  (n ≤ length r)%nat →
  (previous_slash r n = Ok O ∧ x2f ∉ take n r) ∨
  ∃ a b, (take n r = a ++ [x2f] ++ b) ∧ (x2f ∉ b) ∧ previous_slash r n = Ok (S (length a)).
Proof.
  induction n as [|n IH]; intros Hn.
  - left. split; [done|]. apply not_elem_of_nil.
  - destruct (lookup_lt_is_Some_2 r n) as [c Hc]; [lia|].
    rewrite (take_S_snoc _ _ _ Hc). cbn [previous_slash].
    assert (index r (Z.of_nat (S n) - 1) = Ok c) as ->.
    { unfold index. rewrite bool_decide_true by lia.
      replace (Z.to_nat (Z.of_nat (S n) - 1)) with n by lia. by rewrite Hc. }
    cbn [mbind res_bind]. case_bool_decide as Hcs.
    + right. subst c. exists (take n r), []. rewrite length_take.
      split_and!; [done|apply not_elem_of_nil|]. unfold mret, res_ret. do 2 f_equal. lia.
    + destruct IH as [[Hp Hin]|(a & b & Ht & Hin & Hp)]; [lia|left|right].
      * split; [done|]. set_solver.
      * exists a, (b ++ [c]). rewrite Ht, <- !(assoc_L (++)). split_and!; [done|set_solver|done].
Qed.

Lemma ancestor_slash p a b :
  x2f ∉ b → ancestor p (a ++ [x2f] ++ b) ↔ p = a ++ [x2f] ++ b ∨ ancestor p a.
Proof.
  intros Hb. split.
  - intros [->|[s Hs]]; [by left|right].
    apply app_eq_inv in Hs as [[k [-> Hk]]|[k [-> Hk]]]; destruct k as [|c k]; cbn in *.
    + left. by rewrite app_nil_r.
    + injection Hk as <- _. right. by exists k.
    + left. by rewrite app_nil_r.
    + injection Hk as <- ->. set_solver.
  - intros [->|[->|[s ->]]]; [by left|right..].
    + by exists b.
    + exists (s ++ [x2f] ++ b). by rewrite <- !(assoc_L (++)).
Qed.

Lemma ancestor_no_slash p r : x2f ∉ r → ancestor p r ↔ p = r.
Proof. intros Hr. split; [|by left]. intros [|[s ->]]; [done|]. set_solver. Qed.

Lemma slice_0 (l : bytes) n : (n ≤ length l)%nat → slice l 0 (Z.of_nat n) = Ok (take n l).
Proof.
  intros Hn. rewrite <- (take_drop n l) at 1. apply (slice_app []); [done|].
  rewrite length_take. cbn. lia.
Qed.

Context {L : PrimitivesLaws}.

(** The walk terminates, within the fuel it is given, and decides [covers]. *)
Lemma scope_loop_spec cert r fuel n :
  scopes_wf cert → (n ≤ length r)%nat → (n < fuel)%nat →
  ∃ b, scope_loop fuel cert r n = Some (Ok b) ∧
       ((b = true) ↔ covers (scope_ids cert) (take n r)).
Proof.
  intros Hw. revert n. induction fuel as [|fuel IH]; intros n Hn Hf; [lia|].
  cbn [scope_loop]. case_bool_decide as Hpos.
  2:{ exists false. split; [done|]. replace n with O by lia. split; [done|].
      intros (p & Hp & Ha & _). rewrite ancestor_no_slash in Ha; [done|].
      apply not_elem_of_nil. }
  rewrite slice_0 by done. cbn [mbind res_bind].
  rewrite (slice_0 _ 8) by (unfold Blake2s256; rewrite length_sum256; lia).
  cbn [mbind res_bind].
  rewrite certCarriesScope_spec by done. case_bool_decide as Hin.
  - exists true. split; [done|]. split; [|done]. intros _.
    exists (take n r). split_and!; [|by left|done].
    intros Hnil%(f_equal length). rewrite length_take in Hnil. cbn in Hnil. lia.
  - destruct (previous_slash_spec r n Hn) as [[-> Hns]|(a & b & Ht & Hns & ->)].
    + exists false. split; [done|]. split; [done|].
      intros (p & _ & Ha & Hp). rewrite ancestor_no_slash in Ha by done. naive_solver.
    + assert (take (length a) r = a) as Hta.
      { assert (length a < n)%nat as Hlt.
        { apply (f_equal length) in Ht. rewrite length_take, !length_app in Ht. cbn in Ht. lia. }
        apply (f_equal (take (length a))) in Ht.
        rewrite take_take, Nat.min_l, take_app_exact in Ht by lia. done. }
      assert (length a < n)%nat as Hlt.
      { apply (f_equal length) in Ht. rewrite length_take, !length_app in Ht. cbn in Ht. lia. }
      destruct (IH (length a)) as (res & Hres & Hiff); [lia..|].
      exists res. split; [done|]. rewrite Hiff, Hta, Ht. unfold covers.
      setoid_rewrite (ancestor_slash _ a b Hns). rewrite Ht in Hin. naive_solver.
Qed.

Lemma scopeCoversResource_Ok cert r :
  scopes_wf cert →
  ∃ b, scopeCoversResource cert r = Ok b ∧ ((b = true) ↔ covers (scope_ids cert) r).
Proof.
  intros Hw. unfold scopeCoversResource.
  destruct (scope_loop_spec cert r (S (length r)) (length r) Hw) as (b & -> & Hb); [lia..|].
  exists b. split; [done|]. by rewrite firstn_all in Hb.
Qed.

(** * Properties of the parts *)

(** [C22] On every certificate that parses, [scopeCoversResource] returns, and
    returns true exactly when one of the certificate's scope ids is the
    8-byte truncated hash of the resource id or of a non-empty part of it that a slash
    ends: the walk strips at segment boundaries only, and a certificate
    without scopes covers nothing. *)
Theorem scopeCoversResource_spec buf cert resourceID :
  ParseCert buf = Ok cert →
  ∃ b, scopeCoversResource cert resourceID = Ok b ∧
    ((b = true) ↔
      ∃ p, p ≠ [] ∧ (p = resourceID ∨ ∃ s, resourceID = p ++ s2b "/" ++ s) ∧
           take 8 (Blake2s256 p) ∈ scope_ids cert).
Proof. intros Hc%ParseCert_scopes_wf. by apply scopeCoversResource_Ok. Qed.

Lemma checkExpiry_Ok na now fr tmax trecv :
  checkExpiry na now fr tmax trecv = Ok tt ↔
  now < na ∧ na ≤ u64 (fr + u64 (tmax * 1000)) ∧ now ≤ u64 (fr + u64 (trecv * 1000)).
Proof.
  unfold checkExpiry. rewrite !fail_if_bind_Ok, !gtb_false, Z.geb_leb, Z.leb_gt. naive_solver.
Qed.

(** [C37] Expiry (BE-GRANT-05): whatever the values, a grant that passes
    [checkExpiry] is not past its end, ends at most [T_max] after first receipt
    and is used at most [T_recv] after it, in exact arithmetic: overflow of
    the 64-bit products and sums can only refuse.  When nothing overflows the
    three conditions are also sufficient; every refusal is [ErrExpired]. *)
Theorem checkExpiry_spec notAfter nowMS firstReceiptMS tMaxS tRecvS :
  0 ≤ firstReceiptMS → 0 ≤ tMaxS → 0 ≤ tRecvS →
  let ok := nowMS < notAfter ∧ notAfter ≤ firstReceiptMS + tMaxS * 1000 ∧
            nowMS ≤ firstReceiptMS + tRecvS * 1000 in
  let r := checkExpiry notAfter nowMS firstReceiptMS tMaxS tRecvS in
  (r = Ok tt → ok) ∧
  (in_u64 (firstReceiptMS + tMaxS * 1000) → in_u64 (firstReceiptMS + tRecvS * 1000) →
     ok → r = Ok tt) ∧
  (r = Ok tt ∨ r = Err ErrExpired).
Proof.
  intros Hf Hm Hr ok r.
  assert (∀ t, 0 ≤ t → u64 (firstReceiptMS + u64 (t * 1000)) ≤ firstReceiptMS + t * 1000) as Hle.
  { intros t Ht. unfold u64.
    pose proof (Z.mod_le (t * 1000) (2 ^ 64)).
    pose proof (Z.mod_pos_bound (t * 1000) (2 ^ 64)).
    pose proof (Z.mod_le (firstReceiptMS + (t * 1000) mod 2 ^ 64) (2 ^ 64)). lia. }
  split; [|split].
  - intros (H1 & H2 & H3)%checkExpiry_Ok. pose proof (Hle _ Hm). pose proof (Hle _ Hr).
    unfold ok. lia.
  - intros Hom Hor (H1 & H2 & H3). apply checkExpiry_Ok. unfold in_u64 in *.
    rewrite !(u64_small (_ * 1000)) by (unfold in_u64; lia).
    rewrite !u64_small by done. done.
  - unfold r, checkExpiry. destruct (nowMS >=? notAfter); [by right|].
    destruct (notAfter >? _); [by right|]. destruct (nowMS >? _); [by right|by left].
Qed.

(** * Properties of the chain *)

(** The checks in the normative order, each with its error. *)
Definition grant_checks (g : Grant) (ctx : GrantContext) (approver subject : Cert)
    (pending : PendingIntent) : list (bool * error) :=
  [(bool_decide (b2z (g_Version g) = 2), ErrBadVersion);
   (bool_decide (EnvelopeBodyType ctx = BodyGrant ∧ EnvelopeSender ctx = g_Approver g),
    ErrBadEnvelopeBinding);
   (bool_decide (signed_by DomainGrant (g_TBS g) (g_Sig g) (g_Approver g)), ErrGrantBadSignature);
   (is_Ok (ValidateCert approver (TrustedCAs ctx) (NowMS ctx)), ErrBadApproverCert);
   (has_role (ct_RoleBits approver) RoleApprover, ErrBadApproverCert);
   (bool_decide (ct_SigPubkey approver = g_Approver g), ErrBadApproverCert);
   (negb (is_revoked ctx (ct_SigPubkey approver)), ErrApproverRevoked);
   ((b2z (ct_Version approver) <? 3) ||
    bool_decide (scopeCoversResource approver (g_ResourceID g) = Ok true), ErrApproverOutOfScope);
   (is_Ok (ValidateCert subject (TrustedCAs ctx) (NowMS ctx)), ErrBadSubjectCert);
   (has_role (ct_RoleBits subject) RoleAgent, ErrBadSubjectCert);
   (bool_decide (ct_SigPubkey subject = g_Subject g), ErrBadSubjectCert);
   (negb (is_revoked ctx (ct_SigPubkey subject)), ErrSubjectRevoked);
   ((b2z (ct_Version subject) <? 3) ||
    bool_decide (scopeCoversResource subject (g_ResourceID g) = Ok true), ErrSubjectOutOfScope);
   (bool_decide (g_Executor g = OwnPubkey ctx), ErrWrongExecutor);
   (bool_decide (g_Subject g = pi_Sender pending), ErrWrongSubject);
   (bool_decide (g_IntentID g = pi_IntentID pending), ErrNoMatchingIntent);
   (bool_decide (g_ResourceID g = pi_ResourceID pending), ErrWrongResource);
   (bool_decide (g_ActionDigest g = Blake2s256 (pi_Action pending)), ErrActionDigestMismatch);
   (is_Ok (checkExpiry (g_NotAfter g) (NowMS ctx) (FirstReceipt ctx) (TMaxSeconds ctx)
             (TRecvSeconds ctx)), ErrExpired)].

(** The context holds certificates that parse, and a pending intent. *)
Definition context_wf (ctx : GrantContext) (approver subject : Cert)
    (pending : PendingIntent) : Prop :=
  ApproverCert ctx = Some approver ∧ SubjectCert ctx = Some subject ∧
  Pending ctx = Some pending ∧
  (∃ b, ParseCert b = Ok approver) ∧ (∃ b, ParseCert b = Ok subject).

Lemma check_scope_fail_if cert r e :
  scopes_wf cert →
  check_scope cert r e =
  fail_if (negb ((b2z (ct_Version cert) <? 3) ||
                 bool_decide (scopeCoversResource cert r = Ok true))) e.
Proof.
  intros Hw. unfold check_scope. rewrite Z.geb_leb, Z.leb_antisym.
  destruct (b2z (ct_Version cert) <? 3); [done|]. cbn [negb orb].
  destruct (scopeCoversResource_Ok cert r Hw) as (b & Hb & _). rewrite Hb. by destruct b.
Qed.

Lemma bytes_Equal_comm a b : bytes_Equal a b = bool_decide (a = b).
Proof. done. Qed.

Lemma is_Ok_signed tag tbs sig pub :
  is_Ok (VerifySigned tag tbs sig pub) = bool_decide (signed_by tag tbs sig pub).
Proof.
  apply eq_true_iff_eq. rewrite is_Ok_true, bool_decide_eq_true.
  setoid_rewrite VerifySigned_Ok. split; [by intros [_ ?]|by exists tt].
Qed.

Lemma has_version_2 b : bool_decide (b = x02) = bool_decide (b2z b = 2).
Proof. by destruct b. Qed.

Lemma binding_check a b x y :
  negb (bool_decide (a = b :> byte)) || negb (bytes_Equal x y)
  = negb (bool_decide (a = b ∧ x = y)).
Proof. unfold bytes_Equal. repeat case_bool_decide; naive_solver. Qed.

Lemma fail_if_congr {A} c c' e (m m' : res A) :
  c = c' → m = m' → (fail_if c e;; m) = (fail_if c' e;; m').
Proof. by intros -> ->. Qed.

Lemma checkExpiry_fail_if na now fr tmax trecv :
  checkExpiry na now fr tmax trecv
  = fail_if (negb (is_Ok (checkExpiry na now fr tmax trecv))) ErrExpired.
Proof.
  unfold checkExpiry. destruct (now >=? na); [done|]. destruct (na >? _); [done|].
  by destruct (now >? _).
Qed.

(** [VerifyGrant] is its list of checks. *)
Lemma VerifyGrant_checks g ctx approver subject pending :
  context_wf ctx approver subject pending →
  VerifyGrant g ctx = first_failure (grant_checks g ctx approver subject pending).
Proof.
  intros (Ha & Hs & Hp & [ba Hba] & [bs Hbs]).
  unfold VerifyGrant, deref. rewrite Ha, Hs, Hp. cbn [mbind res_bind].
  rewrite !replace_err_fail_if by
    (apply VerifySigned_not_Panic || (eapply ValidateCert_not_Panic; eassumption)).
  rewrite !check_scope_fail_if by (eapply ParseCert_scopes_wf; eassumption).
  rewrite checkExpiry_fail_if.
  unfold grant_checks. rewrite <- !check_first.
  rewrite has_version_2, binding_check, !is_Ok_signed.
  repeat (apply fail_if_congr; [by rewrite ?negb_involutive|]). done.
Qed.

(** [C9] [VerifyGrant] runs the checks of BE-GRANT-03 in the normative order
    and answers with the error of the first one that fails, or nil when none does;
    with certificates that parse and a pending intent it never panics. *)
Theorem VerifyGrant_first_failure g ctx approver subject pending :
  context_wf ctx approver subject pending →
  VerifyGrant g ctx = first_failure (grant_checks g ctx approver subject pending) ∧
  VerifyGrant g ctx ≠ Panic.
Proof.
  intros H. rewrite (VerifyGrant_checks _ _ _ _ _ H). split; [done|]. apply first_failure_not_Panic.
Qed.

(** What BE-GRANT-03 asks of an authorized grant, check by check. *)
Record grant_authorized (g : Grant) (ctx : GrantContext) (approver subject : Cert)
    (pending : PendingIntent) : Prop := {
  ga_version : b2z (g_Version g) = 2;
  ga_body_type : EnvelopeBodyType ctx = BodyGrant;
  ga_sender : EnvelopeSender ctx = g_Approver g;
  ga_signed : signed_by DomainGrant (g_TBS g) (g_Sig g) (g_Approver g);
  ga_approver_chain : ValidateCertChainNoClock approver (TrustedCAs ctx) = Ok tt;
  ga_approver_window : ct_NotBefore approver ≤ NowMS ctx < ct_NotAfter approver;
  ga_approver_role : has_role (ct_RoleBits approver) RoleApprover = true;
  ga_approver_key : ct_SigPubkey approver = g_Approver g;
  ga_approver_live : is_revoked ctx (g_Approver g) = false;
  ga_approver_scope : 3 ≤ b2z (ct_Version approver) →
    covers (scope_ids approver) (g_ResourceID g);
  ga_subject_chain : ValidateCertChainNoClock subject (TrustedCAs ctx) = Ok tt;
  ga_subject_window : ct_NotBefore subject ≤ NowMS ctx < ct_NotAfter subject;
  ga_subject_role : has_role (ct_RoleBits subject) RoleAgent = true;
  ga_subject_key : ct_SigPubkey subject = g_Subject g;
  ga_subject_live : is_revoked ctx (g_Subject g) = false;
  ga_subject_scope : 3 ≤ b2z (ct_Version subject) →
    covers (scope_ids subject) (g_ResourceID g);
  ga_executor : g_Executor g = OwnPubkey ctx;
  ga_agent : g_Subject g = pi_Sender pending;
  ga_intent : g_IntentID g = pi_IntentID pending;
  ga_resource : g_ResourceID g = pi_ResourceID pending;
  ga_action : g_ActionDigest g = Blake2s256 (pi_Action pending);
  ga_not_expired : NowMS ctx < g_NotAfter g;
  ga_t_max : g_NotAfter g ≤ u64 (FirstReceipt ctx + u64 (TMaxSeconds ctx * 1000));
  ga_t_recv : NowMS ctx ≤ u64 (FirstReceipt ctx + u64 (TRecvSeconds ctx * 1000));
}.

Lemma scope_check_true cert r :
  scopes_wf cert →
  ((b2z (ct_Version cert) <? 3) || bool_decide (scopeCoversResource cert r = Ok true)) = true ↔
  (3 ≤ b2z (ct_Version cert) → covers (scope_ids cert) r).
Proof.
  intros Hw. rewrite orb_true_iff, Z.ltb_lt, bool_decide_eq_true.
  destruct (scopeCoversResource_Ok cert r Hw) as (b & -> & Hb).
  destruct (Z.lt_ge_cases (b2z (ct_Version cert)) 3); [split; [lia|by left]|].
  rewrite <- Hb. split; [intros [?|[= ->]]; [lia|done]|].
  intros H'. right. f_equal. auto.
Qed.

Lemma is_Ok_unit (m : res unit) : is_Ok m = true ↔ m = Ok tt.
Proof. destruct m as [[]| |]; cbn; naive_solver. Qed.

Lemma VerifyGrant_authorized g ctx approver subject pending :
  context_wf ctx approver subject pending →
  VerifyGrant g ctx = Ok tt ↔ grant_authorized g ctx approver subject pending.
Proof.
  intros Hctx. rewrite (VerifyGrant_checks g ctx _ _ _ Hctx).
  destruct Hctx as (_ & _ & _ & [ba Hba%ParseCert_scopes_wf] & [bs Hbs%ParseCert_scopes_wf]).
  rewrite first_failure_Ok. unfold grant_checks. rewrite !Forall_cons, Forall_nil; cbn [fst].
  rewrite !bool_decide_eq_true, !is_Ok_unit, !ValidateCert_Ok, !negb_true_iff.
  rewrite !scope_check_true, checkExpiry_Ok by done.
  split.
  - intros H. destruct_and! H. split; first [done|congruence|lia].
  - intros []. split_and!; first [done|congruence|lia].
Qed.

(** [C1] [VerifyGrant] authorizes a grant exactly when it is of version 2,
    arrived in a grant envelope of its approver, is signed by the approver, the
    approver and the subject hold trusted certificates valid now, of the
    approver and agent roles, for the grant's keys, not revoked and (from version
    3) with a scope over the resource, the executor is this one, the pending intent
    has the grant's subject, id, resource and (by hash) action, and the expiry
    conditions hold. *)
Theorem VerifyGrant_spec g ctx approver subject pending :
  context_wf ctx approver subject pending →
  VerifyGrant g ctx = Ok tt ↔ grant_authorized g ctx approver subject pending.
Proof. apply VerifyGrant_authorized. Qed.

End GrantChain.

(** * Witnesses *)

Definition example_resource : bytes := s2b "bol:org/app/deploy.log".
Definition example_action : bytes := s2b "apt-get install -y sqlite3".

Definition example_grant_fields : GrantFields :=
  mk_GrantFields x02 (replicate 16 x20) (replicate 16 x0f) (example_pub 6) (example_pub 5)
    (example_pub 7) example_resource (toy.sum256 example_action) 1700000060000.

Definition example_grant : Grant :=
  match EncodeGrantTBS example_grant_fields with
  | Ok tbs => grant_of example_grant_fields tbs
                (toy.sign (example_priv 6) (DomainGrant :: tbs))
  | _ => grant_of example_grant_fields [] []
  end.

Definition example_pending : PendingIntent :=
  mk_PendingIntent (replicate 16 x0f) (example_pub 5) example_resource example_action.

Definition example_context : GrantContext :=
  mk_GrantContext BodyGrant (example_pub 6) (example_pub 7) example_trusted
    (Some (example_cert RoleApprover 6)) (Some (example_cert RoleAgent 5))
    (Some example_pending) 1700000030000 1700000030000 3600 300 None.

Lemma example_context_wf :
  context_wf example_context (example_cert RoleApprover 6) (example_cert RoleAgent 5)
    example_pending.
Proof.
  split_and!; [done..| |].
  - exists (example_cert_bytes RoleApprover 6). vm_compute; reflexivity.
  - exists (example_cert_bytes RoleAgent 5). vm_compute; reflexivity.
Qed.

Lemma scopeCoversResource_spec_witness :
  let cert := example_cert RoleApprover 6 in
  scopeCoversResource cert example_resource = Ok true ∧
  ∃ b, scopeCoversResource cert example_resource = Ok b ∧
    ((b = true) ↔
      ∃ p, p ≠ [] ∧ (p = example_resource ∨ ∃ s, example_resource = p ++ s2b "/" ++ s) ∧
           take 8 (Blake2s256 p) ∈ scope_ids cert).
Proof.
  intros cert. split; [vm_compute; reflexivity|].
  apply (scopeCoversResource_spec (example_cert_bytes RoleApprover 6)).
  vm_compute; reflexivity.
Defined.

Lemma checkExpiry_spec_witness :
  let ok := 1700000030000 < 1700000060000 ∧ 1700000060000 ≤ 1700000030000 + 3600 * 1000 ∧
            1700000030000 ≤ 1700000030000 + 300 * 1000 in
  let r := checkExpiry 1700000060000 1700000030000 1700000030000 3600 300 in
  (r = Ok tt → ok) ∧
  (in_u64 (1700000030000 + 3600 * 1000) → in_u64 (1700000030000 + 300 * 1000) →
     ok → r = Ok tt) ∧
  (r = Ok tt ∨ r = Err ErrExpired).
Proof. apply (checkExpiry_spec 1700000060000); lia. Defined.

Lemma VerifyGrant_first_failure_witness :
  VerifyGrant example_grant example_context =
    first_failure (grant_checks example_grant example_context
      (example_cert RoleApprover 6) (example_cert RoleAgent 5) example_pending) ∧
  VerifyGrant example_grant example_context ≠ Panic.
Proof. apply VerifyGrant_first_failure. exact example_context_wf. Defined.

Lemma VerifyGrant_spec_witness :
  VerifyGrant example_grant example_context = Ok tt ∧
  (VerifyGrant example_grant example_context = Ok tt ↔
    grant_authorized example_grant example_context (example_cert RoleApprover 6)
      (example_cert RoleAgent 5) example_pending).
Proof.
  split; [vm_compute; reflexivity|]. apply VerifyGrant_spec. exact example_context_wf.
Defined.
