(* ===== verification/GrantFlow.v ===== *)
(** A grant on its way: built by the encoders of [wire/encode.go] and [envelope.go],
    taken apart by the parsers, checked by [wire/grantchain.go]. *)

From S2P Require Import Prelude GoBytes Crypto Toy Cursor Span Cert Method Validate Grant Envelope.
From S2P Require Import GrantChain.

Section Flow.
Context `{P : Primitives} {L : PrimitivesLaws}.

(** The approver's answer to a pending intent: a grant for its sender, resource
    and action, at the executor [exec], until [notAfter]. *)
Definition answer (grantID approverPub exec : bytes) (notAfter : Z) (pending : PendingIntent)
    : GrantFields :=
  mk_GrantFields x02 grantID (pi_IntentID pending) approverPub (pi_Sender pending) exec
    (pi_ResourceID pending) (Blake2s256 (pi_Action pending)) notAfter.

(** The envelope it travels in. *)
Definition issue (channelID seed grantID exec : bytes) (seq ts notAfter : Z)
    (pending : PendingIntent) : res bytes :=
  let pub := prim_public (prim_key_from_seed seed) in
  tbs ← EncodeGrantTBS (answer grantID pub exec notAfter pending);
  sig ← SignTaggedSeed DomainGrant tbs seed;
  BuildSignedEnvelope x02 channelID pub seq [] x00 ts BodyGrant (tbs ++ sig) seed.

(** The pending intent that an accepted intent envelope gives. *)
Definition pending_of (e : Envelope) (it : Intent) : PendingIntent :=
  mk_PendingIntent (it_IntentID it) (e_Sender e) (it_ResourceID it) (it_Action it).

(** What the executor puts in the context of a grant that came in the envelope [e]. *)
Definition context_of (e : Envelope) (own : bytes) (cas : list bytes) (approver subject : Cert)
    (pending : PendingIntent) (now first tmax trecv : Z) (revoked : option (bytes → bool))
    : GrantContext :=
  mk_GrantContext (e_BodyType e) (e_Sender e) own cas (Some approver) (Some subject)
    (Some pending) now first tmax trecv revoked.

(** A certificate that lets [key] act in [role] on [resource] now. *)
Record entitled (cert : Cert) (cas : list bytes) (now role : Z) (key resource : bytes)
    (revoked : option (bytes → bool)) : Prop := {
  en_parsed : ∃ buf, ParseCert buf = Ok cert;
  en_chain : ValidateCertChainNoClock cert cas = Ok tt;
  en_window : ct_NotBefore cert ≤ now < ct_NotAfter cert;
  en_role : has_role (ct_RoleBits cert) role = true;
  en_key : ct_SigPubkey cert = key;
  en_scope : 3 ≤ b2z (ct_Version cert) → covers (scope_ids cert) resource;
  en_live : match revoked with Some f => f key = false | None => True end;
}.

Lemma answer_wf grantID pub exec notAfter e it buf :
  ParseEnvelope buf = Ok e → ParseIntent (e_Body e) = Ok it →
  len grantID = LenGrantID → len pub = LenPubkey → len exec = LenPubkey → in_u64 notAfter →
  let f := answer grantID pub exec notAfter (pending_of e it) in
  GrantFields_wf f ∧ len (gf_ResourceID f) ≤ MaxResource.
Proof.
  rewrite (codec_exact (F := envelope_format)), (codec_exact (F := intent_format)).
  intros (He & _) (Hi & Hr & _)%EncodeIntentBody_Ok Hg Hp Hx Hn. destruct He.
  split; [|exact Hr]. split; cbn; try done. unfold Blake2s256. by rewrite length_sum256.
Qed.

(** The encoding of a grant fits an envelope. *)
Lemma length_grant f tbs sig :
  GrantFields_wf f → EncodeGrantTBS f = Ok tbs → len sig = LenSig → len (tbs ++ sig) ≤ MaxBody.
Proof.
  intros [] [Hr ->]%EncodeGrantTBS_Ok Hs.
  unfold LenGrantID, LenIntentID, LenPubkey, LenActionDigest, LenSig, MaxResource in *.
  rewrite !length_app, !length_be. change MaxBody with 1048064. cbn [length]. lia.
Qed.

(** What travels: the envelope parses to one of the approver with the grant in it. *)
Lemma issue_parses channelID seed grantID exec seq ts notAfter pending :
  let pub := prim_public (prim_key_from_seed seed) in
  let f := answer grantID pub exec notAfter pending in
  GrantFields_wf f → len (gf_ResourceID f) ≤ MaxResource →
  length seed = 32%nat → len channelID = LenChannelID → in_u64 seq → in_u64 ts →
  ∃ wire e tbs sig,
    issue channelID seed grantID exec seq ts notAfter pending = Ok wire ∧
    ParseEnvelope wire = Ok e ∧ Envelope_VerifySig e = Ok tt ∧
    e_BodyType e = BodyGrant ∧ e_Sender e = pub ∧
    ParseGrant (e_Body e) = Ok (grant_of f tbs sig) ∧ signed_by DomainGrant tbs sig pub.
Proof.
  intros pub f Hf Hr Hs Hch Hseq Hts.
  assert (∃ tbs, EncodeGrantTBS f = Ok tbs) as [tbs Ht] by (eexists; by apply EncodeGrantTBS_Ok).
  destruct (SignTaggedSeed_signed DomainGrant tbs seed Hs) as (sig & Hsig & Hok).
  assert (len sig = LenSig) as Hls by (by destruct Hok).
  destruct (BuildSignedEnvelope_parses x02 channelID pub seq [] x00 ts BodyGrant (tbs ++ sig) seed)
    as (etbs & esig & Hb & Hp & Hv); try done; [lia|by eapply length_grant|].
  exists (etbs ++ esig). do 3 eexists. split.
  { unfold issue. fold pub f. rewrite Ht; cbn [mbind res_bind]. rewrite Hsig. exact Hb. }
  split; [exact Hp|]. split; [exact Hv|]. split; [done|]. split; [done|]. split; [|exact Hok].
  apply (codec_exact (F := grant_format)). by exists f, tbs, sig.
Qed.

(** [C10] From the intent to its authorization: an approver that answers an intent,
    received in a signed envelope, with a grant for its sender, resource and
    action, produces an envelope that the executor parses, whose signature verifies and
    whose body parses to a grant which [VerifyGrant] authorizes, when both
    certificates entitle their keys and the times are in order.  And the grant
    serves nothing else: wherever it is authorized, the executor is the one named in it,
    and the pending intent has this intent's id, sender, resource and (by hash)
    action. *)
Theorem issued_grant_authorizes buf ei it channelID seed grantID own seq ts notAfter
    approver subject cas now first tmax trecv revoked :
  ParseEnvelope buf = Ok ei → ParseIntent (e_Body ei) = Ok it →
  length seed = 32%nat → len channelID = LenChannelID → len grantID = LenGrantID →
  len own = LenPubkey → in_u64 seq → in_u64 ts → in_u64 notAfter →
  let pub := prim_public (prim_key_from_seed seed) in
  let pending := pending_of ei it in
  entitled approver cas now RoleApprover pub (it_ResourceID it) revoked →
  entitled subject cas now RoleAgent (e_Sender ei) (it_ResourceID it) revoked →
  now < notAfter → notAfter ≤ u64 (first + u64 (tmax * 1000)) →
  now ≤ u64 (first + u64 (trecv * 1000)) →
  ∃ wire e g,
    issue channelID seed grantID own seq ts notAfter pending = Ok wire ∧
    ParseEnvelope wire = Ok e ∧ Envelope_VerifySig e = Ok tt ∧ ParseGrant (e_Body e) = Ok g ∧
    VerifyGrant g (context_of e own cas approver subject pending now first tmax trecv revoked) = Ok tt ∧
    ∀ ctx a s p, context_wf ctx a s p → VerifyGrant g ctx = Ok tt →
      OwnPubkey ctx = own ∧ pi_IntentID p = it_IntentID it ∧ pi_Sender p = e_Sender ei ∧
      pi_ResourceID p = it_ResourceID it ∧ Blake2s256 (pi_Action p) = Blake2s256 (it_Action it).
Proof.
  intros He Hit Hs Hch Hgid Hown Hseq Hts Hna pub pending Ha Hsub Hnow Htm Htr.
  destruct (answer_wf grantID pub own notAfter ei it buf) as [Hf Hr]; try done.
  { unfold pub, LenPubkey. rewrite length_public; [done|]. by apply length_key_from_seed. }
  destruct (issue_parses channelID seed grantID own seq ts notAfter pending Hf Hr Hs Hch Hseq Hts)
    as (wire & e & tbs & sig & Hi & Hp & Hv & Hbt & Hse & Hg & Hok).
  exists wire, e. eexists. split; [exact Hi|]. split; [exact Hp|]. split; [exact Hv|].
  split; [exact Hg|]. split.
  - destruct Ha as [Hpa ? ? ? ? ? ?], Hsub as [Hps ? ? ? ? ? ?].
    apply (VerifyGrant_authorized _ _ approver subject pending).
    + split_and!; [done..|exact Hpa|exact Hps].
    + split; cbn; try done; unfold is_revoked; cbn; by destruct revoked.
  - intros ctx a s p Hctx [] %(VerifyGrant_authorized _ _ a s p Hctx). cbn in *. done.
Qed.

End Flow.

(** * Witness *)

Definition example_intent : Intent :=
  mk_Intent (replicate 16 x0f) example_resource example_action (s2b "release 7").

Definition example_intent_wire : bytes :=
  match
    body ← EncodeIntentBody example_intent;
    BuildSignedEnvelope x02 (replicate 32 x00) (example_pub 5) 1 [] x00 1700000020000 BodyIntent body
      (replicate 32 (z2b 5))
  with Ok b => b | _ => [] end.

Definition example_intent_envelope : Envelope :=
  match ParseEnvelope example_intent_wire with
  | Ok e => e
  | _ => mk_Envelope x00 [] [] 0 x00 [] 0 x00 [] [] []
  end.

Lemma example_entitled role owner :
  role = RoleApprover ∧ owner = 6 ∨ role = RoleAgent ∧ owner = 5 →
  entitled (example_cert role owner) example_trusted 1700000030000 role (example_pub owner)
    example_resource None.
Proof.
  assert (∀ buf cert, ParseCert buf = Ok cert →
    scopeCoversResource cert example_resource = Ok true → covers (scope_ids cert) example_resource) as Hc.
  { intros buf cert Hp Ht. destruct (scopeCoversResource_Ok cert example_resource) as (b & Hb & Hiff).
    - by apply (ParseCert_scopes_wf buf).
    - apply Hiff. congruence. }
  intros [[-> ->]|[-> ->]]; split.
  all: lazymatch goal with
  | |- ∃ _, ParseCert _ = Ok (example_cert ?r ?o) =>
      exists (example_cert_bytes r o); vm_compute; reflexivity
  | |- _ ≤ _ < _ => vm_compute; split; [discriminate|reflexivity]
  | |- _ → covers (scope_ids (example_cert ?r ?o)) _ =>
      intros _; apply (Hc (example_cert_bytes r o)); vm_compute; reflexivity
  | |- _ = _ => vm_compute; reflexivity
  | |- _ => exact I
  end.
Qed.

Lemma issued_grant_authorizes_witness :
  let pending := pending_of example_intent_envelope example_intent in
  ∃ wire e g,
    issue (replicate 32 x00) (replicate 32 (z2b 6)) (replicate 16 x20) (example_pub 7) 1
      1700000030000 1700000060000 pending = Ok wire ∧
    ParseEnvelope wire = Ok e ∧ Envelope_VerifySig e = Ok tt ∧ ParseGrant (e_Body e) = Ok g ∧
    VerifyGrant g (context_of e (example_pub 7) example_trusted (example_cert RoleApprover 6)
      (example_cert RoleAgent 5) pending 1700000030000 1700000030000 3600 300 None) = Ok tt ∧
    ∀ ctx a s p, context_wf ctx a s p → VerifyGrant g ctx = Ok tt →
      OwnPubkey ctx = example_pub 7 ∧ pi_IntentID p = it_IntentID example_intent ∧
      pi_Sender p = e_Sender example_intent_envelope ∧
      pi_ResourceID p = it_ResourceID example_intent ∧
      Blake2s256 (pi_Action p) = Blake2s256 (it_Action example_intent).
Proof.
  apply (issued_grant_authorizes example_intent_wire example_intent_envelope example_intent).
  - vm_compute. reflexivity.
  - vm_compute. reflexivity.
  - reflexivity.
  - reflexivity.
  - reflexivity.
  - vm_compute. reflexivity.
  - split; lia.
  - split; lia.
  - split; lia.
  - apply example_entitled. by left.
  - apply (example_entitled RoleAgent 5). by right.
  - lia.
  - vm_compute. discriminate.
  - vm_compute. discriminate.
Defined.
