(* ===== verification/Noise.v ===== *)
(** The Noise IK handshake of [wire/noise.go]: key derivation, the symmetric
    state, the two messages, and what the initiator and the responder reach. *)

From S2P Require Import Prelude GoBytes Stateful Crypto Toy.

Definition dhLen : Z := 32.
Definition hashLen : Z := 32.
Definition keyLen : Z := 32.
Definition tagLen : Z := 16.
Definition nonceLn : Z := 12.

Definition protocolName : bytes := s2b "Noise_IK_25519_ChaChaPoly_BLAKE2s".

Definition Msg1Size : Z := 144.
Definition Msg2Size : Z := 92.
Definition msg1BeforeMac : Z := 112.
Definition msg2BeforeMac : Z := 60.

Definition off1SenderIndex : Z := 4.
Definition off1Ephemeral : Z := 8.
Definition off1EncStatic : Z := 40.
Definition off1EncTime : Z := 88.
Definition off1Mac1 : Z := 112.
Definition off1Mac2 : Z := 128.

Definition off2SenderIndex : Z := 4.
Definition off2ReceiverIndex : Z := 8.
Definition off2Ephemeral : Z := 12.
Definition off2EncNothing : Z := 44.
Definition off2Mac1 : Z := 60.
Definition off2Mac2 : Z := 76.

Definition mac1Label : bytes := s2b "bolina-mac1-v2".

Definition ErrMac1Failed : error := errors_New "noise: mac1 verification failed".
Definition ErrDecryptFailed : error := errors_New "noise: AEAD decrypt failed".
Definition ErrIdentityPoint : error := errors_New "noise: peer public key is a low-order point".
Definition ErrOutTooSmall : error := errors_New "noise: out too small".
Definition ErrMsg1TooSmall : error := errors_New "noise: msg1 too small".
Definition ErrMsg2TooSmall : error := errors_New "noise: msg2 too small".

(** A zeroed [[n]byte]. *)
Definition zeros (n : Z) : bytes := replicate (Z.to_nat n) x00.

Record HandshakeResult : Type := mk_HandshakeResult {
  SendKey : bytes;
  RecvKey : bytes;
  H : bytes;
}.

Record symmetricState : Type := mk_symmetricState {
  ss_h : bytes;
  ss_ck : bytes;
  ss_k : bytes;
  ss_n : Z;
  ss_hasKey : bool;
}.

Record Initiator : Type := mk_Initiator {
  in_sym : symmetricState;
  in_staticSecret : bytes;
  in_staticPublic : bytes;
  in_ephSecret : bytes;
  in_ephPublic : bytes;
  in_responderStatic : bytes;
  in_re : bytes;
}.

Record Responder : Type := mk_Responder {
  re_sym : symmetricState;
  re_staticSecret : bytes;
  re_staticPublic : bytes;
  re_ephSecret : bytes;
  re_ephPublic : bytes;
  re_re : bytes;
  RemoteStaticPub : bytes;
}.

(** The party whose method runs: what the code reaches through [in.sym] and
    [re.sym]. *)
Class HasSym (S : Type) : Type := {
  get_sym : S → symmetricState;
  set_sym : symmetricState → S → S;
  get_set_sym y s : get_sym (set_sym y s) = y;
}.

#[global] Instance Initiator_sym : HasSym Initiator := {|
  get_sym := in_sym;
  set_sym y p := mk_Initiator y (in_staticSecret p) (in_staticPublic p) (in_ephSecret p)
    (in_ephPublic p) (in_responderStatic p) (in_re p);
  get_set_sym _ _ := eq_refl;
|}.

#[global] Instance Responder_sym : HasSym Responder := {|
  get_sym := re_sym;
  set_sym y p := mk_Responder y (re_staticSecret p) (re_staticPublic p) (re_ephSecret p)
    (re_ephPublic p) (re_re p) (RemoteStaticPub p);
  get_set_sym _ _ := eq_refl;
|}.

Definition on_sym {S A} `{HasSym S} (m : M symmetricState A) : M S A := λ s,
  let '(r, y) := m (get_sym s) in (r, set_sym y s).

Lemma on_sym_Ok {S A} `{HasSym S} (m : M symmetricState A) s a y :
  m (get_sym s) = (Ok a, y) → on_sym m s = (Ok a, set_sym y s).
Proof. unfold on_sym. by intros ->. Qed.

(** Assignments to the fields of a party. *)
Definition in_set_eph (secret : bytes) (p : Initiator) : Initiator :=
  mk_Initiator (in_sym p) (in_staticSecret p) (in_staticPublic p) secret
    (in_ephPublic p) (in_responderStatic p) (in_re p).
Definition in_set_ephPublic (pub : bytes) (p : Initiator) : Initiator :=
  mk_Initiator (in_sym p) (in_staticSecret p) (in_staticPublic p) (in_ephSecret p)
    pub (in_responderStatic p) (in_re p).
Definition in_set_re (k : bytes) (p : Initiator) : Initiator :=
  mk_Initiator (in_sym p) (in_staticSecret p) (in_staticPublic p) (in_ephSecret p)
    (in_ephPublic p) (in_responderStatic p) k.
Definition re_set_eph (secret : bytes) (p : Responder) : Responder :=
  mk_Responder (re_sym p) (re_staticSecret p) (re_staticPublic p) secret
    (re_ephPublic p) (re_re p) (RemoteStaticPub p).
Definition re_set_ephPublic (pub : bytes) (p : Responder) : Responder :=
  mk_Responder (re_sym p) (re_staticSecret p) (re_staticPublic p) (re_ephSecret p)
    pub (re_re p) (RemoteStaticPub p).
Definition re_set_re (k : bytes) (p : Responder) : Responder :=
  mk_Responder (re_sym p) (re_staticSecret p) (re_staticPublic p) (re_ephSecret p)
    (re_ephPublic p) k (RemoteStaticPub p).
Definition re_set_remote (k : bytes) (p : Responder) : Responder :=
  mk_Responder (re_sym p) (re_staticSecret p) (re_staticPublic p) (re_ephSecret p)
    (re_ephPublic p) (re_re p) k.

(** [PutUint64(nb[4:], counter)] in a zeroed [[12]byte]. *)
Definition transportNonce (counter : Z) : bytes :=
  copy_at (zeros nonceLn) 4 (be 8 counter).

(** [b ^ c] *)
Definition xor_byte (b : byte) (c : Z) : byte := z2b (Z.lxor (b2z b) c).

Section Noise.
Context `{P : Primitives}.

(** * Key derivation *)

Definition blake2sSum (data : bytes) : bytes := prim_sum256 data.

(** The loop that fills [ipad] and [opad], with [n] iterations left. *)
Fixpoint pad_loop (n i : nat) (k ipad opad : bytes) : bytes * bytes :=
  match n with
  | O => (ipad, opad)
  | S n' =>
      let b := default x00 (k !! i) in
      pad_loop n' (S i) k (<[i := xor_byte b 0x36]> ipad) (<[i := xor_byte b 0x5c]> opad)
  end.

Definition blockSize : Z := 64.

Definition hmacBlake2s (key data : bytes) : bytes :=
  let k :=
    if len key >? blockSize
    then copy_at (zeros blockSize) 0 (blake2sSum key)
    else copy_at (zeros blockSize) 0 key in
  let '(ipad, opad) :=
    pad_loop (Z.to_nat blockSize) 0 k (zeros blockSize) (zeros blockSize) in
  let inner := blake2sSum (([] ++ ipad) ++ data) in
  let outer := blake2sSum (([] ++ opad) ++ inner) in
  outer.

Definition hkdf2 (ck ikm : bytes) : bytes * bytes :=
  let temp := hmacBlake2s ck ikm in
  let o1 := hmacBlake2s temp [x01] in
  let o2 := hmacBlake2s temp (([] ++ o1) ++ [x02]) in
  (o1, o2).

(** * The symmetric state *)

Definition newSymmetricState : symmetricState :=
  let h := blake2sSum protocolName in
  mk_symmetricState h h (zeros keyLen) 0 false.

Definition mixHash (data : bytes) (s : symmetricState) : symmetricState :=
  mk_symmetricState (blake2sSum (([] ++ ss_h s) ++ data)) (ss_ck s) (ss_k s) (ss_n s)
    (ss_hasKey s).

Definition mixKey (ikm : bytes) (s : symmetricState) : symmetricState :=
  let '(o1, o2) := hkdf2 (ss_ck s) ikm in
  mk_symmetricState (ss_h s) o1 o2 0 true.

(** [s.n++] *)
Definition incr_n (s : symmetricState) : symmetricState :=
  mk_symmetricState (ss_h s) (ss_ck s) (ss_k s) (u64 (ss_n s + 1)) (ss_hasKey s).

(** [chacha20poly1305.New] refuses a key that is not 32 bytes long; the model
    keeps the key itself for the cipher it returns. *)
Definition chacha20poly1305_New (key : bytes) : res bytes :=
  fail_if (negb (len key =? 32)) (errors_New "chacha20poly1305: bad key length");;
  mret key.

Definition aead (s : symmetricState) : res bytes := chacha20poly1305_New (ss_k s).

Definition encryptAndHash (plaintext : bytes) : M symmetricState bytes :=
  s ← get;
  if negb (ss_hasKey s) then
    modify (mixHash plaintext);;
    mret ([] ++ plaintext)
  else
    aead ← try (aead s);
    let nonce := transportNonce (ss_n s) in
    let ct := prim_seal aead nonce plaintext (ss_h s) in
    modify incr_n;;
    modify (mixHash ct);;
    mret ct.

Definition decryptAndHash (ct : bytes) : M symmetricState bytes :=
  s ← get;
  if negb (ss_hasKey s) then
    modify (mixHash ct);;
    mret ([] ++ ct)
  else
    aead ← try (aead s);
    let nonce := transportNonce (ss_n s) in
    match prim_open aead nonce ct (ss_h s) with
    | None => try (Err ErrDecryptFailed)
    | Some pt =>
        modify incr_n;;
        modify (mixHash ct);;
        mret pt
    end.

Definition split (s : symmetricState) : bytes * bytes := hkdf2 (ss_ck s) [].

(** The text of the library's error is never seen: callers replace it. *)
Definition curve25519_X25519 (scalar point : bytes) : res bytes :=
  match prim_x25519 scalar point with
  | Some out => Ok out
  | None => Err (errors_New "curve25519: low order point")
  end.

Definition dh (localSecret remotePub : bytes) : res bytes :=
  out ← replace_err (curve25519_X25519 localSecret remotePub) ErrIdentityPoint;
  mret (copy_at (zeros dhLen) 0 out).

Definition mac1Key (responderSigPub : bytes) : bytes :=
  blake2sSum (mac1Label ++ responderSigPub).

Definition computeMac1 (responderSigPub preceding : bytes) : bytes :=
  let key := mac1Key responderSigPub in
  copy_at (zeros 16) 0 (prim_mac128 key preceding).

(** * The initiator *)

Definition NewInitiator (staticSecret staticPublic responderStatic : bytes) : Initiator :=
  let s := mixHash responderStatic newSymmetricState in
  mk_Initiator s staticSecret staticPublic (zeros dhLen) (zeros dhLen) responderStatic
    (zeros dhLen).

(** A method of the initiator that also writes into [out]. *)
Definition WriteInitiation (senderIndex timestampMS : Z)
    (ephSecret responderSigPub mac2Cookie : bytes) : M (Initiator * bytes) unit :=
  '(_, out) ← get;
  try (fail_if (len out <? Msg1Size) ErrOutTooSmall);;
  on_fst (modify (in_set_eph ephSecret));;
  pub ← try (replace_err (curve25519_X25519 ephSecret prim_basepoint) ErrIdentityPoint);
  '(p, _) ← get;
  let ephPublic := copy_at (in_ephPublic p) 0 pub in
  on_fst (modify (in_set_ephPublic ephPublic));;
  on_snd (copy_to off1Ephemeral ephPublic);;
  on_fst (on_sym (modify (mixHash ephPublic)));;
  (* es *)
  es ← try (dh (in_ephSecret p) (in_responderStatic p));
  on_fst (on_sym (modify (mixKey es)));;
  (* s *)
  encS ← on_fst (on_sym (encryptAndHash (in_staticPublic p)));
  on_snd (copy_to off1EncStatic encS);;
  (* ss *)
  ss ← try (dh (in_staticSecret p) (in_responderStatic p));
  on_fst (on_sym (modify (mixKey ss)));;
  let ts := copy_at (zeros 8) 0 (be 8 timestampMS) in
  encTs ← on_fst (on_sym (encryptAndHash ts));
  on_snd (copy_to off1EncTime encTs);;
  on_snd (store 0 x01);;
  on_snd (store 1 x00);;
  on_snd (store 2 x00);;
  on_snd (store 3 x00);;
  on_snd (put_at off1SenderIndex (be 4 senderIndex));;
  '(_, out) ← get;
  preceding ← try (slice out 0 msg1BeforeMac);
  let m1 := computeMac1 responderSigPub preceding in
  on_snd (copy_to off1Mac1 m1);;
  on_snd (copy_to off1Mac2 mac2Cookie);;
  mret tt.

(** [copy(arr[:], msg[i:])] into a zeroed array of [n] bytes. *)
Definition copy_from (n : Z) (msg : bytes) (i : Z) : res bytes :=
  tail ← slice msg i (len msg);
  mret (copy_at (zeros n) 0 tail).

Definition ReadResponse (msg2 responderSigPub : bytes) : M Initiator unit :=
  try (fail_if (len msg2 <? Msg2Size) ErrMsg2TooSmall);;
  m1in ← try (copy_from 16 msg2 off2Mac1);
  preceding ← try (slice msg2 0 msg2BeforeMac);
  try (fail_if (negb (bytes_Equal (computeMac1 responderSigPub preceding) m1in))
         ErrMac1Failed);;
  e ← try (slice msg2 off2Ephemeral (off2Ephemeral + dhLen));
  p ← get;
  let re := copy_at (in_re p) 0 e in
  modify (in_set_re re);;
  on_sym (modify (mixHash re));;
  (* ee *)
  ee ← try (dh (in_ephSecret p) re);
  on_sym (modify (mixKey ee));;
  (* se *)
  se ← try (dh (in_staticSecret p) re);
  on_sym (modify (mixKey se));;
  payload ← try (slice msg2 off2EncNothing (off2EncNothing + tagLen));
  on_sym (decryptAndHash payload);;
  mret tt.

Definition Initiator_Finalize (p : Initiator) : HandshakeResult :=
  let '(c1, c2) := split (in_sym p) in
  mk_HandshakeResult c1 c2 (ss_h (in_sym p)).

(** * The responder *)

Definition NewResponder (staticSecret staticPublic : bytes) : Responder :=
  let s := mixHash staticPublic newSymmetricState in
  mk_Responder s staticSecret staticPublic (zeros dhLen) (zeros dhLen) (zeros dhLen)
    (zeros dhLen).

Definition ReadInitiation (msg1 responderSigPub : bytes) : M Responder unit :=
  try (fail_if (len msg1 <? Msg1Size) ErrMsg1TooSmall);;
  m1in ← try (copy_from 16 msg1 off1Mac1);
  preceding ← try (slice msg1 0 msg1BeforeMac);
  try (fail_if (negb (bytes_Equal (computeMac1 responderSigPub preceding) m1in))
         ErrMac1Failed);;
  e ← try (slice msg1 off1Ephemeral (off1Ephemeral + dhLen));
  p ← get;
  let re := copy_at (re_re p) 0 e in
  modify (re_set_re re);;
  on_sym (modify (mixHash re));;
  (* es *)
  es ← try (dh (re_staticSecret p) re);
  on_sym (modify (mixKey es));;
  (* s *)
  encS ← try (slice msg1 off1EncStatic (off1EncStatic + dhLen + tagLen));
  staticI ← on_sym (decryptAndHash encS);
  let remote := copy_at (RemoteStaticPub p) 0 staticI in
  modify (re_set_remote remote);;
  (* ss *)
  ss ← try (dh (re_staticSecret p) remote);
  on_sym (modify (mixKey ss));;
  encTs ← try (slice msg1 off1EncTime (off1EncTime + 8 + tagLen));
  on_sym (decryptAndHash encTs);;
  mret tt.

Definition WriteResponse (senderIndex receiverIndex : Z)
    (ephSecret responderSigPub mac2Cookie : bytes) : M (Responder * bytes) unit :=
  '(_, out) ← get;
  try (fail_if (len out <? Msg2Size) ErrOutTooSmall);;
  on_fst (modify (re_set_eph ephSecret));;
  pub ← try (replace_err (curve25519_X25519 ephSecret prim_basepoint) ErrIdentityPoint);
  '(p, _) ← get;
  let ephPublic := copy_at (re_ephPublic p) 0 pub in
  on_fst (modify (re_set_ephPublic ephPublic));;
  on_snd (store 0 x02);;
  on_snd (store 1 x00);;
  on_snd (store 2 x00);;
  on_snd (store 3 x00);;
  on_snd (put_at off2SenderIndex (be 4 senderIndex));;
  on_snd (put_at off2ReceiverIndex (be 4 receiverIndex));;
  on_snd (copy_to off2Ephemeral ephPublic);;
  on_fst (on_sym (modify (mixHash ephPublic)));;
  (* ee *)
  ee ← try (dh (re_ephSecret p) (re_re p));
  on_fst (on_sym (modify (mixKey ee)));;
  (* se *)
  se ← try (dh (re_ephSecret p) (RemoteStaticPub p));
  on_fst (on_sym (modify (mixKey se)));;
  encNothing ← on_fst (on_sym (encryptAndHash []));
  on_snd (copy_to off2EncNothing encNothing);;
  '(_, out) ← get;
  preceding ← try (slice out 0 msg2BeforeMac);
  let m1 := computeMac1 responderSigPub preceding in
  on_snd (copy_to off2Mac1 m1);;
  on_snd (copy_to off2Mac2 mac2Cookie);;
  mret tt.

Definition Responder_Finalize (p : Responder) : HandshakeResult :=
  let '(c1, c2) := split (re_sym p) in
  mk_HandshakeResult c2 c1 (ss_h (re_sym p)).

End Noise.

(** * HMAC *)

Section HMAC.
Context `{P : Primitives} {L : PrimitivesLaws}.

Lemma take_S_insert {A} (l : list A) i x :
  (i < length l)%nat → take (S i) (<[i := x]> l) = take i l ++ [x].
Proof.
  intros Hi. rewrite (take_S_r _ _ x) by (by apply list_lookup_insert_eq).
  by rewrite take_insert_ge by lia.
Qed.

Lemma pad_loop_spec n i k ipad opad :
  length k = (i + n)%nat → length ipad = length k → length opad = length k →
  pad_loop n i k ipad opad =
  (take i ipad ++ map (λ b, xor_byte b 0x36) (drop i k),
   take i opad ++ map (λ b, xor_byte b 0x5c) (drop i k)).
Proof.
  revert i ipad opad. induction n as [|n IH]; intros i ipad opad Hk Hi Ho; cbn [pad_loop].
  - rewrite drop_ge, !take_ge by lia. cbn. by rewrite !app_nil_r.
  - destruct (lookup_lt_is_Some_2 k i) as [b Hb]; [lia|]. rewrite Hb; cbn [default].
    rewrite IH by (rewrite ?length_insert; lia). rewrite (drop_S k b i) by done.
    rewrite !take_S_insert by lia. by rewrite <- !(assoc_L (++)).
Qed.

(** The key, hashed when it is longer than a block, padded with zeros to one. *)
Definition block_key (key : bytes) : bytes :=
  let k := if len key >? blockSize then blake2sSum key else key in
  k ++ replicate (64 - length k) x00.

Lemma copy_at_zeros n src :
  (length src <= Z.to_nat n)%nat →
  copy_at (zeros n) 0 src = src ++ replicate (Z.to_nat n - length src) x00.
Proof.
  intros Hl. unfold copy_at, zeros. rewrite take_0, length_replicate, take_ge by lia.
  by rewrite drop_replicate.
Qed.

Lemma length_block_key key : length (block_key key) = 64%nat.
Proof.
  unfold block_key. destruct (len key >? blockSize) eqn:E; rewrite length_app, length_replicate.
  - unfold blake2sSum. by rewrite length_sum256.
  - apply gtb_false in E. unfold blockSize in E. lia.
Qed.

(** [C38] [hmacBlake2s] is HMAC (RFC 2104) over BLAKE2s-256 with 64-byte blocks:
    the hash of the key block xor 0x5c and of the hash of the key block xor
    0x36 and the data, for keys of every length. *)
Theorem hmacBlake2s_spec key data :
  hmacBlake2s key data =
  prim_sum256 (map (λ b, xor_byte b 0x5c) (block_key key) ++
    prim_sum256 (map (λ b, xor_byte b 0x36) (block_key key) ++ data)).
Proof.
  pose proof (length_block_key key) as Hb.
  unfold hmacBlake2s. cbn [app].
  assert ((if len key >? blockSize then copy_at (zeros blockSize) 0 (blake2sSum key)
           else copy_at (zeros blockSize) 0 key) = block_key key) as ->.
  { unfold block_key. destruct (len key >? blockSize) eqn:E.
    - apply copy_at_zeros. unfold blake2sSum. rewrite length_sum256. unfold blockSize. lia.
    - apply copy_at_zeros. apply gtb_false in E. unfold blockSize in *. lia. }
  rewrite pad_loop_spec; [done|..]; rewrite Hb; done.
Qed.

End HMAC.

(** A key of one byte longer than a block, which is hashed first. *)
Lemma hmacBlake2s_spec_witness :
  let key := replicate 65 x0b in
  let data := s2b "Hi There" in
  block_key key = prim_sum256 key ++ replicate 32 x00 ∧
  hmacBlake2s key data =
    prim_sum256 (map (λ b, xor_byte b 0x5c) (block_key key) ++
      prim_sum256 (map (λ b, xor_byte b 0x36) (block_key key) ++ data)).
Proof.
  split; [vm_compute; reflexivity|].
  exact (hmacBlake2s_spec (replicate 65 x0b) (s2b "Hi There")).
Defined.
