(* ===== verification/Handshake.v ===== *)
(** What the handshake of [Noise.v] achieves: the messages' layout, the
    transcript both parties compute, and the keys they agree on. *)

From S2P Require Import Prelude GoBytes Stateful Crypto Toy Noise.

(** Normalise the fields of a party. *)
Ltac party :=
  cbn [get_sym set_sym Initiator_sym Responder_sym
    in_sym in_staticSecret in_staticPublic in_ephSecret in_ephPublic in_responderStatic in_re
    in_set_eph in_set_ephPublic in_set_re
    re_sym re_staticSecret re_staticPublic re_ephSecret re_ephPublic re_re RemoteStaticPub
    re_set_eph re_set_ephPublic re_set_re re_set_remote NewInitiator NewResponder
    insert list_insert].

(** The ways a call at the head of a computation is known to return. *)
Ltac known_call :=
  first [ reflexivity
        | apply on_snd_Ok
        | apply on_fst_Ok, on_sym_Ok
        | apply on_sym_Ok
        | apply try_Ok ].

(** One step of a computation whose next call is known to return. *)
Ltac step :=
  eapply M_step;
  [known_call|cbv beta iota; party].
Ltac step_outcome :=
  eapply M_step_outcome; [known_call|cbv beta iota; party].

(** The lengths in a segmented buffer. *)
Create Rewrite HintDb seglen.
#[export] Hint Rewrite @app_nil_r @length_app length_be : seglen.
Ltac seg_len :=
  unfold off1SenderIndex, off1Ephemeral, off1EncStatic, off1EncTime, off1Mac1, off1Mac2,
    off2SenderIndex, off2ReceiverIndex, off2Ephemeral, off2EncNothing, off2Mac1, off2Mac2,
    msg1BeforeMac, msg2BeforeMac, dhLen, tagLen;
  cbn [take drop concat app length Z.to_nat insert list_insert];
  autorewrite with seglen; cbn [length]; lia.

Section Handshake.
Context `{P : Primitives} {L : PrimitivesLaws}.

(** * The symmetric state *)

(** A state from which the AEAD can be keyed. *)
Record keyed (s : symmetricState) : Prop := {
  keyed_has : ss_hasKey s = true;
  keyed_len : length (ss_k s) = 32%nat;
}.

(** Sealing [pt] under the state, and the state after it. *)
Definition sealed (pt : bytes) (s : symmetricState) : bytes :=
  prim_seal (ss_k s) (transportNonce (ss_n s)) pt (ss_h s).
Definition advanced (pt : bytes) (s : symmetricState) : symmetricState :=
  mixHash (sealed pt s) (incr_n s).

Lemma length_hmac key data : length (hmacBlake2s key data) = 32%nat.
Proof. unfold hmacBlake2s. destruct (pad_loop _ _ _ _ _). apply length_sum256. Qed.

Lemma keyed_mixKey ikm s : keyed (mixKey ikm s).
Proof. split; [done|]. apply length_hmac. Qed.

Lemma keyed_advanced pt s : keyed s → keyed (advanced pt s).
Proof. by intros []; split. Qed.

Lemma aead_Ok s : keyed s → aead s = Ok (ss_k s).
Proof. intros [_ Hk]. unfold aead, chacha20poly1305_New. by rewrite Hk. Qed.

Lemma encryptAndHash_Ok pt s :
  keyed s → encryptAndHash pt s = (Ok (sealed pt s), advanced pt s).
Proof.
  intros Hs. unfold encryptAndHash. step. rewrite (keyed_has _ Hs).
  cbn [negb]. step; [by apply aead_Ok|]. done.
Qed.

Lemma decryptAndHash_sealed pt s :
  keyed s → decryptAndHash (sealed pt s) s = (Ok pt, advanced pt s).
Proof.
  intros Hs. unfold decryptAndHash. step. rewrite (keyed_has _ Hs).
  cbn [negb]. step; [by apply aead_Ok|].
  unfold sealed. by rewrite open_seal.
Qed.

Lemma length_sealed pt s : length (sealed pt s) = (length pt + 16)%nat.
Proof. apply length_seal. Qed.

Lemma x25519_Ok k p r :
  prim_x25519 k p = Some r → replace_err (curve25519_X25519 k p) ErrIdentityPoint = Ok r.
Proof. unfold curve25519_X25519. by intros ->. Qed.

Lemma dh_Ok k p r :
  length k = 32%nat → length p = 32%nat → prim_x25519 k p = Some r → dh k p = Ok r.
Proof.
  intros Hk Hp Hr. unfold dh. rewrite (x25519_Ok _ _ _ Hr). cbn. rewrite copy_at_fill; [done|].
  unfold zeros. rewrite length_replicate. by apply (length_x25519 k p).
Qed.

Lemma length_computeMac1 pub data : length (computeMac1 pub data) = 16%nat.
Proof. unfold computeMac1. rewrite copy_at_fill; by rewrite ?length_mac128. Qed.

(** * The transcript *)

(** The states of a party along the first message, from the state [s0] of its
    constructor: ephemeral key [e], shared secrets [es] and [ss], initiator
    static [si], timestamp [ts]. *)
Definition before_static (s0 : symmetricState) (e es : bytes) : symmetricState :=
  mixKey es (mixHash e s0).
Definition before_time (s0 : symmetricState) (e es si ss : bytes) : symmetricState :=
  mixKey ss (advanced si (before_static s0 e es)).
Definition after_msg1 (s0 : symmetricState) (e es si ss ts : bytes) : symmetricState :=
  advanced ts (before_time s0 e es si ss).

(** ... and along the second message. *)
Definition before_payload (s1 : symmetricState) (e ee se : bytes) : symmetricState :=
  mixKey se (mixKey ee (mixHash e s1)).
Definition after_msg2 (s1 : symmetricState) (e ee se : bytes) : symmetricState :=
  advanced [] (before_payload s1 e ee se).

(** * The messages *)

Definition msg1_head (idx : Z) (e encS encT : bytes) : bytes :=
  [x01; x00; x00; x00] ++ be 4 idx ++ e ++ encS ++ encT.
Definition msg1 (pub : bytes) (idx : Z) (e encS encT cookie rest : bytes) : bytes :=
  msg1_head idx e encS encT ++ computeMac1 pub (msg1_head idx e encS encT) ++ cookie ++ rest.

Definition msg2_head (idx ridx : Z) (e enc : bytes) : bytes :=
  [x02; x00; x00; x00] ++ be 4 idx ++ be 4 ridx ++ e ++ enc.
Definition msg2 (pub : bytes) (idx ridx : Z) (e enc cookie rest : bytes) : bytes :=
  msg2_head idx ridx e enc ++ computeMac1 pub (msg2_head idx ridx e enc) ++ cookie ++ rest.

End Handshake.

#[export] Hint Rewrite @length_sealed @length_computeMac1 using typeclasses eauto : seglen.

(** Stores at a segment boundary: [copy] into segment [i], four single bytes. *)
Ltac copy_seg i :=
  step; [eapply (copy_to_seg _ i); [reflexivity|autorewrite with seglen; cbn [length]; lia|seg_len]|].
Ltac store_at i := step; [eapply (store_seg _ i); [reflexivity|done|seg_len]|].

Section Messages.
Context `{P : Primitives} {L : PrimitivesLaws}.

Lemma WriteInitiation_Ok p idx ts eph pub cookie out e es ss :
  length (in_staticSecret p) = 32%nat → length (in_staticPublic p) = 32%nat →
  length (in_responderStatic p) = 32%nat → length (in_ephPublic p) = 32%nat →
  length eph = 32%nat → length cookie = 16%nat →
  Msg1Size ≤ len out →
  prim_x25519 eph prim_basepoint = Some e →
  prim_x25519 eph (in_responderStatic p) = Some es →
  prim_x25519 (in_staticSecret p) (in_responderStatic p) = Some ss →
  let s := in_sym p in
  let si := in_staticPublic p in
  let t := be 8 ts in
  WriteInitiation idx ts eph pub cookie (p, out) =
  (Ok tt,
   (set_sym (after_msg1 s e es si ss t) (in_set_ephPublic e (in_set_eph eph p)),
    msg1 pub idx e (sealed si (before_static s e es)) (sealed t (before_time s e es si ss))
      cookie (drop 144 out))).
Proof.
  intros Hsk Hpk Hrs Hep Heph Hck Hout He Hes Hss s si t.
  destruct p as [y sk pk es0 ep rs re].
  cbn [in_staticSecret in_staticPublic in_responderStatic in_ephPublic in_sym] in *. unfold Msg1Size in Hout.
  assert (length e = 32%nat) as Hle
    by (apply (length_x25519 eph prim_basepoint); [done|apply length_basepoint|done]).
  destruct (segments [1;1;1;1;4;32;48;24;16;16]%nat out) as (segs & rest & Hsegs & Hlens).
  { cbn. lia. }
  repeat (let x := fresh "x" in let Hx := fresh "Hx" in
    apply Forall2_cons_inv_l in Hlens as (x & ? & Hx & Hlens & ->)).
  apply Forall2_nil_inv_l in Hlens as ->. cbn [app] in Hsegs.
  assert (drop 144 out = rest) as ->.
  { rewrite Hsegs. cbn [concat]. rewrite app_nil_r, !(assoc_L (++)).
    apply drop_app_exact. rewrite !length_app. lia. }
  rewrite Hsegs.
  unfold WriteInitiation. step. step.
  { unfold Msg1Size. rewrite <- Hsegs. by rewrite (proj2 (Z.ltb_ge _ _)) by lia. }
  step. step; [by apply x25519_Ok|]. step. step. rewrite (copy_at_fill ep) by congruence.
  copy_seg 5%nat. step. step; [by apply dh_Ok|]. step.
  step; [apply encryptAndHash_Ok, keyed_mixKey|].
  copy_seg 6%nat. step; [by apply dh_Ok|]. step.
  rewrite copy_at_fill by (by rewrite length_be).
  step; [apply encryptAndHash_Ok, keyed_mixKey|].
  copy_seg 7%nat. store_at 0%nat. store_at 1%nat. store_at 2%nat. store_at 3%nat.
  step; [eapply (put_at_seg _ 4); [reflexivity|by rewrite length_be|seg_len]|].
  step. step; [apply (slice_segs _ 0 8); seg_len|]. copy_seg 8%nat. copy_seg 9%nat.
  party. cbn [take drop concat]. rewrite !app_nil_r.
  unfold msg1, msg1_head, after_msg1, before_time, before_static. rewrite <- !(assoc_L (++)).
  done.
Qed.

(** A shared secret refused as a low-order point is the only other outcome. *)
Lemma x25519_refused k p :
  prim_x25519 k p = None → replace_err (curve25519_X25519 k p) ErrIdentityPoint = Err ErrIdentityPoint.
Proof. unfold curve25519_X25519. by intros ->. Qed.

Lemma dh_refused k p : prim_x25519 k p = None → dh k p = Err ErrIdentityPoint.
Proof. intros H. unfold dh. by rewrite (x25519_refused _ _ H). Qed.

Lemma WriteInitiation_refused p idx ts eph pub cookie out :
  length (in_staticSecret p) = 32%nat → length (in_staticPublic p) = 32%nat →
  length (in_responderStatic p) = 32%nat → length (in_ephPublic p) = 32%nat →
  length eph = 32%nat → Msg1Size ≤ len out →
  prim_x25519 eph prim_basepoint = None ∨ prim_x25519 eph (in_responderStatic p) = None ∨
  prim_x25519 (in_staticSecret p) (in_responderStatic p) = None →
  (WriteInitiation idx ts eph pub cookie (p, out)).1 = Err ErrIdentityPoint.
Proof.
  intros Hsk Hpk Hrs Hep Heph Hout Hnone. destruct p as [y sk pk es0 ep rs re].
  cbn [in_staticSecret in_staticPublic in_responderStatic in_ephPublic in_sym] in *.
  unfold Msg1Size in Hout. unfold WriteInitiation. step_outcome. step_outcome.
  { unfold Msg1Size. by rewrite (proj2 (Z.ltb_ge _ _)) by lia. }
  step_outcome. destruct (prim_x25519 eph prim_basepoint) as [e|] eqn:He.
  2:{ apply M_fail_outcome. by apply x25519_refused. }
  destruct Hnone as [?|Hnone]; [done|].
  assert (length e = 32%nat) as Hle
    by (apply (length_x25519 eph prim_basepoint); [done|apply length_basepoint|done]).
  step_outcome; [by apply x25519_Ok|]. step_outcome. step_outcome.
  rewrite (copy_at_fill ep) by congruence.
  step_outcome; [apply copy_to_Ok; unfold off1Ephemeral; lia|]. step_outcome.
  destruct (prim_x25519 eph rs) as [es|] eqn:Hes.
  2:{ apply M_fail_outcome. by apply dh_refused. }
  destruct Hnone as [?|Hnone]; [done|].
  step_outcome; [by apply dh_Ok|]. step_outcome.
  step_outcome; [apply encryptAndHash_Ok, keyed_mixKey|].
  step_outcome.
  { apply copy_to_Ok. rewrite length_copy_at; unfold off1EncStatic, off1Ephemeral; lia. }
  apply M_fail_outcome. by apply dh_refused.
Qed.

(** With keys of the right lengths the initiation is written, or refused. *)
Lemma WriteInitiation_not_Panic p idx ts eph pub cookie out :
  length (in_staticSecret p) = 32%nat → length (in_staticPublic p) = 32%nat →
  length (in_responderStatic p) = 32%nat → length (in_ephPublic p) = 32%nat →
  length eph = 32%nat → length cookie = 16%nat → Msg1Size ≤ len out →
  (WriteInitiation idx ts eph pub cookie (p, out)).1 ≠ Panic.
Proof.
  intros Hsk Hpk Hrs Hep Heph Hck Hout.
  destruct (prim_x25519 eph prim_basepoint) as [e|] eqn:He;
    [|by rewrite WriteInitiation_refused by auto].
  destruct (prim_x25519 eph (in_responderStatic p)) as [es|] eqn:Hes;
    [|by rewrite WriteInitiation_refused by auto].
  destruct (prim_x25519 (in_staticSecret p) (in_responderStatic p)) as [ss|] eqn:Hss;
    [|by rewrite WriteInitiation_refused by auto].
  by rewrite (WriteInitiation_Ok _ _ _ _ _ _ _ e es ss).
Qed.

(** The transport keys have the cipher's length. *)
Lemma length_transport_keys p :
  length (SendKey (Initiator_Finalize p)) = 32%nat ∧ length (RecvKey (Initiator_Finalize p)) = 32%nat.
Proof.
  unfold Initiator_Finalize. destruct (split _) as [c1 c2] eqn:E. unfold split, hkdf2 in E.
  injection E as <- <-. split; apply length_hmac.
Qed.

(** ** Reading *)

Lemma copy_from_seg segs k n i x :
  segs !! k = Some x → i = len (concat (take k segs)) → n = len x →
  copy_from n (concat segs) i = Ok x.
Proof.
  intros Hx -> ->. destruct (concat_update segs k x [] Hx) as [-> _]. unfold copy_from.
  set (pre := concat (take k segs)). set (post := concat (drop (S k) segs)).
  assert (slice (pre ++ x ++ post) (len pre) (len (pre ++ x ++ post)) = Ok (x ++ post)) as ->.
  { rewrite <- (app_nil_r (x ++ post)) at 1. apply slice_app; [done|]. rewrite length_app. lia. }
  cbn. unfold copy_at, zeros. rewrite length_replicate, Nat2Z.id, take_0, Nat.sub_0_r.
  rewrite take_app_length, drop_ge; [by rewrite app_nil_r|].
  rewrite length_replicate, length_app. lia.
Qed.

(** Both messages, as segments. *)
Lemma msg1_segs pub idx e encS encT cookie rest :
  msg1 pub idx e encS encT cookie rest =
  concat [[x01; x00; x00; x00]; be 4 idx; e; encS; encT;
          computeMac1 pub (msg1_head idx e encS encT); cookie; rest].
Proof.
  unfold msg1. set (m := computeMac1 _ _). unfold msg1_head. cbn [concat].
  app_eq.
Qed.

Lemma msg2_segs pub idx ridx e enc cookie rest :
  msg2 pub idx ridx e enc cookie rest =
  concat [[x02; x00; x00; x00]; be 4 idx; be 4 ridx; e; enc;
          computeMac1 pub (msg2_head idx ridx e enc); cookie; rest].
Proof.
  unfold msg2. set (m := computeMac1 _ _). unfold msg2_head. cbn [concat].
  app_eq.
Qed.

Lemma ReadInitiation_Ok p pub idx e es si ss t cookie rest :
  length (re_staticSecret p) = 32%nat → length (re_re p) = 32%nat →
  length (RemoteStaticPub p) = 32%nat →
  length e = 32%nat → length si = 32%nat → length t = 8%nat → length cookie = 16%nat →
  prim_x25519 (re_staticSecret p) e = Some es →
  prim_x25519 (re_staticSecret p) si = Some ss →
  let s := re_sym p in
  ReadInitiation
    (msg1 pub idx e (sealed si (before_static s e es)) (sealed t (before_time s e es si ss))
       cookie rest) pub p =
  (Ok tt, set_sym (after_msg1 s e es si ss t) (re_set_remote si (re_set_re e p))).
Proof.
  intros Hsk Hre Hrm He Hsi Ht Hck Hes Hss s.
  destruct p as [y sk pk es0 ep re rm].
  cbn [re_staticSecret re_re RemoteStaticPub re_sym] in *.
  unfold ReadInitiation. rewrite msg1_segs.
  set (head := msg1_head idx e _ _).
  match goal with |- context [concat ?l] => set (segs := l) end.
  step.
  { unfold Msg1Size, segs. rewrite (proj2 (Z.ltb_ge _ _)); [done|seg_len]. }
  step.
  { apply (copy_from_seg _ 5); [reflexivity|unfold segs; seg_len|by rewrite length_computeMac1]. }
  step; [apply (slice_segs segs 0 5); unfold segs; seg_len|].
  step.
  { replace (concat _) with head by (unfold head, msg1_head, segs; cbn [take drop concat]; app_eq).
    by rewrite (proj2 (bytes_Equal_true _ _) eq_refl). }
  step; [apply (slice_seg _ 2 _ _ e); unfold segs; [done|seg_len..]|].
  step. rewrite (copy_at_fill re) by congruence. step. step.
  step; [by apply dh_Ok|]. step.
  step; [eapply (slice_seg _ 3); unfold segs; [reflexivity|seg_len..]|].
  step; [apply decryptAndHash_sealed, keyed_mixKey|].
  rewrite (copy_at_fill rm) by congruence. step.
  step; [by apply dh_Ok|]. step.
  step; [eapply (slice_seg _ 4); unfold segs; [reflexivity|seg_len..]|].
  step; [apply decryptAndHash_sealed, keyed_mixKey|]. done.
Qed.

Lemma WriteResponse_Ok p idx ridx eph pub cookie out e ee se :
  length (re_re p) = 32%nat → length (RemoteStaticPub p) = 32%nat →
  length (re_ephPublic p) = 32%nat → length eph = 32%nat → length cookie = 16%nat →
  Msg2Size ≤ len out →
  prim_x25519 eph prim_basepoint = Some e →
  prim_x25519 eph (re_re p) = Some ee →
  prim_x25519 eph (RemoteStaticPub p) = Some se →
  let s := re_sym p in
  WriteResponse idx ridx eph pub cookie (p, out) =
  (Ok tt,
   (set_sym (after_msg2 s e ee se) (re_set_ephPublic e (re_set_eph eph p)),
    msg2 pub idx ridx e (sealed [] (before_payload s e ee se)) cookie (drop 92 out))).
Proof.
  intros Hre Hrm Hep Heph Hck Hout He Hee Hse s.
  destruct p as [y sk pk es0 ep re rm].
  cbn [re_staticSecret re_re RemoteStaticPub re_sym re_ephPublic] in *. unfold Msg2Size in Hout.
  assert (length e = 32%nat) as Hle
    by (apply (length_x25519 eph prim_basepoint); [done|apply length_basepoint|done]).
  destruct (segments [1;1;1;1;4;4;32;16;16;16]%nat out) as (segs & rest & Hsegs & Hlens).
  { cbn. lia. }
  repeat (let x := fresh "x" in let Hx := fresh "Hx" in
    apply Forall2_cons_inv_l in Hlens as (x & ? & Hx & Hlens & ->)).
  apply Forall2_nil_inv_l in Hlens as ->. cbn [app] in Hsegs.
  assert (drop 92 out = rest) as ->.
  { rewrite Hsegs. cbn [concat]. rewrite app_nil_r, !(assoc_L (++)).
    apply drop_app_exact. rewrite !length_app. lia. }
  rewrite Hsegs.
  unfold WriteResponse. step. step.
  { unfold Msg2Size. rewrite <- Hsegs. by rewrite (proj2 (Z.ltb_ge _ _)) by lia. }
  step. step; [by apply x25519_Ok|]. step. step. rewrite (copy_at_fill ep) by congruence.
  store_at 0%nat. store_at 1%nat. store_at 2%nat. store_at 3%nat.
  step; [eapply (put_at_seg _ 4); [reflexivity|by rewrite length_be|seg_len]|].
  step; [eapply (put_at_seg _ 5); [reflexivity|by rewrite length_be|seg_len]|].
  copy_seg 6%nat. step. step; [by apply dh_Ok|]. step. step; [by apply dh_Ok|]. step.
  step; [apply encryptAndHash_Ok, keyed_mixKey|].
  copy_seg 7%nat. step. step; [apply (slice_segs _ 0 8); seg_len|].
  copy_seg 8%nat. copy_seg 9%nat.
  party. cbn [take drop concat]. rewrite !app_nil_r.
  unfold msg2, msg2_head, after_msg2, before_payload. rewrite <- !(assoc_L (++)).
  done.
Qed.

Lemma ReadResponse_Ok p pub idx ridx e ee se cookie rest :
  length (in_ephSecret p) = 32%nat → length (in_staticSecret p) = 32%nat →
  length (in_re p) = 32%nat → length e = 32%nat → length cookie = 16%nat →
  prim_x25519 (in_ephSecret p) e = Some ee →
  prim_x25519 (in_staticSecret p) e = Some se →
  let s := in_sym p in
  ReadResponse (msg2 pub idx ridx e (sealed [] (before_payload s e ee se)) cookie rest) pub p =
  (Ok tt, set_sym (after_msg2 s e ee se) (in_set_re e p)).
Proof.
  intros Heph Hsk Hre He Hck Hee Hse s.
  destruct p as [y sk pk eph ep rs re].
  cbn [in_ephSecret in_staticSecret in_re in_sym] in *.
  unfold ReadResponse. rewrite msg2_segs.
  set (head := msg2_head idx ridx e _).
  match goal with |- context [concat ?l] => set (segs := l) end.
  step.
  { unfold Msg2Size, segs. rewrite (proj2 (Z.ltb_ge _ _)); [done|seg_len]. }
  step.
  { apply (copy_from_seg _ 5); [reflexivity|unfold segs; seg_len|by rewrite length_computeMac1]. }
  step; [apply (slice_segs segs 0 5); unfold segs; seg_len|].
  step.
  { replace (concat _) with head by (unfold head, msg2_head, segs; cbn [take drop concat]; app_eq).
    by rewrite (proj2 (bytes_Equal_true _ _) eq_refl). }
  step; [apply (slice_seg _ 3 _ _ e); unfold segs; [done|seg_len..]|].
  step. rewrite (copy_at_fill re) by congruence. step. step.
  step; [by apply dh_Ok|]. step. step; [by apply dh_Ok|]. step.
  step; [eapply (slice_seg _ 4); unfold segs; [reflexivity|seg_len..]|].
  step; [apply decryptAndHash_sealed, keyed_mixKey|]. done.
Qed.

End Messages.

(** * Agreement *)

(** The length of a whole message. *)
Ltac seg_total :=
  unfold msg1, msg1_head, msg2, msg2_head, dhLen, tagLen;
  rewrite ?length_app, ?length_sealed, ?length_computeMac1, ?length_drop, ?length_be;
  cbn [length]; lia.

Section Agreement.
Context `{P : Primitives} {L : PrimitivesLaws}.

(** Key pairs of the four keys of a handshake, none of whose shared secrets is
    refused as a low-order point. *)
Record parties (sI pI sR pR eI qI eR qR : bytes) : Prop := {
  p_sI : length sI = 32%nat;
  p_sR : length sR = 32%nat;
  p_eI : length eI = 32%nat;
  p_eR : length eR = 32%nat;
  p_pI : prim_x25519 sI prim_basepoint = Some pI;
  p_pR : prim_x25519 sR prim_basepoint = Some pR;
  p_qI : prim_x25519 eI prim_basepoint = Some qI;
  p_qR : prim_x25519 eR prim_basepoint = Some qR;
  p_es : prim_x25519 eI pR ≠ None;
  p_ss : prim_x25519 sI pR ≠ None;
  p_ee : prim_x25519 eR qI ≠ None;
  p_se : prim_x25519 eR pI ≠ None;
}.

Lemma length_pair s p :
  length s = 32%nat → prim_x25519 s prim_basepoint = Some p → length p = 32%nat.
Proof. intros Hs Hp. by apply (length_x25519 s prim_basepoint); [|apply length_basepoint|]. Qed.

(** An honest run: every step succeeds, both parties end with the same symmetric
    state, and the messages announce the indices. *)
Lemma handshake_run sI pI sR pR eI qI eR qR sigR idxI idxR ts cookie1 cookie2 out1 out2 :
  parties sI pI sR pR eI qI eR qR →
  length cookie1 = 16%nat → length cookie2 = 16%nat →
  Msg1Size ≤ len out1 → Msg2Size ≤ len out2 →
  ∃ I1 m1 R1 R2 m2 I2,
    WriteInitiation idxI ts eI sigR cookie1 (NewInitiator sI pI pR, out1) = (Ok tt, (I1, m1)) ∧
    ReadInitiation m1 sigR (NewResponder sR pR) = (Ok tt, R1) ∧
    WriteResponse idxR idxI eR sigR cookie2 (R1, out2) = (Ok tt, (R2, m2)) ∧
    ReadResponse m2 sigR I1 = (Ok tt, I2) ∧
    RemoteStaticPub R2 = pI ∧ in_sym I2 = re_sym R2 ∧
    (∃ body, m1 = [x01; x00; x00; x00] ++ be 4 idxI ++ body) ∧ length m1 = length out1 ∧
    (∃ body, m2 = [x02; x00; x00; x00] ++ be 4 idxR ++ be 4 idxI ++ body) ∧
    length m2 = length out2.
Proof.
  intros [HsI HsR HeI HeR HpI HpR HqI HqR Hes Hss Hee Hse] Hc1 Hc2 Ho1 Ho2.
  pose proof (length_pair _ _ HsI HpI). pose proof (length_pair _ _ HsR HpR).
  pose proof (length_pair _ _ HeI HqI). pose proof (length_pair _ _ HeR HqR).
  destruct (prim_x25519 eI pR) as [es|] eqn:Ees; [|done].
  destruct (prim_x25519 sI pR) as [ss|] eqn:Ess; [|done].
  destruct (prim_x25519 eR qI) as [ee|] eqn:Eee; [|done].
  destruct (prim_x25519 eR pI) as [se|] eqn:Ese; [|done].
  assert (prim_x25519 sR qI = Some es) by (by rewrite <- (x25519_agree eI sR qI pR)).
  assert (prim_x25519 sR pI = Some ss) by (by rewrite <- (x25519_agree sI sR pI pR)).
  assert (prim_x25519 eI qR = Some ee) by (by rewrite (x25519_agree eI eR qI qR)).
  assert (prim_x25519 sI qR = Some se) by (by rewrite (x25519_agree sI eR pI qR)).
  set (I0 := NewInitiator sI pI pR). set (R0 := NewResponder sR pR).
  pose proof (WriteInitiation_Ok I0 idxI ts eI sigR cookie1 out1 qI es ss) as W1.
  pose proof (ReadInitiation_Ok R0 sigR idxI qI es pI ss (be 8 ts) cookie1 (drop 144 out1)) as D1.
  set (s1 := after_msg1 (mixHash pR newSymmetricState) qI es pI ss (be 8 ts)).
  pose proof (WriteResponse_Ok (mk_Responder s1 sR pR (zeros dhLen) (zeros dhLen) qI pI)
    idxR idxI eR sigR cookie2 out2 qR ee se) as W2.
  pose proof (ReadResponse_Ok (mk_Initiator s1 sI pI eI qI pR (zeros dhLen))
    sigR idxR idxI qR ee se cookie2 (drop 92 out2)) as D2.
  revert W1 D1 W2 D2. unfold I0, R0. party. intros W1 D1 W2 D2.
  do 6 eexists. split; [by apply W1|]. split; [apply D1; (done || apply length_be)|].
  split; [by apply W2|]. split; [by apply D2|].
  unfold Msg1Size, Msg2Size in *. split_and!; [done|party; done|..].
  - eexists. unfold msg1, msg1_head. by rewrite <- !(assoc_L (++)).
  - seg_total.
  - eexists. unfold msg2, msg2_head. by rewrite <- !(assoc_L (++)).
  - seg_total.
Qed.


(** [C8] Agreement: when both parties use their own key pairs and the initiator
    knows the responder's public keys, the two messages are accepted on the
    other side, the responder learns the initiator's static key, each
    party's sending key is the other's receiving key, and both hold the same
    transcript hash, whatever the indices, the timestamp and the cookies. *)
Theorem handshake_agreement sI pI sR pR eI qI eR qR sigR idxI idxR ts cookie1 cookie2
    out1 out2 :
  parties sI pI sR pR eI qI eR qR →
  length cookie1 = 16%nat → length cookie2 = 16%nat →
  Msg1Size ≤ len out1 → Msg2Size ≤ len out2 →
  ∃ I1 m1 R1 R2 m2 I2,
    WriteInitiation idxI ts eI sigR cookie1 (NewInitiator sI pI pR, out1) = (Ok tt, (I1, m1)) ∧
    ReadInitiation m1 sigR (NewResponder sR pR) = (Ok tt, R1) ∧
    WriteResponse idxR idxI eR sigR cookie2 (R1, out2) = (Ok tt, (R2, m2)) ∧
    ReadResponse m2 sigR I1 = (Ok tt, I2) ∧
    RemoteStaticPub R2 = pI ∧
    SendKey (Initiator_Finalize I2) = RecvKey (Responder_Finalize R2) ∧
    RecvKey (Initiator_Finalize I2) = SendKey (Responder_Finalize R2) ∧
    H (Initiator_Finalize I2) = H (Responder_Finalize R2).
Proof.
  intros Hp Hc1 Hc2 Ho1 Ho2.
  destruct (handshake_run _ _ _ _ _ _ _ _ sigR idxI idxR ts cookie1 cookie2 out1 out2 Hp Hc1 Hc2 Ho1 Ho2)
    as (I1 & m1 & R1 & R2 & m2 & I2 & H1 & H2 & H3 & H4 & Hr & Hsym & _).
  exists I1, m1, R1, R2, m2, I2. split_and!; [done..| | |];
    unfold Initiator_Finalize, Responder_Finalize; rewrite Hsym; by destruct (split _).
Qed.

End Agreement.

(** * Messages from the network *)

Section Hostile.
Context `{P : Primitives}.

Lemma copy_from_eq n i msg : 0 ≤ i ≤ len msg → Z.of_nat (Z.to_nat n) = n → i + n ≤ len msg →
  copy_from n msg i = Ok (take (Z.to_nat n) (drop (Z.to_nat i) msg)).
Proof.
  intros Hi Hn Hl. set (x := take (Z.to_nat n) (drop (Z.to_nat i) msg)).
  assert (length x = Z.to_nat n) as Hx by (unfold x; rewrite length_take, length_drop; lia).
  set (k := drop (Z.to_nat n) (drop (Z.to_nat i) msg)).
  assert (msg = concat [take (Z.to_nat i) msg; x; k]) as Hmsg.
  { cbn [concat]. rewrite app_nil_r. unfold x, k. by rewrite !take_drop. }
  rewrite Hmsg. apply (copy_from_seg _ 1); [done| |lia].
  cbn [take concat]. rewrite app_nil_r, length_take. lia.
Qed.

Lemma slice_take msg j : 0 ≤ j ≤ len msg → slice msg 0 j = Ok (take (Z.to_nat j) msg).
Proof. intros H. unfold slice. rewrite bool_decide_true by lia. by rewrite Z.sub_0_r. Qed.

Lemma mac1_differs pub preceding m1in :
  m1in ≠ computeMac1 pub preceding → bytes_Equal (computeMac1 pub preceding) m1in = false.
Proof. intros H. apply bytes_Equal_false. congruence. Qed.

(** [C23] DoS proof first: a message that is too short, or whose mac1 field is not
    the keyed hash of the bytes before it, is refused by its reader before the
    reader's state changes: no key is mixed and nothing is decrypted. *)
Theorem mac1_first msg pub :
  (∀ p, len msg < Msg1Size → ReadInitiation msg pub p = (Err ErrMsg1TooSmall, p)) ∧
  (∀ p, Msg1Size ≤ len msg → take 16 (drop 112 msg) ≠ computeMac1 pub (take 112 msg) →
   ReadInitiation msg pub p = (Err ErrMac1Failed, p)) ∧
  (∀ p, len msg < Msg2Size → ReadResponse msg pub p = (Err ErrMsg2TooSmall, p)) ∧
  (∀ p, Msg2Size ≤ len msg → take 16 (drop 60 msg) ≠ computeMac1 pub (take 60 msg) →
   ReadResponse msg pub p = (Err ErrMac1Failed, p)).
Proof.
  unfold ReadInitiation, ReadResponse, Msg1Size, Msg2Size. split_and!; intros p Hl.
  - apply M_bind_Err. by rewrite (proj2 (Z.ltb_lt _ _)).
  - intros Hm. step; [by rewrite (proj2 (Z.ltb_ge _ _))|].
    step; [apply copy_from_eq; unfold off1Mac1; lia|].
    step; [apply slice_take; unfold msg1BeforeMac; lia|].
    apply M_bind_Err. by replace (bytes_Equal _ _) with false by (symmetry; exact (mac1_differs pub _ _ Hm)).
  - apply M_bind_Err. by rewrite (proj2 (Z.ltb_lt _ _)).
  - intros Hm. step; [by rewrite (proj2 (Z.ltb_ge _ _))|].
    step; [apply copy_from_eq; unfold off2Mac1; lia|].
    step; [apply slice_take; unfold msg2BeforeMac; lia|].
    apply M_bind_Err. by replace (bytes_Equal _ _) with false by (symmetry; exact (mac1_differs pub _ _ Hm)).
Qed.

Context {L : PrimitivesLaws}.

Lemma triple_mixKey {S A} `{HasSym S} (Pre : S → Prop) es (Post : A → S → Prop) ikm f :
  triple (λ s, keyed (get_sym s)) (f tt) es Post →
  triple Pre (on_sym (modify (mixKey ikm)) ≫= f) es Post.
Proof. intros Hf s Hs. apply Hf. rewrite get_set_sym. apply keyed_mixKey. Qed.

Lemma triple_mixHash {S A} `{HasSym S} es (Post : A → S → Prop) data f :
  triple (λ _, True) (f tt) es Post →
  triple (λ _, True) (on_sym (modify (mixHash data)) ≫= f) es Post.
Proof. intros Hf s Hs. by apply Hf. Qed.

Lemma triple_decrypt {S A} `{HasSym S} es (Post : A → S → Prop) ct f :
  ErrDecryptFailed ∈ es → (∀ pt, triple (λ _, True) (f pt) es Post) →
  triple (λ s, keyed (get_sym s)) (on_sym (decryptAndHash ct) ≫= f) es Post.
Proof.
  intros He Hf. apply (triple_bind _ _ _ (λ _, True)); [|done].
  intros s Hs. unfold on_sym, decryptAndHash, mbind, M_bind, get. rewrite (keyed_has _ Hs).
  cbn [negb]. unfold try. rewrite aead_Ok by done. by destruct (prim_open _ _ _ _).
Qed.

Lemma triple_dh {S A} (Pre : S → Prop) es (Post : A → S → Prop) k q f :
  ErrIdentityPoint ∈ es → (∀ r, triple Pre (f r) es Post) →
  triple Pre (try (dh k q) ≫= f) es Post.
Proof.
  intros He Hf. apply triple_try. unfold dh, curve25519_X25519.
  destruct (prim_x25519 k q); [apply Hf|done].
Qed.

Lemma triple_slice {S A} (Pre : S → Prop) es (Post : A → S → Prop) msg i j f :
  0 ≤ i ≤ j → j ≤ len msg → (∀ x, triple Pre (f x) es Post) →
  triple Pre (try (slice msg i j) ≫= f) es Post.
Proof.
  intros Hi Hj Hf. apply triple_try. unfold slice. by rewrite bool_decide_true.
Qed.

Lemma triple_true {S A} (Pre : S → Prop) es (m : M S A) Post :
  triple (λ _, True) m es Post → triple Pre m es Post.
Proof. intros H s _. by apply H. Qed.

(** The shared prefix of both readers: length, mac1. *)
Lemma triple_mac1 {S} es msg size n i pub f :
  i + n ≤ size → 0 ≤ i → 0 ≤ n → ErrMac1Failed ∈ es → size ≤ len msg →
  (∀ m1in preceding, triple (λ _ : S, True) (f m1in preceding) es (λ _ : (), λ _, True)) →
  triple (λ _, True) (m1in ← try (copy_from n msg i);
    preceding ← try (slice msg 0 i);
    try (fail_if (negb (bytes_Equal (computeMac1 pub preceding) m1in)) ErrMac1Failed);;
    f m1in preceding) es (λ _, λ _, True).
Proof.
  intros Hi Hi0 Hn He Hl Hf. apply triple_try. rewrite copy_from_eq by lia.
  apply triple_slice; [lia..|]. intros x. by apply triple_check.
Qed.

Lemma ReadInitiation_outcome msg pub p :
  match (ReadInitiation msg pub p).1 with
  | Ok _ => True
  | Err e => e ∈ [ErrMsg1TooSmall; ErrMac1Failed; ErrIdentityPoint; ErrDecryptFailed]
  | Panic => False
  end.
Proof.
  set (es := [ErrMsg1TooSmall; ErrMac1Failed; ErrIdentityPoint; ErrDecryptFailed]).
  enough (triple (λ _, True) (ReadInitiation msg pub) es (λ _ _, True)) as H.
  { specialize (H p I). by destruct (ReadInitiation msg pub p) as [[] ?]. }
  unfold ReadInitiation, Msg1Size. apply triple_check; [unfold es; set_solver|].
  intros Hl%Z.ltb_ge. apply (triple_mac1 _ _ 144); try (unfold off1Mac1; lia); [unfold es; set_solver|].
  intros _ _. apply triple_slice; [unfold off1Ephemeral, dhLen; lia..|]. intros e.
  apply triple_get. intros q. apply (triple_modify _ _ _ (λ _, True)); [done|]. apply triple_mixHash.
  apply triple_dh; [unfold es; set_solver|]. intros k1. apply triple_mixKey.
  apply triple_slice; [unfold off1EncStatic, dhLen, tagLen; lia..|]. intros c1.
  apply triple_decrypt; [unfold es; set_solver|]. intros si. apply (triple_modify _ _ _ (λ _, True)); [done|].
  apply triple_dh; [unfold es; set_solver|]. intros k2. apply triple_mixKey.
  apply triple_slice; [unfold off1EncTime, tagLen; lia..|]. intros c2.
  apply triple_decrypt; [unfold es; set_solver|]. intros _. by apply triple_ret.
Qed.

Lemma ReadResponse_outcome msg pub p :
  match (ReadResponse msg pub p).1 with
  | Ok _ => True
  | Err e => e ∈ [ErrMsg2TooSmall; ErrMac1Failed; ErrIdentityPoint; ErrDecryptFailed]
  | Panic => False
  end.
Proof.
  set (es := [ErrMsg2TooSmall; ErrMac1Failed; ErrIdentityPoint; ErrDecryptFailed]).
  enough (triple (λ _, True) (ReadResponse msg pub) es (λ _ _, True)) as H.
  { specialize (H p I). by destruct (ReadResponse msg pub p) as [[] ?]. }
  unfold ReadResponse, Msg2Size. apply triple_check; [unfold es; set_solver|].
  intros Hl%Z.ltb_ge. apply (triple_mac1 _ _ 92); try (unfold off2Mac1; lia); [unfold es; set_solver|].
  intros _ _. apply triple_slice; [unfold off2Ephemeral, dhLen; lia..|]. intros e.
  apply triple_get. intros q. apply (triple_modify _ _ _ (λ _, True)); [done|]. apply triple_mixHash.
  apply triple_dh; [unfold es; set_solver|]. intros k1.
  apply triple_mixKey. apply triple_dh; [unfold es; set_solver|]. intros k2.
  apply triple_mixKey.
  apply triple_slice; [unfold off2EncNothing, tagLen; lia..|]. intros c.
  apply triple_decrypt; [unfold es; set_solver|]. intros _. by apply triple_ret.
Qed.

(** [C24] Whatever bytes arrive, and whatever state its reader is in,
    [ReadInitiation] and [ReadResponse] return nil or one of four errors each:
    they read inside the message and do not panic. *)
Theorem handshake_readers_total msg pub :
  (∀ p, (ReadInitiation msg pub p).1 = Ok tt ∨
        ∃ e, (ReadInitiation msg pub p).1 = Err e ∧
             e ∈ [ErrMsg1TooSmall; ErrMac1Failed; ErrIdentityPoint; ErrDecryptFailed]) ∧
  (∀ p, (ReadResponse msg pub p).1 = Ok tt ∨
        ∃ e, (ReadResponse msg pub p).1 = Err e ∧
             e ∈ [ErrMsg2TooSmall; ErrMac1Failed; ErrIdentityPoint; ErrDecryptFailed]).
Proof.
  split; intros p.
  - pose proof (ReadInitiation_outcome msg pub p). destruct (ReadInitiation msg pub p) as [[[]|e|] ?]; cbn in *;
      [by left|right; by exists e|done].
  - pose proof (ReadResponse_outcome msg pub p). destruct (ReadResponse msg pub p) as [[[]|e|] ?]; cbn in *;
      [by left|right; by exists e|done].
Qed.

End Hostile.

(** * Witness *)

Definition example_secret (n : Z) : bytes := replicate 32 (z2b n).
Definition example_point (n : Z) : bytes := toy.xor (example_secret n) toy.basepoint.

Lemma handshake_agreement_witness :
  ∃ I1 m1 R1 R2 m2 I2,
    let sI := example_secret 1 in let sR := example_secret 2 in
    let eI := example_secret 3 in let eR := example_secret 4 in
    let cookie := replicate 16 x00 in
    let sigR := example_secret 5 in
    WriteInitiation 7 1700000000000 eI sigR cookie
      (NewInitiator sI (example_point 1) (example_point 2), zeros Msg1Size)
      = (Ok tt, (I1, m1)) ∧
    ReadInitiation m1 sigR (NewResponder sR (example_point 2)) = (Ok tt, R1) ∧
    WriteResponse 8 7 eR sigR cookie (R1, zeros Msg2Size) = (Ok tt, (R2, m2)) ∧
    ReadResponse m2 sigR I1 = (Ok tt, I2) ∧
    RemoteStaticPub R2 = example_point 1 ∧
    SendKey (Initiator_Finalize I2) = RecvKey (Responder_Finalize R2) ∧
    RecvKey (Initiator_Finalize I2) = SendKey (Responder_Finalize R2) ∧
    H (Initiator_Finalize I2) = H (Responder_Finalize R2).
Proof.
  apply (handshake_agreement (example_secret 1) (example_point 1) (example_secret 2)
           (example_point 2) (example_secret 3) (example_point 3) (example_secret 4)
           (example_point 4)); [|done..].
  split; vm_compute; done.
Defined.

(** On a message of zeros, and on an empty one. *)
Lemma handshake_readers_total_witness :
  (ReadInitiation (zeros Msg1Size) (example_secret 5)
     (NewResponder (example_secret 2) (example_point 2))).1 = Err ErrMac1Failed ∧
  (∀ p, (ReadResponse [] (example_secret 5) p).1 = Ok tt ∨
        ∃ e, (ReadResponse [] (example_secret 5) p).1 = Err e ∧
             e ∈ [ErrMsg2TooSmall; ErrMac1Failed; ErrIdentityPoint; ErrDecryptFailed]).
Proof.
  split; [vm_compute; reflexivity|].
  exact (proj2 (handshake_readers_total [] (example_secret 5))).
Defined.
