(* ===== verification/Transport.v ===== *)
(** Transport packets and binding frames: [wire/transport.go]. *)

From S2P Require Import Prelude GoBytes Cursor Stateful Crypto Toy Span Cert Validate Noise.

Definition transportType : byte := x04.
Definition transportHdrLen : Z := 16.

Definition ErrPacketTooShort : error := errors_New "transport: packet too short".
Definition ErrNotType4 : error := errors_New "transport: not a type-4 packet".
Definition ErrBindingLength : error := errors_New "binding: length mismatch".
Definition ErrBindingSignature : error :=
  errors_New "binding: signature does not verify over h".

(** * Operations *)

Section Transport.
Context `{P : Primitives}.

Definition SealTransport (key : bytes) (receiverIndex counter : Z) (plaintext : bytes)
    : res bytes :=
  aead ← chacha20poly1305_New key;
  let hdr := zeros transportHdrLen in
  hdr ← store 0 transportType hdr;
  hdr ← put_at 4 (be 4 receiverIndex) hdr;
  hdr ← put_at 8 (be 8 counter) hdr;
  let nonce := transportNonce counter in
  let ct := prim_seal aead nonce plaintext hdr in
  mret (hdr ++ ct).

Definition OpenTransport (key packet : bytes) : res (bytes * Z) :=
  fail_if (len packet <? transportHdrLen + tagLen) ErrPacketTooShort;;
  b0 ← index packet 0;
  fail_if (negb (bool_decide (b0 = transportType))) ErrNotType4;;
  cb ← slice packet 8 16;
  let counter := unbe cb in
  aead ← chacha20poly1305_New key;
  let nonce := transportNonce counter in
  ct ← slice packet transportHdrLen (len packet);
  ad ← slice packet 0 transportHdrLen;
  match prim_open aead nonce ct ad with
  | None => Err ErrDecryptFailed
  | Some pt => mret (pt, counter)
  end.

Definition BuildBindingFrame (cert sigSeed h : bytes) : res bytes :=
  priv ← ed25519_NewKeyFromSeed sigSeed;
  let msg := [DomainBinding] ++ h in
  sig ← ed25519_Sign priv msg;
  let out := zeros (2 + len cert + len sig) in
  out ← put_at 0 (be 2 (u16 (len cert))) out;
  out ← copy_to 2 cert out;
  out ← copy_to (2 + len cert) sig out;
  mret out.

Definition ParseBindingFrame (frame : bytes) : res (bytes * bytes) :=
  fail_if (len frame <? 2) ErrTruncated;;
  lb ← slice frame 0 2;
  let certLen := unbe lb in
  fail_if (negb (len frame =? 2 + certLen + LenSig)) ErrBindingLength;;
  cert ← slice frame 2 (2 + certLen);
  sig ← slice frame (2 + certLen) (len frame);
  mret (cert, sig).

Definition VerifyBindingFrame (frame h : bytes) (trusted : list bytes) : res Cert :=
  '(certBytes, sig) ← ParseBindingFrame frame;
  cert ← ParseCert certBytes;
  ValidateCertChainNoClock cert trusted;;
  replace_err (VerifySigned DomainBinding h sig (ct_SigPubkey cert)) ErrBindingSignature;;
  mret cert.

End Transport.

(** * Nonces *)

Lemma transportNonce_eq c : transportNonce c = replicate 4 x00 ++ be 8 c.
Proof.
  unfold transportNonce, copy_at, zeros.
  rewrite (take_ge (be 8 c)), drop_ge by (rewrite length_be; done). by rewrite app_nil_r.
Qed.

(** Two packets with different 64-bit counters are sealed under different
    nonces. *)
Lemma transportNonce_inj c1 c2 :
  in_u64 c1 → in_u64 c2 → transportNonce c1 = transportNonce c2 → c1 = c2.
Proof.
  intros H1 H2. rewrite !transportNonce_eq. intros Hbe%(inj (app _)).
  by apply (be_inj 8 c1 c2).
Qed.

(** * Packets *)

Section Packets.
Context `{P : Primitives}.

(** The header [SealTransport] writes. *)
Definition transport_header (receiverIndex counter : Z) : bytes :=
  [x04; x00; x00; x00] ++ be 4 receiverIndex ++ be 8 counter.

Lemma chacha_New_Ok key : len key = keyLen → chacha20poly1305_New key = Ok key.
Proof. intros H. unfold chacha20poly1305_New. by rewrite H. Qed.

Lemma SealTransport_Ok key ridx c pt :
  len key = keyLen →
  SealTransport key ridx c pt =
  Ok (transport_header ridx c ++
      prim_seal key (transportNonce c) pt (transport_header ridx c)).
Proof.
  intros Hk. unfold SealTransport. rewrite chacha_New_Ok by done. cbn [mbind res_bind].
  change (zeros transportHdrLen) with (concat [[x00]; [x00;x00;x00]; replicate 4 x00; replicate 8 x00]).
  rewrite (store_seg _ 0 _ [x00]) by done. cbn [mbind res_bind insert list_insert].
  rewrite (put_at_seg _ 2 _ (replicate 4 x00)) by (rewrite ?length_be; done).
  cbn [mbind res_bind insert list_insert].
  rewrite (put_at_seg _ 3 _ (replicate 8 x00)).
  - cbn [mbind res_bind insert list_insert concat app]. by rewrite app_nil_r.
  - done.
  - by rewrite length_be.
  - cbn [take concat]. rewrite !length_app, length_be. done.
Qed.

(** The receiver's index of a packet. *)
Definition receiver_index (packet : bytes) : bytes := take 4 (drop 4 packet).

Lemma SealTransport_index key ridx c pt packet :
  len key = keyLen → SealTransport key ridx c pt = Ok packet → receiver_index packet = be 4 ridx.
Proof.
  intros Hk. rewrite SealTransport_Ok by done. by intros [= <-].
Qed.

(** [OpenTransport] as one expression. *)
Lemma OpenTransport_eq key packet :
  len key = keyLen →
  OpenTransport key packet =
  if len packet <? 32 then Err ErrPacketTooShort
  else if bool_decide (head packet = Some x04) then
    let c := unbe (take 8 (drop 8 packet)) in
    match prim_open key (transportNonce c) (drop 16 packet) (take 16 packet) with
    | None => Err ErrDecryptFailed
    | Some pt => Ok (pt, c)
    end
  else Err ErrNotType4.
Proof.
  intros Hk. unfold OpenTransport, transportHdrLen, tagLen. change (16 + 16) with 32.
  destruct (Z.ltb_spec (len packet) 32) as [El|El]; [done|]. cbn [fail_if mbind res_bind].
  destruct packet as [|b0 packet]; [done|].
  change (index (b0 :: packet) 0) with (Ok b0). cbn [mbind res_bind head].
  assert (bool_decide (Some b0 = Some x04) = bool_decide (b0 = transportType)) as ->.
  { apply bool_decide_ext. naive_solver. }
  case_bool_decide as Hb; [|done]. cbn [negb fail_if mbind res_bind].
  unfold slice. rewrite !bool_decide_true by lia. rewrite chacha_New_Ok by done.
  cbn [mbind res_bind]. by rewrite (take_ge (drop (Z.to_nat 16) _)) by (rewrite length_drop; lia).
Qed.

Lemma OpenTransport_not_Panic key packet : len key = keyLen → OpenTransport key packet ≠ Panic.
Proof. intros Hk. rewrite OpenTransport_eq by done. cbv zeta. by repeat case_match. Qed.

(** [C26] What [OpenTransport] accepts: a packet of at least 32 bytes and type
    4 whose rest opens under the key, the nonce of the header's counter and
    the header as associated data.  It never panics. *)
Theorem OpenTransport_spec key packet :
  len key = keyLen →
  OpenTransport key packet ≠ Panic ∧
  ∀ pt c, OpenTransport key packet = Ok (pt, c) ↔
    32 ≤ len packet ∧ head packet = Some x04 ∧ c = unbe (take 8 (drop 8 packet)) ∧
    prim_open key (transportNonce c) (drop 16 packet) (take 16 packet) = Some pt.
Proof.
  intros Hk. rewrite OpenTransport_eq by done. cbv zeta.
  destruct (Z.ltb_spec (len packet) 32); [split; [done|]; intros; split; [done|lia]|].
  case_bool_decide as Hh; [|naive_solver].
  destruct (prim_open _ _ _ _) as [pt'|] eqn:Eo; (split; [done|]); intros pt c; split;
    [intros [= <- <-]; done|intros (_ & _ & -> & Ho); congruence|done|].
  intros (_ & _ & -> & Ho). congruence.
Qed.

Context {L : PrimitivesLaws}.

(** What one side seals the other side opens: the plaintext and the
    counter come back, whatever the receiver index. *)
Lemma transport_roundtrip key ridx c pt :
  len key = keyLen → in_u64 c →
  ∃ packet, SealTransport key ridx c pt = Ok packet ∧ OpenTransport key packet = Ok (pt, c).
Proof.
  intros Hk Hc. eexists. split; [by apply SealTransport_Ok|]. rewrite OpenTransport_eq by done.
  set (hdr := transport_header ridx c).
  assert (length hdr = 16%nat) as Hh by (unfold hdr, transport_header; rewrite !length_app, !length_be; done).
  rewrite (proj2 (Z.ltb_ge _ _)) by (rewrite length_app, length_seal; lia).
  rewrite bool_decide_true by done.
  assert (take 8 (drop 8 (hdr ++ prim_seal key (transportNonce c) pt hdr)) = be 8 c) as ->.
  { unfold hdr at 1, transport_header. rewrite <- !(assoc_L (++)).
    rewrite (assoc_L (++) [x04; x00; x00; x00]), drop_app_exact by (rewrite length_app, length_be; done).
    apply take_app_exact. by rewrite length_be. }
  rewrite unbe_be_small by done. cbv zeta.
  rewrite take_app_exact, drop_app_exact by (by rewrite Hh). by rewrite open_seal.
Qed.

End Packets.

Lemma OpenTransport_spec_witness :
  let key := replicate 32 x07 in
  let packet := transport_header 9 5 ++
    toy.seal key (transportNonce 5) (s2b "hello") (transport_header 9 5) in
  OpenTransport key packet = Ok (s2b "hello", 5) ∧
  OpenTransport key packet ≠ Panic ∧
  ∀ pt c, OpenTransport key packet = Ok (pt, c) ↔
    32 ≤ len packet ∧ head packet = Some x04 ∧ c = unbe (take 8 (drop 8 packet)) ∧
    prim_open key (transportNonce c) (drop 16 packet) (take 16 packet) = Some pt.
Proof.
  intros key packet. split; [vm_compute; reflexivity|]. apply OpenTransport_spec. done.
Defined.

(** * Binding frames *)

Section Binding.
Context `{P : Primitives}.

(** [ParseBindingFrame] as one expression. *)
Lemma ParseBindingFrame_eq frame :
  ParseBindingFrame frame =
  if len frame <? 2 then Err ErrTruncated
  else
    let n := unbe (take 2 frame) in
    if len frame =? 2 + n + LenSig
    then Ok (take (Z.to_nat n) (drop 2 frame), drop (2 + Z.to_nat n) frame)
    else Err ErrBindingLength.
Proof.
  unfold ParseBindingFrame, LenSig. destruct (Z.ltb_spec (len frame) 2) as [Hl|Hl]; [done|].
  cbn [fail_if mbind res_bind]. unfold slice. rewrite (bool_decide_true (0 ≤ 0 ≤ 2 ∧ _)) by lia.
  cbn [mbind res_bind]. change (take (Z.to_nat (2 - 0)) (drop (Z.to_nat 0) frame)) with (take 2 frame).
  pose proof (unbe_range (take 2 frame)). cbv zeta.
  destruct (Z.eqb_spec (len frame) (2 + unbe (take 2 frame) + 64)) as [He|He]; [|done].
  cbn [negb fail_if mbind res_bind]. rewrite !bool_decide_true by lia. cbn [mbind res_bind mret res_ret].
  rewrite (take_ge (drop (Z.to_nat (2 + _)) _)) by (rewrite length_drop; lia).
  do 3 f_equal; lia.
Qed.

Lemma ParseBindingFrame_Ok frame cert sig :
  ParseBindingFrame frame = Ok (cert, sig) ↔
  in_u16 (len cert) ∧ len sig = LenSig ∧ frame = be 2 (len cert) ++ cert ++ sig.
Proof.
  rewrite ParseBindingFrame_eq. unfold in_u16, LenSig. cbv zeta. split.
  - destruct (Z.ltb_spec (len frame) 2) as [Hl|Hl]; [done|].
    destruct (Z.eqb_spec (len frame) (2 + unbe (take 2 frame) + 64)) as [He|He]; [|done].
    intros [= <- <-]. pose proof (unbe_range (take 2 frame)) as Hr.
    assert (length (take 2 frame) = 2%nat) as H2 by (rewrite length_take; lia).
    rewrite H2 in Hr. change (256 ^ Z.of_nat 2) with (2 ^ 16) in Hr.
    assert (len (take (Z.to_nat (unbe (take 2 frame))) (drop 2 frame)) = unbe (take 2 frame)) as Hn
      by (rewrite length_take, length_drop; lia).
    rewrite Hn. split; [done|]. split; [rewrite length_drop; lia|].
    rewrite be_unbe by done. set (n := Z.to_nat _).
    change (drop (2 + n) frame) with (drop (S (S n)) frame).
    pose proof (drop_drop frame n 2) as Hd. cbn [Nat.add] in Hd. by rewrite <- Hd, !take_drop.
  - intros (Hc & Hs & ->).
    assert (unbe (take 2 (be 2 (len cert) ++ cert ++ sig)) = len cert) as ->.
    { rewrite take_app_exact by (by rewrite length_be). by apply unbe_be_small. }
    rewrite !length_app, length_be.
    rewrite (proj2 (Z.ltb_ge _ _)), (proj2 (Z.eqb_eq _ _)) by lia.
    set (n := Z.to_nat (len cert)). pose proof (drop_drop (be 2 (len cert) ++ cert ++ sig) n 2) as Hd.
    rewrite <- Hd, drop_app_exact by (by rewrite length_be).
    by rewrite take_app_exact, drop_app_exact by lia.
Qed.

Lemma ParseBindingFrame_not_Panic frame : ParseBindingFrame frame ≠ Panic.
Proof. rewrite ParseBindingFrame_eq. cbv zeta. by repeat case_match. Qed.

#[local] Hint Resolve ParseBindingFrame_not_Panic : nopanic.

Lemma VerifyBindingFrame_not_Panic frame h trusted : VerifyBindingFrame frame h trusted ≠ Panic.
Proof.
  unfold VerifyBindingFrame. apply bind_not_Panic. split; [auto with nopanic|intros [cb sig] _].
  apply bind_not_Panic. split; [apply (codec_not_Panic (F := cert_format))|intros cert Hc].
  apply bind_not_Panic. split; [by eapply ValidateCertChainNoClock_not_Panic|intros _ _].
  no_panic.
Qed.

(** [C25] [VerifyBindingFrame] accepts a frame, and returns a certificate,
    exactly when the frame is the 16-bit length of a certificate encoding, that encoding
    and a 64-byte signature, the certificate parses and its chain is
    valid under the trusted set, and the signature is its key's over the
    session's transcript hash under the binding tag. *)
Theorem VerifyBindingFrame_spec frame h trusted cert :
  VerifyBindingFrame frame h trusted = Ok cert ↔
  ∃ certBytes sig,
    in_u16 (len certBytes) ∧ len sig = LenSig ∧
    frame = be 2 (len certBytes) ++ certBytes ++ sig ∧
    ParseCert certBytes = Ok cert ∧
    ValidateCertChainNoClock cert trusted = Ok tt ∧
    signed_by DomainBinding h sig (ct_SigPubkey cert).
Proof.
  unfold VerifyBindingFrame. rewrite bind_Ok. split.
  - intros ([cb sig] & (Hc & Hs & Hf)%ParseBindingFrame_Ok & H). exists cb, sig.
    inv_ok. repeat match goal with u : unit |- _ => destruct u end.
    match goal with H : VerifySigned _ _ _ _ = Ok _ |- _ => apply VerifySigned_Ok in H end.
    done.
  - intros (cb & sig & Hc & Hs & Hf & Hp & Hv & Hg). exists (cb, sig).
    split; [by apply ParseBindingFrame_Ok|]. rewrite Hp; cbn [mbind res_bind]. rewrite Hv.
    cbn [mbind res_bind]. by rewrite (proj2 (VerifySigned_Ok _ _ _ _ tt) Hg).
Qed.

(** The largest certificate: two bytes, two keys, two times, a name, eight
    scopes and four pairs. *)
Lemma ParseCert_length buf cert : ParseCert buf = Ok cert → len buf ≤ 598.
Proof.
  rewrite (codec_exact (F := cert_format)).
  intros (f & ps & tbs & [Hsp Hkp _ _ Hids] & (Hn & Hs & ->)%EncodeCertTBS_Ok &
          ([Hc Hw _] & ->)%AppendCertSignatures_Ok & _).
  unfold LenPubkey, LenKexPubkey, MaxName, MaxScope, MaxCASigs in *.
  apply length_concat_const in Hids.
  rewrite !length_app, !length_be, length_pairs_bytes, Hids by done. cbn [length]. lia.
Qed.

Context {L : PrimitivesLaws}.

Lemma BuildBindingFrame_Ok cert seed h :
  len seed = ed25519_SeedSize →
  ∃ sig, BuildBindingFrame cert seed h = Ok (be 2 (u16 (len cert)) ++ cert ++ sig) ∧
    signed_by DomainBinding h sig (prim_public (prim_key_from_seed seed)).
Proof.
  intros Hs. assert (length seed = 32%nat) as Hs' by (unfold ed25519_SeedSize in Hs; lia).
  destruct (SignTaggedSeed_signed DomainBinding h seed Hs') as (sig & Hsig & Hok).
  exists sig. split; [|done]. unfold BuildBindingFrame. unfold SignTaggedSeed, SignTagged in Hsig.
  destruct (ed25519_NewKeyFromSeed seed) as [priv| |]; [|done..]. cbn [mbind res_bind app] in *.
  rewrite Hsig. cbn [mbind res_bind]. destruct Hok as [_ Hl _].
  assert (zeros (2 + len cert + len sig) =
          concat [replicate 2 x00; replicate (length cert) x00; replicate (length sig) x00]) as ->.
  { cbn [concat]. rewrite app_nil_r, <- !replicate_add. unfold zeros. f_equal. lia. }
  rewrite (put_at_seg _ 0 _ (replicate 2 x00)) by (rewrite ?length_be; done).
  cbn [mbind res_bind insert list_insert].
  rewrite (copy_to_seg _ 1 _ (replicate (length cert) x00)).
  - cbn [mbind res_bind insert list_insert].
    rewrite (copy_to_seg _ 2 _ (replicate (length sig) x00)).
    + cbn [mbind res_bind insert list_insert concat]. by rewrite app_nil_r.
    + done.
    + apply length_replicate.
    + cbn [take concat]. rewrite !length_app, length_be. cbn. lia.
  - done.
  - apply length_replicate.
  - cbn [take concat]. rewrite app_nil_r, length_be. done.
Qed.

(** The packet that carries a binding frame is far shorter than a receive buffer. *)
Lemma length_binding_packet certBytes cert seed h frame key idx c pkt :
  ParseCert certBytes = Ok cert → len seed = ed25519_SeedSize →
  BuildBindingFrame certBytes seed h = Ok frame →
  len key = keyLen → SealTransport key idx c frame = Ok pkt → len pkt ≤ 696.
Proof.
  intros Hp%ParseCert_length Hs Hb Hk. destruct (BuildBindingFrame_Ok certBytes seed h Hs)
    as (sig & Hb' & [_ Hl _]).
  rewrite Hb' in Hb. assert (length frame = length (be 2 (u16 (len certBytes)) ++ certBytes ++ sig)) as Hf
    by congruence.
  rewrite !length_app, length_be in Hf. rewrite SealTransport_Ok by done. intros [= <-].
  cbn [length]. rewrite length_seal. lia.
Qed.

(** A party whose certificate parses, validates at the peer and holds
    the key of its seed is accepted: the frame it builds for a session is
    verified by the peer in that session, and yields its certificate. *)
Lemma binding_roundtrip certBytes cert seed h trusted :
  ParseCert certBytes = Ok cert →
  ValidateCertChainNoClock cert trusted = Ok tt →
  len seed = ed25519_SeedSize →
  ct_SigPubkey cert = prim_public (prim_key_from_seed seed) →
  ∃ frame, BuildBindingFrame certBytes seed h = Ok frame ∧
           VerifyBindingFrame frame h trusted = Ok cert.
Proof.
  intros Hp Hv Hs Hk. destruct (BuildBindingFrame_Ok certBytes seed h Hs) as (sig & Hb & Hok).
  pose proof (ParseCert_length _ _ Hp) as Hl.
  assert (u16 (len certBytes) = len certBytes) as Hu by (apply Z.mod_small; lia).
  eexists. split; [exact Hb|]. unfold VerifyBindingFrame.
  rewrite (proj2 (ParseBindingFrame_Ok _ certBytes sig)).
  - cbn [mbind res_bind]. rewrite Hp; cbn [mbind res_bind]. rewrite Hv; cbn [mbind res_bind].
    rewrite Hk. by rewrite (proj2 (VerifySigned_Ok _ _ _ _ tt) Hok).
  - rewrite Hu. split; [unfold in_u16; lia|]. by destruct Hok.
Qed.

(** The builder does not check the certificate's length and keeps its low
    16 bits: a frame built from at most 65535 bytes parses back to them and the
    signature, and one built from more is always refused by its receiver. *)
Lemma BuildBindingFrame_bounds cert seed h :
  len seed = ed25519_SeedSize →
  ∃ frame, BuildBindingFrame cert seed h = Ok frame ∧
    (in_u16 (len cert) → ∃ sig, ParseBindingFrame frame = Ok (cert, sig)) ∧
    (¬ in_u16 (len cert) → ParseBindingFrame frame = Err ErrBindingLength).
Proof.
  intros Hs. destruct (BuildBindingFrame_Ok cert seed h Hs) as (sig & Hb & [_ Hl _]).
  eexists. split; [exact Hb|]. split.
  - intros Hc. exists sig. apply ParseBindingFrame_Ok.
    assert (u16 (len cert) = len cert) as -> by (by apply Z.mod_small). done.
  - intros Hc. unfold in_u16 in Hc. rewrite ParseBindingFrame_eq. cbv zeta.
    rewrite take_app_exact by (by rewrite length_be).
    pose proof (Z.mod_pos_bound (len cert) (2 ^ 16)) as Hm. unfold u16.
    rewrite unbe_be_small by (change (256 ^ Z.of_nat 2) with (2 ^ 16); lia).
    rewrite !length_app, length_be. rewrite (proj2 (Z.ltb_ge _ _)) by lia.
    rewrite (proj2 (Z.eqb_neq _ _)); [done|]. unfold LenSig. lia.
Qed.

End Binding.
