(* ===== verification/Resource.v ===== *)
(** Resource names of [cmd/lastro/main.go]: the grammar of a namespace and a
    path, and the [{sha}] template. *)

From S2P Require Import Prelude GoBytes GoStrings.

(** Character tests, on code points. *)
Definition between (lo hi c : Z) : bool := (c >=? lo) && (c <=? hi).
Definition is_lower (c : Z) : bool := between 97 122 c.
Definition is_digit (c : Z) : bool := between 48 57 c.

(** [c >= 'a' && c <= 'z' || c >= '0' && c <= '9' || c == '-'] *)
Definition ns_char (c : Z) : bool := is_lower c || is_digit c || (c =? 45).
(** ... [|| c == '-' || c == '.' || c == '_' || c == '/'] *)
Definition path_char (c : Z) : bool :=
  is_lower c || is_digit c || (c =? 45) || (c =? 46) || (c =? 95) || (c =? 47).
(** [c >= '0' && c <= '9' || c >= 'a' && c <= 'f'] *)
Definition hex_char (c : Z) : bool := is_digit c || between 97 102 c.

Definition slash : byte := x2f.

(** [for _, c := range s { if !ok(c) { return error } }] *)
Fixpoint check_runes (ok : Z → bool) (e : Z → error) (cs : list Z) : res unit :=
  match cs with
  | [] => mret tt
  | c :: cs' => fail_if (negb (ok c)) (e c);; check_runes ok e cs'
  end.

Fixpoint check_segments (segs : list bytes) : res unit :=
  match segs with
  | [] => mret tt
  | seg :: segs' =>
      fail_if (bytes_Equal seg [] || bytes_Equal seg (s2b ".") || bytes_Equal seg (s2b ".."))
        (fmt_Errorf "path segment %q not allowed" [runes seg]);;
      check_segments segs'
  end.

Definition validateResource (ns p : bytes) : res unit :=
  fail_if ((len ns =? 0) || (len ns >? 32)) (errors_New "namespace must be 1..32 chars");;
  check_runes ns_char (λ c, fmt_Errorf "namespace char %q outside [a-z0-9-]" [[c]]) (runes ns);;
  fail_if ((len p =? 0) || (len p >? 180)) (errors_New "path must be 1..180 chars");;
  check_runes path_char (λ c, fmt_Errorf "path char %q outside [a-z0-9-._/]" [[c]]) (runes p);;
  check_segments (Split p slash);;
  mret tt.

Section Template.
Context `{U : Unicode}.

Definition sha_template : bytes := s2b "{sha}".

(** The part of [resolveShaTemplate] after the commit is known. *)
Definition substitute_sha (p raw : bytes) : res bytes :=
  let sha := ToLower (TrimSpace raw) in
  fail_if ((len sha <? 7) || (len sha >? 64))
    (fmt_Errorf "git HEAD %q is not a commit sha" [runes sha]);;
  check_runes hex_char (λ _, fmt_Errorf "git HEAD %q is not hex" [runes sha]) (runes sha);;
  mret (ReplaceAll p sha_template sha).

(** [headFn] is what calling it gives; it is consulted only when the template occurs. *)
Definition resolveShaTemplate (p : bytes) (headFn : bytes + error) : res bytes :=
  if negb (Contains p sha_template) then mret p
  else
    match headFn with
    | inr err => Err (fmt_Errorf "--path contains {sha} but git HEAD is unavailable: %v" [])
    | inl raw => substitute_sha p raw
    end.

End Template.

(** * The grammar *)

(** A segment of a path: not empty, not a dot or two. *)
Definition segment_ok (seg : bytes) : Prop := seg ≠ [] ∧ seg ≠ s2b "." ∧ seg ≠ s2b "..".

Record resource_ok (ns p : bytes) : Prop := {
  ns_length : 1 ≤ len ns ≤ 32;
  ns_chars : Forall (λ b, ns_char (b2z b) = true) ns;
  path_length : 1 ≤ len p ≤ 180;
  path_chars : Forall (λ b, path_char (b2z b) = true) p;
  path_segments : Forall segment_ok (Split p slash);
}.

Lemma resource_ok_iff ns p :
  resource_ok ns p ↔
  1 ≤ len ns ≤ 32 ∧ Forall (λ b, ns_char (b2z b) = true) ns ∧
  1 ≤ len p ≤ 180 ∧ Forall (λ b, path_char (b2z b) = true) p ∧ Forall segment_ok (Split p slash).
Proof. split; [by intros []|]. by intros (? & ? & ? & ? & ?). Qed.

Lemma glue_join b segs : glue [b] segs = join b segs.
Proof. induction segs as [|x [|y segs] IH]; [done..|]. rewrite glue_cons, IH. done. Qed.

Lemma check_runes_Ok ok e cs :
  check_runes ok e cs = Ok tt ↔ Forall (λ c, ok c = true) cs.
Proof.
  induction cs as [|c cs IH]; cbn [check_runes]; [by rewrite Forall_nil|].
  by rewrite fail_if_bind_Ok, negb_false_iff, Forall_cons, IH.
Qed.

Lemma check_segments_Ok segs : check_segments segs = Ok tt ↔ Forall segment_ok segs.
Proof.
  induction segs as [|seg segs IH]; cbn [check_segments]; [by rewrite Forall_nil|].
  rewrite fail_if_bind_Ok, !orb_false_iff, !bytes_Equal_false, Forall_cons, IH.
  unfold segment_ok. tauto.
Qed.

Lemma check_runes_not_Panic ok e cs : check_runes ok e cs ≠ Panic.
Proof. induction cs as [|c cs IH]; cbn [check_runes]; no_panic. Qed.

Lemma check_segments_not_Panic segs : check_segments segs ≠ Panic.
Proof. induction segs as [|seg segs IH]; cbn [check_segments]; no_panic. Qed.

#[local] Hint Resolve check_runes_not_Panic check_segments_not_Panic : nopanic.

Lemma validateResource_not_Panic ns p : validateResource ns p ≠ Panic.
Proof. unfold validateResource. no_panic. Qed.

Lemma resolveShaTemplate_not_Panic `{U : Unicode} p headFn : resolveShaTemplate p headFn ≠ Panic.
Proof.
  unfold resolveShaTemplate, substitute_sha. destruct (negb _); [done|].
  destruct headFn; [no_panic|done].
Qed.

Lemma wide_false (ok : Z → bool) lo hi :
  (∀ c, ok c = true → lo ≤ c ≤ hi) → hi < 0x80 → ∀ c, 0x80 ≤ c → ok c = false.
Proof. intros H Hhi c Hc. destruct (ok c) eqn:E; [|done]. apply H in E. lia. Qed.

(** The tests reduce to comparisons. *)
Ltac char_range :=
  intros ?; unfold ns_char, path_char, hex_char, is_lower, is_digit, between;
  rewrite ?orb_true_iff, ?andb_true_iff, ?Z.geb_le, ?Z.leb_le, ?Z.eqb_eq; lia.

Lemma ns_char_wide c : 0x80 ≤ c → ns_char c = false.
Proof. apply (wide_false ns_char 45 122); [char_range|lia]. Qed.
Lemma path_char_wide c : 0x80 ≤ c → path_char c = false.
Proof. apply (wide_false path_char 45 122); [char_range|lia]. Qed.
Lemma hex_char_wide c : 0x80 ≤ c → hex_char c = false.
Proof. apply (wide_false hex_char 48 102); [char_range|lia]. Qed.

Lemma validateResource_Ok ns p : validateResource ns p = Ok tt ↔ resource_ok ns p.
Proof.
  unfold validateResource.
  rewrite fail_if_bind_Ok, check_bind_Ok, fail_if_bind_Ok, !check_bind_Ok.
  rewrite !check_runes_Ok, check_segments_Ok, !orb_false_iff, !Z.eqb_neq, !gtb_false.
  rewrite !runes_Forall by (apply ns_char_wide || apply path_char_wide).
  split.
  - intros (Hn & Hnc & Hp & Hpc & Hs & _). split; first [done|lia].
  - intros [Hn Hnc Hp Hpc Hs]. split_and!; first [done|lia].
Qed.

(** The alphabets, written out. *)
Definition ns_alphabet : bytes := s2b "abcdefghijklmnopqrstuvwxyz0123456789-".
Definition path_alphabet : bytes := s2b "abcdefghijklmnopqrstuvwxyz0123456789-._/".
Definition hex_alphabet : bytes := s2b "0123456789abcdef".

(** A test of bytes is membership in an alphabet: checked byte by byte. *)
Lemma alphabet_spec (ok : Z → bool) (alphabet s : bytes) :
  forallb (λ b, Bool.eqb (ok (b2z b)) (bool_decide (b ∈ alphabet)))
    (map (λ n, z2b (Z.of_nat n)) (seq 0 256)) = true →
  Forall (λ b, ok (b2z b) = true) s ↔ Forall (λ b, b ∈ alphabet) s.
Proof.
  intros H. apply Forall_iff. intros b.
  rewrite <- (bool_decide_eq_true (b ∈ alphabet)), (eqb_prop (ok (b2z b)) (bool_decide (b ∈ alphabet)));
    [done|]. exact (all_bytes _ H b).
Qed.

Lemma ns_char_spec s : Forall (λ b, ns_char (b2z b) = true) s ↔ Forall (λ b, b ∈ ns_alphabet) s.
Proof. apply alphabet_spec. vm_compute. reflexivity. Qed.
Lemma path_char_spec s :
  Forall (λ b, path_char (b2z b) = true) s ↔ Forall (λ b, b ∈ path_alphabet) s.
Proof. apply alphabet_spec. vm_compute. reflexivity. Qed.
Lemma hex_char_spec s : Forall (λ b, hex_char (b2z b) = true) s ↔ Forall (λ b, b ∈ hex_alphabet) s.
Proof. apply alphabet_spec. vm_compute. reflexivity. Qed.

(** [C30] [validateResource] accepts exactly the names of the grammar: a
    namespace of 1 to 32 bytes of the alphabet [a-z0-9-], a path of 1 to 180
    bytes of [a-z0-9-._/] that is a sequence of segments with a slash between
    them, none empty, a dot or two dots (so no leading, trailing or doubled
    slash, and no escape to a parent). *)
Theorem validateResource_spec ns p :
  validateResource ns p = Ok tt ↔
  1 ≤ len ns ≤ 32 ∧
  Forall (λ b, b ∈ s2b "abcdefghijklmnopqrstuvwxyz0123456789-") ns ∧
  1 ≤ len p ≤ 180 ∧
  Forall (λ b, b ∈ s2b "abcdefghijklmnopqrstuvwxyz0123456789-._/") p ∧
  ∃ segs, p = glue (s2b "/") segs ∧ segs ≠ [] ∧
    Forall (λ seg, (x2f ∉ seg) ∧ seg ≠ [] ∧ seg ≠ s2b "." ∧ seg ≠ s2b "..") segs.
Proof.
  change (s2b "/") with [slash].
  rewrite validateResource_Ok, resource_ok_iff, ns_char_spec, path_char_spec. split.
  - intros (Hn & Hnc & Hp & Hpc & Hs). split_and!; try done; try lia.
    exists (Split p slash). rewrite glue_join, join_Split. split; [done|]. split.
    { destruct (Split_cons p slash) as (? & ? & ->). done. }
    apply Forall_and. split; [apply Split_no_sep|done].
  - intros (Hn & Hnc & Hp & Hpc & segs & Hsegs & Hne & [Hns Hok]%Forall_and).
    split_and!; try done; try lia. by rewrite Hsegs, glue_join, Split_join.
Qed.

(** * The template *)

Section TemplateTheory.
Context `{U : Unicode}.

(** A commit id: 7 to 64 lower-case hexadecimal digits. *)
Definition commit_id (id : bytes) : Prop :=
  7 ≤ len id ≤ 64 ∧ Forall (λ b, b ∈ s2b "0123456789abcdef") id.

Lemma substitute_sha_Ok p raw q :
  substitute_sha p raw = Ok q ↔
  commit_id (ToLower (TrimSpace raw)) ∧ q = ReplaceAll p sha_template (ToLower (TrimSpace raw)).
Proof.
  unfold substitute_sha, commit_id. rewrite fail_if_bind_Ok, check_bind_Ok, check_runes_Ok.
  rewrite orb_false_iff, Z.ltb_ge, gtb_false. rewrite runes_Forall by apply hex_char_wide.
  rewrite hex_char_spec. split.
  - intros (Hl & Hc & [= <-]). split; [split; [lia|done]|done].
  - intros [[Hl Hc] ->]. split; [lia|done].
Qed.

(** The first byte of the template occurs in it once. *)
Lemma template_pieces pieces new :
  Forall (λ x, ¬ occurs sha_template x) pieces →
  ReplaceAll (glue sha_template pieces) sha_template new = glue new pieces.
Proof. apply ReplaceAll_glue. by apply (bool_decide_unpack _). Qed.

Lemma template_occurs x xs :
  Forall (λ x, ¬ occurs sha_template x) (x :: xs) →
  Contains (glue sha_template (x :: xs)) sha_template = bool_decide (xs ≠ []).
Proof.
  intros [Hx _]%Forall_cons. destruct xs as [|y xs].
  - rewrite bool_decide_false by auto. apply not_true_iff_false. by rewrite Contains_true.
  - rewrite bool_decide_true by done. apply Contains_true.
    rewrite glue_cons. by exists x, (glue sha_template (y :: xs)).
Qed.

(** The result, for a path cut into what is between its templates. *)
Lemma resolve_pieces x xs headFn q :
  Forall (λ x, ¬ occurs sha_template x) (x :: xs) →
  resolveShaTemplate (glue sha_template (x :: xs)) headFn = Ok q ↔
  (xs = [] ∧ q = x) ∨
  (xs ≠ [] ∧ ∃ raw, headFn = inl raw ∧ commit_id (ToLower (TrimSpace raw)) ∧
     q = glue (ToLower (TrimSpace raw)) (x :: xs)).
Proof.
  intros Hx. unfold resolveShaTemplate. rewrite template_occurs by done.
  destruct xs as [|y xs].
  - cbn. split; [intros [= <-]; by left|]. by intros [[_ ->]|[? _]].
  - rewrite bool_decide_true by done. cbn [negb]. destruct headFn as [raw|err].
    + rewrite substitute_sha_Ok, (template_pieces (x :: y :: xs)) by done. split.
      * intros [Hid ->]. right. split; [done|]. by exists raw.
      * by intros [[? _]|(_ & raw' & [= <-] & Hid & ->)].
    + split; [done|]. by intros [[? _]|(_ & raw & ? & _)].
Qed.

(** What git prints, a commit id and a newline, trims and lower-cases to the id. *)
Lemma commit_line id : commit_id id → ToLower (TrimSpace (id ++ [x0a])) = id.
Proof.
  intros [Hl Hc].
  assert (Forall (λ b, b2z b < 0x80 ∧ lower b = b ∧ is_space b = false) id) as Hid.
  { eapply Forall_impl; [exact Hc|]. intros b Hb. 
    repeat (apply elem_of_cons in Hb as [->|Hb]; [by vm_compute|]). by apply elem_of_nil in Hb. }
  assert (∀ l, Forall (λ b, is_space b = false) l → trim_left l = l) as Hleft.
  { intros l Hs. destruct Hs as [|b l Hb _]; [done|]. cbn. by rewrite Hb. }
  rewrite !Forall_and in Hid. destruct Hid as (Ha & Hlow & Hsp).
  rewrite TrimSpace_ascii by (apply Forall_app; split; [exact Ha|by repeat constructor]).
  assert (trim (id ++ [x0a]) = id) as ->.
  { unfold trim. assert (trim_left (id ++ [x0a]) = id ++ [x0a]) as ->.
    { destruct id as [|b id]; [cbn in Hl; lia|]. apply Forall_cons in Hsp as [Hb _]. cbn. by rewrite Hb. }
    rewrite rev_app_distr. cbn [rev app trim_left]. change (is_space x0a) with true. cbn [trim_left].
    rewrite Hleft; [apply rev_involutive|]. by apply Forall_rev. }
  rewrite ToLower_ascii by exact Ha. clear -Hlow. induction Hlow as [|b l Hb _ IH]; [done|].
  cbn. by rewrite Hb, IH.
Qed.

(** [C32] The template, for a path cut into the pieces between the occurrences of
    [{sha}].  With a single piece there is no template and the path is returned
    as it is, whatever git would answer.  With more the path is resolved exactly
    when git answers with a text that trims and lower-cases to a commit id, 7 to
    64 characters of [0-9a-f], and then to the pieces with that id between them;
    in particular when git prints a commit id and a newline.  Every path can be
    cut so. *)
Theorem resolveShaTemplate_spec :
  (∀ p, ∃ x xs, p = glue (s2b "{sha}") (x :: xs) ∧ Forall (λ x, ¬ occurs (s2b "{sha}") x) (x :: xs)) ∧
  ∀ x xs, Forall (λ x, ¬ occurs (s2b "{sha}") x) (x :: xs) →
    let p := glue (s2b "{sha}") (x :: xs) in
    (∀ headFn q, resolveShaTemplate p headFn = Ok q ↔
      (xs = [] ∧ q = p) ∨
      (xs ≠ [] ∧ ∃ raw, headFn = inl raw ∧
         7 ≤ len (ToLower (TrimSpace raw)) ≤ 64 ∧
         Forall (λ b, b ∈ s2b "0123456789abcdef") (ToLower (TrimSpace raw)) ∧
         q = glue (ToLower (TrimSpace raw)) (x :: xs))) ∧
    (∀ id, 7 ≤ len id ≤ 64 → Forall (λ b, b ∈ s2b "0123456789abcdef") id →
      resolveShaTemplate p (inl (id ++ [x0a])) = Ok (glue id (x :: xs))).
Proof.
  change (s2b "{sha}") with sha_template. split; [intros p; by apply pieces_exist|].
  intros x xs Hx p. split.
  - intros headFn q. unfold p. rewrite resolve_pieces by done. unfold commit_id.
    split; (intros [[-> ->]|(Hne & raw & ? & ?)];
      [by left|right; split; [done|]; exists raw; tauto]).
  - intros id Hl Hc. apply resolve_pieces; [done|]. destruct xs as [|y xs]; [by left|right].
    split; [done|]. exists (id ++ [x0a]). by rewrite !commit_line by done.
Qed.

End TemplateTheory.
