(* ===== verification/Capture.v ===== *)
(** The bounded capture of a child's output, of [cmd/lastro/main.go]: the
    mutex-guarded writer two copying goroutines of [os/exec] feed, and every
    order in which they may do it. *)

From stdpp Require Import relations.
From S2P Require Import Prelude GoBytes.

(** * The writer *)

Record captureWriter : Type := mk_captureWriter {
  cw_buf : bytes;
  cw_max : Z;
  cw_exceeded : bool;
}.

(** One call of [Write], atomic under the mutex; it always returns
    [(len(p), nil)]. *)
Definition captureWriter_Write (p : bytes) (w : captureWriter) : captureWriter :=
  if negb (cw_exceeded w) then
    if len (cw_buf w) + len p >? cw_max w
    then mk_captureWriter (cw_buf w) (cw_max w) true
    else mk_captureWriter (cw_buf w ++ p) (cw_max w) (cw_exceeded w)
  else w.

Definition new_captureWriter (max : Z) : captureWriter := mk_captureWriter [] max false.

(** * The two goroutines *)

(** A chunk a goroutine reads from the child's pipe, and whether the write of
    it to this process's own stream, the first writer of [io.MultiWriter],
    will succeed. *)
Record chunk : Type := mk_chunk {
  ck_data : bytes;
  ck_written : bool;
}.

Inductive stream : Type :=
  | Stdout
  | Stderr.

Record capture : Type := mk_capture {
  cp_stdout : list chunk;
  cp_stderr : list chunk;
  cp_writer : captureWriter;
  (** some goroutine stopped on a write error *)
  cp_failed : bool;
}.

(** What a stream still has to copy. *)
Definition pending (s : stream) (c : capture) : list chunk :=
  match s with Stdout => cp_stdout c | Stderr => cp_stderr c end.
Definition set_pending (s : stream) (l : list chunk) (w : captureWriter) (f : bool)
    (c : capture) : capture :=
  match s with
  | Stdout => mk_capture l (cp_stderr c) w f
  | Stderr => mk_capture (cp_stdout c) l w f
  end.

(** One iteration of [io.Copy] into [io.MultiWriter(os.Stdout, cap)] (or
    [os.Stderr]): write the chunk to the terminal and then to the capture; on a
    write error the goroutine stops, and neither this chunk nor a later one
    of the stream is captured. *)
Definition copy_chunk (s : stream) (c : capture) : option capture :=
  match pending s c with
  | [] => None
  | ck :: rest =>
      Some (if ck_written ck
            then set_pending s rest (captureWriter_Write (ck_data ck) (cp_writer c)) (cp_failed c) c
            else set_pending s [] (cp_writer c) true c)
  end.

(** The scheduler picks a goroutine. *)
Inductive capture_step : capture → capture → Prop :=
  | capture_copy s c c' : copy_chunk s c = Some c' → capture_step c c'.

(** A capture of the chunks of both streams into [cap], until both goroutines
    are done; [Wait] returns after that. *)
Definition captures (cap : captureWriter) (out err : list chunk) (w : captureWriter)
    (failed : bool) : Prop :=
  rtc capture_step (mk_capture out err cap false) (mk_capture [] [] w failed).

(** * Orders of two lists *)

(** [l] holds the elements of both lists, each list's in its order. *)
Inductive merge {A} : list A → list A → list A → Prop :=
  | merge_nil : merge [] [] []
  | merge_left x a b l : merge a b l → merge (x :: a) b (x :: l)
  | merge_right x a b l : merge a b l → merge a (x :: b) (x :: l).

Lemma merge_Permutation {A} (a b l : list A) : merge a b l → l ≡ₚ a ++ b.
Proof.
  induction 1 as [|x a b l _ IH|x a b l _ IH]; [done|by cbn; f_equiv|].
  rewrite IH. by rewrite Permutation_middle.
Qed.

Definition chunks_data (l : list chunk) : list bytes := map ck_data l.
Definition total (l : list bytes) : Z := len (concat l).

Lemma total_cons x l : total (x :: l) = len x + total l.
Proof. unfold total. cbn. rewrite length_app. lia. Qed.

Lemma total_merge a b l : merge a b l → total l = total a + total b.
Proof. induction 1 as [|x a b l _ IH|x a b l _ IH]; rewrite ?total_cons in *; [done|lia..]. Qed.

(** * What is captured *)

Definition write_all (l : list bytes) (w : captureWriter) : captureWriter :=
  fold_left (λ w p, captureWriter_Write p w) l w.

Lemma write_all_exceeded l w : cw_exceeded w = true → write_all l w = w.
Proof.
  intros Hw. induction l as [|p l IH]; cbn; [done|].
  unfold captureWriter_Write at 2. by rewrite Hw.
Qed.

(** Writing within the bound appends; the first write beyond it stops the capture. *)
Lemma write_all_spec l w :
  cw_exceeded w = false → len (cw_buf w) ≤ cw_max w →
  let w' := write_all l w in
  cw_exceeded w' = (len (cw_buf w) + total l >? cw_max w) ∧
  (cw_exceeded w' = false → cw_buf w' = cw_buf w ++ concat l).
Proof.
  revert w. induction l as [|p l IH]; intros [b m x]; cbn [cw_buf cw_max cw_exceeded].
  - intros -> Hb. cbn. rewrite app_nil_r. split; [|done].
    symmetry. apply gtb_false. unfold total. cbn. lia.
  - intros -> Hb. rewrite total_cons. cbn zeta.
    change (write_all (p :: l) ?w) with (write_all l (captureWriter_Write p w)).
    unfold captureWriter_Write. cbn [cw_buf cw_max cw_exceeded negb].
    destruct (len b + len p >? m) eqn:Hm.
    + rewrite write_all_exceeded by done. cbn. split; [|done]. symmetry.
      apply Z.gtb_lt in Hm. apply Z.gtb_lt. unfold total. lia.
    + apply gtb_false in Hm. specialize (IH (mk_captureWriter (b ++ p) m false) eq_refl).
      cbn [cw_buf cw_max] in IH. rewrite length_app in IH. destruct IH as [IH1 IH2]; [lia|].
      split; [rewrite IH1; f_equal; lia|].
      intros Hx. cbn [concat]. rewrite (assoc_L (++)). by apply IH2.
Qed.

(** ... for a new writer, whatever its bound. *)
Lemma write_all_new l max :
  let w := write_all l (new_captureWriter max) in
  (cw_exceeded w = true ↔ l ≠ [] ∧ max < total l) ∧ (cw_exceeded w = false → cw_buf w = concat l).
Proof.
  destruct (Z.lt_ge_cases max 0) as [Hm|Hm].
  - destruct l as [|p l]; [split; cbn; naive_solver|].
    change (write_all (p :: l) ?w) with (write_all l (captureWriter_Write p w)).
    unfold captureWriter_Write, new_captureWriter. cbn [cw_buf cw_max cw_exceeded negb].
    rewrite (proj2 (Z.gtb_lt _ _)) by (cbn [length]; lia). rewrite write_all_exceeded by done. cbn.
    split; [|done]. split; [|done]. intros _. split; [done|]. unfold total. lia.
  - destruct (write_all_spec l (new_captureWriter max)) as [Hx Hb]; [done|cbn; lia|].
    cbv zeta. split; [|exact Hb]. rewrite Hx, Z.gtb_lt. cbn. split; [|by intros [_ ?]].
    intros H. split; [|exact H]. intros ->. unfold total in H. cbn in H. lia.
Qed.

(** The chunks of a stream before the first that this process cannot write to
    its own stream: those the goroutine hands to the capture. *)
Fixpoint accepted (l : list chunk) : list chunk :=
  match l with
  | [] => []
  | ck :: l' => if ck_written ck then ck :: accepted l' else []
  end.

Lemma accepted_all l : accepted l = l ↔ Forall (λ ck, ck_written ck = true) l.
Proof.
  induction l as [|[p []] l IH]; cbn; [done| |].
  - rewrite Forall_cons, <- IH. split; [intros [= ->]|intros [_ ->]]; done.
  - split; [done|]. by intros [? _]%Forall_cons.
Qed.

(** A run of the goroutines to the end applies the accepted chunks of both
    streams to the writer, in some order that keeps each stream's; it reports a
    failure exactly when some chunk was not accepted. *)
Lemma steps_merge c c' :
  rtc capture_step c c' → cp_stdout c' = [] → cp_stderr c' = [] →
  (cp_failed c' = false ↔ cp_failed c = false ∧
     Forall (λ ck, ck_written ck = true) (cp_stdout c ++ cp_stderr c)) ∧
  ∃ l, merge (chunks_data (accepted (cp_stdout c))) (chunks_data (accepted (cp_stderr c))) l ∧
       cp_writer c' = write_all l (cp_writer c).
Proof.
  induction 1 as [c|c c1 c' Hstep _ IH]; intros Ho He.
  - rewrite Ho, He. split; [by split; [|intros []]|]. exists []. split; [constructor|done].
  - destruct (IH Ho He) as (Hf1 & l & Hl & Hw). destruct Hstep as [s c c1 Hc].
    unfold copy_chunk in Hc. destruct (pending s c) as [|[p ok] rest] eqn:Hp; [done|].
    injection Hc as <-. destruct s, ok; cbn in *; rewrite Hp; cbn;
      (split; [rewrite Hf1; repeat (rewrite Forall_cons || rewrite Forall_app); cbn; clear;
                  intuition (done || auto)|]).
    1,3: exists (p :: l); (split; [constructor; exact Hl|exact Hw]).
    all: by exists l.
Qed.

(** [C27] The capture, after every interleaving of the two goroutines, for every
    bound and with or without failures to write to this process's own streams.
    Each goroutine hands over its stream's chunks up to the first one that it
    cannot write to its own stream, and a failure is reported exactly when there
    is such a chunk.  The capture is marked exceeded exactly when chunks were
    handed over and they hold more than [max] bytes in all; otherwise it holds all
    that was handed over, with the chunks of each stream in their order: all the
    output of the child, when no failure was reported. *)
Theorem capture_complete max out err w failed :
  captures (new_captureWriter max) out err w failed →
  (failed = false ↔ Forall (λ ck, ck_written ck = true) (out ++ err)) ∧
  (failed = false → accepted out = out ∧ accepted err = err) ∧
  ∃ l, merge (chunks_data (accepted out)) (chunks_data (accepted err)) l ∧
    (cw_exceeded w = true ↔ l ≠ [] ∧ max < total l) ∧
    (cw_exceeded w = false → cw_buf w = concat l).
Proof.
  intros Hc. destruct (steps_merge _ _ Hc) as (Hf & l & Hl & Hw); [done..|].
  cbn [cp_stdout cp_stderr cp_writer cp_failed] in Hf, Hl, Hw. subst w.
  assert (failed = false ↔ Forall (λ ck, ck_written ck = true) (out ++ err)) as Hall.
  { rewrite Hf. clear. tauto. }
  split; [exact Hall|]. split.
  - intros [Ho He]%Hall%Forall_app. by split; apply accepted_all.
  - exists l. split; [exact Hl|]. apply write_all_new.
Qed.

(** What was captured, from what [cmd.Wait] reports. *)
Lemma captures_accepted max out err w failed :
  captures (new_captureWriter max) out err w failed → cw_exceeded w = false →
  (failed = false ↔ Forall (λ ck, ck_written ck = true) (out ++ err)) ∧
  ∃ l, merge (chunks_data (accepted out)) (chunks_data (accepted err)) l ∧ cw_buf w = concat l.
Proof.
  intros Hc Hx. destruct (steps_merge _ _ Hc) as (Hf & l & Hl & Hw); [done..|].
  cbn [cp_stdout cp_stderr cp_writer cp_failed] in Hf, Hl, Hw. subst w.
  split; [rewrite Hf; clear; tauto|].
  exists l. split; [exact Hl|]. by apply (write_all_new l max).
Qed.

(** Without failed writes the capture says whether all was kept, and keeps it. *)
Lemma captures_all max out err w :
  0 ≤ max → captures (new_captureWriter max) out err w false →
  ∃ l, merge (chunks_data out) (chunks_data err) l ∧
    cw_exceeded w = (total (chunks_data out) + total (chunks_data err) >? max) ∧
    (cw_exceeded w = false → cw_buf w = concat l).
Proof.
  intros Hm Hc. destruct (steps_merge _ _ Hc) as (Hf & l & Hl & Hw); [done..|].
  cbn [cp_stdout cp_stderr cp_writer cp_failed] in Hf, Hl, Hw. subst w.
  destruct Hf as [Hf _]. destruct (Hf eq_refl) as [_ [Ho He]%Forall_app].
  rewrite !(proj2 (accepted_all _)) in Hl by done.
  exists l. rewrite <- (total_merge _ _ _ Hl).
  destruct (write_all_spec l (new_captureWriter max)) as [Hx Hb]; [done|cbn; lia|]. done.
Qed.

(** The buffer never holds more than [max] bytes, whatever is written to it,
    in whatever order, whether or not writes fail. *)
Lemma capture_bounded max out err c :
  0 ≤ max → rtc capture_step (mk_capture out err (new_captureWriter max) false) c →
  len (cw_buf (cp_writer c)) ≤ max.
Proof.
  intros Hm Hc.
  assert (cw_max (cp_writer c) = max ∧ len (cw_buf (cp_writer c)) ≤ max) as [_ H]; [|done].
  remember (mk_capture out err (new_captureWriter max) false) as c0 eqn:E.
  assert (cw_max (cp_writer c0) = max ∧ len (cw_buf (cp_writer c0)) ≤ max) as H0 by (by subst c0).
  clear E. induction Hc as [c|c c1 c' Hstep _ IH]; [done|]. apply IH. clear IH.
  destruct Hstep as [s c c1 Hs]. unfold copy_chunk in Hs.
  destruct (pending s c) as [|[p ok] rest]; [done|]. injection Hs as <-.
  destruct ok, s; cbn; try done; unfold captureWriter_Write; destruct (cw_exceeded _); cbn; try done;
    destruct (Z.gtb_spec (len (cw_buf (cp_writer c)) + len p) (cw_max (cp_writer c))); cbn;
    rewrite ?length_app; lia.
Qed.

(** * Witnesses *)

Definition example_out : list chunk := [mk_chunk (s2b "hel") true; mk_chunk (s2b "lo") true].
Definition example_err : list chunk := [mk_chunk (s2b "!") true].

Lemma example_captures :
  captures (new_captureWriter 16) example_out example_err (mk_captureWriter (s2b "hel!lo") 16 false) false.
Proof.
  unfold captures.
  eapply rtc_l; [by apply (capture_copy Stdout)|].
  eapply rtc_l; [by apply (capture_copy Stderr)|].
  eapply rtc_l; [by apply (capture_copy Stdout)|]. apply rtc_refl.
Qed.

(** The same child, when this process cannot write the second chunk to its stdout. *)
Definition example_lossy : list chunk :=
  [mk_chunk (s2b "hel") true; mk_chunk (s2b "lo") false; mk_chunk (s2b "?") true].

Lemma example_lossy_captures :
  captures (new_captureWriter 16) example_lossy example_err (mk_captureWriter (s2b "hel!") 16 false) true.
Proof.
  unfold captures.
  eapply rtc_l; [by apply (capture_copy Stdout)|].
  eapply rtc_l; [by apply (capture_copy Stderr)|].
  eapply rtc_l; [by apply (capture_copy Stdout)|]. apply rtc_refl.
Qed.

Lemma capture_complete_witness :
  let complete out w :=
    ∃ l, merge (chunks_data (accepted out)) (chunks_data (accepted example_err)) l ∧
      (cw_exceeded w = true ↔ l ≠ [] ∧ 16 < total l) ∧ (cw_exceeded w = false → cw_buf w = concat l) in
  complete example_out (mk_captureWriter (s2b "hel!lo") 16 false) ∧
  complete example_lossy (mk_captureWriter (s2b "hel!") 16 false).
Proof.
  split.
  - destruct (capture_complete _ _ _ _ _ example_captures) as (_ & _ & H). exact H.
  - destruct (capture_complete _ _ _ _ _ example_lossy_captures) as (_ & _ & H). exact H.
Defined.
