(* ===== verification/Goroutines.v ===== *)
(** The two copying goroutines of [cmd/lastro/main.go] one instruction at a time:
    every schedule of them is an execution of the atomic copies of [Capture.v]. *)

From stdpp Require Import relations.
From S2P Require Import Prelude GoBytes Capture.

#[global] Instance stream_eq_dec : EqDecision stream.
Proof. solve_decision. Defined.

(** * Instructions *)

(** Where a goroutine is: in the loop of [io.Copy], in the [Write] of
    [io.MultiWriter], or in the [Write] of the capture. *)
Inductive pc : Type :=
  (** about to read from the pipe *)
  | AtRead
  (** about to write the chunk to this process's own stream *)
  | AtTee (ck : chunk)
  (** [w.mu.Lock()] *)
  | AtLock (p : bytes)
  (** [if !w.exceeded] *)
  | AtExceeded (p : bytes)
  (** [if len(w.buf)+len(p) > w.max] *)
  | AtBound (p : bytes)
  (** [w.exceeded = true] *)
  | AtMark (p : bytes)
  (** [w.buf = append(w.buf, p...)], with [w.buf] read and the store to come *)
  | AtStore (p buf : bytes)
  (** the deferred [w.mu.Unlock()], then around the loop *)
  | AtUnlock
  | AtEnd.

Record goroutines : Type := mk_goroutines {
  g_pc : stream → pc;
  g_pending : stream → list chunk;
  g_writer : captureWriter;
  (** the holder of the mutex *)
  g_mu : option stream;
  g_failed : bool;
}.

Definition upd {A} (s : stream) (v : A) (f : stream → A) : stream → A :=
  λ s', if decide (s' = s) then v else f s'.

Definition goto (s : stream) (c : pc) (g : goroutines) : goroutines :=
  mk_goroutines (upd s c (g_pc g)) (g_pending g) (g_writer g) (g_mu g) (g_failed g).
Definition set_pending_of (s : stream) (l : list chunk) (g : goroutines) : goroutines :=
  mk_goroutines (g_pc g) (upd s l (g_pending g)) (g_writer g) (g_mu g) (g_failed g).
Definition set_writer (w : captureWriter) (g : goroutines) : goroutines :=
  mk_goroutines (g_pc g) (g_pending g) w (g_mu g) (g_failed g).
Definition set_mu (m : option stream) (g : goroutines) : goroutines :=
  mk_goroutines (g_pc g) (g_pending g) (g_writer g) m (g_failed g).
Definition set_failed (g : goroutines) : goroutines :=
  mk_goroutines (g_pc g) (g_pending g) (g_writer g) (g_mu g) true.

(** The next instruction of the goroutine that copies [s]; [None] when it waits
    for the mutex, or has ended. *)
Definition instruction (s : stream) (g : goroutines) : option goroutines :=
  let w := g_writer g in
  match g_pc g s with
  | AtRead =>
      match g_pending g s with
      | [] => Some (goto s AtEnd g)
      | ck :: rest => Some (goto s (AtTee ck) (set_pending_of s rest g))
      end
  | AtTee ck =>
      if ck_written ck then Some (goto s (AtLock (ck_data ck)) g)
      else Some (goto s AtEnd (set_pending_of s [] (set_failed g)))
  | AtLock p =>
      match g_mu g with
      | None => Some (goto s (AtExceeded p) (set_mu (Some s) g))
      | Some _ => None
      end
  | AtExceeded p =>
      if negb (cw_exceeded w) then Some (goto s (AtBound p) g) else Some (goto s AtUnlock g)
  | AtBound p =>
      if len (cw_buf w) + len p >? cw_max w then Some (goto s (AtMark p) g)
      else Some (goto s (AtStore p (cw_buf w)) g)
  | AtMark p =>
      Some (goto s AtUnlock (set_writer (mk_captureWriter (cw_buf w) (cw_max w) true) g))
  | AtStore p buf =>
      Some (goto s AtUnlock
              (set_writer (mk_captureWriter (buf ++ p) (cw_max w) (cw_exceeded w)) g))
  | AtUnlock => Some (goto s AtRead (set_mu None g))
  | AtEnd => None
  end.

Inductive goroutine_step : goroutines → goroutines → Prop :=
  | run_instruction s g g' : instruction s g = Some g' → goroutine_step g g'.

Definition launched (cap : captureWriter) (out err : list chunk) : goroutines :=
  mk_goroutines (λ _, AtRead) (λ s, match s with Stdout => out | Stderr => err end) cap None false.

Definition ended (g : goroutines) : Prop := ∀ s, g_pc g s = AtEnd.

(** The goroutines copy [out] and [err] to their end, with [w] in the capture;
    what [cmd.Wait] waits for. *)
Definition copies (cap : captureWriter) (out err : list chunk) (w : captureWriter) (failed : bool)
    : Prop :=
  ∃ g, rtc goroutine_step (launched cap out err) g ∧ ended g ∧ g_writer g = w ∧ g_failed g = failed.

(** * The invariant: mutual exclusion, and what each instruction may assume *)

Definition holds_mutex (c : pc) : bool :=
  match c with
  | AtExceeded _ | AtBound _ | AtMark _ | AtStore _ _ | AtUnlock => true
  | _ => false
  end.

Definition assumes (c : pc) (w : captureWriter) : Prop :=
  match c with
  | AtBound p => cw_exceeded w = false
  | AtMark p => cw_exceeded w = false ∧ cw_max w < len (cw_buf w) + len p
  | AtStore p buf =>
      cw_exceeded w = false ∧ len (cw_buf w) + len p ≤ cw_max w ∧ buf = cw_buf w
  | _ => True
  end.

Record guarded (g : goroutines) : Prop := {
  gd_mutex s : g_mu g = Some s ↔ holds_mutex (g_pc g s) = true;
  gd_assumes s : assumes (g_pc g s) (g_writer g);
  gd_end s : g_pc g s = AtEnd → g_pending g s = [];
}.

(** A goroutine that does not hold the mutex assumes nothing of the writer. *)
Lemma assumes_outside c w w' : holds_mutex c = false → assumes c w → assumes c w'.
Proof. by destruct c. Qed.

(** * The abstraction *)

(** The chunk a goroutine has read and not yet disposed of. *)
Definition in_flight (c : pc) : list chunk :=
  match c with
  | AtTee ck => [ck]
  | AtLock p | AtExceeded p | AtBound p | AtMark p | AtStore p _ => [mk_chunk p true]
  | _ => []
  end.

Definition to_copy (g : goroutines) (s : stream) : list chunk :=
  in_flight (g_pc g s) ++ g_pending g s.

Definition abstract (g : goroutines) : capture :=
  mk_capture (to_copy g Stdout) (to_copy g Stderr) (g_writer g) (g_failed g).

(** * Simulation *)

Lemma upd_same {A} s (v : A) f : upd s v f s = v.
Proof. unfold upd. by rewrite decide_True. Qed.
Lemma upd_other {A} s s' (v : A) f : s' ≠ s → upd s v f s' = f s'.
Proof. intros H. unfold upd. by rewrite decide_False. Qed.

(** What a step of [s] must establish; the other goroutine keeps its own, for the
    writer changes under the mutex only. *)
Lemma guarded_change s g g' :
  guarded g →
  (∀ s', s' ≠ s → g_pc g' s' = g_pc g s' ∧ g_pending g' s' = g_pending g s' ∧
     (g_mu g' = Some s' ↔ g_mu g = Some s')) →
  (g_mu g' = Some s ↔ holds_mutex (g_pc g' s) = true) →
  assumes (g_pc g' s) (g_writer g') →
  (g_writer g' = g_writer g ∨ g_mu g = Some s) →
  (g_pc g' s = AtEnd → g_pending g' s = []) →
  guarded g'.
Proof.
  intros [Hm Ha He] Hother Hms Has Hw Hes. split; intros s'; destruct (decide (s' = s)) as [->|Hne];
    try done; destruct (Hother s' Hne) as (Hpc & Hpend & Hmu); rewrite Hpc.
  - by rewrite Hmu, Hm.
  - destruct Hw as [->|Hw]; [apply Ha|]. eapply assumes_outside; [|apply Ha].
    destruct (holds_mutex (g_pc g s')) eqn:Eh; [|done]. apply Hm in Eh. congruence.
  - rewrite Hpend. apply He.
Qed.

(** Simplify the fields of the next state. *)
Ltac next_state :=
  cbn [goto set_pending_of set_writer set_mu set_failed g_pc g_pending g_writer g_mu g_failed] in *;
  rewrite ?upd_same in *.

Lemma guarded_step s g g' : guarded g → instruction s g = Some g' → guarded g'.
Proof.
  intros Hg Hi. pose proof (gd_mutex g Hg) as Hm. pose proof (gd_mutex g Hg s) as Hms.
  pose proof (gd_assumes g Hg s) as Has.
  unfold instruction in Hi. destruct (g_pc g s) eqn:Hpc; cbn in Hms, Has;
    repeat case_match; simplify_eq; apply (guarded_change s g); try done;
    try (intros s' Hne); next_state; rewrite ?(upd_other s s') by done.
  all: cbn; rewrite ?Z.gtb_lt, ?gtb_false, ?negb_true_iff, ?negb_false_iff in *; naive_solver.
Qed.

(** A step of [s] leaves the other goroutine where it is. *)
Lemma step_others s s' g g' :
  instruction s g = Some g' → s' ≠ s →
  g_pc g' s' = g_pc g s' ∧ g_pending g' s' = g_pending g s'.
Proof.
  intros Hi Hne. unfold instruction in Hi.
  repeat case_match; simplify_eq; next_state; by rewrite ?(upd_other s s') by done.
Qed.

Lemma pending_abstract s g : pending s (abstract g) = to_copy g s.
Proof. by destruct s. Qed.

Lemma abstract_change s g g' :
  (∀ s', s' ≠ s → g_pc g' s' = g_pc g s' ∧ g_pending g' s' = g_pending g s') →
  abstract g' = set_pending s (to_copy g' s) (g_writer g') (g_failed g') (abstract g).
Proof.
  intros H. unfold abstract, to_copy.
  destruct s; [destruct (H Stderr) as [-> ->]|destruct (H Stdout) as [-> ->]]; done.
Qed.

(** One instruction is one atomic copy, or none. *)
Lemma abstract_step s g g' :
  guarded g → instruction s g = Some g' →
  abstract g' = abstract g ∨ copy_chunk s (abstract g) = Some (abstract g').
Proof.
  intros Hg Hi. pose proof (gd_assumes g Hg s) as Has.
  pose proof (abstract_change s g g' (λ s', step_others s s' g g' Hi)) as Hc.
  pose proof (abstract_change s g g (λ s' _, conj eq_refl eq_refl)) as Hc0.
  unfold copy_chunk. rewrite pending_abstract.
  rewrite Hc. rewrite Hc0 at 2. clear Hc Hc0. cbn [cp_writer cp_failed abstract].
  unfold instruction in Hi. unfold to_copy.
  destruct (g_pc g s) as [|ck|p|p|p|p|p buf| |] eqn:Hpc; cbn in Has; cbn [in_flight app].
  - left. destruct (g_pending g s) eqn:Hp; injection Hi as <-; next_state; cbn [in_flight app];
      by rewrite ?Hp.
  - destruct ck as [p []]; cbn in Hi; injection Hi as <-; next_state; cbn [in_flight app];
      [by left|by right].
  - left. destruct (g_mu g); [done|]. injection Hi as <-. by next_state.
  - destruct (cw_exceeded (g_writer g)) eqn:Hx; injection Hi as <-; next_state; cbn [in_flight app];
      [right|by left]. cbn [ck_written ck_data]. unfold captureWriter_Write. by rewrite Hx.
  - left. destruct (_ >? _); injection Hi as <-; by next_state.
  - right. destruct Has as [Hx Hb]. injection Hi as <-. next_state. cbn [in_flight app ck_written ck_data].
    unfold captureWriter_Write. by rewrite Hx, (proj2 (Z.gtb_lt _ _)).
  - right. destruct Has as (Hx & Hb & ->). injection Hi as <-. next_state.
    cbn [in_flight app ck_written ck_data]. unfold captureWriter_Write.
    by rewrite Hx, (proj2 (gtb_false _ _)).
  - left. injection Hi as <-. by next_state.
  - done.
Qed.

Lemma guarded_started cap out err : guarded (launched cap out err).
Proof. by split. Qed.

(** Simulation of whole executions. *)
Lemma steps_abstract g g' :
  guarded g → rtc goroutine_step g g' →
  guarded g' ∧ rtc capture_step (abstract g) (abstract g').
Proof.
  intros Hg Hs. induction Hs as [g|g g1 g' Hstep _ IH]; [split; [done|apply rtc_refl]|].
  destruct Hstep as [s g g1 Hi]. destruct (IH (guarded_step s g g1 Hg Hi)) as [Hg' Hr].
  split; [done|]. destruct (abstract_step s g g1 Hg Hi) as [<-|Hc]; [done|].
  eapply rtc_l; [by apply (capture_copy s)|done].
Qed.

Lemma copies_captures cap out err w failed :
  copies cap out err w failed → captures cap out err w failed.
Proof.
  intros (g & Hs & He & <- & <-).
  destruct (steps_abstract _ _ (guarded_started cap out err) Hs) as [Hg Hr].
  unfold captures. assert (abstract g = mk_capture [] [] (g_writer g) (g_failed g)) as <-; [|done].
  unfold abstract, to_copy. by rewrite !(gd_end g Hg), !He by apply He.
Qed.

(** * Every order of atomic copies is a schedule *)

(** No goroutine is in the middle of a copy. *)
Record idle (g : goroutines) : Prop := {
  id_mu : g_mu g = None;
  id_pc s : g_pc g s = AtRead ∨ g_pc g s = AtEnd ∧ g_pending g s = [];
}.

Lemma to_copy_idle s g : idle g → to_copy g s = g_pending g s.
Proof. intros [_ H]. unfold to_copy. by destruct (H s) as [-> | [-> ->]]. Qed.

(** Run [s] for one instruction, its tests decided by the context. *)
Ltac run_one s :=
  eapply rtc_l;
  [apply (run_instruction s); unfold instruction; next_state;
   repeat match goal with
   | H : g_pc ?g ?s = _ |- context [g_pc ?g ?s] => rewrite H
   | H : g_pending ?g ?s = _ |- context [g_pending ?g ?s] => rewrite H
   | H : g_mu ?g = _ |- context [g_mu ?g] => rewrite H
   | H : cw_exceeded ?w = _ |- context [cw_exceeded ?w] => rewrite H
   | H : (?x >? ?y) = _ |- context [?x >? ?y] => rewrite H
   end; cbn [ck_written ck_data negb]; reflexivity|].

(** [s] ran, alone, from idle to idle. *)
Definition ran (s : stream) (l : list chunk) (w : captureWriter) (f : bool) (g g' : goroutines)
    : Prop :=
  rtc goroutine_step g g' ∧ g_mu g' = None ∧ g_writer g' = w ∧ g_failed g' = f ∧
  g_pending g' s = l ∧ (g_pc g' s = AtRead ∨ g_pc g' s = AtEnd ∧ l = []) ∧
  ∀ s', s' ≠ s → g_pc g' s' = g_pc g s' ∧ g_pending g' s' = g_pending g s'.

Lemma ran_abstract s l w f g g' :
  idle g → ran s l w f g g' →
  rtc goroutine_step g g' ∧ idle g' ∧ abstract g' = set_pending s l w f (abstract g).
Proof.
  intros Hg (Hr & Hmu & <- & <- & <- & Hpc & Ho). split; [done|].
  assert (idle g') as Hg'.
  { split; [done|]. intros s'. destruct (decide (s' = s)) as [->|Hne]; [done|].
    destruct (Ho s' Hne) as [-> ->]. apply (id_pc g Hg). }
  split; [done|]. by rewrite (abstract_change s g g' Ho), to_copy_idle.
Qed.

(** The end of a run: compare the fields. *)
Ltac ran_end s :=
  split_and!; next_state; try done; try (by left); try (by right);
  let s' := fresh in let Hne := fresh in
  intros s' Hne; split; next_state; by rewrite ?upd_other by done.

(** A goroutine that runs alone around its loop makes one copy. *)
Lemma copy_alone s g ck rest :
  idle g → g_pending g s = ck :: rest →
  ∃ g', rtc goroutine_step g g' ∧ idle g' ∧ copy_chunk s (abstract g) = Some (abstract g').
Proof.
  intros Hidle Hp. pose proof (id_pc g Hidle s) as [Hpc|[_ ?]]; [|congruence].
  pose proof (id_mu g Hidle) as Hmu.
  unfold copy_chunk. rewrite pending_abstract, to_copy_idle, Hp by done.
  enough (∃ g', if ck_written ck
    then ran s rest (captureWriter_Write (ck_data ck) (g_writer g)) (g_failed g) g g'
    else ran s [] (g_writer g) true g g') as [g' Hg'].
  { exists g'. destruct (ck_written ck); apply ran_abstract in Hg' as (Hr & Hi & ->); done. }
  destruct ck as [p []]; cbn [ck_written ck_data]; unfold captureWriter_Write.
  - destruct (cw_exceeded (g_writer g)) eqn:Hx; [|destruct (_ >? _) eqn:Hb]; cbn [negb];
      eexists; (split; [repeat run_one s; apply rtc_refl|ran_end s]).
  - eexists; split; [repeat run_one s; apply rtc_refl|ran_end s].
Qed.

(** From idle goroutines, atomic copies can be scheduled. *)
Lemma copies_scheduled c c' :
  rtc capture_step c c' → ∀ g, idle g → abstract g = c →
  ∃ g', rtc goroutine_step g g' ∧ idle g' ∧ abstract g' = c'.
Proof.
  induction 1 as [c|c c1 c' Hstep _ IH]; intros g Hg <-; [by exists g; split; [apply rtc_refl|]|].
  inversion Hstep as [s ? ? Hc]; subst.
  destruct (g_pending g s) as [|ck rest] eqn:Hp.
  { unfold copy_chunk in Hc. by rewrite pending_abstract, to_copy_idle, Hp in Hc. }
  destruct (copy_alone s g ck rest Hg Hp) as (g1 & Hr1 & Hg1 & Hc1).
  destruct (IH g1 Hg1) as (g' & Hr' & Hg' & Ha'); [congruence|].
  exists g'. split; [by etrans|done].
Qed.

(** An idle goroutine with nothing to copy ends. *)
Lemma idle_end s g :
  idle g → g_pending g s = [] → ∃ g', ran s [] (g_writer g) (g_failed g) g g' ∧ g_pc g' s = AtEnd.
Proof.
  intros Hg Hp. pose proof (id_mu g Hg) as Hmu. destruct (id_pc g Hg s) as [Hpc|[Hpc _]].
  - eexists. split; [split; [run_one s; apply rtc_refl|ran_end s]|]. by next_state.
  - exists g. split; [|done]. split; [apply rtc_refl|]. split_and!; auto.
Qed.

Lemma captures_copies cap out err w failed :
  captures cap out err w failed → copies cap out err w failed.
Proof.
  intros Hc. assert (idle (launched cap out err)) as Hg by (split; [done|by left]).
  destruct (copies_scheduled _ _ Hc _ Hg eq_refl) as (g & Hr & Hidle & Ha).
  unfold abstract in Ha. rewrite !to_copy_idle in Ha by done. injection Ha as Ho He <- <-.
  destruct (idle_end Stdout g Hidle Ho) as (g1 & Hran1 & Hpc1).
  destruct (ran_abstract _ _ _ _ _ _ Hidle Hran1) as (_ & Hidle1 & _).
  destruct Hran1 as (Hr1 & _ & Hw1 & Hf1 & _ & _ & Hother1).
  destruct (Hother1 Stderr) as [_ Hp1]; [done|]. rewrite He in Hp1.
  destruct (idle_end Stderr g1 Hidle1 Hp1) as (g2 & (Hr2 & _ & Hw2 & Hf2 & _ & _ & Hother2) & Hpc2).
  exists g2. split; [by do 2 (etrans; [done|])|]. split; [|split; congruence].
  intros []; [|done]. destruct (Hother2 Stdout) as [Hpc _]; [done|]. congruence.
Qed.

(** [C5] Atomicity: the goroutines, run one instruction at a time under every
    schedule, refine the atomic copies: each state they reach abstracts to one that
    atomic copies reach from the same chunks, at most one of them is ever between
    [Lock] and [Unlock]; and when both have ended the capture holds what some sequence
    of atomic [Write]s leaves in it.  Conversely every order of atomic copies is
    some schedule of the goroutines. *)
Theorem goroutines_refine cap out err :
  (∀ g, rtc goroutine_step (launched cap out err) g →
     rtc capture_step (mk_capture out err cap false) (abstract g) ∧
     ¬ (holds_mutex (g_pc g Stdout) = true ∧ holds_mutex (g_pc g Stderr) = true)) ∧
  (∀ w failed, copies cap out err w failed ↔ captures cap out err w failed).
Proof.
  split; [|intros w failed; split; [apply copies_captures|apply captures_copies]].
  intros g Hs. destruct (steps_abstract _ _ (guarded_started cap out err) Hs) as [Hg Hr].
  split; [exact Hr|]. intros [H1%(gd_mutex g Hg) H2%(gd_mutex g Hg)]. congruence.
Qed.

(** * Termination *)

Definition pc_rank (c : pc) : nat :=
  match c with
  | AtEnd => 0
  | AtRead => 1
  | AtUnlock => 2
  | AtMark _ | AtStore _ _ => 3
  | AtBound _ => 4
  | AtExceeded _ => 5
  | AtLock _ => 6
  | AtTee _ => 7
  end.

(** An upper bound of the instructions a goroutine has left. *)
Definition left_of (s : stream) (g : goroutines) : nat :=
  8 * length (g_pending g s) + pc_rank (g_pc g s).
Definition instructions_left (g : goroutines) : nat := left_of Stdout g + left_of Stderr g.

Lemma left_of_step s g g' : instruction s g = Some g' → (left_of s g' < left_of s g)%nat.
Proof.
  intros Hi. unfold instruction in Hi. unfold left_of.
  destruct (g_pc g s) eqn:Hpc; cbn [pc_rank] in *;
    repeat match type of Hi with context [match ?x with _ => _ end] => destruct x eqn:? end;
    simplify_eq; next_state; cbn [pc_rank length]; rewrite ?Heql; cbn [length]; lia.
Qed.

Lemma instructions_left_step g g' :
  goroutine_step g g' → (instructions_left g' < instructions_left g)%nat.
Proof.
  intros [s ? ? Hi]. pose proof (left_of_step s g0 g'0 Hi) as Hl. unfold instructions_left.
  assert (∀ s', s' ≠ s → left_of s' g'0 = left_of s' g0) as Ho.
  { intros s' Hne. unfold left_of. by destruct (step_others s s' g0 g'0 Hi Hne) as [-> ->]. }
  destruct s; [rewrite (Ho Stderr) by done|rewrite (Ho Stdout) by done]; lia.
Qed.

(** No deadlock: the holder of the mutex can always run. *)
Lemma guarded_progress g : guarded g → ¬ ended g → ∃ g', goroutine_step g g'.
Proof.
  intros Hg Hne.
  assert (∀ s, holds_mutex (g_pc g s) = true → ∃ g', goroutine_step g g') as Hheld.
  { intros s Hs. destruct (instruction s g) as [g'|] eqn:Hi; [exists g'; by apply (run_instruction s)|].
    unfold instruction in Hi. destruct (g_pc g s); try done; by repeat case_match. }
  assert (∀ s, g_pc g s ≠ AtEnd → ∃ g', goroutine_step g g') as Hrun.
  { intros s Hs. destruct (instruction s g) as [g'|] eqn:Hi; [exists g'; by apply (run_instruction s)|].
    destruct (g_mu g) as [s'|] eqn:Hmu; [by apply (Hheld s'), (gd_mutex g Hg)|].
    exfalso. unfold instruction in Hi. rewrite Hmu in Hi.
    destruct (g_pc g s); try done; by repeat case_match. }
  destruct (g_pc g Stdout) eqn:E; try (by apply (Hrun Stdout); rewrite E).
  apply (Hrun Stderr). intros E'. apply Hne. by intros [].
Qed.

(** [C28] Copying terminates, without deadlock, under every schedule: from the chunks
    of both streams the goroutines run at most eight instructions for each chunk
    and one to see the end of each stream, and as long as one of them has not
    ended some goroutine can run. *)
Theorem goroutines_terminate cap out err :
  (∀ n g, nsteps goroutine_step n (launched cap out err) g →
     (n ≤ 8 * (length out + length err) + 2)%nat) ∧
  (∀ g, rtc goroutine_step (launched cap out err) g → ¬ ended g → ∃ g', goroutine_step g g').
Proof.
  split.
  - assert (∀ n g g', nsteps goroutine_step n g g' → (n ≤ instructions_left g)%nat) as H.
    { induction 1 as [g|n g g1 g' Hs%instructions_left_step _ IH]; lia. }
    intros n g Hn. apply H in Hn. unfold instructions_left, left_of, launched in Hn. cbn in Hn. lia.
  - intros g Hs. apply guarded_progress.
    by destruct (steps_abstract _ _ (guarded_started cap out err) Hs).
Qed.
