(* ===== verification/Flags.v ===== *)
(** Command-line parsing as the [flag] package does it, with the [strconv] and
    [hex] conversions the flags of [cmd/lastro] go through. *)

From S2P Require Import Prelude GoBytes.

(** * strconv.ParseInt(s, 0, 64) *)

Definition lower_bit (b : byte) : Z := Z.lor (b2z b) 0x20.
Definition digit_range (lo hi c : Z) : bool := (lo <=? c) && (c <=? hi).

(** The base prefix of an unsigned literal, and what follows it. *)
Definition int_base (s : bytes) : Z * bytes :=
  match s with
  | x30 :: rest =>
      match rest with
      | c :: (_ :: _) as digits =>
          if lower_bit c =? 98 then (2, tail rest)
          else if lower_bit c =? 111 then (8, tail rest)
          else if lower_bit c =? 120 then (16, tail rest)
          else (8, rest)
      | _ => (8, rest)
      end
  | _ => (10, s)
  end.

Definition digit_value (b : byte) : option Z :=
  if digit_range 48 57 (b2z b) then Some (b2z b - 48)
  else if digit_range 97 122 (lower_bit b) then Some (lower_bit b - 97 + 10)
  else None.

(** The digits of a literal, underscores skipped; [None] for a syntax error. *)
Fixpoint digits_value (base : Z) (s : bytes) (n : Z) : option Z :=
  match s with
  | [] => Some n
  | b :: s' =>
      if bool_decide (b = x5f) then digits_value base s' n
      else
        match digit_value b with
        | Some d => if d >=? base then None else digits_value base s' (n * base + d)
        | None => None
        end
  end.

(** What precedes the current character: the beginning, a digit, an
    underscore, something else. *)
Inductive previous : Type := PBegin | PDigit | PUnderscore | POther.

Fixpoint underscore_loop (hex : bool) (i : previous) (s : bytes) : bool :=
  match s with
  | [] => match i with PUnderscore => false | _ => true end
  | b :: s' =>
      if digit_range 48 57 (b2z b) || (hex && digit_range 97 102 (lower_bit b))
      then underscore_loop hex PDigit s'
      else if bool_decide (b = x5f) then
        match i with PDigit => underscore_loop hex PUnderscore s' | _ => false end
      else
        match i with PUnderscore => false | _ => underscore_loop hex POther s' end
  end.

Definition underscoreOK (s : bytes) : bool :=
  match s with
  | x30 :: c :: s' =>
      if (lower_bit c =? 98) || (lower_bit c =? 111) || (lower_bit c =? 120)
      then underscore_loop (lower_bit c =? 120) PDigit s'
      else underscore_loop false PBegin s
  | _ => underscore_loop false PBegin s
  end.

Definition ParseUint (s : bytes) : option Z :=
  match s with
  | [] => None
  | _ =>
      let '(base, digits) := int_base s in
      match digits_value base digits 0 with
      | Some n => if existsb (λ b, bool_decide (b = x5f)) digits && negb (underscoreOK s)
                  then None else Some n
      | None => None
      end
  end.

(** The value, or [None] for a syntax or range error. *)
Definition ParseInt (s : bytes) : option Z :=
  let '(neg, digits) :=
    match s with
    | x2b :: s' => (false, s')
    | x2d :: s' => (true, s')
    | _ => (false, s)
    end in
  match ParseUint digits with
  | None => None
  | Some un =>
      if negb neg && (un >=? 2 ^ 63) then None
      else if neg && (un >? 2 ^ 63) then None
      else Some (if neg then - un else un)
  end.

(** * hex.DecodeString *)

Definition from_hex_char (b : byte) : option Z :=
  let c := b2z b in
  if digit_range 48 57 c then Some (c - 48)
  else if digit_range 97 102 c then Some (c - 87)
  else if digit_range 65 70 c then Some (c - 55)
  else None.

Fixpoint hex_DecodeString (s : bytes) : option bytes :=
  match s with
  | [] => Some []
  | a :: b :: s' =>
      match from_hex_char a, from_hex_char b, hex_DecodeString s' with
      | Some x, Some y, Some rest => Some (z2b (Z.lor (Z.shiftl x 4) y) :: rest)
      | _, _, _ => None
      end
  | _ => None
  end.

(** * strconv.ParseBool *)

Definition ParseBool (s : bytes) : option bool :=
  if existsb (bytes_Equal s) (map s2b ["1"; "t"; "T"; "true"; "TRUE"; "True"]%string)
  then Some true
  else if existsb (bytes_Equal s) (map s2b ["0"; "f"; "F"; "false"; "FALSE"; "False"]%string)
  then Some false
  else None.

(** * Flag sets *)

Inductive flag_kind : Type :=
  | FString
  | FInt
  | FBool
  (** [fs.Var] with a repeatable value *)
  | FList.

Definition flag_set : Type := list (bytes * flag_kind).

(** The values given on the command line, in order. *)
Definition flag_values : Type := list (bytes * bytes).

(** [fs.Parse] under [flag.ExitOnError]: the values and the arguments left, or
    the end of the process. *)
Inductive parsed : Type :=
  | Parsed (values : flag_values) (rest : list bytes)
  (** [-help] with no such flag: usage, exit 0 *)
  | ExitHelp
  (** a parse error: message and usage, exit 2 *)
  | ExitUsage.

Fixpoint flag_lookup (fs : flag_set) (name : bytes) : option flag_kind :=
  match fs with
  | [] => None
  | (n, k) :: fs' => if bytes_Equal n name then Some k else flag_lookup fs' name
  end.

(** Split [name=value] at the first [=] that is not the first character. *)
Fixpoint cut_equals (s : bytes) : bytes * option bytes :=
  match s with
  | [] => ([], None)
  | b :: s' =>
      if bool_decide (b = x3d) then ([], Some s')
      else let '(n, v) := cut_equals s' in (b :: n, v)
  end.

Definition set_ok (k : flag_kind) (value : bytes) : bool :=
  match k with
  | FInt => match ParseInt value with Some _ => true | None => false end
  | FBool => match ParseBool value with Some _ => true | None => false end
  | _ => true
  end.

(** One argument after the other; every round takes one or two of them. *)
Fixpoint flag_Parse (fuel : nat) (fs : flag_set) (args : list bytes) (values : flag_values)
    : parsed :=
  match fuel, args with
  | S fuel', s :: rest =>
      match s with
      | x2d :: c :: s' =>
          if bytes_Equal s (s2b "--") then Parsed values rest
          else
            let name := if bool_decide (c = x2d) then s' else c :: s' in
            match name with
            | [] => ExitUsage
            | n0 :: name' =>
                if bool_decide (n0 = x2d) || bool_decide (n0 = x3d) then ExitUsage
                else
                  let '(more, value) := cut_equals name' in
                  let name := n0 :: more in
                  match flag_lookup fs name with
                  | None =>
                      if bytes_Equal name (s2b "help") || bytes_Equal name (s2b "h")
                      then ExitHelp else ExitUsage
                  | Some k =>
                      (* a boolean flag takes no argument *)
                      let value :=
                        match k, value with FBool, None => Some (s2b "true") | _, _ => value end in
                      match value, rest with
                      | Some v, _ =>
                          if set_ok k v then flag_Parse fuel' fs rest (values ++ [(name, v)])
                          else ExitUsage
                      | None, v :: rest' =>
                          if set_ok k v then flag_Parse fuel' fs rest' (values ++ [(name, v)])
                          else ExitUsage
                      | None, [] => ExitUsage
                      end
                  end
            end
      | _ => Parsed values args
      end
  | _, _ => Parsed values args
  end.

Definition Parse (fs : flag_set) (args : list bytes) : parsed :=
  flag_Parse (length args) fs args [].

(** The fuel is enough: no more of it changes the result. *)
Lemma flag_Parse_fuel n fs args :
  (length args <= n)%nat → flag_Parse n fs args [] = Parse fs args.
Proof.
  unfold Parse. generalize ([] : flag_values).
  assert (∀ m values, (length args <= n)%nat → (length args <= m)%nat →
    flag_Parse n fs args values = flag_Parse m fs args values) as H; [|by auto].
  revert args. induction n as [|n IH]; intros [|s rest] [|m] values Hn Hm; cbn in *; try done; [lia..|].
  repeat case_match; try done; subst; apply IH; cbn in *; lia.
Qed.

(** The values given for a flag, in order; the last one of a string or an
    integer counts. *)
Definition given (values : flag_values) (name : string) : list bytes :=
  map snd (filter (λ nv, bytes_Equal nv.1 (s2b name) = true) values).
Definition flag_String (values : flag_values) (name : string) (default : bytes) : bytes :=
  List.last (given values name) default.
Definition flag_Int (values : flag_values) (name : string) (default : Z) : Z :=
  match last (given values name) with
  | Some v => match ParseInt v with Some n => n | None => default end
  | None => default
  end.
Definition flag_Bool (values : flag_values) (name : string) (default : bool) : bool :=
  match last (given values name) with
  | Some v => match ParseBool v with Some b => b | None => default end
  | None => default
  end.
