(* ===== verification/Sys.v ===== *)
(** Programs that talk to the operating system: the calls the command line
    makes, programs as trees of calls, and the traces of a program under every
    behaviour of its environment. *)

From S2P Require Import Prelude GoBytes Capture Goroutines Flags.

(** * Calls *)

(** A path argument, or [filepath.Join] of a directory and a name (kept as it
    is: which file a path names is the system's affair). *)
Inductive path : Type :=
  | PArg (p : bytes)
  | PJoin (dir : bytes) (name : string).

#[global] Instance path_eq_dec : EqDecision path.
Proof. solve_decision. Defined.

(** What is printed: the format, and the values it formats. *)
Inductive arg : Type :=
  | AString (s : bytes)
  | AInt (z : Z)
  | ABool (b : bool)
  | APath (p : path)
  | AError (e : error).

(** How [cmd.Wait] returns. *)
Inductive wait_result : Type :=
  | WaitOk
  (** [*exec.ExitError]: the child did not succeed *)
  | WaitExit (code : Z)
  | WaitError (e : error).

(** A call and the type of its reply; [None] is a nil error. *)
Inductive sys : Type → Type :=
  | MkdirAll (dir : bytes) : sys (option error)
  | Stat (p : path) : sys (option error)
  | ReadFile (p : path) : sys (bytes + error)
  | WriteFile (p : path) (data : bytes) (mode : Z) : sys (option error)
  | RandRead (n : nat) : sys (bytes + error)
  | NowMilli : sys Z
  (** run a command to its end and take its standard output *)
  | Output (name : bytes) (args : list bytes) : sys (bytes + error)
  | Start (name : bytes) (args : list bytes) : sys (option error)
  (** the child's output, copied to [cap] (and to this process's streams) *)
  | Wait (cap : captureWriter) : sys (captureWriter * wait_result)
  (** [net.Dial("udp", addr)], and the calls on the connection *)
  | Dial (addr : bytes) : sys (option error)
  | SetDeadline (seconds : Z) : sys unit
  | ConnWrite (packet : bytes) : sys (option error)
  | ConnRead (n : nat) : sys (bytes + error)
  | ConnClose : sys unit
  (** [rand.Read] with its error ignored: what the buffer holds after it *)
  | RandFill (n : nat) : sys bytes
  | Sleep (milliseconds : Z) : sys unit
  | Print (s : stream) (format : string) (args : list arg) : sys unit.

(** What the system guarantees of a reply. *)
Definition reply_ok {R} (c : sys R) : R → Prop :=
  match c with
  | RandRead n => λ r, match r with inl b => length b = n | inr _ => True end
  | RandFill n => λ b, length b = n
  | ConnRead n => λ r, match r with inl b => (length b <= n)%nat | inr _ => True end
  | NowMilli => λ t, - 2 ^ 63 ≤ t < 2 ^ 63
  | Wait cap => λ r,
      ∃ out err failed,
        copies cap out err r.1 failed ∧
        (* [Wait] reports a copying error unless the child's failure comes first *)
        (failed = true → r.2 ≠ WaitOk)
  | _ => λ _, True
  end.

(** * Programs *)

Inductive prog (A : Type) : Type :=
  | Ret (a : A)
  | Do {R} (c : sys R) (k : R → prog A).
Arguments Ret {A} _.
Arguments Do {A R} _ _.

#[global] Instance prog_ret : MRet prog := λ A, Ret.
#[global] Instance prog_bind : MBind prog := λ A B f, fix go m :=
  match m with
  | Ret a => f a
  | Do c k => Do c (λ r, go (k r))
  end.

Definition call {R} (c : sys R) : prog R := Do c Ret.

(** * Traces *)

(** A call with its reply. *)
Inductive event : Type :=
  | Ev {R} (c : sys R) (r : R).

(** The program can make the calls of [t], with those replies, and return [a]. *)
Fixpoint runs {A} (m : prog A) (t : list event) (a : A) : Prop :=
  match m with
  | Ret b => t = [] ∧ a = b
  | Do c k => ∃ r t', t = Ev c r :: t' ∧ reply_ok c r ∧ runs (k r) t' a
  end.

Lemma runs_bind {A B} (m : prog A) (f : A → prog B) t b :
  runs (m ≫= f) t b ↔ ∃ t1 t2 a, t = t1 ++ t2 ∧ runs m t1 a ∧ runs (f a) t2 b.
Proof.
  revert t. induction m as [a|R c k IH]; intros t; cbn.
  - split; [intros H; by exists [], t, a|]. intros (t1 & t2 & a' & -> & [-> ->] & H). done.
  - split.
    + intros (r & t' & -> & Hr & (t1 & t2 & a & -> & H1 & H2)%IH).
      exists (Ev c r :: t1), t2, a. split; [done|]. split; [|done]. by exists r, t1.
    + intros (t1 & t2 & a & -> & (r & t' & -> & Hr & H1) & H2).
      exists r, (t' ++ t2). split; [done|]. split; [done|]. apply IH. by exists t', t2, a.
Qed.

Lemma runs_call {R} (c : sys R) t r : runs (call c) t r ↔ t = [Ev c r] ∧ reply_ok c r.
Proof.
  cbn. split.
  - intros (r' & t' & -> & Hr & -> & ->). done.
  - intros [-> Hr]. by exists r, [].
Qed.

(** The first call of a program. *)
Lemma runs_do {R B} (c : sys R) (f : R → prog B) t b :
  runs (call c ≫= f) t b ↔ ∃ r t', t = Ev c r :: t' ∧ reply_ok c r ∧ runs (f r) t' b.
Proof. done. Qed.

(** The files a trace writes, whether or not the writes succeed. *)
Definition written (e : event) : list (path * bytes * Z) :=
  match e with
  | Ev c _ => match c with WriteFile p d m => [(p, d, m)] | _ => [] end
  end.
Definition writes (t : list event) : list (path * bytes * Z) := flat_map written t.

(** The files a trace writes with success. *)
Definition wrote (e : event) : list (path * bytes) :=
  match e with
  | Ev c r => (match c in sys R return R → _ with
               | WriteFile p d _ => λ r, match r with None => [(p, d)] | Some _ => [] end
               | _ => λ _, []
               end) r
  end.
Definition stored (t : list event) : list (path * bytes) := flat_map wrote t.

(** The child processes a trace starts, with success. *)
Definition started (e : event) : list (bytes * list bytes) :=
  match e with
  | Ev c r => (match c in sys R return R → _ with
               | Start n a => λ r, match r with None => [(n, a)] | Some _ => [] end
               | _ => λ _, []
               end) r
  end.
Definition children (t : list event) : list (bytes * list bytes) := flat_map started t.

(** The attempts to start a child process, and all processes a trace runs or
    tries to run ([Output] runs one to its end). *)
Definition start_call (e : event) : list (bytes * list bytes) :=
  match e with Ev c _ => match c with Start n a => [(n, a)] | _ => [] end end.
Definition starts (t : list event) : list (bytes * list bytes) := flat_map start_call t.

Definition executed (e : event) : list (bytes * list bytes) :=
  match e with Ev c _ => match c with Start n a | Output n a => [(n, a)] | _ => [] end end.

(** The errors that entropy and the writing of files replied with. *)
Definition fault (e : event) : list error :=
  match e with
  | Ev c r => (match c in sys R return R → _ with
               | RandRead _ => λ r, match r with inl _ => [] | inr err => [err] end
               | WriteFile _ _ _ => λ r, match r with None => [] | Some err => [err] end
               | _ => λ _, []
               end) r
  end.
Definition faults (t : list event) : list error := flat_map fault t.

(** Calls on the network. *)
Definition on_network (e : event) : bool :=
  match e with
  | Ev c _ => match c with
              | Dial _ | SetDeadline _ | ConnWrite _ | ConnRead _ | ConnClose => true
              | _ => false
              end
  end.

(** Calls that change files or directories. *)
Definition changes_disk (e : event) : bool :=
  match e with Ev c _ => match c with MkdirAll _ | WriteFile _ _ _ => true | _ => false end end.

(** * Functions that return early *)

(** How a command ends: with an exit code, or with a panic. *)
Inductive exit_status : Type :=
  | Exit (code : Z)
  | Crash.

(** A program that may have returned from the function it is in. *)
Definition flow (A : Type) : Type := prog (exit_status + A).

#[global] Instance flow_ret : MRet flow := λ A a, Ret (inr a).
#[global] Instance flow_bind : MBind flow := λ A B f m,
  mbind (M := prog) (λ r, match r with inl s => Ret (inl s) | inr a => f a end) m.

Definition sys_call {R} (c : sys R) : flow R := Do c (λ r, Ret (inr r)).

(** [return code]; [if cond { ... }]; [if err != nil { ... }] on the two forms
    of replies; a library call that can only panic. *)
Definition leave {A} (s : exit_status) : flow A := Ret (inl s).
Definition when (cond : bool) (m : flow unit) : flow unit := if cond then m else mret tt.
Definition on_error (e : option error) (h : error → flow unit) : flow unit :=
  match e with None => mret tt | Some err => h err end.
Definition or_else {A} (r : A + error) (h : error → flow A) : flow A :=
  match r with inl a => mret a | inr err => h err end.
Definition attempt {A} (r : res A) (h : error → flow A) : flow A :=
  match r with Ok a => mret a | Err e => h e | Panic => leave Crash end.
Definition must {A} (r : res A) : flow A :=
  match r with Ok a => mret a | _ => leave Crash end.

(** The function's own result is its exit code. *)
Definition finish (m : flow Z) : prog exit_status :=
  mbind (M := prog) (λ r, Ret (match r with inl s => s | inr code => Exit code end)) m.

Definition eprint (format : string) (args : list arg) : flow unit :=
  sys_call (Print Stderr format args).
Definition print (format : string) (args : list arg) : flow unit :=
  sys_call (Print Stdout format args).

(** [fmt.Fprintf(os.Stderr, ...); return code] *)
Definition die {A} (format : string) (args : list arg) (code : Z) : flow A :=
  eprint format args;; leave (Exit code).

(** [fs.Parse] under [flag.ExitOnError]. *)
Definition parse_flags (fs : flag_set) (args : list bytes) : flow (flag_values * list bytes) :=
  match Parse fs args with
  | Parsed values rest => mret (values, rest)
  | ExitHelp => leave (Exit 0)
  | ExitUsage => leave (Exit 2)
  end.

(** Traces of a function: it returned with the status [s], or went on with [a]. *)
Definition left {A} (m : flow A) (t : list event) (s : exit_status) : Prop := runs m t (inl s).
Definition goes {A} (m : flow A) (t : list event) (a : A) : Prop := runs m t (inr a).

Lemma left_bind {A B} (m : flow A) (f : A → flow B) t s :
  left (m ≫= f) t s ↔
  left m t s ∨ ∃ t1 t2 a, t = t1 ++ t2 ∧ goes m t1 a ∧ left (f a) t2 s.
Proof.
  unfold left, goes, mbind, flow_bind. rewrite runs_bind. split.
  - intros (t1 & t2 & [s'|a] & -> & H1 & H2); [|right; eauto 10].
    destruct H2 as [-> [= <-]]. rewrite app_nil_r. by left.
  - intros [H|(t1 & t2 & a & -> & H1 & H2)].
    + exists t, [], (inl s). by rewrite app_nil_r.
    + by exists t1, t2, (inr a).
Qed.

Lemma goes_bind {A B} (m : flow A) (f : A → flow B) t b :
  goes (m ≫= f) t b ↔ ∃ t1 t2 a, t = t1 ++ t2 ∧ goes m t1 a ∧ goes (f a) t2 b.
Proof.
  unfold goes, mbind, flow_bind. rewrite runs_bind. split.
  - intros (t1 & t2 & [s'|a] & -> & H1 & H2); [by destruct H2 as [_ ?]|eauto 10].
  - intros (t1 & t2 & a & -> & H1 & H2). by exists t1, t2, (inr a).
Qed.

Lemma runs_finish (m : flow Z) t s :
  runs (finish m) t s ↔ left m t s ∨ ∃ code, goes m t code ∧ s = Exit code.
Proof.
  unfold finish, left, goes. rewrite runs_bind. split.
  - intros (t1 & t2 & [s'|c] & -> & H & [-> ->]); rewrite app_nil_r; [by left|right; eauto].
  - intros [H|(c & H & ->)]; exists t, [].
    + exists (inl s). by rewrite app_nil_r.
    + exists (inr c). by rewrite app_nil_r.
Qed.

Lemma left_sys {R} (c : sys R) t s : left (sys_call c) t s ↔ False.
Proof. unfold left. cbn. split; [|done]. by intros (r & t' & _ & _ & _ & ?). Qed.

Lemma goes_sys {R} (c : sys R) t r : goes (sys_call c) t r ↔ t = [Ev c r] ∧ reply_ok c r.
Proof.
  unfold goes. cbn. split.
  - by intros (r' & t' & -> & Hr & -> & [= ->]).
  - intros [-> Hr]. by exists r, [].
Qed.

Lemma left_leave {A} s t s' : left (leave (A := A) s) t s' ↔ t = [] ∧ s' = s.
Proof. unfold left. cbn. naive_solver. Qed.
Lemma goes_leave {A} s t (a : A) : goes (leave s) t a ↔ False.
Proof. unfold goes. cbn. naive_solver. Qed.

Lemma left_ret {A} (a : A) t s : left (mret a) t s ↔ False.
Proof. unfold left. cbn. naive_solver. Qed.
Lemma goes_ret {A} (a : A) t b : goes (mret a) t b ↔ t = [] ∧ b = a.
Proof. unfold goes. cbn. naive_solver. Qed.

(** * Reasoning about every run *)

(** Every run of [m] ends with [Q] of its trace and result. *)
Definition wp {A} (m : prog A) (Q : list event → A → Prop) : Prop := ∀ t a, runs m t a → Q t a.

Lemma wp_weaken {A} (m : prog A) (Q Q' : list event → A → Prop) :
  wp m Q → (∀ t a, Q t a → Q' t a) → wp m Q'.
Proof. intros Hm H t a Ha. by apply H, Hm. Qed.

Section Wp.
Context {A : Type} (Q : list event → exit_status + A → Prop).

Lemma wp_ret a : Q [] (inr a) → wp (mret a : flow A) Q.
Proof. intros H t r [-> ->]. done. Qed.

Lemma wp_leave s : Q [] (inl s) → wp (leave s : flow A) Q.
Proof. intros H t r [-> ->]. done. Qed.

Lemma wp_bind {B} (m : flow B) (f : B → flow A) (R : list event → exit_status + B → Prop) :
  wp m R →
  (∀ t s, R t (inl s) → Q t (inl s)) →
  (∀ t b, R t (inr b) → wp (f b) (λ t', Q (t ++ t'))) →
  wp (m ≫= f) Q.
Proof.
  intros Hm Hl Hr t r. unfold mbind, flow_bind. rewrite runs_bind.
  intros (t1 & t2 & [s|b] & -> & H1 & H2); apply Hm in H1.
  - destruct H2 as [-> ->]. rewrite app_nil_r. by apply Hl.
  - by apply (Hr t1 b H1).
Qed.

(** The calls at the head of a function. *)
Lemma wp_sys {R} (c : sys R) (f : R → flow A) :
  (∀ r, reply_ok c r → wp (f r) (λ t, Q (Ev c r :: t))) → wp (sys_call c ≫= f) Q.
Proof.
  intros H t r (v & t' & -> & Hv & Hr). by apply (H v Hv).
Qed.

Lemma wp_leave_bind {B} s (f : B → flow A) : Q [] (inl s) → wp (leave s ≫= f) Q.
Proof. intros H t r [-> ->]. done. Qed.

Lemma wp_ret_bind {B} (b : B) (f : B → flow A) : wp (f b) Q → wp (mret b ≫= f) Q.
Proof. done. Qed.

Lemma wp_must {B} (b : B) (r : res B) (f : B → flow A) :
  r = Ok b → wp (f b) Q → wp (must r ≫= f) Q.
Proof. by intros ->. Qed.

Lemma wp_assoc {B C} (m : flow B) (f : B → flow C) (g : C → flow A) :
  wp (m ≫= λ b, f b ≫= g) Q → wp ((m ≫= f) ≫= g) Q.
Proof.
  intros H t r Hr. apply H. revert Hr. unfold mbind at 1 2, flow_bind at 1 2.
  rewrite runs_bind. intros (t1 & t2 & [s|c] & -> & H1 & H2).
  - unfold mbind, flow_bind in H1. rewrite runs_bind in H1. destruct H2 as [-> ->].
    destruct H1 as (u1 & u2 & [s'|b] & -> & Hm & Hf); unfold mbind, flow_bind;
      rewrite runs_bind, app_nil_r.
    + destruct Hf as [-> [= ->]]. exists u1, [], (inl s'). by rewrite app_nil_r.
    + exists u1, u2, (inr b). split; [done|]. split; [done|]. rewrite runs_bind.
      exists u2, [], (inl s). by rewrite app_nil_r.
  - unfold mbind, flow_bind in H1. rewrite runs_bind in H1.
    destruct H1 as (u1 & u2 & [s'|b] & -> & Hm & Hf); [by destruct Hf as [_ ?]|].
    unfold mbind, flow_bind. rewrite runs_bind. exists u1, (u2 ++ t2), (inr b).
    split; [by rewrite <- (assoc_L (++))|]. split; [done|]. rewrite runs_bind.
    by exists u2, t2, (inr c).
Qed.

End Wp.

Lemma wp_finish (m : flow Z) (Q : list event → exit_status → Prop) :
  wp m (λ t r, Q t (match r with inl s => s | inr code => Exit code end)) → wp (finish m) Q.
Proof.
  intros H t s. unfold finish. rewrite runs_bind.
  intros (t1 & t2 & r & -> & Hr & -> & ->). rewrite app_nil_r. by apply H.
Qed.

(** One rule per form of statement. *)
Section Rules.
Context {A : Type} (Q : list event → exit_status + A → Prop).

Lemma wp_when b m (f : unit → flow A) :
  (b = true → wp (m ≫= f) Q) → (b = false → wp (f tt) Q) → wp (when b m ≫= f) Q.
Proof. destruct b; auto. Qed.

Lemma wp_on_error e h (f : unit → flow A) :
  (∀ err, e = Some err → wp (h err ≫= f) Q) → (e = None → wp (f tt) Q) →
  wp (on_error e h ≫= f) Q.
Proof. intros H1 H2. destruct e as [err|]; [by apply (H1 err)|by apply H2]. Qed.

Lemma wp_or_else {B} (r : B + error) h (f : B → flow A) :
  (∀ err, r = inr err → wp (h err ≫= f) Q) → (∀ b, r = inl b → wp (f b) Q) →
  wp (or_else r h ≫= f) Q.
Proof. intros H1 H2. destruct r as [b|err]; [by apply (H2 b)|by apply (H1 err)]. Qed.

Lemma wp_attempt {B} (r : res B) h (f : B → flow A) :
  r ≠ Panic → (∀ e, r = Err e → wp (h e ≫= f) Q) → (∀ b, r = Ok b → wp (f b) Q) →
  wp (attempt r h ≫= f) Q.
Proof. intros Hp H1 H2. destruct r as [b|e|]; [by apply (H2 b)|by apply (H1 e)|done]. Qed.

Lemma wp_die_bind {B} fmt args code (f : B → flow A) :
  Q [Ev (Print Stderr fmt args) tt] (inl (Exit code)) → wp (die fmt args code ≫= f) Q.
Proof. intros H t r ([] & t' & -> & _ & -> & ->). exact H. Qed.

Lemma wp_print s fmt args (f : unit → flow A) :
  wp (f tt) (λ t, Q (Ev (Print s fmt args) tt :: t)) → wp (sys_call (Print s fmt args) ≫= f) Q.
Proof. intros H t r ([] & t' & -> & _ & Hr). by apply H. Qed.

End Rules.

(** Walk through a function, one call or branch at a time. *)
Ltac wp_step :=
  lazymatch goal with
  | |- wp (sys_call (Print _ _ _) ≫= _) _ => apply wp_print; cbv beta
  | |- wp (print _ _ ≫= _) _ => apply wp_print; cbv beta
  | |- wp (eprint _ _ ≫= _) _ => apply wp_print; cbv beta
  | |- wp (sys_call _ ≫= _) _ => apply wp_sys; intros ? ?; cbv beta
  | |- wp ((_ ≫= _) ≫= _) _ => apply wp_assoc; cbv beta
  | |- wp (mret _ ≫= _) _ => apply wp_ret_bind; cbv beta
  | |- wp (leave _ ≫= _) _ => apply wp_leave_bind
  | |- wp (mret _) _ => apply wp_ret
  | |- wp (leave _) _ => apply wp_leave
  | |- wp (finish _) _ => apply wp_finish
  | |- wp (when _ _ ≫= _) _ => apply wp_when; [intros ?|intros ?; cbv beta]
  | |- wp (on_error _ _ ≫= _) _ => apply wp_on_error; [intros ? ->|intros ->]; cbv beta
  | |- wp (or_else (inl _) _ ≫= _) _ => cbn [or_else]
  | |- wp (or_else (inr _) _ ≫= _) _ => cbn [or_else]
  | |- wp (or_else _ _ ≫= _) _ => apply wp_or_else; [intros ? ->|intros ? ->]; cbv beta
  | |- wp (attempt _ _ ≫= _) _ => apply wp_attempt; [|intros ? ?|intros ? ?; cbv beta]
  | |- wp (die _ _ _ ≫= _) _ => apply wp_die_bind
  | |- wp ((match ?x with Some _ => _ | None => _ end) ≫= _) _ => destruct x eqn:?; cbv beta iota
  end.
Ltac wp_go := repeat wp_step.

Lemma wp_parse_flags {A} fs args (f : _ → flow A) Q :
  (Parse fs args = ExitHelp → Q [] (inl (Exit 0))) →
  (Parse fs args = ExitUsage → Q [] (inl (Exit 2))) →
  (∀ values rest, Parse fs args = Parsed values rest → wp (f (values, rest)) Q) →
  wp (parse_flags fs args ≫= f) Q.
Proof.
  intros Hh Hu Hp. unfold parse_flags. destruct (Parse fs args); [by apply Hp| |];
    apply wp_leave_bind; auto.
Qed.

(** * Running a program *)

(** An environment: a reply for every call, which may depend on the trace so far. *)
Definition environment : Type := ∀ R, sys R → R.

Fixpoint play_from {A} (env : list event → environment) (h : list event) (m : prog A)
    : list event * A :=
  match m with
  | Ret a => ([], a)
  | Do c k =>
      let r := env h _ c in
      let '(t, a) := play_from env (h ++ [Ev c r]) (k r) in
      (Ev c r :: t, a)
  end.

Definition play {A} (env : environment) (m : prog A) : list event * A :=
  play_from (λ _, env) [] m.

Lemma play_from_runs {A} (env : list event → environment) h (m : prog A) :
  (∀ h R (c : sys R), reply_ok c (env h R c)) →
  runs m (play_from env h m).1 (play_from env h m).2.
Proof.
  intros He. revert h. induction m as [a|R c k IH]; intros h; [done|]. cbn.
  specialize (IH (env h R c) (h ++ [Ev c (env h R c)])).
  destruct (play_from _ _ _) as [t a]. cbn in *. exists (env h R c), t. auto.
Qed.

Lemma play_runs {A} (env : environment) (m : prog A) :
  (∀ R (c : sys R), reply_ok c (env R c)) → runs m (play env m).1 (play env m).2.
Proof. intros He. by apply play_from_runs. Qed.

(** Every event of [t], after the history [h], is one [P] allows there. *)
Fixpoint answered (P : list event → event → Prop) (h t : list event) : Prop :=
  match t with
  | [] => True
  | e :: t' => P h e ∧ answered P (h ++ [e]) t'
  end.

Lemma play_answered {A} (P : list event → event → Prop) env h (m : prog A) :
  (∀ h R (c : sys R), P h (Ev c (env h R c))) → answered P h (play_from env h m).1.
Proof.
  intros HP. revert h. induction m as [a|R c k IH]; intros h; [done|]. cbn.
  specialize (IH (env h R c) (h ++ [Ev c (env h R c)])).
  destruct (play_from _ _ _) as [t a]. by split.
Qed.

Lemma answered_app P h t1 t2 : answered P h (t1 ++ t2) ↔ answered P h t1 ∧ answered P (h ++ t1) t2.
Proof.
  revert h. induction t1 as [|e t1 IH]; intros h; cbn [answered app].
  - rewrite app_nil_r. naive_solver.
  - rewrite IH, <- (assoc_L (++)). cbn [app]. naive_solver.
Qed.

(** More of what traces tell: the files found by [Stat], the files read. *)
Definition found (e : event) : list path :=
  match e with
  | Ev c r => (match c in sys R return R → _ with
               | Stat p => λ r, match r with None => [p] | Some _ => [] end
               | _ => λ _, []
               end) r
  end.

(** The files probed with [Stat]. *)
Definition probed (e : event) : list path :=
  match e with Ev c _ => match c with Stat p => [p] | _ => [] end end.

(** The entropy drawn, with success. *)
Definition drawn (e : event) : list bytes :=
  match e with
  | Ev c r => (match c in sys R return R → _ with
               | RandRead _ => λ r, match r with inl b => [b] | inr _ => [] end
               | _ => λ _, []
               end) r
  end.

Definition read (e : event) : list (path * option bytes) :=
  match e with
  | Ev c r => (match c in sys R return R → _ with
               | ReadFile p => λ r, [(p, match r with inl d => Some d | inr _ => None end)]
               | _ => λ _, []
               end) r
  end.

(** What [Wait] returned. *)
Definition waited (e : event) : list (captureWriter * wait_result) :=
  match e with
  | Ev c r => (match c in sys R return R → _ with
               | Wait _ => λ r, [r]
               | _ => λ _, []
               end) r
  end.
Definition waits (t : list event) : list (captureWriter * wait_result) := flat_map waited t.

(** The reads of a trace agree with the contents of the files. *)
Definition reads_from (files : path → option bytes) (t : list event) : Prop :=
  Forall (λ '(p, d), files p = d) (flat_map read t).

Lemma reads_from_cons files e t :
  reads_from files (e :: t) ↔ Forall (λ '(p, d), files p = d) (read e) ∧ reads_from files t.
Proof. unfold reads_from. cbn. by rewrite Forall_app. Qed.

Lemma answered_reads (P : list event → event → Prop) files h t :
  (∀ h e, P h e → Forall (λ '(p, d), files p = d) (read e)) → answered P h t → reads_from files t.
Proof.
  intros HP. revert h. induction t as [|e t IH]; intros h; [by constructor|].
  intros [He Ht]. apply reads_from_cons. split; [by apply (HP h)|by apply (IH (h ++ [e]))].
Qed.

(** The packets a trace sends (or tries to), and those it receives. *)
Definition sent_by (e : event) : list bytes :=
  match e with Ev c _ => match c with ConnWrite p => [p] | _ => [] end end.
Definition sent (t : list event) : list bytes := flat_map sent_by t.

Definition received_by (e : event) : list bytes :=
  match e with
  | Ev c r => (match c in sys R return R → _ with
               | ConnRead _ => λ r, match r with inl d => [d] | inr _ => [] end
               | _ => λ _, []
               end) r
  end.
Definition received (t : list event) : list bytes := flat_map received_by t.
