(* ===== verification/Lastro.v ===== *)
(** The command [lastro] ([cmd/lastro/main.go]): keygen, run and verify as
    programs over system calls, ending in the exit code of the process. *)

From stdpp Require Import pretty.
From S2P Require Import Prelude GoBytes GoStrings Crypto Toy Cursor Span Cert Method Validate.
From S2P Require Import Resource Capture Flags Sys.

Definition defaultMaxOutput : Z := Z.shiftl 8 20.

Definition exitNoReceipt : Z := 125.
Definition exitNoStart : Z := 127.

Definition verifyOK : Z := 0.
Definition verifyInvalid : Z := 1.
Definition verifyUsage : Z := 2.
Definition verifyUnanchored : Z := 3.

(** File modes 0o600 and 0o644. *)
Definition mode_private : Z := 384.
Definition mode_public : Z := 420.

Section Lastro.
Context `{P : Primitives} `{U : Unicode}.

(** * keygen *)

Definition keygen_flags : flag_set := [(s2b "dir", FString)].

(** The loop over the four files. *)
Fixpoint write_key_files (dir : bytes) (files : list (string * bytes)) : flow unit :=
  match files with
  | [] => mret tt
  | (name, data) :: files' =>
      e ← sys_call (WriteFile (PJoin dir name) data mode_private);
      on_error e (λ err,
        die "lastro keygen: write %s: %v" [AString (s2b name); AError err] 1);;
      write_key_files dir files'
  end.

Definition cmdKeygen (args : list bytes) : prog exit_status := finish (
  '(values, _) ← parse_flags keygen_flags args;
  let dir := flag_String values "dir" [] in
  when (bytes_Equal dir []) (die "lastro keygen: --dir is required" [] verifyUsage);;
  e ← sys_call (MkdirAll dir);
  on_error e (λ err, die "lastro keygen: %v" [AError err] 1);;
  let sigKeyPath := PJoin dir "sig.key" in
  e ← sys_call (Stat sigKeyPath);
  when (bool_decide (e = None))
    (die "lastro keygen: %s exists; refusing to overwrite key material" [APath sigKeyPath] 1);;
  r ← sys_call (RandRead 32);
  sigSeed ← or_else r (λ err, die "lastro keygen: entropy: %v" [AError err] 1);
  r ← sys_call (RandRead 32);
  kexSecret ← or_else r (λ err, die "lastro keygen: entropy: %v" [AError err] 1);
  priv ← must (ed25519_NewKeyFromSeed sigSeed);
  let sigPub := prim_public priv in
  kexPub ←
    match prim_x25519 kexSecret prim_basepoint with
    | Some pub => mret pub
    | None => die "lastro keygen: x25519: %v" [] 1
    end;
  write_key_files dir
    [("sig.key", sigSeed); ("sig.pub", sigPub); ("static.key", kexSecret);
     ("static.pub", kexPub)]%string;;
  print "lastro: keys written to %s" [AString dir];;
  print "lastro: executor fingerprint %s" [AString (Fingerprint sigPub)];;
  print "lastro: request an executor certificate with: bolina ca issue --role executor ..." [];;
  mret 0).

(** * run *)

Definition run_flags : flag_set :=
  [(s2b "key", FString); (s2b "namespace", FString); (s2b "path", FString);
   (s2b "trace", FString); (s2b "out", FString); (s2b "max-output", FInt);
   (s2b "save-output", FString)].

(** The index of the first [--]. *)
Fixpoint find_sep (args : list bytes) : option nat :=
  match args with
  | [] => None
  | a :: args' => if bytes_Equal a (s2b "--") then Some O else S <$> find_sep args'
  end.

(** [fmt.Sprintf("\n[lastro] exit-status=%d\n", exitCode)] *)
Definition newline : bytes := [x0a].
Definition trailer (exitCode : Z) : bytes :=
  newline ++ s2b "[lastro] exit-status=" ++ s2b (pretty exitCode) ++ newline.

(** [out, err] of [git rev-parse HEAD] *)
Definition gitHead : flow (bytes + error) :=
  sys_call (Output (s2b "git") [s2b "rev-parse"; s2b "HEAD"]).

(** Reading the template's commit only when the path asks for it. *)
Definition resolve_path (p : bytes) : flow bytes :=
  r ← (if Contains p sha_template
       then head ← gitHead; mret (resolveShaTemplate p head)
       else mret (resolveShaTemplate p (inl [])));
  attempt r (λ err, die "lastro run: %v" [AError err] verifyUsage).

(** The trace id: the flag's, or a random one. *)
Definition trace_id (traceHex : bytes) : flow bytes :=
  if negb (bytes_Equal traceHex []) then
    match hex_DecodeString traceHex with
    | Some b =>
        when (negb (len b =? LenTraceID))
          (die "lastro run: --trace must be 32 hex chars" [] verifyUsage);;
        mret b
    | None => die "lastro run: --trace must be 32 hex chars" [] verifyUsage
    end
  else
    r ← sys_call (RandRead 16);
    or_else r (λ err, die "lastro run: entropy: %v" [AError err] exitNoReceipt).

(** Start the child, copy its output, wait for it. *)
Definition run_child (child : list bytes) (max : Z) : flow (captureWriter * Z) :=
  let cap := new_captureWriter max in
  let name := List.hd [] child in
  e ← sys_call (Start name (tail child));
  on_error e (λ err,
    die "lastro run: cannot start %q: %v" [AString name; AError err] exitNoStart);;
  '(cap, w) ← sys_call (Wait cap);
  match w with
  | WaitOk => mret (cap, 0)
  | WaitExit code => mret (cap, code)
  | WaitError err => die "lastro run: wait: %v" [AError err] exitNoReceipt
  end.

Definition span_fields (pub resource traceID captured spanID : bytes) (now : Z) : SpanFields :=
  mk_SpanFields x02 spanID traceID resource MethodSubprocess VolatilityVolatile
    (replicate 32 x00) (u64 now) (Blake2s256 captured) pub.

(** The second half of [cmdRun], once the child has ended: check the capture,
    save it, mint the receipt and write it. *)
Definition mint_receipt (priv pub resource traceID outPath saveOutput : bytes) (maxOutput : Z)
    (cap : captureWriter) (exitCode : Z) : flow Z :=
  when (cw_exceeded cap)
    (die "lastro run: output exceeded %d bytes; NO receipt written (child exited %d)"
       [AInt maxOutput; AInt exitCode] exitNoReceipt);;
  let captured := cw_buf cap ++ trailer exitCode in
  (if negb (bytes_Equal saveOutput []) then
     e ← sys_call (WriteFile (PArg saveOutput) captured mode_public);
     on_error e (λ err,
       die "lastro run: save-output: %v; NO receipt written" [AError err] exitNoReceipt)
   else mret tt);;
  now ← sys_call NowMilli;
  r ← sys_call (RandRead 16);
  spanID ← or_else r (λ err, die "lastro run: entropy: %v" [AError err] exitNoReceipt);
  let f := span_fields pub resource traceID captured spanID now in
  receipt ← attempt (BuildSpan f priv)
    (λ err, die "lastro run: build span: %v" [AError err] exitNoReceipt);
  e ← sys_call (WriteFile (PArg outPath) receipt mode_public);
  on_error e (λ err,
    die "lastro run: write receipt: %v; child exited %d" [AError err; AInt exitCode] exitNoReceipt);;
  eprint "lastro: receipt %s · %s · exit %d · %d bytes observed · digest %s…"
    [AString outPath; AString resource; AInt exitCode; AInt (len captured);
     AString (hex_EncodeToString (take 8 (sf_Digest f)))];;
  mret exitCode.

Definition cmdRun (args : list bytes) : prog exit_status := finish (
  sep ← match find_sep args with
        | Some sep => mret sep
        | None => die "lastro run: missing '-- command args...'" [] verifyUsage
        end;
  when (Nat.eqb sep (length args - 1))
    (die "lastro run: missing '-- command args...'" [] verifyUsage);;
  let child := drop (S sep) args in
  '(values, _) ← parse_flags run_flags (take sep args);
  let keyDir := flag_String values "key" [] in
  let namespace := flag_String values "namespace" [] in
  let resPath := flag_String values "path" [] in
  let traceHex := flag_String values "trace" [] in
  let outPath := flag_String values "out" (s2b "lastro.receipt") in
  let maxOutput := flag_Int values "max-output" defaultMaxOutput in
  let saveOutput := flag_String values "save-output" [] in
  when (bytes_Equal keyDir [] || bytes_Equal namespace [] || bytes_Equal resPath [])
    (die "lastro run: --key, --namespace and --path are required" [] verifyUsage);;
  resolvedPath ← resolve_path resPath;
  attempt (validateResource namespace resolvedPath)
    (λ err, die "lastro run: %v" [AError err] verifyUsage);;
  r ← sys_call (ReadFile (PJoin keyDir "sig.key"));
  seed ← or_else r (λ err,
    die "lastro run: cannot read signing key: %v" [AError err] exitNoReceipt);
  when (negb (len seed =? ed25519_SeedSize))
    (die "lastro run: cannot read signing key: %v" [] exitNoReceipt);;
  priv ← must (ed25519_NewKeyFromSeed seed);
  let pub := prim_public priv in
  let resource := s2b "bol:" ++ Fingerprint pub ++ s2b "/" ++ namespace ++ s2b "/" ++ resolvedPath in
  when (len resource >? MaxResource)
    (die "lastro run: resource id exceeds 256 bytes" [] verifyUsage);;
  traceID ← trace_id traceHex;
  '(cap, exitCode) ← run_child child maxOutput;
  mint_receipt priv pub resource traceID outPath saveOutput maxOutput cap exitCode).

(** * verify *)

Definition verify_flags : flag_set := [(s2b "cert", FString); (s2b "ca", FList)].

(** [s.Set(v)] of the repeatable [--ca] *)
Definition stringList_Set (s : list bytes) (v : bytes) : list bytes := s ++ [v].

(** [printReport]: the span, its class and ceiling, the verdict, and the
    certificate's window when there is a certificate. *)
Definition printReport (span : Span) (class : EvidenceClass) (ceiling : Z) (verdict : string)
    (cert : option Cert) : flow unit :=
  print "receipt:    %s" [AString (s2b verdict)];;
  print "resource:   %s" [AString (sp_ResourceID span)];;
  print "method:     %d → %s, ceiling %.2f (q8 %d)"
    [AInt (b2z (sp_MethodID span)); AString (s2b (Class_String class)); AInt ceiling; AInt ceiling];;
  print "observed:   %s (informative only, BE-ENV-01)" [AInt (sp_ObservedAt span)];;
  print "digest:     %s" [AString (hex_EncodeToString (sp_Digest span))];;
  print "executor:   %s" [AString (Fingerprint (sp_Executor span))];;
  match cert with
  | None => mret tt
  | Some cert =>
      let inWindow :=
        (sp_ObservedAt span >=? ct_NotBefore cert) && (sp_ObservedAt span <? ct_NotAfter cert) in
      print "cert:       %s .. %s (observed_at in window: %v; chain validated clock-free, BE-HIST-01)"
        [AInt (ct_NotBefore cert); AInt (ct_NotAfter cert); ABool inWindow]
  end.

(** The loop that reads the trusted keys. *)
Fixpoint read_trusted (caPaths : list bytes) (trusted : list bytes) : flow (list bytes) :=
  match caPaths with
  | [] => mret trusted
  | p :: caPaths' =>
      r ← sys_call (ReadFile (PArg p));
      k ← or_else r (λ err, die "lastro verify: bad CA key %s" [AString p] verifyUsage);
      when (negb (len k =? LenCAKey))
        (die "lastro verify: bad CA key %s" [AString p] verifyUsage);;
      read_trusted caPaths' (trusted ++ [k])
  end.

Definition cmdVerify (args : list bytes) : prog exit_status := finish (
  '(values, rest) ← parse_flags verify_flags args;
  let certPath := flag_String values "cert" [] in
  let caPaths := fold_left stringList_Set (given values "ca") [] in
  when (negb (Nat.eqb (length rest) 1))
    (die "lastro verify: exactly one receipt file" [] verifyUsage);;
  let file := List.hd [] rest in
  r ← sys_call (ReadFile (PArg file));
  raw ← or_else r (λ err, die "lastro verify: %v" [AError err] verifyInvalid);
  span ← attempt (ParseSpan raw)
    (λ err, die "lastro verify: INVALID: receipt does not parse: %v" [AError err] verifyInvalid);
  attempt (Span_VerifySig span)
    (λ err, die "lastro verify: INVALID: signature: %v" [AError err] verifyInvalid);;
  let '(class, ceiling) := ClassOf (sp_MethodID span) in
  when (bytes_Equal certPath [])
    (printReport span class ceiling
       "UNANCHORED — signature valid, bound to no identity (no --cert given)" None;;
     leave (Exit verifyUnanchored));;
  r ← sys_call (ReadFile (PArg certPath));
  certRaw ← or_else r (λ err, die "lastro verify: %v" [AError err] verifyInvalid);
  cert ← attempt (ParseCert certRaw)
    (λ err, die "lastro verify: INVALID: cert does not parse: %v" [AError err] verifyInvalid);
  when (Nat.eqb (length caPaths) 0)
    (die "lastro verify: --cert requires at least one --ca" [] verifyUsage);;
  trusted ← read_trusted caPaths [];
  attempt (VerifyReceipt span cert trusted)
    (λ err, die "lastro verify: INVALID: %v" [AError err] verifyInvalid);;
  printReport span class ceiling "VERIFIED" (Some cert);;
  mret verifyOK).

(** * main *)

Definition usage_text : string :=
"lastro — signed receipts for AI/CI work (Bolina spans, detached profile)

  lastro keygen --dir DIR
  lastro run --key DIR --namespace NS --path P [--trace HEX32] [--out FILE]
            [--max-output N] [--save-output FILE] -- command args...
  lastro verify FILE.receipt [--cert cert.bin] [--ca ca.pub]...
".
Definition usage : flow unit := eprint usage_text [].

(** [args] is [os.Args[1:]]. *)
Definition main (args : list bytes) : prog exit_status :=
  match args with
  | [] => finish (usage;; mret verifyUsage)
  | cmd :: rest =>
      if bytes_Equal cmd (s2b "keygen") then cmdKeygen rest
      else if bytes_Equal cmd (s2b "run") then cmdRun rest
      else if bytes_Equal cmd (s2b "verify") then cmdVerify rest
      else finish (usage;; mret verifyUsage)
  end.

End Lastro.
