(* ===== verification/LastroSpec.v ===== *)
(** What the command [lastro] guarantees, in every run: theorems about the
    traces of [Lastro.v]. *)

From stdpp Require Import relations.
From S2P Require Import Prelude GoBytes GoStrings Crypto Toy Cursor Span Cert Method Validate.
From S2P Require Import Resource Capture Goroutines Flags Sys Lastro.

(** * verify *)

(** Runs whose reads agree with the files' contents. *)
Section Reads.
Context (files : path → option bytes) {A : Type} (R : exit_status + A → Prop).

Lemma wp_read p (f : bytes + error → flow A) :
  (∀ d, files p = Some d → wp (f (inl d)) (λ t r, reads_from files t → R r)) →
  (∀ e, files p = None → wp (f (inr e)) (λ t r, reads_from files t → R r)) →
  wp (sys_call (ReadFile p) ≫= f) (λ t r, reads_from files t → R r).
Proof.
  intros H1 H2. apply wp_sys. intros [d|e] _ t r Hr [Hp Ht]%reads_from_cons; cbn in Hp;
    apply Forall_inv in Hp; [by apply (H1 d Hp t)|by apply (H2 e Hp t)].
Qed.

Lemma wp_other {B} (c : sys B) (f : B → flow A) :
  (∀ r, read (Ev c r) = []) →
  (∀ r, wp (f r) (λ t r, reads_from files t → R r)) →
  wp (sys_call c ≫= f) (λ t r, reads_from files t → R r).
Proof.
  intros Hc H. apply wp_sys. intros v _ t r Hr [_ Ht]%reads_from_cons. by apply (H v t).
Qed.

Lemma wp_die_reads {B} fmt args code (f : B → flow A) :
  R (inl (Exit code)) → wp (die fmt args code ≫= f) (λ t r, reads_from files t → R r).
Proof. intros H. by apply wp_die_bind. Qed.

End Reads.

Section Verify.
Context `{P : Primitives}.

(** The keys the CA files hold, when they can all be read and are all 32 bytes. *)
Fixpoint load_keys (files : path → option bytes) (caPaths : list bytes) : option (list bytes) :=
  match caPaths with
  | [] => Some []
  | p :: caPaths' =>
      match files (PArg p) with
      | Some k =>
          if len k =? LenCAKey
          then match load_keys files caPaths' with Some ks => Some (k :: ks) | None => None end
          else None
      | None => None
      end
  end.

(** The exit code of [lastro verify], as a function of the files. *)
Definition verify_code (files : path → option bytes) (certPath : bytes)
    (caPaths : list bytes) (file : bytes) : Z :=
  match files (PArg file) with
  | None => verifyInvalid
  | Some raw =>
      match ParseSpan raw with
      | Ok span =>
          if negb (is_Ok (Span_VerifySig span)) then verifyInvalid
          else if bytes_Equal certPath [] then verifyUnanchored
          else
            match files (PArg certPath) with
            | None => verifyInvalid
            | Some certRaw =>
                match ParseCert certRaw with
                | Ok cert =>
                    if Nat.eqb (length caPaths) 0 then verifyUsage
                    else
                      match load_keys files caPaths with
                      | None => verifyUsage
                      | Some trusted =>
                          if is_Ok (VerifyReceipt span cert trusted) then verifyOK
                          else verifyInvalid
                      end
                | _ => verifyInvalid
                end
            end
      | _ => verifyInvalid
      end
  end.

Lemma wp_read_trusted {A} files (R : exit_status + A → Prop) caPaths acc f :
  (∀ ks, load_keys files caPaths = Some ks →
     wp (f (acc ++ ks)) (λ t r, reads_from files t → R r)) →
  (load_keys files caPaths = None → R (inl (Exit verifyUsage))) →
  wp (read_trusted caPaths acc ≫= f) (λ t r, reads_from files t → R r).
Proof.
  revert acc. induction caPaths as [|p caPaths IH]; intros acc H1 H2; cbn [read_trusted load_keys] in *.
  - apply wp_ret_bind. specialize (H1 [] eq_refl). by rewrite app_nil_r in H1.
  - apply wp_assoc. apply wp_read; [intros k Hk|intros e Hk]; rewrite Hk in *.
    + do 4 wp_step. wp_step; [apply wp_die_reads|].
      * apply H2. apply negb_true_iff in H. by rewrite H.
      * apply negb_false_iff in H. rewrite H in *. apply IH.
        -- intros ks Hks. rewrite Hks in H1. specialize (H1 _ eq_refl).
           by rewrite <- (assoc_L (++)).
        -- intros Hks. rewrite Hks in H2. by apply H2.
    + wp_step. wp_step. apply wp_die_reads. by apply H2.
Qed.

Lemma wp_printReport {A} files (R : exit_status + A → Prop) span class ceiling verdict cert f :
  wp (f tt) (λ t r, reads_from files t → R r) →
  wp (printReport span class ceiling verdict cert ≫= f) (λ t r, reads_from files t → R r).
Proof.
  intros H. unfold printReport, print. repeat (apply wp_assoc; apply wp_other; [done|intros ?]).
  destruct cert; [apply wp_other; [done|by intros []]|by apply wp_ret_bind].
Qed.

(** The exit status of [lastro verify] is the code of its files. *)
Lemma stringList_all l acc : fold_left stringList_Set l acc = acc ++ l.
Proof.
  revert acc. induction l as [|v l IH]; intros acc; cbn; [by rewrite app_nil_r|].
  rewrite IH. unfold stringList_Set. by rewrite <- (assoc_L (++)).
Qed.

Lemma cmdVerify_code args values file files t s :
  Parse verify_flags args = Parsed values [file] →
  runs (cmdVerify args) t s → reads_from files t →
  s = Exit (verify_code files (flag_String values "cert" []) (given values "ca") file).
Proof.
  intros Hargs Hruns. revert t s Hruns.
  set (certPath := flag_String values "cert" []). set (caPaths := given values "ca").
  set (Q := λ t s, reads_from files t → s = Exit (verify_code files certPath caPaths file)).
  change (wp (cmdVerify args) Q).
  unfold cmdVerify. wp_step. unfold Q. apply wp_parse_flags; rewrite Hargs; [done..|].
  intros ? ? [= <- <-]. cbn [length Nat.eqb negb List.hd]. rewrite stringList_all.
  fold certPath caPaths. cbn [app].
  wp_step; [done|].
  set (R := λ r : exit_status + Z, match r with inl s => s | inr code => Exit code end
                                   = Exit (verify_code files certPath caPaths file)).
  match goal with |- wp ?m _ => change (wp m (λ t r, reads_from files t → R r)) end.
  apply wp_read; [intros raw Hraw|intros e Hraw]; cbn [or_else].
  2: { apply wp_die_reads. unfold R, verify_code. by rewrite Hraw. }
  wp_step. wp_step; [apply (codec_not_Panic (F := span_format))|rename H0 into Hspan..].
  { apply wp_die_reads. unfold R, verify_code. by rewrite Hraw, Hspan. }
  rename b into span.
  wp_step; [apply VerifySigned_not_Panic|rename H0 into Hsig..].
  { apply wp_die_reads. unfold R, verify_code. by rewrite Hraw, Hspan, Hsig. }
  destruct (ClassOf (sp_MethodID span)) as [class ceiling].
  wp_step; rename H0 into Hcp.
  { wp_step. apply wp_printReport. wp_step. unfold R, verify_code.
    by rewrite Hraw, Hspan, Hsig, Hcp. }
  apply wp_read; [intros craw Hcraw|intros e Hcraw]; cbn [or_else].
  2: { apply wp_die_reads. unfold R, verify_code. by rewrite Hraw, Hspan, Hsig, Hcp, Hcraw. }
  wp_step. wp_step; [apply (codec_not_Panic (F := cert_format))|rename H0 into Hcert..].
  { apply wp_die_reads. unfold R, verify_code.
    by rewrite Hraw, Hspan, Hsig, Hcp, Hcraw, Hcert. }
  rename b0 into cert.
  wp_step; rename H0 into Hca.
  { apply wp_die_reads. unfold R, verify_code.
    by rewrite Hraw, Hspan, Hsig, Hcp, Hcraw, Hcert, Hca. }
  apply wp_read_trusted; [intros trusted Hks|intros Hks]; cbn [app].
  2: { unfold R, verify_code. by rewrite Hraw, Hspan, Hsig, Hcp, Hcraw, Hcert, Hca, Hks. }
  wp_step; [by eapply VerifyReceipt_not_Panic|rename H0 into Hv..].
  { apply wp_die_reads. unfold R, verify_code.
    by rewrite Hraw, Hspan, Hsig, Hcp, Hcraw, Hcert, Hca, Hks, Hv. }
  apply wp_printReport. wp_step. unfold R, verify_code.
  by rewrite Hraw, Hspan, Hsig, Hcp, Hcraw, Hcert, Hca, Hks, Hv.
Qed.

(** The runs that stop at the command line. *)
Lemma cmdVerify_early args t s :
  runs (cmdVerify args) t s →
  match Parse verify_flags args with
  | ExitHelp => s = Exit 0
  | ExitUsage => s = Exit 2
  | _ => True
  end.
Proof.
  revert t s. change (wp (cmdVerify args) (λ _ s, match Parse verify_flags args with
    | ExitHelp => s = Exit 0 | ExitUsage => s = Exit 2 | _ => True end)).
  unfold cmdVerify. wp_step.
  apply wp_parse_flags; [by intros ->..|]. intros values rest ->. by intros t r _.
Qed.

Lemma cmdVerify_usage args values rest t s :
  runs (cmdVerify args) t s → Parse verify_flags args = Parsed values rest →
  length rest ≠ 1%nat →
  s = Exit 2 ∧ t = [Ev (Print Stderr "lastro verify: exactly one receipt file" []) tt].
Proof.
  intros Hr Hp Hl. revert t s Hr. change (wp (cmdVerify args) (λ t s, s = Exit 2 ∧
    t = [Ev (Print Stderr "lastro verify: exactly one receipt file" []) tt])).
  unfold cmdVerify. wp_step. apply wp_parse_flags; rewrite Hp; [done..|].
  intros ? ? [= <- <-]. cbv zeta. rewrite (proj2 (Nat.eqb_neq (length rest) 1)) by done. by wp_step; [wp_step|].
Qed.

End Verify.

(** * run *)

(** The observations of a trace: the children started, the files stored, the
    attempts to start one, what [Wait] returned, and the errors of entropy and
    of writing. *)
Lemma children_app t1 t2 : children (t1 ++ t2) = children t1 ++ children t2.
Proof. apply flat_map_app. Qed.
Lemma stored_app t1 t2 : stored (t1 ++ t2) = stored t1 ++ stored t2.
Proof. apply flat_map_app. Qed.
Lemma starts_app t1 t2 : starts (t1 ++ t2) = starts t1 ++ starts t2.
Proof. apply flat_map_app. Qed.
Lemma waits_app t1 t2 : waits (t1 ++ t2) = waits t1 ++ waits t2.
Proof. apply flat_map_app. Qed.
Lemma faults_app t1 t2 : faults (t1 ++ t2) = faults t1 ++ faults t2.
Proof. apply flat_map_app. Qed.

Lemma children_cons e t : children (e :: t) = started e ++ children t.
Proof. done. Qed.
Lemma stored_cons e t : stored (e :: t) = wrote e ++ stored t.
Proof. done. Qed.
Lemma starts_cons e t : starts (e :: t) = start_call e ++ starts t.
Proof. done. Qed.
Lemma waits_cons e t : waits (e :: t) = waited e ++ waits t.
Proof. done. Qed.
Lemma faults_cons e t : faults (e :: t) = fault e ++ faults t.
Proof. done. Qed.

(** Calls that neither store a file nor start a process. *)
Record quiet (t : list event) : Prop := {
  quiet_children : children t = [];
  quiet_stored : stored t = [];
  quiet_starts : starts t = [];
  quiet_waits : waits t = [];
}.

(** ... and that went well. *)
Record calm (t : list event) : Prop := {
  calm_quiet : quiet t;
  calm_faults : faults t = [];
}.

(** What a trace did, call by call. *)
Ltac effects :=
  repeat first
    [ rewrite children_app | rewrite stored_app | rewrite starts_app | rewrite waits_app
    | rewrite faults_app | rewrite children_cons | rewrite stored_cons | rewrite starts_cons
    | rewrite waits_cons | rewrite faults_cons ];
  repeat match goal with
  | H : calm ?t |- _ => destruct H
  | H : quiet ?t |- _ => destruct H
  end;
  repeat match goal with
  | H : children ?t = _ |- context [children ?t] => rewrite H
  | H : stored ?t = _ |- context [stored ?t] => rewrite H
  | H : starts ?t = _ |- context [starts ?t] => rewrite H
  | H : waits ?t = _ |- context [waits ?t] => rewrite H
  | H : faults ?t = _ |- context [faults ?t] => rewrite H
  end;
  cbn [started wrote start_call waited fault app children stored starts waits faults flat_map].

Section Run.
Context `{P : Primitives} `{U : Unicode}.

Lemma wp_trace_id {A} h (f : bytes → flow A) Q :
  (∀ t, quiet t → h ≠ [] → (∀ id, hex_DecodeString h = Some id → length id ≠ 16%nat) →
     Q t (inl (Exit 2))) →
  (∀ t, quiet t → faults t ≠ [] → Q t (inl (Exit 125))) →
  (∀ t id, calm t → length id = 16%nat → wp (f id) (λ t', Q (t ++ t'))) →
  wp (trace_id h ≫= f) Q.
Proof.
  intros Hd He Hk. unfold trace_id. destruct (bytes_Equal h []) eqn:Hh; cbn [negb].
  - wp_go; [by apply He|]. by apply (Hk [_]).
  - apply bytes_Equal_false in Hh. destruct (hex_DecodeString h) as [b|] eqn:Hb.
    + wp_go; match goal with H : negb _ = _ |- _ => rename H into Hl end.
      * apply Hd; [done|done|]. intros id [= <-] Hid. unfold LenTraceID in Hl. rewrite Hid in Hl. done.
      * apply (Hk []); [done|]. apply negb_false_iff, Z.eqb_eq in Hl. unfold LenTraceID in Hl. lia.
    + wp_go. by apply Hd.
Qed.

(** The call of git, when the path has the template. *)
Definition git_said (t : list event) (p : bytes) (head : bytes + error) : Prop :=
  Contains p (s2b "{sha}") = true → Ev (Output (s2b "git") [s2b "rev-parse"; s2b "HEAD"]) head ∈ t.

Lemma git_said_app t t' p head : git_said t p head → git_said (t ++ t') p head.
Proof. intros H Hp. apply elem_of_app. left. by apply H. Qed.

Lemma wp_resolve_path {A} p (f : bytes → flow A) Q :
  (∀ t head, quiet t → git_said t p head → (∀ q, resolveShaTemplate p head ≠ Ok q) →
     Q t (inl (Exit 2))) →
  (∀ t q head, calm t → git_said t p head → resolveShaTemplate p head = Ok q →
     wp (f q) (λ t', Q (t ++ t'))) →
  wp (resolve_path p ≫= f) Q.
Proof.
  intros Hd Hk. unfold resolve_path, gitHead, git_said in *. fold sha_template in *. wp_step.
  destruct (Contains p sha_template).
  - wp_go; [apply resolveShaTemplate_not_Panic|..].
    + apply (Hd _ r); [done|by left|congruence].
    + apply (Hk [_] _ r); [done|by left|done].
  - wp_go; [apply resolveShaTemplate_not_Panic|..].
    + apply (Hd _ (inl [])); [done..|congruence].
    + by apply (Hk [] _ (inl [])).
Qed.

(** The resource a run observes. *)
Definition resource_name (pub ns p : bytes) : bytes :=
  s2b "bol:" ++ Fingerprint pub ++ s2b "/" ++ ns ++ s2b "/" ++ p.

Definition saved_file (values : flag_values) (captured : bytes) : list (path * bytes) :=
  if bytes_Equal (flag_String values "save-output" []) [] then []
  else [(PArg (flag_String values "save-output" []), captured)].

(** The key a run read, and how its child ended. *)
Definition read_key (values : flag_values) (t : list event) (seed : bytes) : Prop :=
  (PJoin (flag_String values "key" []) "sig.key", Some seed) ∈ flat_map read t.
Definition child_exit (t : list event) (w : captureWriter) (code : Z) : Prop :=
  ((w, WaitOk) ∈ flat_map waited t ∧ code = 0) ∨ (w, WaitExit code) ∈ flat_map waited t.

Lemma read_key_app values t1 t2 seed :
  read_key values (t1 ++ t2) seed ↔ read_key values t1 seed ∨ read_key values t2 seed.
Proof. unfold read_key. by rewrite flat_map_app, elem_of_app. Qed.
Lemma child_exit_app t1 t2 w code :
  child_exit (t1 ++ t2) w code ↔ child_exit t1 w code ∨ child_exit t2 w code.
Proof. unfold child_exit. rewrite flat_map_app, !elem_of_app. tauto. Qed.

(** The run wrote a receipt: of what, for whom, and where. *)
Definition mints (values : flag_values) (child : list bytes) (t : list event) (code : Z) : Prop :=
  ∃ seed p traceID spanID now w out err failed receipt,
    let priv := prim_key_from_seed seed in
    let pub := prim_public priv in
    let ns := flag_String values "namespace" [] in
    let captured := cw_buf w ++ trailer code in
    let f := span_fields pub (resource_name pub ns p) traceID captured spanID now in
    length seed = 32%nat ∧ read_key values t seed ∧ child_exit t w code ∧ resource_ok ns p ∧
    length traceID = 16%nat ∧ length spanID = 16%nat ∧
    captures (new_captureWriter (flag_Int values "max-output" defaultMaxOutput)) out err w failed ∧
    cw_exceeded w = false ∧
    BuildSpan f priv = Ok receipt ∧
    children t = [(List.hd [] child, tail child)] ∧
    stored t = saved_file values captured ++
               [(PArg (flag_String values "out" (s2b "lastro.receipt")), receipt)].

(** Why a run whose flags were parsed stops before it starts a child, and its
    exit code then. *)
Inductive refused_values (values : flag_values) (t : list event) : Z → Prop :=
  | refused_required name :
      name ∈ ["key"; "namespace"; "path"]%string → flag_String values name [] = [] →
      refused_values values t 2
  (** the template cannot be resolved, or the resource is not well-formed *)
  | refused_name head :
      git_said t (flag_String values "path" []) head →
      (∀ p, resolveShaTemplate (flag_String values "path" []) head = Ok p →
            validateResource (flag_String values "namespace" []) p ≠ Ok tt) →
      refused_values values t 2
  (** the signing key cannot be read, or is not 32 bytes *)
  | refused_key d :
      (PJoin (flag_String values "key" []) "sig.key", d) ∈ flat_map read t →
      (∀ seed, d = Some seed → length seed ≠ 32%nat) →
      refused_values values t 125
  (** the trace id is not 16 bytes in hexadecimal *)
  | refused_trace :
      flag_String values "trace" [] ≠ [] →
      (∀ id, hex_DecodeString (flag_String values "trace" []) = Some id → length id ≠ 16%nat) →
      refused_values values t 2
  | refused_entropy : faults t ≠ [] → refused_values values t 125.

(** ... and any run. *)
Inductive refused (args : list bytes) (t : list event) : Z → Prop :=
  (** no [--] with a command after it *)
  | refused_command :
      (∀ flags child, args = flags ++ s2b "--" :: child → s2b "--" ∉ flags → child = []) →
      refused args t 2
  | refused_help flags child :
      args = flags ++ s2b "--" :: child → s2b "--" ∉ flags → Parse run_flags flags = ExitHelp →
      refused args t 0
  | refused_usage flags child :
      args = flags ++ s2b "--" :: child → s2b "--" ∉ flags → Parse run_flags flags = ExitUsage →
      refused args t 2
  | refused_flags flags child values rest code :
      args = flags ++ s2b "--" :: child → s2b "--" ∉ flags →
      Parse run_flags flags = Parsed values rest → refused_values values t code →
      refused args t code.

(** Why a run whose child ended writes no receipt: the child's end is not known,
    or its output exceeded the bound, or entropy or the writing of a file failed. *)
Definition unobserved (t : list event) (w : captureWriter) (r : wait_result) : Prop :=
  (∃ e, r = WaitError e) ∨ cw_exceeded w = true ∨ faults t ≠ [].

(** How a run with parsed flags ends, once it tried to start the child. *)
Inductive run_ended (values : flag_values) (child : list bytes) (t : list event) : Z → Prop :=
  | ended_no_start :
      children t = [] → stored t = [] → waits t = [] → run_ended values child t 127
  | ended_no_receipt w r :
      children t = [(List.hd [] child, tail child)] → waits t = [(w, r)] → unobserved t w r →
      stored t = [] ∨ (∃ captured, stored t = saved_file values captured) →
      run_ended values child t 125
  | ended_receipt w r code :
      children t = [(List.hd [] child, tail child)] → waits t = [(w, r)] → ¬ unobserved t w r →
      (r = WaitOk ∧ code = 0 ∨ r = WaitExit code) → mints values child t code →
      run_ended values child t code.

Context {L : PrimitivesLaws}.

Lemma length_resource_name pub ns p :
  resource_ok ns p → len (resource_name pub ns p) ≤ MaxResource.
Proof.
  intros [Hn _ Hp _ _]. unfold resource_name, MaxResource.
  rewrite !length_app, length_Fingerprint.
  change (length (s2b "bol:")) with 4%nat. change (length (s2b "/")) with 1%nat. lia.
Qed.

(** Every end of the second half: no receipt and code 125, or a receipt stored
    last and the child's code. *)
Lemma wp_mint_receipt values priv pub resource traceID maxOutput cap exitCode Q :
  let captured := cw_buf cap ++ trailer exitCode in
  let saved := saved_file values captured in
  let out := flag_String values "out" (s2b "lastro.receipt") in
  length priv = 64%nat → len resource ≤ MaxResource →
  (∀ t, children t = [] → starts t = [] → waits t = [] →
     stored t = [] ∨ stored t = saved → cw_exceeded cap = true ∨ faults t ≠ [] →
     Q t (inl (Exit 125))) →
  (∀ t spanID now receipt, children t = [] → starts t = [] → waits t = [] → faults t = [] →
     cw_exceeded cap = false → length spanID = 16%nat →
     BuildSpan (span_fields pub resource traceID captured spanID now) priv = Ok receipt →
     stored t = saved ++ [(PArg out, receipt)] → Q t (inr exitCode)) →
  wp (mint_receipt priv pub resource traceID out (flag_String values "save-output" []) maxOutput
        cap exitCode) Q.
Proof.
  intros captured saved out Hpriv Hres Hno Hyes. unfold mint_receipt, saved, saved_file in *.
  assert (∀ spanID now, ∃ receipt,
    BuildSpan (span_fields pub resource traceID (cw_buf cap ++ trailer exitCode) spanID now) priv =
    Ok receipt) as Hb.
  { intros spanID now. unfold BuildSpan, EncodeSpanTBS, SignTagged.
    cbn [sf_ResourceID span_fields]. rewrite (proj2 (gtb_false _ _)) by done.
    cbn [fail_if mbind res_bind mret res_ret]. rewrite Sign_Ok by done. by eexists. }
  wp_step; [wp_step; apply Hno; by auto|].
  destruct (bytes_Equal (flag_String values "save-output" []) []) eqn:Hs; cbn [negb].
  - wp_go; try (apply Hno; by auto); try (destruct (Hb b r); congruence).
    eapply Hyes; done.
  - wp_go; try (apply Hno; by auto);
      try match goal with |- context [BuildSpan (span_fields _ _ _ _ ?b ?r)] => destruct (Hb b r); congruence end.
    all: try match goal with H : BuildSpan (span_fields _ _ _ _ ?b ?r) _ = Err _ |- _ => destruct (Hb b r); congruence end.
    eapply Hyes; done.
Qed.

(** Every end of a run from the start of the child on. *)
Lemma wp_observe values child priv pub resource traceID (Q : list event → exit_status + Z → Prop) :
  let max := flag_Int values "max-output" defaultMaxOutput in
  let out := flag_String values "out" (s2b "lastro.receipt") in
  let command := [(List.hd [] child, tail child)] in
  length priv = 64%nat → len resource ≤ MaxResource →
  (∀ t, starts t = command → children t = [] → stored t = [] → waits t = [] →
     Q t (inl (Exit 127))) →
  (∀ t w r, starts t = command → children t = command → waits t = [(w, r)] → unobserved t w r →
     stored t = [] ∨ (∃ captured, stored t = saved_file values captured) →
     Q t (inl (Exit 125))) →
  (∀ t w r code chunks errs failed spanID now receipt,
     let captured := cw_buf w ++ trailer code in
     starts t = command → children t = command → waits t = [(w, r)] → faults t = [] →
     (r = WaitOk ∧ code = 0 ∨ r = WaitExit code) →
     captures (new_captureWriter max) chunks errs w failed → cw_exceeded w = false →
     length spanID = 16%nat →
     BuildSpan (span_fields pub resource traceID captured spanID now) priv = Ok receipt →
     stored t = saved_file values captured ++ [(PArg out, receipt)] → Q t (inr code)) →
  wp ('(cap, exitCode) ← run_child child max;
      mint_receipt priv pub resource traceID out (flag_String values "save-output" []) max
        cap exitCode) Q.
Proof.
  intros max out command Hpriv Hlen Hstart Hlate Hyes. unfold run_child. do 4 wp_step.
  { wp_step. by apply Hstart. }
  do 2 wp_step. destruct r as [cap res].
  match goal with H : reply_ok (Wait _) _ |- _ => destruct H as (chunks & errs & failed & Hcap & _) end.
  cbn [fst snd] in *. apply copies_captures in Hcap.
  (* the rest, whatever the child's exit code *)
  assert (∀ pre code,
    (∀ t, starts (pre t) = command ++ starts t) → (∀ t, children (pre t) = command ++ children t) →
    (∀ t, waits (pre t) = (cap, res) :: waits t) → (∀ t, stored (pre t) = stored t) →
    (∀ t, faults (pre t) = faults t) → (res = WaitOk ∧ code = 0 ∨ res = WaitExit code) →
    wp (mint_receipt priv pub resource traceID out (flag_String values "save-output" []) max
          cap code) (λ t, Q (pre t))) as Hmint.
  { intros pre code Hps Hpc Hpw Hpst Hpf Hr. apply wp_mint_receipt; [done..| |].
    - intros t Hc Hs Hw Hst Hwhy. eapply (Hlate _ cap res).
      + by rewrite Hps, Hs.
      + by rewrite Hpc, Hc.
      + by rewrite Hpw, Hw.
      + right. by rewrite Hpf.
      + rewrite Hpst. destruct Hst as [->| ->]; [by left|right]. by eexists.
    - intros t spanID now receipt Hc Hs Hw Hf Hx Hsid Hb Hst. eapply (Hyes _ cap res code).
      + by rewrite Hps, Hs.
      + by rewrite Hpc, Hc.
      + by rewrite Hpw, Hw.
      + by rewrite Hpf.
      + done.
      + done.
      + done.
      + done.
      + done.
      + by rewrite Hpst. }
  destruct res as [|code|e]; cbv beta iota.
  - wp_step. cbv beta iota. apply Hmint; try (intros; by effects). by left.
  - wp_step. cbv beta iota. apply Hmint; try (intros; by effects). by right.
  - wp_step. eapply Hlate; [by effects..| |left; by effects]. left. by eexists.
Qed.

(** The flags and the command. *)
Lemma find_sep_first flags child :
  s2b "--" ∉ flags → find_sep (flags ++ s2b "--" :: child) = Some (length flags).
Proof.
  induction flags as [|a flags IH]; [done|]. intros [Ha Hf]%not_elem_of_cons.
  cbn [app find_sep length]. rewrite IH by done. unfold bytes_Equal.
  by rewrite bool_decide_false.
Qed.

Lemma find_sep_None args : find_sep args = None → s2b "--" ∉ args.
Proof.
  induction args as [|a args IH]; [intros _; apply not_elem_of_nil|]. cbn [find_sep].
  destruct (bytes_Equal a (s2b "--")) eqn:Ha; [discriminate|]. apply bytes_Equal_false in Ha.
  destruct (find_sep args); [discriminate|]. intros _. apply not_elem_of_cons. split; [done|by apply IH].
Qed.

Lemma find_sep_split args sep :
  find_sep args = Some sep →
  ∃ flags child, args = flags ++ s2b "--" :: child ∧ (s2b "--" ∉ flags) ∧ sep = length flags.
Proof.
  revert sep. induction args as [|a args IH]; intros sep; [done|]. cbn [find_sep].
  destruct (bytes_Equal a (s2b "--")) eqn:Ha.
  - apply bytes_Equal_true in Ha as ->. intros [= <-]. exists [], args.
    split; [done|]. split; [apply not_elem_of_nil|done].
  - apply bytes_Equal_false in Ha. destruct (find_sep args) as [n|]; [|done]. intros [= <-].
    destruct (IH n eq_refl) as (flags & child & -> & Hf & ->). exists (a :: flags), child.
    split; [done|]. split; [by apply not_elem_of_cons|done].
Qed.

Lemma drop_after {A} (l l' : list A) x : drop (S (length l)) (l ++ x :: l') = l'.
Proof. induction l; done. Qed.

(** No [--], or nothing after it. *)
Lemma no_command args flags child :
  s2b "--" ∉ flags → args = flags ++ s2b "--" :: child → child = [] →
  ∀ flags' child', args = flags' ++ s2b "--" :: child' → s2b "--" ∉ flags' → child' = [].
Proof.
  intros Hf -> -> flags' child' H Hf'. pose proof (find_sep_first flags' child' Hf') as Hs.
  rewrite <- H, find_sep_first in Hs by done. injection Hs as Hl.
  apply (f_equal length) in H. rewrite !length_app in H. cbn in H.
  destruct child'; [done|]. cbn in H. lia.
Qed.

(** The part of a run from the signing key on, after calls [t1] that went well. *)
Lemma wp_keyed values child p t1 (Q : list event → exit_status → Prop) :
  let ns := flag_String values "namespace" [] in
  let max := flag_Int values "max-output" defaultMaxOutput in
  resource_ok ns p → calm t1 →
  (∀ t code, quiet t → refused_values values t code → Q t (Exit code)) →
  (∀ t code, starts t = [(List.hd [] child, tail child)] → run_ended values child t code →
     Q t (Exit code)) →
  wp (r ← sys_call (ReadFile (PJoin (flag_String values "key" []) "sig.key"));
      seed ← or_else r (λ err,
        die "lastro run: cannot read signing key: %v" [AError err] exitNoReceipt);
      when (negb (len seed =? ed25519_SeedSize))
        (die "lastro run: cannot read signing key: %v" [] exitNoReceipt);;
      priv ← must (ed25519_NewKeyFromSeed seed);
      let pub := prim_public priv in
      let resource := s2b "bol:" ++ Fingerprint pub ++ s2b "/" ++ ns ++ s2b "/" ++ p in
      when (len resource >? MaxResource)
        (die "lastro run: resource id exceeds 256 bytes" [] verifyUsage);;
      traceID ← trace_id (flag_String values "trace" []);
      '(cap, exitCode) ← run_child child max;
      mint_receipt priv pub resource traceID (flag_String values "out" (s2b "lastro.receipt"))
        (flag_String values "save-output" []) max cap exitCode)
     (λ t r, Q (t1 ++ t) (match r with inl s => s | inr code => Exit code end)).
Proof.
  intros ns max Hres Hq1 Hearly Hended.
  wp_step. wp_step.
  { wp_step. apply Hearly; [split; by effects|]. eapply (refused_key _ _ None); [|done].
    rewrite flat_map_app. set_solver. }
  rename b into seed. wp_step; rename H0 into Hseed.
  { wp_step. apply Hearly; [split; by effects|]. eapply (refused_key _ _ (Some seed)).
    - rewrite flat_map_app. set_solver.
    - intros ? [= <-] Hl. apply negb_true_iff, Z.eqb_neq in Hseed. unfold ed25519_SeedSize in Hseed. lia. }
  apply negb_false_iff, Z.eqb_eq in Hseed.
  assert (length seed = 32%nat) as Hl by (unfold ed25519_SeedSize in Hseed; lia).
  eapply wp_must; [by apply NewKeyFromSeed_Ok|]. cbv beta zeta.
  pose proof (length_resource_name (prim_public (prim_key_from_seed seed)) _ _ Hres) as Hn.
  wp_step.
  { unfold resource_name in Hn. rewrite Z.gtb_lt in H0. lia. }
  apply wp_trace_id.
  { intros t Hq Hne Hid. apply Hearly; [split; by effects|]. by apply refused_trace. }
  { intros t Hq Hne. apply Hearly; [split; by effects|]. apply refused_entropy. by effects. }
  intros t2 traceID Hq2 Htid.
  apply wp_observe; [by apply length_key_from_seed|exact Hn|..].
  { intros t Hs Hc Hst Hw. apply Hended; [by effects|]. apply ended_no_start; by effects. }
  { intros t w r Hs Hc Hw Hwhy Hst. apply Hended; [by effects|].
    apply (ended_no_receipt _ _ _ w r); [by effects..| |by effects].
    destruct Hwhy as [?|[?|?]]; [by left|by right; left|right; right; by effects]. }
  intros t w r code out err failed spanID now receipt captured Hs Hc Hw Hf' Hr Hcap Hex Hsid Hb Hst.
  apply Hended; [by effects|]. apply (ended_receipt _ _ _ w r); [by effects..| |done|].
  { intros [[e ->]|[?|Hne]]; [naive_solver|congruence|]. apply Hne. by effects. }
  exists seed, p, traceID, spanID, now, w, out, err, failed, receipt. cbv zeta.
  split_and!; try done; [| |by effects|by effects].
  - apply read_key_app. right. by left.
  - assert (child_exit t w code) as Hx.
    { unfold child_exit. change (flat_map waited t) with (waits t). rewrite Hw. set_solver. }
    apply child_exit_app. right. apply (child_exit_app [_]). right. apply child_exit_app. by right.
Qed.

Lemma cmdRun_outcomes args t s :
  runs (cmdRun args) t s →
  ∃ code, s = Exit code ∧
  ((quiet t ∧ refused args t code) ∨
   ∃ flags child values rest, args = flags ++ s2b "--" :: child ∧ (s2b "--" ∉ flags) ∧
     child ≠ [] ∧ Parse run_flags flags = Parsed values rest ∧
     starts t = [(List.hd [] child, tail child)] ∧ run_ended values child t code).
Proof.
  revert t s.
  set (Q := λ t s, ∃ code, s = Exit code ∧ ((quiet t ∧ refused args t code) ∨
   ∃ flags child values rest, args = flags ++ s2b "--" :: child ∧ (s2b "--" ∉ flags) ∧
     child ≠ [] ∧ Parse run_flags flags = Parsed values rest ∧
     starts t = [(List.hd [] child, tail child)] ∧ run_ended values child t code)).
  change (wp (cmdRun args) Q).
  assert (∀ t code, quiet t → refused args t code → Q t (Exit code)) as Hrefuse.
  { intros t code Hq Hr. exists code. split; [done|]. by left. }
  unfold cmdRun. wp_step.
  destruct (find_sep args) as [sep|] eqn:Hsep.
  2: { wp_step. apply Hrefuse; [done|]. constructor. intros flags child -> _.
       apply find_sep_None in Hsep. set_solver. }
  destruct (find_sep_split _ _ Hsep) as (flags & child & Hargs & Hf & ->).
  wp_step. assert (take (length flags) args = flags ∧ drop (S (length flags)) args = child ∧
    length args = (length flags + S (length child))%nat) as (Htake & Hdrop & Hlen).
  { by rewrite Hargs, take_app_length, drop_after, length_app. }
  rewrite Hlen. cbv zeta. rewrite Htake, Hdrop.
  destruct child as [|c child].
  { rewrite (proj2 (Nat.eqb_eq _ _)) by (cbn [length]; lia). wp_step; [|done].
    wp_step. apply Hrefuse; [done|]. constructor. by apply (no_command args flags []). }
  rewrite (proj2 (Nat.eqb_neq _ _)) by (cbn [length]; lia). wp_step; [done|]. clear H.
  apply wp_parse_flags.
  { intros Hp. apply Hrefuse; [done|]. by eapply refused_help. }
  { intros Hp. apply Hrefuse; [done|]. by eapply refused_usage. }
  intros values rest Hparse. cbv beta iota zeta.
  assert (∀ t code, quiet t → refused_values values t code → Q t (Exit code)) as Hearly.
  { intros t code Hq Hr. apply Hrefuse; [done|]. by eapply refused_flags. }
  assert (∀ t code, starts t = [(c, child)] → run_ended values (c :: child) t code → Q t (Exit code))
    as Hended.
  { intros t code Hst He. exists code. split; [done|]. right. by exists flags, (c :: child), values, rest. }
  wp_step.
  { wp_step. apply Hearly; [done|]. apply orb_true_iff in H as [H|H%bytes_Equal_true];
      [apply orb_true_iff in H as [H%bytes_Equal_true|H%bytes_Equal_true]|];
      (eapply refused_required; [|exact H]); set_solver. }
  clear H. apply wp_resolve_path.
  { intros t head Hq Hg Hr. apply Hearly; [done|]. eapply refused_name; [exact Hg|].
    intros p Hp. by destruct (Hr p). }
  intros t1 p head Hq1 Hg Hp. wp_step.
  { apply validateResource_not_Panic. }
  { wp_step. apply Hearly; [split; by effects|].
    eapply refused_name; [by apply git_said_app|]. intros p' Hp'. congruence. }
  rename H into Hres. destruct b. apply validateResource_Ok in Hres.
  by apply wp_keyed.
Qed.

(** [C3] The contract of [lastro run], in every run: it never panics, and its exit
    code is one of these.
    - The child was never tried: nothing was stored, and the code is 2 for a
      command line without a command or without the flags it needs, a resource
      name that is not well-formed or a bad trace id; 0 for help; 125 when the
      signing key cannot be used or there is no entropy.
    - It was tried once, as the command after [--], and did not start: nothing
      was stored, and the code is 127.
    - It was started, and its observation is not complete ([Wait] failed, the
      output exceeded the bound, entropy or a file failed): the code is 125 and no
      receipt was stored, at most the saved output.
    - Otherwise a receipt of the observation was stored, last, and the code is
      the child's. *)
Theorem cmdRun_contract args t s :
  runs (cmdRun args) t s →
  ∃ code, s = Exit code ∧
  ((starts t = [] ∧ children t = [] ∧ stored t = [] ∧ refused args t code) ∨
   ∃ flags child values rest, args = flags ++ s2b "--" :: child ∧ (s2b "--" ∉ flags) ∧
     child ≠ [] ∧ Parse run_flags flags = Parsed values rest ∧
     starts t = [(List.hd [] child, tail child)] ∧
     ((children t = [] ∧ stored t = [] ∧ code = 127) ∨
      (children t = starts t ∧ ∃ w r, waits t = [(w, r)] ∧
        ((unobserved t w r ∧ code = 125 ∧
          (stored t = [] ∨ ∃ captured, stored t = saved_file values captured)) ∨
         (¬ unobserved t w r ∧ (r = WaitOk ∧ code = 0 ∨ r = WaitExit code) ∧
          mints values child t code))))).
Proof.
  intros (code & -> & H)%cmdRun_outcomes. exists code. split; [done|].
  destruct H as [[[] Hr]|(flags & child & values & rest & Hargs & Hf & Hc & Hp & Hs & He)].
  - by left.
  - right. exists flags, child, values, rest. split_and!; try done. rewrite Hs.
    destruct He as [|w r|w r code Hch]; [by left|right; split; [done|]; exists w, r; split; [done|]..].
    + by left.
    + by right.
Qed.

(** A span is the observation of the run [t] with the flags [values] whose
    child exited with [code]: signed by the owner of the key that was read, about a
    well-formed resource of that owner, by the subprocess method, with the digest of
    what was captured and of the trailer; and all output was captured if the
    writes to this process's own streams succeeded. *)
Definition observes (values : flag_values) (t : list event) (code : Z) (span : Span) : Prop :=
  ∃ seed p w out err failed,
    let ns := flag_String values "namespace" [] in
    let max := flag_Int values "max-output" defaultMaxOutput in
    read_key values t seed ∧ child_exit t w code ∧
    sp_Executor span = prim_public (prim_key_from_seed seed) ∧
    resource_ok ns p ∧
    sp_ResourceID span = resource_name (sp_Executor span) ns p ∧
    sp_MethodID span = MethodSubprocess ∧
    captures (new_captureWriter max) out err w failed ∧
    sp_Digest span = Blake2s256 (cw_buf w ++ trailer code) ∧
    (failed = false → 0 ≤ max →
       total (chunks_data out) + total (chunks_data err) ≤ max ∧
       ∃ l, merge (chunks_data out) (chunks_data err) l ∧ cw_buf w = concat l).

(** What a run that minted a receipt signed. *)
Lemma mints_span values child t code :
  mints values child t code →
  ∃ receipt span saved,
    stored t = saved ++ [(PArg (flag_String values "out" (s2b "lastro.receipt")), receipt)] ∧
    ParseSpan receipt = Ok span ∧ Span_VerifySig span = Ok tt ∧ observes values t code span.
Proof.
  intros (seed & p & traceID & spanID & now & w & out & err & failed & receipt & H). cbv zeta in H.
  destruct H as (Hl & Hkey & Hexit & Hr & Htid & Hsid & Hcap & Hx & Hb & Hc & Hst).
  match type of Hb with BuildSpan ?f _ = _ => assert (SpanFields_wf f) as Hf end.
  { split; unfold LenSpanID, LenTraceID, LenOrigin, LenDigest, LenPubkey; cbn.
    - lia.
    - lia.
    - done.
    - apply u64_range.
    - unfold Blake2s256. by rewrite length_sum256.
    - by rewrite length_public by (by apply length_key_from_seed). }
  destruct (BuildSpan_parses _ _ _ Hf Hl eq_refl Hb) as (tbs & sig & Ht & Hp & Hv).
  eexists receipt, _, _. split_and!; [exact Hst|exact Hp|exact Hv|].
  exists seed, p, w, out, err, failed. cbv zeta. split_and!; [done..|]. intros -> Hm.
  destruct (captures_all _ _ _ _ Hm Hcap) as (l & Hmerge & Hover & Hbuf).
  rewrite Hx in Hover. symmetry in Hover. apply gtb_false in Hover. eauto.
Qed.

(** A run whose child started, with another code than 125, minted a receipt. *)
Lemma cmdRun_minted args t code :
  runs (cmdRun args) t (Exit code) → children t ≠ [] → code ≠ 125 →
  ∃ flags child values rest, args = flags ++ s2b "--" :: child ∧ (s2b "--" ∉ flags) ∧
    Parse run_flags flags = Parsed values rest ∧ mints values child t code.
Proof.
  intros (code' & [= <-] & H)%cmdRun_outcomes Hc Hcode.
  destruct H as [[[Hc' _ _ _] _]|(flags & child & values & rest & Hargs & Hf & _ & Hp & _ & He)]; [done|].
  exists flags, child, values, rest. by destruct He.
Qed.

(** [C4] The receipt of a run: when [lastro run] has started the child and exits
    with another code than 125, the last file it stored is a receipt that
    parses, whose signature verifies, and which is the observation of that run. *)
Theorem cmdRun_receipt args t code :
  runs (cmdRun args) t (Exit code) → children t ≠ [] → code ≠ 125 →
  ∃ sep values rest receipt span saved,
    find_sep args = Some sep ∧ Parse run_flags (take sep args) = Parsed values rest ∧
    stored t = saved ++ [(PArg (flag_String values "out" (s2b "lastro.receipt")), receipt)] ∧
    ParseSpan receipt = Ok span ∧ Span_VerifySig span = Ok tt ∧ observes values t code span.
Proof.
  intros H Hc Hcode. destruct (cmdRun_minted _ _ _ H Hc Hcode) as (flags & child & values & rest & -> & Hf & Hp & Hm).
  apply mints_span in Hm as (receipt & span & saved & Hm).
  exists (length flags), values, rest, receipt, span, saved.
  rewrite take_app_length, find_sep_first by done. done.
Qed.

(** [C40] What a failing child hides.  When the child fails, [cmd.Wait] returns its
    exit status and not the error of a goroutine that could no longer write to
    this process's own stream and stopped copying.  Then every run whose other
    calls go well mints a receipt and exits with the child's code, although not
    all output was captured: its valid signature covers, with the trailer, only
    the chunks each stream had before the first that could not be written. *)
Theorem lossy_capture_minted args t s max out err w code :
  runs (cmdRun args) t s →
  waits t = [(w, WaitExit code)] → faults t = [] →
  copies (new_captureWriter max) out err w true → cw_exceeded w = false →
  s = Exit code ∧ ¬ Forall (λ ck, ck_written ck = true) (out ++ err) ∧
  ∃ l receipt span, merge (chunks_data (accepted out)) (chunks_data (accepted err)) l ∧
    snd <$> last (stored t) = Some receipt ∧ ParseSpan receipt = Ok span ∧
    Span_VerifySig span = Ok tt ∧ sp_Digest span = Blake2s256 (concat l ++ trailer code).
Proof.
  intros (code' & -> & H)%cmdRun_outcomes Hw Hf Hcap%copies_captures Hx.
  destruct (captures_accepted _ _ _ _ _ Hcap Hx) as ([_ Hall] & l & Hl & Hbuf).
  destruct H as [[[] _]|(flags & child & values & rest & _ & _ & _ & _ & _ & He)]; [congruence|].
  destruct He as [|w' r _ Hw' Hun|w' r code' _ Hw' _ Hr Hm]; [congruence|exfalso|].
  - rewrite Hw in Hw'. injection Hw' as <- <-.
    destruct Hun as [[e ?]|[?|?]]; congruence.
  - rewrite Hw in Hw'. injection Hw' as <- <-. assert (code' = code) as -> by (destruct Hr as [[? _]|?]; congruence).
    split; [done|]. split; [by intros H; apply Hall in H|].
    apply mints_span in Hm as (receipt & span & saved & Hst & Hp & Hv & Hobs).
    exists l, receipt, span. rewrite Hst, last_snoc. split_and!; try done.
    destruct Hobs as (? & ? & w' & ? & ? & ? & Hobs). cbv zeta in Hobs.
    destruct Hobs as (_ & Hexit & _ & _ & _ & _ & _ & -> & _).
    unfold child_exit in Hexit. change (flat_map waited t) with (waits t) in Hexit. rewrite Hw in Hexit.
    assert (w' = w) as -> by (destruct Hexit as [[? _]|?]; set_solver). by rewrite Hbuf.
Qed.

End Run.

(** * What verify decides *)

Section VerifyTheorems.
Context `{P : Primitives}.

(** The receipt in [file] is signed, bound to no identity. *)
Definition signed_receipt (files : path → option bytes) (file : bytes) (span : Span) : Prop :=
  ∃ raw, files (PArg file) = Some raw ∧ ParseSpan raw = Ok span ∧ Span_VerifySig span = Ok tt.

(** The identity files: a certificate, and at least one trusted key. *)
Definition identity (files : path → option bytes) (certPath : bytes) (caPaths : list bytes)
    (cert : Cert) (trusted : list bytes) : Prop :=
  caPaths ≠ [] ∧ (∃ certRaw, files (PArg certPath) = Some certRaw ∧ ParseCert certRaw = Ok cert) ∧
  Forall2 (λ p k, files (PArg p) = Some k ∧ len k = LenCAKey) caPaths trusted.

Lemma load_keys_Some files caPaths ks :
  load_keys files caPaths = Some ks ↔
  Forall2 (λ p k, files (PArg p) = Some k ∧ len k = LenCAKey) caPaths ks.
Proof.
  revert ks. induction caPaths as [|p caPaths IH]; intros ks; cbn [load_keys].
  - split; [intros [= <-]; constructor|]. by intros ->%Forall2_nil_inv_l.
  - split.
    + destruct (files (PArg p)) as [k|] eqn:Hk; [|done].
      destruct (Z.eqb_spec (len k) LenCAKey) as [Hl|Hl]; [|done].
      destruct (load_keys files caPaths) as [ks'|]; [|done]. intros [= <-].
      constructor; [done|]. by apply IH.
    + intros (k & ks' & [-> Hl] & Hks & ->)%Forall2_cons_inv_l.
      rewrite (proj2 (Z.eqb_eq _ _) Hl). apply IH in Hks. by rewrite Hks.
Qed.

Lemma is_Ok_tt (m : res unit) : is_Ok m = true ↔ m = Ok tt.
Proof. destruct m as [[]| |]; cbn; naive_solver. Qed.

Lemma verify_code_unanchored files certPath caPaths file :
  verify_code files certPath caPaths file = verifyUnanchored ↔
  certPath = [] ∧ ∃ span, signed_receipt files file span.
Proof.
  unfold verify_code, signed_receipt. split.
  - repeat case_match; try done. intros _.
    match goal with H : negb _ = false |- _ => apply negb_false_iff, is_Ok_tt in H end.
    match goal with H : bytes_Equal _ _ = true |- _ => apply bytes_Equal_true in H end.
    eauto 10.
  - intros (-> & span & raw & -> & -> & Hs). rewrite Hs. done.
Qed.

Lemma verify_code_OK files certPath caPaths file :
  verify_code files certPath caPaths file = verifyOK ↔
  certPath ≠ [] ∧ ∃ span cert trusted, signed_receipt files file span ∧
    identity files certPath caPaths cert trusted ∧ VerifyReceipt span cert trusted = Ok tt.
Proof.
  unfold verify_code, signed_receipt, identity. split.
  - repeat case_match; try done. intros _.
    match goal with H : negb _ = false |- _ => apply negb_false_iff, is_Ok_tt in H end.
    match goal with H : bytes_Equal _ _ = false |- _ => apply bytes_Equal_false in H end.
    match goal with H : is_Ok (VerifyReceipt _ _ _) = true |- _ => apply is_Ok_tt in H end.
    match goal with H : load_keys _ _ = Some _ |- _ => apply load_keys_Some in H end.
    split; [done|]. do 3 eexists. split; [eauto|].
    split; [split; [by intros ->|split; [eauto|done]]|done].
  - intros (Hc & span & cert & trusted & (raw & -> & -> & Hs) & (Hca & (craw & -> & Hcert) & Hks) & Hv).
    rewrite Hs, (proj2 (bytes_Equal_false _ _) Hc), Hcert; cbn [is_Ok negb].
    apply load_keys_Some in Hks. rewrite Hks, Hv. by destruct caPaths.
Qed.

Lemma verify_code_range files certPath caPaths file :
  verify_code files certPath caPaths file ∈ [0; 1; 2; 3].
Proof.
  unfold verify_code, verifyOK, verifyInvalid, verifyUsage, verifyUnanchored.
  repeat case_match; set_solver.
Qed.

(** The files determine what is in them. *)
Lemma signed_receipt_eq files file span span' :
  signed_receipt files file span → signed_receipt files file span' → span = span'.
Proof. intros (raw & ? & ? & _) (raw' & ? & ? & _). congruence. Qed.

Lemma identity_eq files certPath caPaths cert trusted cert' trusted' :
  identity files certPath caPaths cert trusted → identity files certPath caPaths cert' trusted' →
  cert = cert' ∧ trusted = trusted'.
Proof.
  intros (_ & (raw & ? & ?) & Hk%load_keys_Some) (_ & (raw' & ? & ?) & Hk'%load_keys_Some).
  split; congruence.
Qed.

Lemma load_keys_None files caPaths :
  load_keys files caPaths = None ↔
  Exists (λ p, ∀ k, files (PArg p) = Some k → len k ≠ 32) caPaths.
Proof.
  induction caPaths as [|p caPaths IH]; cbn [load_keys]; [split; [done|by intros ?%Exists_nil]|].
  rewrite Exists_cons, <- IH. destruct (files (PArg p)) as [k|]; [|by split; [left|]].
  destruct (Z.eqb_spec (len k) LenCAKey) as [Hl|Hl]; unfold LenCAKey in Hl.
  - destruct (load_keys files caPaths); split; [done| |by right|done].
    intros [H|?]; [by destruct (H k eq_refl)|done].
  - split; [|done]. intros _. left. by intros ? [= <-].
Qed.

(** The certificate in a file. *)
Definition cert_file (files : path → option bytes) (certPath : bytes) (cert : Cert) : Prop :=
  ∃ certRaw, files (PArg certPath) = Some certRaw ∧ ParseCert certRaw = Ok cert.

(** What the checks on the receipt and on the certificate found. *)
Ltac verify_facts :=
  repeat match goal with
  | H : negb _ = false |- _ => apply negb_false_iff, is_Ok_tt in H
  | H : negb _ = true |- _ => apply negb_true_iff in H
  | H : bytes_Equal _ _ = true |- _ => apply bytes_Equal_true in H
  | H : bytes_Equal _ _ = false |- _ => apply bytes_Equal_false in H
  | H : is_Ok (VerifyReceipt _ _ _) = true |- _ => apply is_Ok_tt in H
  | H : load_keys _ _ = Some _ |- _ => apply load_keys_Some in H
  | H : load_keys _ _ = None |- _ => apply load_keys_None in H
  end.

Lemma verify_code_usage files certPath caPaths file :
  verify_code files certPath caPaths file = 2 ↔
  certPath ≠ [] ∧ (∃ span, signed_receipt files file span) ∧
  (∃ cert, cert_file files certPath cert) ∧
  (caPaths = [] ∨ Exists (λ p, ∀ k, files (PArg p) = Some k → len k ≠ 32) caPaths).
Proof.
  unfold verify_code, signed_receipt, cert_file. split.
  - repeat case_match; try done; intros _; verify_facts.
    + split; [done|]. split; [eauto|]. split; [eauto|]. left. by destruct caPaths.
    + split; [done|]. split; [eauto|]. split; [eauto|]. by right.
  - intros (Hc & (span & raw & -> & -> & Hs) & (cert & craw & -> & ->) & Hca).
    rewrite Hs, (proj2 (bytes_Equal_false _ _) Hc). cbn [is_Ok negb].
    destruct Hca as [->|Hca]; [done|]. rewrite (proj2 (load_keys_None _ _) Hca).
    by destruct caPaths.
Qed.

Lemma verify_code_invalid files certPath caPaths file :
  verify_code files certPath caPaths file = 1 ↔
  (¬ ∃ span, signed_receipt files file span) ∨
  (certPath ≠ [] ∧ ¬ ∃ cert, cert_file files certPath cert) ∨
  (certPath ≠ [] ∧ ∃ span cert trusted, signed_receipt files file span ∧
     identity files certPath caPaths cert trusted ∧ VerifyReceipt span cert trusted ≠ Ok tt).
Proof.
  split.
  - unfold verify_code, signed_receipt, identity, cert_file.
    repeat case_match; try done; intros _; verify_facts.
    all: try (left; intros (span & raw & [= <-] & Hs & Hv);
              match goal with H : ParseSpan _ = _, H' : ParseSpan _ = _ |- _ => rewrite H in H' end;
              first [congruence|simplify_eq; by rewrite Hv in *]).
    all: try (right; left; split; [done|]; intros (cert & raw & [= <-] & Hc); congruence).
    right; right. split; [done|]. do 3 eexists. split; [eauto|].
    split; [split; [by intros ->|split; [eauto|done]]|]. by intros Hv; rewrite Hv in *.
  - intros Hbad. pose proof (verify_code_range files certPath caPaths file) as Hr.
    pose proof (verify_code_OK files certPath caPaths file) as H0.
    pose proof (verify_code_usage files certPath caPaths file) as H2.
    pose proof (verify_code_unanchored files certPath caPaths file) as H3.
    repeat (apply elem_of_cons in Hr as [Hr|Hr]); [|done|..|by apply elem_of_nil in Hr]; exfalso.
    + apply H0 in Hr as (_ & span & cert & trusted & Hs & Hid & Hv).
      destruct Hbad as [Hn|[[_ Hn]|(_ & span' & cert' & trusted' & Hs' & Hid' & Hv')]].
      * eauto.
      * destruct Hid as (_ & Hc & _). eauto.
      * destruct (identity_eq _ _ _ _ _ _ _ Hid Hid') as [-> ->].
        by rewrite (signed_receipt_eq _ _ _ _ Hs Hs') in Hv.
    + apply H2 in Hr as (_ & Hs & Hc & Hca).
      destruct Hbad as [Hn|[[_ Hn]|(_ & span' & cert' & trusted' & _ & Hid & _)]]; [by eauto..|].
      destruct Hid as (Hne & _ & Hks%load_keys_Some). destruct Hca as [?|Hx%load_keys_None]; congruence.
    + apply H3 in Hr as (-> & Hs). destruct Hbad as [Hn|[[? _]|[? _]]]; [by eauto|done..].
Qed.



(** [C15] The exit code of [lastro verify], in every run whose reads agree with the
    contents of the files.  Help exits with 0, and a flag that does not parse or a
    number of arguments other than one with 2.  Otherwise, for the one receipt
    file, the code is
    - 0 exactly when a certificate and at least one trusted key are given, all
      can be read, and the receipt verifies against them;
    - 1 exactly when the receipt cannot be read, does not parse or its signature
      does not verify; or a certificate is given that cannot be read or does not
      parse; or all is there and the receipt does not verify against it;
    - 2 exactly when the receipt and the certificate are fine but no trusted key is
      given, or one of them cannot be read or is not 32 bytes;
    - 3 exactly when no certificate is given, and the receipt parses and its
      signature verifies. *)
Theorem cmdVerify_exit args files t s :
  runs (cmdVerify args) t s → reads_from files t →
  match Parse verify_flags args with
  | ExitHelp => s = Exit 0
  | Parsed values [file] =>
      let certPath := flag_String values "cert" [] in
      let caPaths := given values "ca" in
      ∃ code, s = Exit code ∧
      (code = 0 ↔ certPath ≠ [] ∧ ∃ span cert trusted, signed_receipt files file span ∧
         identity files certPath caPaths cert trusted ∧ VerifyReceipt span cert trusted = Ok tt) ∧
      (code = 1 ↔ (¬ ∃ span, signed_receipt files file span) ∨
         (certPath ≠ [] ∧ ¬ ∃ cert, cert_file files certPath cert) ∨
         (certPath ≠ [] ∧ ∃ span cert trusted, signed_receipt files file span ∧
            identity files certPath caPaths cert trusted ∧ VerifyReceipt span cert trusted ≠ Ok tt)) ∧
      (code = 2 ↔ certPath ≠ [] ∧ (∃ span, signed_receipt files file span) ∧
         (∃ cert, cert_file files certPath cert) ∧
         (caPaths = [] ∨ Exists (λ p, ∀ k, files (PArg p) = Some k → len k ≠ 32) caPaths)) ∧
      (code = 3 ↔ certPath = [] ∧ ∃ span, signed_receipt files file span)
  | _ => s = Exit 2
  end.
Proof.
  intros Hr Hf. destruct (Parse verify_flags args) as [values rest| |] eqn:Hp.
  - destruct rest as [|file [|file' rest]];
      [by apply (cmdVerify_usage _ _ _ _ _ Hr Hp)| |by apply (cmdVerify_usage _ _ _ _ _ Hr Hp)].
    cbv zeta. eexists. split; [by eapply cmdVerify_code|].
    split; [apply verify_code_OK|]. split; [apply verify_code_invalid|].
    split; [apply verify_code_usage|apply verify_code_unanchored].
  - apply cmdVerify_early in Hr. by rewrite Hp in Hr.
  - apply cmdVerify_early in Hr. by rewrite Hp in Hr.
Qed.

(** [C16] The documented order of arguments, [lastro verify FILE --cert C --ca K]:
    the flag package stops at the first argument that is not a flag, so with the
    receipt file first and anything after it, every run reads nothing, verifies
    nothing, prints that it wants exactly one file, and exits with 2. *)
Theorem verify_file_first file more t s :
  head file ≠ Some x2d → more ≠ [] →
  runs (cmdVerify (file :: more)) t s →
  s = Exit 2 ∧ t = [Ev (Print Stderr "lastro verify: exactly one receipt file" []) tt].
Proof.
  intros Hfile Hmore Hr. apply (cmdVerify_usage _ [] (file :: more)) in Hr; [done|..].
  - unfold Parse. cbn [length flag_Parse]. destruct file as [|[] file]; try done.
  - by destruct more.
Qed.

Context `{U : Unicode} {L : PrimitivesLaws}.

(** [C2] End to end: the receipt of a successful [lastro run], in a file, makes
    [lastro verify] exit with 3 without a certificate, and with 0 for every
    certificate of the signing key that carries the executor role and is
    accepted by chain validation under the trusted keys given. *)
Theorem run_then_verify args t code vargs values file files t' s :
  runs (cmdRun args) t (Exit code) → children t ≠ [] → code ≠ 125 →
  Parse verify_flags vargs = Parsed values [file] →
  files (PArg file) = snd <$> last (stored t) →
  runs (cmdVerify vargs) t' s → reads_from files t' →
  let certPath := flag_String values "cert" [] in
  (certPath = [] → s = Exit 3) ∧
  ∃ receipt span, last (stored t) = Some receipt ∧ ParseSpan receipt.2 = Ok span ∧
  ∀ cert trusted,
    certPath ≠ [] → identity files certPath (given values "ca") cert trusted →
    ct_SigPubkey cert = sp_Executor span → has_role (ct_RoleBits cert) RoleExecutor = true →
    ValidateCertChainNoClock cert trusted = Ok tt → s = Exit 0.
Proof.
  intros Hrun Hc Hcode Hp Hfile Hv Hf certPath.
  rewrite (cmdVerify_code _ _ _ _ _ _ Hp Hv Hf). fold certPath.
  destruct (cmdRun_minted _ _ _ Hrun Hc Hcode) as (flags & child & rvalues & rest & _ & _ & _ & H).
  apply mints_span in H as (receipt & span & saved & Hst & Hspan & Hsig & Hobs).
  rewrite Hst, last_snoc in Hfile.
  assert (signed_receipt files file span) as Hsr by (by exists receipt).
  split.
  - intros Hcp. f_equal. apply verify_code_unanchored. eauto.
  - eexists (_, receipt), span. rewrite Hst, last_snoc. split; [done|]. split; [done|].
    intros cert trusted Hcp Hid Hk Hrole Hchain. f_equal.
    apply verify_code_OK. split; [done|]. exists span, cert, trusted. split_and!; [done..|].
    destruct Hobs as (seed & p & w & out & err & failed & Hobs). cbv zeta in Hobs.
    destruct Hobs as (_ & _ & _ & _ & Hres & _).
    unfold VerifyReceipt. rewrite Hsig, Hchain; cbn [mbind res_bind]. rewrite Hrole, Hk.
    rewrite (proj2 (bytes_Equal_true _ _) eq_refl). cbn [negb fail_if mbind res_bind].
    rewrite (proj2 (HasPrefix_true _ _)); [done|].
    rewrite Hres. unfold resource_name.
    exists (flag_String rvalues "namespace" [] ++ s2b "/" ++ p). by rewrite <- !(assoc_L (++)).
Qed.

End VerifyTheorems.

(** * Witnesses *)

(** The child writes "hel", "lo" and "!". *)
Definition example_wait (cap : captureWriter) : captureWriter * wait_result :=
  (write_all [s2b "hel"; s2b "!"; s2b "lo"] cap, WaitOk).

(** The child writes "hello", which this process cannot write to its own stdout, and fails. *)
Definition lossy_wait (cap : captureWriter) : captureWriter * wait_result := (cap, WaitExit 1).

Definition example_env (files : path → option bytes)
    (wait : captureWriter → captureWriter * wait_result) : environment := λ R c,
  match c in sys R return R with
  | MkdirAll _ => None
  | Stat _ => Some (errors_New "no such file")
  | ReadFile p => match files p with Some d => inl d | None => inr (errors_New "no such file") end
  | WriteFile _ _ _ => None
  | RandRead n => inl (replicate n x01)
  | NowMilli => 1700000000000
  | Output _ _ => inl (s2b "5f0c9be1f0a2b3c4d5e6f708192a3b4c5d6e7f80" ++ newline)
  | Start _ _ => None
  | Wait cap => wait cap
  | RandFill n => replicate n x01
  | ConnWrite _ | Dial _ => Some (errors_New "network unreachable")
  | ConnRead _ => inr (errors_New "network unreachable")
  | SetDeadline _ | ConnClose | Sleep _ | Print _ _ _ => tt
  end.

Lemma example_wait_ok cap : reply_ok (Wait cap) (example_wait cap).
Proof.
  exists example_out, example_err, false. split; [|done]. apply captures_copies.
  eapply rtc_l; [by apply (capture_copy Stdout)|].
  eapply rtc_l; [by apply (capture_copy Stderr)|].
  eapply rtc_l; [by apply (capture_copy Stdout)|]. apply rtc_refl.
Qed.

Definition lossy_chunks : list chunk := [mk_chunk (s2b "hello") false].

Lemma lossy_wait_captures cap : captures cap lossy_chunks [] cap true.
Proof. eapply rtc_l; [by apply (capture_copy Stdout)|]. apply rtc_refl. Qed.

Lemma lossy_wait_ok cap : reply_ok (Wait cap) (lossy_wait cap).
Proof. exists lossy_chunks, [], true. split; [apply captures_copies, lossy_wait_captures|done]. Qed.

Lemma example_env_ok files wait :
  (∀ cap, reply_ok (Wait cap) (wait cap)) → ∀ R (c : sys R), reply_ok c (example_env files wait R c).
Proof. intros Hw R []; try done; cbn; try apply length_replicate; try apply Hw. Qed.

(** Every read of such a run agrees with the files. *)
Lemma play_reads {A} files wait (m : prog A) : reads_from files (play (example_env files wait) m).1.
Proof.
  eapply (answered_reads (λ _ e, Forall (λ '(p, d), files p = d) (read e))); [done|].
  apply play_answered. intros h R c.
  destruct c as [| |p| | | | | | | | | | | | | |]; cbn; try constructor; [|done].
  by destruct (files p).
Qed.

Definition key_file : path → option bytes := λ _, Some (replicate 32 (z2b 7)).

Definition example_run_args : list bytes :=
  map s2b ["--key"; "k"; "--namespace"; "git"; "--path"; "demo/{sha}"; "--"; "make"; "test"]%string.

Definition example_run : list event * exit_status :=
  play (example_env key_file example_wait) (cmdRun example_run_args).

Lemma example_run_runs : runs (cmdRun example_run_args) example_run.1 (Exit 0).
Proof.
  assert (example_run.2 = Exit 0) as <- by (vm_compute; reflexivity).
  apply play_runs, example_env_ok, example_wait_ok.
Qed.

Lemma cmdRun_contract_witness :
  let t := example_run.1 in
  ∃ code, Exit 0 = Exit code ∧
  ((starts t = [] ∧ children t = [] ∧ stored t = [] ∧ refused example_run_args t code) ∨
   ∃ flags child values rest, example_run_args = flags ++ s2b "--" :: child ∧ (s2b "--" ∉ flags) ∧
     child ≠ [] ∧ Parse run_flags flags = Parsed values rest ∧
     starts t = [(List.hd [] child, tail child)] ∧
     ((children t = [] ∧ stored t = [] ∧ code = 127) ∨
      (children t = starts t ∧ ∃ w r, waits t = [(w, r)] ∧
        ((unobserved t w r ∧ code = 125 ∧
          (stored t = [] ∨ ∃ captured, stored t = saved_file values captured)) ∨
         (¬ unobserved t w r ∧ (r = WaitOk ∧ code = 0 ∨ r = WaitExit code) ∧
          mints values child t code))))).
Proof. intros t. apply (cmdRun_contract example_run_args). exact example_run_runs. Defined.

Lemma cmdRun_receipt_witness :
  ∃ sep values rest receipt span saved,
    find_sep example_run_args = Some sep ∧
    Parse run_flags (take sep example_run_args) = Parsed values rest ∧
    stored example_run.1 =
      saved ++ [(PArg (flag_String values "out" (s2b "lastro.receipt")), receipt)] ∧
    ParseSpan receipt = Ok span ∧ Span_VerifySig span = Ok tt ∧
    observes values example_run.1 0 span.
Proof.
  apply cmdRun_receipt; [exact example_run_runs|vm_compute; discriminate|discriminate].
Defined.

(** The receipt of the run, the certificate of its key and two CA keys. *)
Definition example_files (p : path) : option bytes :=
  if bool_decide (p = PArg (s2b "r")) then snd <$> last (stored example_run.1)
  else if bool_decide (p = PArg (s2b "c")) then Some (example_cert_bytes RoleExecutor 7)
  else if bool_decide (p = PArg (s2b "a")) then Some (example_pub 1)
  else if bool_decide (p = PArg (s2b "b")) then Some (example_pub 2)
  else None.

Definition example_verify_args : list bytes :=
  map s2b ["--cert"; "c"; "--ca"; "a"; "--ca=b"; "r"]%string.
Definition example_verify_values : flag_values :=
  [(s2b "cert", s2b "c"); (s2b "ca", s2b "a"); (s2b "ca", s2b "b")].

Definition example_verify : list event * exit_status :=
  play (example_env example_files example_wait) (cmdVerify example_verify_args).

Lemma example_verify_runs :
  runs (cmdVerify example_verify_args) example_verify.1 example_verify.2.
Proof. apply play_runs, example_env_ok, example_wait_ok. Qed.

Lemma cmdVerify_exit_witness :
  let certPath := flag_String example_verify_values "cert" [] in
  let caPaths := given example_verify_values "ca" in
  ∃ code, example_verify.2 = Exit code ∧ code = 0 ∧
  (code = 0 ↔ certPath ≠ [] ∧ ∃ span cert trusted, signed_receipt example_files (s2b "r") span ∧
     identity example_files certPath caPaths cert trusted ∧ VerifyReceipt span cert trusted = Ok tt).
Proof.
  intros certPath caPaths.
  pose proof (cmdVerify_exit example_verify_args example_files _ _ example_verify_runs
    (play_reads _ _ _)) as H.
  assert (Parse verify_flags example_verify_args = Parsed example_verify_values [s2b "r"]) as Hp
    by (vm_compute; reflexivity).
  rewrite Hp in H. destruct H as (code & Hcode & H0 & _). exists code.
  split; [exact Hcode|]. split; [|exact H0].
  assert (example_verify.2 = Exit 0) as Hs by (vm_compute; reflexivity). congruence.
Defined.

(** The command line of the README. *)
Definition readme_args : list bytes :=
  map s2b ["lastro.receipt"; "--cert"; "keys/cert.bin"; "--ca"; "ca.pub"]%string.

Lemma verify_file_first_witness :
  let run := play (example_env example_files example_wait) (cmdVerify readme_args) in
  run.2 = Exit 2 ∧ run.1 = [Ev (Print Stderr "lastro verify: exactly one receipt file" []) tt].
Proof.
  apply (verify_file_first (s2b "lastro.receipt") (tail readme_args));
    [vm_compute; discriminate|discriminate|].
  apply play_runs, example_env_ok, example_wait_ok.
Defined.

Lemma run_then_verify_witness :
  let certPath := s2b "c" in
  (certPath = [] → example_verify.2 = Exit 3) ∧
  ∃ receipt span, last (stored example_run.1) = Some receipt ∧ ParseSpan receipt.2 = Ok span ∧
  ∀ cert trusted,
    certPath ≠ [] → identity example_files certPath [s2b "a"; s2b "b"] cert trusted →
    ct_SigPubkey cert = sp_Executor span → has_role (ct_RoleBits cert) RoleExecutor = true →
    ValidateCertChainNoClock cert trusted = Ok tt → example_verify.2 = Exit 0.
Proof.
  apply (run_then_verify example_run_args example_run.1 0 example_verify_args
           example_verify_values (s2b "r") example_files example_verify.1).
  - exact example_run_runs.
  - vm_compute; discriminate.
  - discriminate.
  - vm_compute; reflexivity.
  - reflexivity.
  - exact example_verify_runs.
  - apply play_reads.
Defined.

(** A capture that loses output. *)

Definition lossy_run : list event * exit_status :=
  play (example_env key_file lossy_wait) (cmdRun example_run_args).

Lemma lossy_capture_minted_witness :
  let w := new_captureWriter defaultMaxOutput in
  Exit 1 = Exit 1 ∧ ¬ Forall (λ ck, ck_written ck = true) (lossy_chunks ++ []) ∧
  ∃ l receipt span, merge (chunks_data (accepted lossy_chunks)) (chunks_data (accepted [])) l ∧
    snd <$> last (stored lossy_run.1) = Some receipt ∧ ParseSpan receipt = Ok span ∧
    Span_VerifySig span = Ok tt ∧ sp_Digest span = Blake2s256 (concat l ++ trailer 1).
Proof.
  intros w.
  apply (lossy_capture_minted example_run_args lossy_run.1 (Exit 1) defaultMaxOutput lossy_chunks [] w 1).
  - assert (lossy_run.2 = Exit 1) as <- by (vm_compute; reflexivity).
    apply play_runs, example_env_ok, lossy_wait_ok.
  - vm_compute; reflexivity.
  - vm_compute; reflexivity.
  - apply captures_copies, lossy_wait_captures.
  - reflexivity.
Defined.
