(* ===== verification/KeygenSpec.v ===== *)
(** What [lastro keygen] guarantees, in every run, and what it does not. *)

From stdpp Require Import relations.
From S2P Require Import Prelude GoBytes GoStrings Crypto Toy Cursor Span Cert Method Validate.
From S2P Require Import Resource Capture Goroutines Flags Sys Lastro LastroSpec.

Section Keygen.
Context `{P : Primitives}.

(** A key directory: the secrets, and the public keys of the secrets. *)
Definition key_files (dir seed kex kexPub : bytes) : list (path * bytes) :=
  [(PJoin dir "sig.key", seed);
   (PJoin dir "sig.pub", prim_public (prim_key_from_seed seed));
   (PJoin dir "static.key", kex);
   (PJoin dir "static.pub", kexPub)].







(** What keygen does not protect: secrets other than [sig.key].  Whatever the files
    of a directory without [sig.key] hold, there is a run, whose probes agree with
    the files, that ends with 0 and leaves a new secret in [static.key]. *)
Lemma keygen_overwrites_static (files : path → option bytes) (dir seed kex kexPub : bytes) :
  dir ≠ [] → files (PJoin dir "sig.key") = None →
  length seed = 32%nat → length kex = 32%nat → prim_x25519 kex prim_basepoint = Some kexPub →
  ∃ t, runs (cmdKeygen [s2b "--dir"; dir]) t (Exit 0) ∧
    Forall (λ p, files p = None) (flat_map probed t) ∧ flat_map found t = [] ∧
    (PJoin dir "static.key", kex) ∈ stored t.
Proof.
  intros Hdir Hsig Hseed Hkex Hpub.
  set (store := λ p d, Ev (WriteFile p d mode_private) None).
  exists ([Ev (MkdirAll dir) None; Ev (Stat (PJoin dir "sig.key")) (Some (errors_New "no such file"));
     Ev (RandRead 32) (inl seed); Ev (RandRead 32) (inl kex)] ++
    map (λ '(p, d), store p d) (key_files dir seed kex kexPub) ++
    [Ev (Print Stdout "lastro: keys written to %s" [AString dir]) tt;
     Ev (Print Stdout "lastro: executor fingerprint %s"
       [AString (Fingerprint (prim_public (prim_key_from_seed seed)))]) tt;
     Ev (Print Stdout
       "lastro: request an executor certificate with: bolina ca issue --role executor ..." []) tt]).
  split; [|split; [by repeat constructor|]; split; [done|cbn; set_solver]].
  assert (Parse keygen_flags [s2b "--dir"; dir] = Parsed [(s2b "dir", dir)] []) as Hp by reflexivity.
  unfold cmdKeygen, parse_flags. rewrite Hp. cbn -[bytes_Equal flag_String s2b ed25519_NewKeyFromSeed].
  change (flag_String [(s2b "dir", dir)] "dir" []) with dir.
  rewrite (proj2 (bytes_Equal_false dir []) Hdir).
  cbn -[ed25519_NewKeyFromSeed].
  do 4 (eexists _, _; split; [reflexivity|]; split; [done|]; cbn -[ed25519_NewKeyFromSeed]).
  rewrite NewKeyFromSeed_Ok by done. cbn. rewrite Hpub. cbn.
  repeat (eexists _, _; split; [reflexivity|]; split; [done|]; cbn). done.
Qed.

End Keygen.

(** * Witness *)


