(* ===== verification/Blind.v ===== *)
(** What a receipt does not say: programs that differ in the command they start and
    in the texts they print, and what such programs store. *)

From S2P Require Import Prelude GoBytes GoStrings Crypto Toy Cursor Span Cert Method Validate.
From S2P Require Import Resource Capture Goroutines Flags Sys Lastro LastroSpec.

(** * Programs alike but for the command *)

Inductive alike : ∀ {R}, sys R → sys R → Prop :=
  | alike_refl {R} (c : sys R) : alike c c
  | alike_start n args n' args' : alike (Start n args) (Start n' args')
  | alike_print s format args args' : alike (Print s format args) (Print s format args').

Inductive blind {A} : prog A → prog A → Prop :=
  | blind_ret a : blind (Ret a) (Ret a)
  | blind_do {R} (c c' : sys R) k k' :
      alike c c' → (∀ r, blind (k r) (k' r)) → blind (Do c k) (Do c' k').

Inductive alike_event : event → event → Prop :=
  | alike_ev {R} (c c' : sys R) r : alike c c' → alike_event (Ev c r) (Ev c' r).

#[global] Instance blind_reflexive {A} : Reflexive (@blind A).
Proof. intros m. induction m as [a|R c k IH]; constructor; [apply alike_refl|exact IH]. Qed.

Lemma blind_bind {A B} (m m' : flow A) (f f' : A → flow B) :
  blind m m' → (∀ a, blind (f a) (f' a)) → blind (m ≫= f) (m' ≫= f').
Proof.
  intros Hm Hf. unfold mbind, flow_bind. induction Hm as [[s|a]|R c c' k k' Hc _ IH].
  - reflexivity.
  - apply Hf.
  - cbn. by constructor.
Qed.

Lemma blind_ret_bind {A B} (a : A) (f f' : A → flow B) :
  blind (f a) (f' a) → blind (mret a ≫= f) (mret a ≫= f').
Proof. done. Qed.

Lemma blind_finish m m' : blind m m' → blind (finish m) (finish m').
Proof. intros H. unfold finish. induction H; cbn; [reflexivity|by constructor]. Qed.

Lemma alike_reply_ok {R} (c c' : sys R) r : alike c c' → reply_ok c r → reply_ok c' r.
Proof. by destruct 1. Qed.

(** Every run of one is a run of the other with the same replies and the same end. *)
Lemma blind_runs {A} (m m' : prog A) t a :
  blind m m' → runs m t a → ∃ t', runs m' t' a ∧ Forall2 alike_event t t'.
Proof.
  intros H. revert t. induction H as [b|R c c' k k' Hc _ IH]; intros t.
  - intros [-> ->]. exists []. by repeat constructor.
  - intros (r & t1 & -> & Hr & Hrun). destruct (IH r t1 Hrun) as (t' & Hrun' & Ht).
    exists (Ev c' r :: t'). split; [|by repeat constructor].
    exists r, t'. split; [done|]. split; [by apply (alike_reply_ok c)|done].
Qed.

Lemma alike_stored t t' : Forall2 alike_event t t' → stored t' = stored t.
Proof.
  unfold stored. induction 1 as [|e e' t t' He _ IH]; [done|]. cbn. rewrite IH.
  destruct He as [R c c' r Hc]. revert r. by destruct Hc.
Qed.

Lemma alike_children t t' :
  Forall2 alike_event t t' → length (children t') = length (children t).
Proof.
  unfold children. induction 1 as [|e e' t t' He _ IH]; [done|]. cbn.
  rewrite !length_app, IH. destruct He as [R c c' r Hc]. revert r. destruct Hc; try done. by intros [].
Qed.

(** * The command of [lastro run] *)

Section Run.
Context `{P : Primitives} `{U : Unicode}.

Lemma run_child_blind child child' max : blind (run_child child max) (run_child child' max).
Proof.
  unfold run_child. apply blind_bind; [|intros [err|]]; cbn [on_error].
  - constructor; [apply alike_start|reflexivity].
  - apply blind_bind; [|reflexivity]. apply blind_bind; [|reflexivity].
    constructor; [apply alike_print|reflexivity].
  - reflexivity.
Qed.

(** A command line with its command. *)
Definition run_args (flags child : list bytes) : list bytes := flags ++ s2b "--" :: child.

Lemma cmdRun_blind flags child child' :
  s2b "--" ∉ flags → child ≠ [] → child' ≠ [] →
  blind (cmdRun (run_args flags child)) (cmdRun (run_args flags child')).
Proof.
  intros Hf Hc Hc'. unfold cmdRun, run_args. rewrite !find_sep_first by done.
  apply blind_finish, blind_ret_bind. rewrite !take_app_length, !length_app.
  rewrite !drop_after. destruct child as [|n args], child' as [|n' args']; try done.
  assert (∀ l : list bytes, l ≠ [] →
    (length flags =? length flags + length (s2b "--" :: l) - 1)%nat = false) as Hlen.
  { intros [|? ?] ?; [done|]. cbn [length]. apply Nat.eqb_neq. lia. }
  rewrite !Hlen by done. apply blind_bind; [reflexivity|intros _].
  apply blind_bind; [reflexivity|intros [values rest]]. cbv zeta.
  repeat (apply blind_bind; [reflexivity|intros ?]).
  apply blind_bind; [apply run_child_blind|reflexivity].
Qed.

(** [C31] The receipt does not bind the command: what [lastro run] stores, the
    receipt included, is a function of its flags and of the replies of the
    system, the child's output and exit code among them.  For every run of one
    command and any other command, some run of the other, with as many children
    started, ends with the same code and stores the same files, byte for byte. *)
Theorem receipt_omits_command flags child child' t s :
  s2b "--" ∉ flags → child ≠ [] → child' ≠ [] →
  runs (cmdRun (run_args flags child)) t s →
  ∃ t', runs (cmdRun (run_args flags child')) t' s ∧
    stored t' = stored t ∧ length (children t') = length (children t).
Proof.
  intros Hf Hc Hc' H. eapply blind_runs in H; [|by apply (cmdRun_blind flags child child')].
  destruct H as (t' & Hrun & Ht). exists t'.
  split; [exact Hrun|]. split; [by apply alike_stored|by apply alike_children].
Qed.

End Run.

(** The receipt of [make test], stored by a run of [true]. *)
Lemma receipt_omits_command_witness :
  length (stored example_run.1) = 1%nat ∧
  ∃ t', runs (cmdRun (run_args (take 6 example_run_args) [s2b "true"])) t' (Exit 0) ∧
    stored t' = stored example_run.1 ∧ length (children t') = length (children example_run.1).
Proof.
  split; [vm_compute; reflexivity|].
  apply (receipt_omits_command (take 6 example_run_args) [s2b "make"; s2b "test"]);
    [|done|done|exact example_run_runs].
  apply (bool_decide_unpack _). vm_compute. exact I.
Defined.
