(* ===== verification/MainSpec.v ===== *)
(** The command line of [lastro] as a whole: which subcommand may do what, and
    that the process never panics. *)

From S2P Require Import Prelude GoBytes GoStrings Crypto Toy Cursor Span Cert Method Validate.
From S2P Require Import Resource Capture Goroutines Flags Sys Lastro LastroSpec.

(** * Programs that make calls of one kind only *)

(** [m] makes calls that [E] allows, and panics only if [may]. *)
Definition only {A} (E : event → Prop) (may : Prop) (m : flow A) : Prop :=
  wp m (λ t r, Forall E t ∧ (r = inl Crash → may)).

Section Only.
Context (E : event → Prop) (may : Prop).

Lemma only_bind {A B} (m : flow A) (f : A → flow B) :
  only E may m → (∀ a, only E may (f a)) → only E may (m ≫= f).
Proof.
  intros Hm Hf. eapply wp_bind; [exact Hm|naive_solver|].
  intros t b [Ht _] t' r Hr. destruct (Hf b t' r Hr) as [Ht' Hne]. split; [by apply Forall_app|done].
Qed.

Lemma only_sys {R} (c : sys R) : (∀ r, E (Ev c r)) → only E may (sys_call c).
Proof. intros H t r (v & t' & -> & _ & -> & ->). split; [by repeat constructor|done]. Qed.

Lemma only_ret {A} (a : A) : only E may (mret a).
Proof. by apply wp_ret. Qed.
Lemma only_ret_bind {A B} (a : A) (f : A → flow B) : only E may (f a) → only E may (mret a ≫= f).
Proof. done. Qed.
Lemma only_leave {A} s : (s = Crash → may) → only E may (leave (A := A) s).
Proof. intros H. apply wp_leave. split; [done|]. by intros [= ->]; apply H. Qed.

Lemma only_die_bind {A B} fmt args code (f : A → flow B) :
  E (Ev (Print Stderr fmt args) tt) → only E may (die fmt args code ≫= f).
Proof. intros H. apply wp_die_bind. split; [by repeat constructor|done]. Qed.

Lemma only_when b m : only E may m → only E may (when b m).
Proof. intros H. destruct b; [exact H|apply only_ret]. Qed.
Lemma only_on_error e h : (∀ err, only E may (h err)) → only E may (on_error e h).
Proof. intros H. destruct e; [apply H|apply only_ret]. Qed.
Lemma only_or_else {A} (r : A + error) h : (∀ err, only E may (h err)) → only E may (or_else r h).
Proof. intros H. destruct r; [apply only_ret|apply H]. Qed.
Lemma only_attempt {A} (r : res A) h :
  (r = Panic → may) → (∀ err, only E may (h err)) → only E may (attempt r h).
Proof. intros Hp H. destruct r; [apply only_ret|apply H|by apply only_leave; auto]. Qed.
Lemma only_must {A} (r : res A) : (r = Panic ∨ (∃ e, r = Err e) → may) → only E may (must r).
Proof. intros H. destruct r; [apply only_ret|apply only_leave; eauto..]. Qed.

Lemma only_parse_flags fs args : only E may (parse_flags fs args).
Proof. unfold parse_flags. destruct (Parse fs args); [apply only_ret|by apply only_leave..]. Qed.

Lemma only_finish (m : flow Z) t s :
  only E may m → runs (finish m) t s → Forall E t ∧ (s = Crash → may).
Proof.
  intros Hm. rewrite runs_finish. intros [Hl|(code & Hg & ->)].
  - destruct (Hm _ _ Hl) as [Ht Hs]. split; [done|]. by intros ->; apply Hs.
  - by destruct (Hm _ _ Hg).
Qed.

(** A part of one kind in the middle of a program. *)
Lemma wp_only {A B} (m : flow B) (f : B → flow A) Q :
  only E False m →
  (∀ t code, Forall E t → Q t (inl (Exit code))) →
  (∀ t b, Forall E t → wp (f b) (λ t', Q (t ++ t'))) →
  wp (m ≫= f) Q.
Proof.
  intros Hm Hl Hf. eapply wp_bind; [exact Hm| |].
  - intros t [code|] [Ht Hne]; [by apply Hl|by destruct Hne].
  - intros t b [Ht _]. by apply Hf.
Qed.

End Only.

(** Calls that stay off the network and run the processes [ok] allows; that run
    none; that leave the disk as it is either. *)
Definition offline (ok : bytes * list bytes → Prop) (e : event) : Prop :=
  on_network e = false ∧ Forall ok (executed e).
Definition local_only (e : event) : Prop := offline (λ _, False) e.
Definition reads_only (e : event) : Prop := local_only e ∧ changes_disk e = false.

(** Walk through a program whose calls are all of one kind. *)
Ltac only_step :=
  lazymatch goal with
  | |- only _ _ (_ ≫= _) => apply only_bind; [|intros ?; cbv beta]
  | |- only _ _ (mret _) => apply only_ret
  | |- only _ _ (leave _) => apply only_leave; try done
  | |- only _ _ (when _ _) => apply only_when
  | |- only _ _ (on_error _ _) => apply only_on_error; intros ?
  | |- only _ _ (or_else _ _) => apply only_or_else; intros ?
  | |- only _ _ (attempt _ _) => apply only_attempt; [try done|intros ?]
  | |- only _ _ (must _) => apply only_must; try done
  | |- only _ _ (parse_flags _ _) => apply only_parse_flags
  | |- only _ _ (die _ _ _) => unfold die, eprint
  | |- only _ _ (eprint _ _) => unfold eprint
  | |- only _ _ (print _ _) => unfold print
  | |- only _ _ (sys_call _) => apply only_sys; intros ?; by repeat constructor
  | |- only _ _ (let '(_, _) := ?x in _) => destruct x
  | |- only _ _ (let _ := _ in _) => cbv zeta
  | |- only _ _ (match ?x with _ => _ end) => destruct x
  end.
Ltac only_walk := repeat only_step.

Section Main.
Context `{P : Primitives} `{U : Unicode}.

Lemma printReport_only may span class ceiling verdict cert :
  only reads_only may (printReport span class ceiling verdict cert).
Proof. unfold printReport. only_walk. Qed.

Lemma read_trusted_only may caPaths trusted : only reads_only may (read_trusted caPaths trusted).
Proof. revert trusted. induction caPaths; intros; cbn [read_trusted]; only_walk; auto. Qed.

Lemma write_key_files_only may dir files : only local_only may (write_key_files dir files).
Proof. induction files as [|[]]; cbn [write_key_files]; only_walk; auto. Qed.

Lemma usage_only may : only reads_only may (usage;; mret verifyUsage).
Proof. unfold usage. only_walk. Qed.

(** What each command does, call by call. *)
Lemma cmdKeygen_local args t s : runs (cmdKeygen args) t s → Forall local_only t.
Proof.
  intros H. eapply (only_finish local_only True) in H; [by destruct H|].
  only_walk. apply write_key_files_only.
Qed.

Lemma cmdVerify_reads args t s : runs (cmdVerify args) t s → Forall reads_only t.
Proof.
  intros H. eapply (only_finish reads_only True) in H; [by destruct H|].
  only_walk; first [apply read_trusted_only|apply printReport_only].
Qed.

Definition git_head : bytes * list bytes := (s2b "git", [s2b "rev-parse"; s2b "HEAD"]).

Lemma cmdRun_offline args t s :
  runs (cmdRun args) t s →
  Forall (offline (λ p, ∃ flags child, args = flags ++ s2b "--" :: child ∧ (s2b "--" ∉ flags) ∧
            (p = git_head ∨ p = (List.hd [] child, tail child)))) t.
Proof.
  intros H. eapply (only_finish (offline _) True) in H; [by destruct H|].
  destruct (find_sep args) as [sep|] eqn:Hsep; [|by apply only_die_bind; repeat constructor].
  destruct (find_sep_split _ _ Hsep) as (flags & child & Hargs & Hf & ->).
  apply only_ret_bind. cbv beta zeta.
  assert (drop (S (length flags)) args = child) as -> by by rewrite Hargs, drop_after.
  assert (∀ p, p = git_head ∨ p = (List.hd [] child, tail child) →
    ∃ flags child, args = flags ++ s2b "--" :: child ∧ (s2b "--" ∉ flags) ∧
      (p = git_head ∨ p = (List.hd [] child, tail child))) as Hp by (intros; by exists flags, child).
  unfold resolve_path, trace_id, run_child, mint_receipt, gitHead.
  only_walk; apply only_sys; intros ?; (split; [done|]); (constructor; [|constructor]); apply Hp; auto.
Qed.

(** None of them panics. *)
Lemma cmdKeygen_no_panic args t s : runs (cmdKeygen args) t s → s ≠ Crash.
Proof.
  revert t s. change (wp (cmdKeygen args) (λ _ s, s ≠ Crash)). unfold cmdKeygen.
  wp_step. apply wp_parse_flags; [done..|]. intros values rest _. cbv zeta. wp_go; try done.
  destruct r as [err|]; [|done].
  eapply wp_must; [by apply NewKeyFromSeed_Ok|]. wp_go; try done.
  eapply wp_only; [apply (write_key_files_only False)|done|]. intros. by wp_go.
Qed.

Lemma cmdVerify_no_panic args t s : runs (cmdVerify args) t s → s ≠ Crash.
Proof.
  revert t s. change (wp (cmdVerify args) (λ _ s, s ≠ Crash)). unfold cmdVerify.
  wp_step. apply wp_parse_flags; [done..|]. intros values rest _. cbv zeta. wp_go; try done.
  { apply (codec_not_Panic (F := span_format)). }
  { apply VerifySigned_not_Panic. }
  destruct (ClassOf (sp_MethodID b0)) as [class ceiling]. wp_go; try done.
  { eapply wp_only; [apply (printReport_only False)|done|]. intros. by wp_go. }
  { apply (codec_not_Panic (F := cert_format)). }
  eapply wp_only; [apply (read_trusted_only False)|done|]. intros ? trusted _. wp_go; try done.
  { by eapply VerifyReceipt_not_Panic. }
  eapply wp_only; [apply (printReport_only False)|done|]. intros. by wp_go.
Qed.

Context {L : PrimitivesLaws}.

Lemma cmdRun_no_panic args t s : runs (cmdRun args) t s → s ≠ Crash.
Proof. by intros (code & -> & _)%cmdRun_outcomes. Qed.

(** Traces of calls of one kind. *)
Lemma offline_network ok t : Forall (offline ok) t → Forall (λ e, on_network e = false) t.
Proof. intros H. eapply Forall_impl; [exact H|]. by intros e []. Qed.
Lemma offline_executed ok t : Forall (offline ok) t → Forall ok (flat_map executed t).
Proof. induction 1 as [|e t [_ He] _ IH]; [constructor|]. cbn. by apply Forall_app. Qed.
Lemma local_executed t : Forall local_only t → flat_map executed t = [].
Proof.
  intros H%offline_executed. destruct (flat_map executed t); [done|]. by apply Forall_cons in H as [? _].
Qed.
Lemma reads_local t : Forall reads_only t → Forall local_only t.
Proof. intros H. eapply Forall_impl; [exact H|]. by intros e []. Qed.
Lemma reads_disk t : Forall reads_only t → Forall (λ e, changes_disk e = false) t.
Proof. intros H. eapply Forall_impl; [exact H|]. by intros e []. Qed.

(** Without a subcommand it knows, the process prints its usage and exits with 2. *)
Definition known (args : list bytes) : Prop :=
  match args with cmd :: _ => cmd ∈ [s2b "keygen"; s2b "run"; s2b "verify"] | [] => False end.
#[global] Instance known_dec args : Decision (known args).
Proof. destruct args; apply _. Defined.

Lemma usage_run t s :
  runs (finish (usage;; mret verifyUsage)) t s →
  t = [Ev (Print Stderr usage_text []) tt] ∧ s = Exit verifyUsage.
Proof. by intros ([] & t' & -> & _ & -> & ->). Qed.

(** One case per subcommand. *)
Lemma main_cases args t s :
  runs (main args) t s →
  (∃ rest, args = s2b "keygen" :: rest ∧ runs (cmdKeygen rest) t s) ∨
  (∃ rest, args = s2b "run" :: rest ∧ runs (cmdRun rest) t s) ∨
  (∃ rest, args = s2b "verify" :: rest ∧ runs (cmdVerify rest) t s) ∨
  (¬ known args ∧ t = [Ev (Print Stderr usage_text []) tt] ∧ s = Exit verifyUsage).
Proof.
  unfold main, known. destruct args as [|cmd rest].
  - intros []%usage_run. naive_solver.
  - unfold bytes_Equal. repeat case_bool_decide; subst; [by eauto 8..|].
    intros []%usage_run. do 3 right. split; [|done]. set_solver.
Qed.

(** [C11] The whole command line, in every run under every behaviour of the
    system.  The process never panics and makes no call on the network.  The only
    processes it runs, or tries to, are those of [lastro run]: the command after
    [--], and [git rev-parse HEAD].  It writes files and makes directories in
    [lastro run] and [lastro keygen] only, so [lastro verify] only reads.  With no
    known subcommand it prints its usage, does nothing else and exits with 2. *)
Theorem main_effects args t s :
  runs (main args) t s →
  (∃ code, s = Exit code) ∧
  Forall (λ e, on_network e = false) t ∧
  Forall (λ p, ∃ flags child, args = s2b "run" :: flags ++ s2b "--" :: child ∧ (s2b "--" ∉ flags) ∧
           (p = (s2b "git", [s2b "rev-parse"; s2b "HEAD"]) ∨ p = (List.hd [] child, tail child)))
    (flat_map executed t) ∧
  (head args = Some (s2b "run") ∨ head args = Some (s2b "keygen") ∨
   Forall (λ e, changes_disk e = false) t) ∧
  (¬ known args → t = [Ev (Print Stderr usage_text []) tt] ∧ s = Exit 2).
Proof.
  intros [(rest & -> & H)|[(rest & -> & H)|[(rest & -> & H)|(Hk & -> & ->)]]]%main_cases.
  - pose proof (cmdKeygen_local _ _ _ H) as Hl. apply cmdKeygen_no_panic in H.
    rewrite (local_executed t) by done. split; [destruct s; by eauto|].
    split; [by eapply offline_network|]. split; [constructor|].
    split; [by right; left|intros []; set_solver].
  - pose proof (cmdRun_offline _ _ _ H) as Hl. apply cmdRun_no_panic in H.
    split; [destruct s; by eauto|]. split; [by eapply offline_network|].
    split; [|split; [by left|intros []; set_solver]].
    eapply Forall_impl; [by apply offline_executed|].
    intros p (flags & child & -> & Hf & Hp). by exists flags, child.
  - pose proof (cmdVerify_reads _ _ _ H) as Hl. apply cmdVerify_no_panic in H.
    rewrite (local_executed t) by by apply reads_local. split; [destruct s; by eauto|].
    split; [by eapply offline_network, reads_local|]. split; [constructor|].
    split; [right; right; by apply reads_disk|intros []; set_solver].
  - split; [by eauto|]. split; [by repeat constructor|]. split; [constructor|].
    split; [right; right; by repeat constructor|done].
Qed.

End Main.

(** * Witness *)

Definition example_main : list event * exit_status :=
  play (example_env key_file example_wait) (main (s2b "run" :: example_run_args)).

Lemma main_effects_witness :
  let t := example_main.1 in
  (∃ code, example_main.2 = Exit code) ∧ Forall (λ e, on_network e = false) t ∧
  flat_map executed t =
    [(s2b "git", [s2b "rev-parse"; s2b "HEAD"]); (s2b "make", [s2b "test"])] ∧
  Forall (λ p, ∃ flags child, s2b "run" :: example_run_args = s2b "run" :: flags ++ s2b "--" :: child ∧
           (s2b "--" ∉ flags) ∧
           (p = (s2b "git", [s2b "rev-parse"; s2b "HEAD"]) ∨ p = (List.hd [] child, tail child)))
    (flat_map executed t).
Proof.
  intros t. destruct (main_effects (s2b "run" :: example_run_args) t example_main.2)
    as (Hs & Hn & He & _); [apply play_runs, example_env_ok, example_wait_ok|].
  split; [exact Hs|]. split; [exact Hn|]. split; [vm_compute; reflexivity|exact He].
Defined.
