(* ===== verification/Interop.v ===== *)
(** The command [interop] ([cmd/interop/main.go]): one session with a daemon, as
    a program over system calls: the handshake, the binding frames both ways,
    then one intent. *)

From stdpp Require Import pretty.
From S2P Require Import Prelude GoBytes Stateful Crypto Cursor Cert Validate Envelope Noise Transport.
From S2P Require Import Capture Flags Sys.

(** Offsets of the indices in a type-2 response. *)
Definition off2SenderConformant : Z := 4.
Definition off2ReceiverConformant : Z := 8.

(** [fmt.Fprintf(os.Stderr, "interop: %s: %v\n", msg, err); os.Exit(1)] *)
Definition fail {A} (msg : string) (err : error) : flow A :=
  die "interop: %s: %v" [AString (s2b msg); AError err] 1.

(** [k, err] of [readKey], from the contents of the file *)
Definition check_key (path : bytes) (r : bytes + error) : bytes + error :=
  match r with
  | inr err => inr err
  | inl b =>
      if negb (len b =? 32)
      then inr (fmt_Errorf "%s: expected 32 bytes, got %d"
                  [map b2z path; map b2z (s2b (pretty (len b)))])
      else inl (copy_at (zeros 32) 0 b)
  end.
Definition readKey (path : bytes) : flow (bytes + error) :=
  r ← sys_call (ReadFile (PArg path));
  mret (check_key path r).

(** The public key of a seed, in an array. *)
Definition ed25519Pub `{Primitives} (seed : bytes) : res bytes :=
  priv ← ed25519_NewKeyFromSeed seed;
  mret (copy_at (zeros 32) 0 (prim_public priv)).

(** * The command line and the files *)

Definition interop_flags : flag_set :=
  [(s2b "daemon", FString); (s2b "node-go", FString); (s2b "daemon-static", FString);
   (s2b "daemon-sigpub", FString); (s2b "ca", FString); (s2b "intent", FBool);
   (s2b "res-ns", FString); (s2b "res-id", FString)].

(** What the command loads: its own keys and certificate, the daemon's public
    keys, and the trusted CA keys. *)
Record material : Type := mk_material {
  goStaticSec : bytes;
  goStaticPub : bytes;
  goSigSeed : bytes;
  goCert : bytes;
  daemonStatic : bytes;
  daemonSigpub : bytes;
  trustedKeys : list bytes;
}.

Definition ca_path (trustDir : bytes) (i : Z) : bytes :=
  trustDir ++ s2b "/ca" ++ s2b (pretty i) ++ s2b ".pub".

(** The loop over [ca0.pub] .. [ca7.pub], with [n] iterations left: it stops at
    the first file that cannot be read. *)
Fixpoint read_trust (n : nat) (i : Z) (trustDir : bytes) (trusted : list bytes)
    : flow (list bytes) :=
  match n with
  | O => mret trusted
  | S n' =>
      r ← sys_call (ReadFile (PArg (ca_path trustDir i)));
      match r with
      | inr _ => mret trusted
      | inl b => read_trust n' (i + 1) trustDir (trusted ++ [b])
      end
  end.

Definition load_material (values : flag_values) : flow material :=
  let nodeGo := flag_String values "node-go" (s2b "node-go") in
  let trustDir := flag_String values "ca" (s2b "node-go/ca") in
  r ← readKey (nodeGo ++ s2b "/static.key");
  goStaticSec ← or_else r (fail "go static.key");
  r ← readKey (nodeGo ++ s2b "/static.pub");
  goStaticPub ← or_else r (fail "go static.pub");
  r ← readKey (nodeGo ++ s2b "/sig.key");
  goSigSeed ← or_else r (fail "go sig.key");
  r ← sys_call (ReadFile (PArg (nodeGo ++ s2b "/cert.bin")));
  goCert ← or_else r (fail "go cert.bin");
  r ← readKey (flag_String values "daemon-static" []);
  daemonStatic ← or_else r (fail "daemon static.pub");
  r ← readKey (flag_String values "daemon-sigpub" []);
  daemonSigpub ← or_else r (fail "daemon sig.pub");
  trusted ← read_trust 8 0 trustDir [];
  when (Nat.eqb (length trusted) 0)
    (fail "trust set" (fmt_Errorf "no CA pubkeys in %s" [map b2z trustDir]));;
  mret (mk_material goStaticSec goStaticPub goSigSeed goCert daemonStatic daemonSigpub trusted).

Section Interop.
Context `{P : Primitives}.

(** * Stage A: the handshake *)

Definition senderIndex : Z := 0x51530001.
Definition bufSize : Z := 2048.

(** The receive buffer is kept: a read overwrites its beginning. *)
Definition stage_A (m : material) : flow (HandshakeResult * Z * bytes) :=
  r ← sys_call (RandRead 32);
  eph ← or_else r (fail "entropy");
  let initiator := NewInitiator (goStaticSec m) (goStaticPub m) (daemonStatic m) in
  now ← sys_call NowMilli;
  let '(r, (initiator, msg1)) :=
    WriteInitiation senderIndex (u64 now) eph (daemonSigpub m) (zeros 16)
      (initiator, zeros Msg1Size) in
  attempt r (fail "WriteInitiation");;
  e ← sys_call (ConnWrite msg1);
  on_error e (fail "send initiation");;
  print "interop: [A] initiation sent (144 bytes)" [];;
  r ← sys_call (ConnRead (Z.to_nat bufSize));
  data ← or_else r (fail "read response (stage A)");
  let buf := copy_at (zeros bufSize) 0 data in
  let n := len data in
  first ← must (index buf 0);
  when ((n <? Msg2Size) || negb (bool_decide (first = x02)))
    (fail "stage A" (fmt_Errorf "reply is %d bytes, first=0x%02x (want a 92-byte type-2)"
                       [[n]; [b2z first]]));;
  msg2 ← must (slice buf 0 Msg2Size);
  let '(r, initiator) := ReadResponse msg2 (daemonSigpub m) initiator in
  attempt r (fail "ReadResponse");;
  let res := Initiator_Finalize initiator in
  index4 ← must (slice buf off2SenderConformant (off2SenderConformant + 4));
  echo4 ← must (slice buf off2ReceiverConformant (off2ReceiverConformant + 4));
  print "interop: [A] handshake complete · transcript h=%x… · daemon index=0x%08x (echo=0x%08x)"
    [AString (take 6 (H res)); AInt (unbe index4); AInt (unbe echo4)];;
  mret (res, unbe index4, buf).

(** * Stage B: the binding frames *)

Definition stage_B (m : material) (res : HandshakeResult) (daemonIndex : Z) (buf : bytes)
    : flow Cert :=
  frame ← must (BuildBindingFrame (goCert m) (goSigSeed m) (H res));
  pkt ← attempt (SealTransport (SendKey res) daemonIndex 0 frame) (fail "seal binding");
  e ← sys_call (ConnWrite pkt);
  on_error e (fail "send binding");;
  print "interop: [B] binding frame sent (%d bytes cert)" [AInt (len (goCert m))];;
  sys_call (SetDeadline 5);;
  r ← sys_call (ConnRead (Z.to_nat bufSize));
  data ← or_else r (fail "read daemon binding (stage B)");
  let buf := copy_at buf 0 data in
  let n := len data in
  packet ← must (slice buf 0 n);
  '(theirFrame, _) ← attempt (OpenTransport (RecvKey res) packet) (fail "open daemon binding");
  cert ← attempt (VerifyBindingFrame theirFrame (H res) (trustedKeys m))
    (fail "verify daemon binding");
  print "interop: [B] daemon binding verified · daemon fp=%s · chain clock-free OK"
    [AString (Fingerprint (ct_SigPubkey cert))];;
  mret cert.

(** * Stage C: one intent *)

Definition intent_resource (values : flag_values) (cert : Cert) : bytes :=
  let daemonFP := Fingerprint (ct_SigPubkey cert) in
  s2b "bol:" ++ daemonFP ++ s2b "/" ++
    flag_String values "res-ns" (s2b "interop") ++ s2b "/" ++
    flag_String values "res-id" (s2b "demo").

Definition stage_C (values : flag_values) (m : material) (res : HandshakeResult)
    (daemonIndex : Z) (cert : Cert) : flow unit :=
  let resource := intent_resource values cert in
  intentID ← sys_call (RandFill 16);
  print "interop: [C] intent_id=%x" [AString intentID];;
  intentBody ← attempt
    (EncodeIntentBody (mk_Intent intentID resource (s2b "apt-get install -y sqlite3")
                         (s2b "interop stage C")))
    (fail "encode intent");
  goSigPub ← must (ed25519Pub (goSigSeed m));
  now ← sys_call NowMilli;
  env ← attempt
    (BuildSignedEnvelope x02 (zeros 32) goSigPub 1 [] x00 (u64 now) BodyIntent intentBody
       (goSigSeed m))
    (fail "build envelope");
  pkt ← attempt (SealTransport (SendKey res) daemonIndex 1 env) (fail "seal envelope");
  e ← sys_call (ConnWrite pkt);
  on_error e (fail "send envelope");;
  print "interop: [C] Intent envelope sent (%d bytes) · resource %s"
    [AInt (len env); AString resource];;
  sys_call (Sleep 300);;
  print "interop: [C] check the daemon metrics for bolina_intents_admitted_total" [].

(** * main *)

(** [args] is [os.Args[1:]].  The deferred [conn.Close] runs on the two returns;
    [os.Exit] does not run it. *)
Definition interop_main (args : list bytes) : prog exit_status := finish (
  '(values, _) ← parse_flags interop_flags args;
  m ← load_material values;
  e ← sys_call (Dial (flag_String values "daemon" (s2b "127.0.0.1:7420")));
  on_error e (fail "dial");;
  sys_call (SetDeadline 5);;
  '(res, daemonIndex, buf) ← stage_A m;
  cert ← stage_B m res daemonIndex buf;
  (if negb (flag_Bool values "intent" false) then
     print "interop: stages A+B green (handshake + mutual binding). Re-run with --intent for stage C." []
   else stage_C values m res daemonIndex cert);;
  sys_call ConnClose;;
  mret 0).

End Interop.
