(* ===== verification/InteropSpec.v ===== *)
(** What the command [interop] guarantees: theorems about the traces of
    [Interop.v], against any peer and against a conformant daemon. *)

From S2P Require Import Prelude GoBytes Stateful Crypto Toy Cursor Span Cert Validate Grant Envelope Noise.
From S2P Require Import Handshake Transport Capture Flags Sys Interop.

(** * Loading *)

(** No packet sent, none received. *)
Definition quiet (t : list event) : Prop := sent t = [] ∧ received t = [].

Lemma quiet_app t1 t2 : quiet t1 → quiet t2 → quiet (t1 ++ t2).
Proof. intros [H1 H2] [H3 H4]. split; unfold sent, received in *; rewrite flat_map_app; by rewrite ?H1, ?H2. Qed.

Lemma sent_app t1 t2 : sent (t1 ++ t2) = sent t1 ++ sent t2.
Proof. apply flat_map_app. Qed.
Lemma received_app t1 t2 : received (t1 ++ t2) = received t1 ++ received t2.
Proof. apply flat_map_app. Qed.

Lemma sent_cons e t : sent (e :: t) = sent_by e ++ sent t.
Proof. done. Qed.
Lemma received_cons e t : received (e :: t) = received_by e ++ received t.
Proof. done. Qed.

Lemma sent_nil : sent [] = [].
Proof. done. Qed.
Lemma received_nil : received [] = [].
Proof. done. Qed.

(** Compute the packets of a trace from those of its parts. *)
Create Rewrite HintDb packets.
#[export] Hint Rewrite sent_app received_app sent_cons received_cons sent_nil received_nil : packets.
Ltac packets :=
  autorewrite with packets;
  repeat match goal with
  | H : sent ?t = _ |- context [sent ?t] => rewrite H
  | H : received ?t = _ |- context [received ?t] => rewrite H
  end; cbn [app sent_by received_by].

(** What the files give: a key of 32 bytes, the CA keys up to the first file
    missing, all that the command needs. *)
Definition key_file (files : path → option bytes) (p : bytes) : option bytes :=
  match files (PArg p) with
  | Some k => if len k =? 32 then Some k else None
  | None => None
  end.

Fixpoint trust_files (files : path → option bytes) (n : nat) (i : Z) (dir : bytes) : list bytes :=
  match n with
  | O => []
  | S n' =>
      match files (PArg (ca_path dir i)) with
      | Some k => k :: trust_files files n' (i + 1) dir
      | None => []
      end
  end.

Definition material_of (files : path → option bytes) (values : flag_values) : option material :=
  let nodeGo := flag_String values "node-go" (s2b "node-go") in
  sec ← key_file files (nodeGo ++ s2b "/static.key");
  pub ← key_file files (nodeGo ++ s2b "/static.pub");
  seed ← key_file files (nodeGo ++ s2b "/sig.key");
  cert ← files (PArg (nodeGo ++ s2b "/cert.bin"));
  dStatic ← key_file files (flag_String values "daemon-static" []);
  dSigpub ← key_file files (flag_String values "daemon-sigpub" []);
  let trusted := trust_files files 8 0 (flag_String values "ca" (s2b "node-go/ca")) in
  if decide (trusted = []) then None
  else Some (mk_material sec pub seed cert dStatic dSigpub trusted).

Record material_ok (m : material) : Prop := {
  ok_sec : length (goStaticSec m) = 32%nat;
  ok_pub : length (goStaticPub m) = 32%nat;
  ok_seed : length (goSigSeed m) = 32%nat;
  ok_dStatic : length (daemonStatic m) = 32%nat;
  ok_dSigpub : length (daemonSigpub m) = 32%nat;
  ok_trusted : trustedKeys m ≠ [];
}.

Lemma check_key_inl p b k : check_key p (inl b) = inl k → b = k ∧ length k = 32%nat.
Proof.
  unfold check_key. destruct (Z.eqb_spec (len b) 32) as [Hl|Hl]; [|done]. cbn [negb].
  rewrite copy_at_fill by (unfold zeros; rewrite length_replicate; lia). intros [= <-].
  split; [done|lia].
Qed.

(** The reply of a read that agrees with the files. *)
Definition reply_of (d : option bytes) (r : bytes + error) : Prop :=
  d = match r with inl b => Some b | inr _ => None end.

Lemma check_key_file files p r :
  reply_of (files (PArg p)) r →
  key_file files p = match check_key p r with inl k => Some k | inr _ => None end.
Proof.
  unfold reply_of, key_file, check_key. intros ->. destruct r as [b|]; [|done].
  destruct (Z.eqb_spec (len b) 32) as [Hl|Hl]; [|done]. cbn [negb].
  by rewrite copy_at_fill by (unfold zeros; rewrite length_replicate; lia).
Qed.

Lemma check_key_length p r k : check_key p r = inl k → length k = 32%nat.
Proof. destruct r as [b|]; [|done]. by intros [_ ?]%check_key_inl. Qed.

Lemma reads_from_read files p r t :
  reads_from files (Ev (ReadFile p) r :: t) ↔ reply_of (files p) r ∧ reads_from files t.
Proof. rewrite reads_from_cons. cbn. rewrite Forall_singleton. done. Qed.

Lemma wp_readKey {A} p (f : _ → flow A) Q :
  (∀ r, wp (f (check_key p r)) (λ t, Q (Ev (ReadFile (PArg p)) r :: t))) →
  wp (readKey p ≫= f) Q.
Proof. intros H. apply wp_assoc, wp_sys. intros r _. apply wp_ret_bind, H. Qed.

Lemma wp_read_trust {A} n i dir acc (f : _ → flow A) Q :
  (∀ t ks, quiet t → (∀ files, reads_from files t → trust_files files n i dir = ks) →
     wp (f (acc ++ ks)) (λ t', Q (t ++ t'))) →
  wp (read_trust n i dir acc ≫= f) Q.
Proof.
  revert i acc Q. induction n as [|n IH]; intros i acc Q H; cbn [read_trust].
  - apply wp_ret_bind. specialize (H [] []). rewrite app_nil_r in H. by apply H.
  - apply wp_assoc, wp_sys. intros [b|err] _.
    + apply IH. intros t ks Hq Hks. specialize (H (Ev (ReadFile (PArg (ca_path dir i))) (inl b) :: t) (b :: ks)).
      rewrite <- (assoc_L (++)). apply H; [by destruct Hq|].
      intros files [Hr Ht]%reads_from_read. cbn [trust_files]. rewrite Hr. by rewrite (Hks files).
    + apply wp_ret_bind. specialize (H [Ev (ReadFile (PArg (ca_path dir i))) (inr err)] []).
      rewrite app_nil_r in H. apply H; [done|].
      intros files [Hr _]%reads_from_read. cbn [trust_files]. by rewrite Hr.
Qed.

Lemma reads_from_app files t1 t2 :
  reads_from files (t1 ++ t2) ↔ reads_from files t1 ∧ reads_from files t2.
Proof. unfold reads_from. by rewrite flat_map_app, Forall_app. Qed.

(** The key loaded, or the end. *)
Ltac load_key :=
  apply wp_readKey; let r := fresh "r" in let k := fresh "k" in let Hk := fresh "Hk" in
  intros r; destruct (check_key _ r) as [k|] eqn:Hk; cbn [or_else].

(** Rewrite with what the reads of a trace tell of the files. *)
Ltac by_reads :=
  intros files Hfiles; unfold material_of;
  repeat match type of Hfiles with
  | reads_from _ (Ev (ReadFile _) _ :: _) =>
      let Hr := fresh "Hr" in apply reads_from_read in Hfiles as [Hr Hfiles];
      first [rewrite (check_key_file _ _ _ Hr) | rewrite Hr];
      repeat match goal with H : check_key _ _ = _ |- _ => rewrite H; clear H end;
      cbn [mbind option_bind]
  end.

Lemma wp_load_material {A} values (f : material → flow A) Q :
  (∀ t, quiet t → (∀ files, reads_from files t → material_of files values = None) →
     Q t (inl (Exit 1))) →
  (∀ t m, quiet t → material_ok m →
     (∀ files, reads_from files t → material_of files values = Some m) →
     wp (f m) (λ t', Q (t ++ t'))) →
  wp (load_material values ≫= f) Q.
Proof.
  intros Hbad Hgood.
  apply (wp_bind _ _ _ (λ t r, quiet t ∧ match r with
    | inl s => s = Exit 1 ∧ ∀ files, reads_from files t → material_of files values = None
    | inr m => material_ok m ∧ ∀ files, reads_from files t → material_of files values = Some m
    end)).
  2: { intros t s [Hq [-> Hf]]. by apply Hbad. }
  2: { intros t m [Hq [Hm Hf]]. by apply Hgood. }
  unfold load_material.
  repeat (load_key; [apply wp_ret_bind|apply wp_die_bind; split; [done|split; [done|by_reads; done]]]).
  apply wp_sys. intros [cert|] _; cbn [or_else];
    [apply wp_ret_bind|apply wp_die_bind; split; [done|split; [done|by_reads; done]]].
  repeat (load_key; [apply wp_ret_bind|apply wp_die_bind; split; [done|split; [done|by_reads; done]]]).
  apply wp_read_trust. intros t ks Hq Hks. cbn [app].
  apply wp_when; [intros Hz; apply Nat.eqb_eq, nil_length_inv in Hz; subst ks|intros Hz; apply Nat.eqb_neq in Hz].
  - apply wp_die_bind. split; [by apply quiet_app|]. split; [done|]. by_reads.
    apply reads_from_app in Hfiles as [Hfiles _]. by rewrite (Hks files Hfiles).
  - apply wp_ret. split; [by apply quiet_app|].
    assert (ks ≠ []) as Hne by (by intros ->). split.
    { repeat match goal with H : check_key _ _ = inl _ |- _ => apply check_key_length in H end. by split. }
    by_reads. apply reads_from_app in Hfiles as [Hfiles _]. rewrite (Hks files Hfiles).
    by rewrite decide_False.
Qed.

(** * The receive buffer *)

Lemma copy_at_read dst data :
  (length data <= length dst)%nat → copy_at dst 0 data = data ++ drop (length data) dst.
Proof. intros H. unfold copy_at. rewrite take_0, take_ge by lia. done. Qed.

Lemma slice_read data rest i j :
  0 ≤ i ≤ j → j ≤ len data →
  slice (data ++ rest) i j = Ok (take (Z.to_nat (j - i)) (drop (Z.to_nat i) data)).
Proof.
  intros Hi Hj. unfold slice. rewrite bool_decide_true by (rewrite length_app; lia).
  rewrite drop_app_le by lia. rewrite take_app_le by (rewrite length_drop; lia). done.
Qed.

Lemma index_0 (b : byte) l : index (b :: l) 0 = Ok b.
Proof. done. Qed.

(** * The stages, against any peer *)

Section Stages.
Context `{P : Primitives} {L : PrimitivesLaws}.

(** [sent1] and [data] are the packets sent and received in a handshake that ends
    with the keys [res] and the peer's index [idx]. *)
Record handshaken (m : material) (sent1 data : bytes) (res : HandshakeResult) (idx : Z) : Prop :=
  mk_handshaken {
  hs_initiation :
    ∃ eph ts I1 I2,
      length eph = 32%nat ∧ in_u64 ts ∧
      WriteInitiation senderIndex ts eph (daemonSigpub m) (zeros 16)
        (NewInitiator (goStaticSec m) (goStaticPub m) (daemonStatic m), zeros Msg1Size)
        = (Ok tt, (I1, sent1)) ∧
      ReadResponse (take 92 data) (daemonSigpub m) I1 = (Ok tt, I2) ∧
      res = Initiator_Finalize I2;
  hs_response : Msg2Size ≤ len data ∧ head data = Some x02;
  hs_index : idx = unbe (take 4 (drop 4 data));
}.

Lemma handshaken_keys m p d res idx :
  handshaken m p d res idx → length (SendKey res) = 32%nat ∧ length (RecvKey res) = 32%nat.
Proof. intros [(? & ? & ? & ? & _ & _ & _ & _ & ->) _ _]. apply length_transport_keys. Qed.

(** [own] is the command's binding packet of the session, [data] a packet that
    holds the peer's: it opens under the session's key to a frame, bound to the
    session's transcript, with a certificate valid under the trusted keys. *)
Record bound (m : material) (res : HandshakeResult) (idx : Z) (own data : bytes) (cert : Cert)
    : Prop := mk_bound {
  bd_own : ∃ frame, BuildBindingFrame (goCert m) (goSigSeed m) (H res) = Ok frame ∧
    SealTransport (SendKey res) idx 0 frame = Ok own;
  bd_peer : ∃ frame c, OpenTransport (RecvKey res) data = Ok (frame, c) ∧
    VerifyBindingFrame frame (H res) (trustedKeys m) = Ok cert;
}.

(** [pkt] is a packet of the session that holds an intent, in an envelope signed
    with the command's key, on a resource of the key that [cert] certifies. *)
Record requests (values : flag_values) (m : material) (res : HandshakeResult) (idx : Z)
    (cert : Cert) (pkt : bytes) : Prop := mk_requests {
  rq_packet : ∃ env e it,
    SealTransport (SendKey res) idx 1 env = Ok pkt ∧
    ParseEnvelope env = Ok e ∧ Envelope_VerifySig e = Ok tt ∧
    e_Sender e = prim_public (prim_key_from_seed (goSigSeed m)) ∧
    e_BodyType e = BodyIntent ∧ ParseIntent (e_Body e) = Ok it ∧
    it_ResourceID it = intent_resource values cert;
}.

(** A trace that ends the command: exit 1, at most [n] packets sent. *)
Definition gives_up (n : nat) (t : list event) (s : exit_status) : Prop :=
  s = Exit 1 ∧ (length (sent t) <= n)%nat.

Lemma wp_stage_A {A} m (f : _ → flow A) Q :
  material_ok m →
  (∀ t s, gives_up 1 t s → Q t (inl s)) →
  (∀ t sent1 data res idx buf,
     sent t = [sent1] → received t = [data] → handshaken m sent1 data res idx →
     len buf = bufSize →
     wp (f (res, idx, buf)) (λ t', Q (t ++ t'))) →
  wp (stage_A m ≫= f) Q.
Proof.
  intros [Hsec Hpub _ Hds Hdp _] Hbad Hgood.
  apply (wp_bind _ _ _ (λ t r, match r with
    | inl s => gives_up 1 t s
    | inr (res, idx, buf) => len buf = bufSize ∧ ∃ sent1 data,
        sent t = [sent1] ∧ received t = [data] ∧ handshaken m sent1 data res idx end)).
  2: { intros t s H. by apply Hbad. }
  2: { intros t [[res idx] buf] (H2 & p & d & ? & ? & ?). by eapply Hgood. }
  unfold stage_A. apply wp_sys. intros [eph|err] Heph; cbn [or_else reply_ok] in *;
    [apply wp_ret_bind|apply wp_die_bind; split; [done|cbn; lia]].
  apply wp_sys. intros now _.
  destruct (WriteInitiation _ _ _ _ _ _) as [r [I1 msg1]] eqn:HW.
  apply wp_attempt.
  { intros ->. eapply (WriteInitiation_not_Panic (NewInitiator (goStaticSec m) (goStaticPub m) (daemonStatic m)));
      [..|by rewrite HW]; done. }
  { intros e ->. apply wp_die_bind. split; [done|cbn; lia]. }
  intros [] ->. apply wp_sys. intros [err|] _; cbn [on_error];
    [apply wp_die_bind; split; [done|cbn; lia]|apply wp_ret_bind].
  apply wp_print. apply wp_sys. intros [data|err] Hdata; cbn [or_else reply_ok] in *;
    [apply wp_ret_bind|apply wp_die_bind; split; [done|cbn; lia]].
  assert (length data <= length (zeros bufSize))%nat as Hfit by done.
  rewrite copy_at_read by done. cbv zeta.
  set (buf := data ++ drop (length data) (zeros bufSize)).
  assert (len buf = bufSize) as Hbuf.
  { unfold buf. rewrite length_app, length_drop. change (length (zeros bufSize)) with (Z.to_nat 2048) in *.
    unfold bufSize in *. lia. }
  destruct buf as [|first buf'] eqn:Ebuf; [done|]. eapply wp_must; [apply index_0|].
  apply wp_when; [intros _; apply wp_die_bind; split; [done|cbn; lia]|].
  intros [Hlen Hfirst]%orb_false_iff. apply Z.ltb_ge in Hlen. apply negb_false_iff, bool_decide_eq_true in Hfirst as ->.
  assert (head data = Some x02) as Hhead.
  { unfold buf in Ebuf. destruct data; [done|]. by injection Ebuf as ->. }
  rewrite <- Ebuf. unfold Msg2Size in Hlen.
  eapply wp_must; [apply slice_read; unfold Msg2Size; lia|].
  change (take _ (drop _ data)) with (take 92 data).
  destruct (ReadResponse _ _ _) as [r I2] eqn:HR. apply wp_attempt.
  { intros ->. pose proof (ReadResponse_outcome (take 92 data) (daemonSigpub m) I1) as Ho. by rewrite HR in Ho. }
  { intros e ->. apply wp_die_bind. split; [done|cbn; lia]. }
  intros [] ->. 
  eapply wp_must; [apply slice_read; unfold off2SenderConformant; lia|].
  eapply wp_must; [apply slice_read; unfold off2ReceiverConformant; lia|].
  apply wp_print. apply wp_ret. split; [by rewrite Ebuf|]. exists msg1, data.
  split; [done|]. split; [done|]. split; [|done|done].
  exists eph, (u64 now), I1, I2. split_and!; try done. apply u64_range.
Qed.

Lemma wp_stage_B {A} m res idx buf (f : _ → flow A) Q :
  material_ok m → length (SendKey res) = 32%nat → length (RecvKey res) = 32%nat →
  len buf = bufSize →
  (∀ t s, gives_up 1 t s → Q t (inl s)) →
  (∀ t own data cert, sent t = [own] → received t = [data] → bound m res idx own data cert →
     wp (f cert) (λ t', Q (t ++ t'))) →
  wp (stage_B m res idx buf ≫= f) Q.
Proof.
  intros Hm Hks Hkr Hbuf Hbad Hgood.
  apply (wp_bind _ _ _ (λ t r, match r with
    | inl s => gives_up 1 t s
    | inr cert => ∃ own data, sent t = [own] ∧ received t = [data] ∧ bound m res idx own data cert
    end)).
  2: { intros t s H. by apply Hbad. }
  2: { intros t cert (p & d & ? & ? & ?). by eapply Hgood. }
  unfold stage_B. destruct (BuildBindingFrame_Ok (goCert m) (goSigSeed m) (H res)) as (sig & Hown & _).
  { destruct Hm. unfold ed25519_SeedSize. lia. }
  eapply wp_must; [exact Hown|]. apply wp_attempt.
  { by rewrite SealTransport_Ok by (unfold keyLen; lia). }
  { intros e He. apply wp_die_bind. split; [done|cbn; lia]. }
  intros own Hpkt. apply wp_sys. intros [err|] _; cbn [on_error];
    [apply wp_die_bind; split; [done|cbn; lia]|apply wp_ret_bind].
  apply wp_print. apply wp_sys. intros [] _.
  apply wp_sys. intros [data|err] Hdata; cbn [or_else reply_ok] in *;
    [apply wp_ret_bind|apply wp_die_bind; split; [done|cbn; lia]].
  rewrite copy_at_read by (unfold bufSize in *; lia).
  eapply wp_must; [apply slice_read; lia|].
  assert (take (Z.to_nat (len data - 0)) (drop (Z.to_nat 0) data) = data) as ->
    by (apply take_ge; cbn; lia).
  apply wp_attempt; [by apply OpenTransport_not_Panic; unfold keyLen; lia|..].
  { intros e He. apply wp_die_bind. split; [done|cbn; lia]. }
  intros [frame c] Hopen. apply wp_attempt; [apply VerifyBindingFrame_not_Panic|..].
  { intros e He. apply wp_die_bind. split; [done|cbn; lia]. }
  intros cert Hcert. apply wp_print, wp_ret. exists own, data.
  split; [done|]. split; [done|]. split; eauto.
Qed.

(** The intent the command builds, and the envelope around it. *)
Definition the_intent (intentID resource : bytes) : Intent :=
  mk_Intent intentID resource (s2b "apt-get install -y sqlite3") (s2b "interop stage C").

Lemma intent_encodes intentID resource :
  length intentID = 16%nat → len resource ≤ MaxResource →
  ∃ body, EncodeIntentBody (the_intent intentID resource) = Ok body.
Proof.
  intros Hi Hr. eexists. apply EncodeIntentBody_Ok.
  split; [unfold LenIntentID; cbn; lia|]. split; [exact Hr|]. split; [done|]. by split.
Qed.

Lemma intent_envelope m intentID resource body now :
  length (goSigSeed m) = 32%nat → EncodeIntentBody (the_intent intentID resource) = Ok body →
  ∃ env e,
    BuildSignedEnvelope x02 (zeros 32) (prim_public (prim_key_from_seed (goSigSeed m))) 1 [] x00
      (u64 now) BodyIntent body (goSigSeed m) = Ok env ∧
    ParseEnvelope env = Ok e ∧ Envelope_VerifySig e = Ok tt ∧
    e_Sender e = prim_public (prim_key_from_seed (goSigSeed m)) ∧
    e_BodyType e = BodyIntent ∧ ParseIntent (e_Body e) = Ok (the_intent intentID resource).
Proof.
  intros Hseed Hbody.
  destruct (BuildSignedEnvelope_parses x02 (zeros 32)
    (prim_public (prim_key_from_seed (goSigSeed m))) 1 [] x00 (u64 now) BodyIntent body (goSigSeed m))
    as (tbs & sig & Hb & Hp & Hv); try done; [apply u64_range|lia| |].
  { apply EncodeIntentBody_Ok in Hbody as (Hi & Hr & Ha & Ht & ->).
    cbn [the_intent it_IntentID it_ResourceID it_Action it_Rationale] in *. clear Ha Ht.
    rewrite !length_app, !length_be. unfold LenIntentID, MaxResource in *.
    change MaxBody with 1048064. change (length (s2b "apt-get install -y sqlite3")) with 26%nat.
    change (length (s2b "interop stage C")) with 15%nat. lia. }
  do 2 eexists. split; [exact Hb|]. split; [exact Hp|]. split; [exact Hv|]. split; [done|].
  split; [done|]. by apply (codec_exact (F := intent_format)).
Qed.

Lemma ed25519Pub_Ok seed :
  length seed = 32%nat → ed25519Pub seed = Ok (prim_public (prim_key_from_seed seed)).
Proof.
  intros Hs. unfold ed25519Pub. rewrite NewKeyFromSeed_Ok by done. cbn [mbind res_bind].
  by rewrite copy_at_fill by (rewrite length_public by (by apply length_key_from_seed); done).
Qed.

Lemma wp_stage_C {A} values m res idx cert (f : _ → flow A) Q :
  material_ok m → length (SendKey res) = 32%nat →
  (∀ t, sent t = [] → received t = [] → Q t (inl (Exit 1))) →
  (∀ t pkt, sent t = [pkt] → received t = [] → requests values m res idx cert pkt →
     Q t (inl (Exit 1)) ∧ wp (f tt) (λ t', Q (t ++ t'))) →
  wp (stage_C values m res idx cert ≫= f) Q.
Proof.
  intros Hm Hks Hbad Hgood. destruct Hm as [_ _ Hseed _ _ _].
  apply (wp_bind _ _ _ (λ t r, received t = [] ∧
    (sent t = [] ∨ ∃ pkt, sent t = [pkt] ∧ requests values m res idx cert pkt) ∧
    match r with inl s => s = Exit 1 | inr _ => sent t ≠ [] end)).
  2: { intros t s (Hr & [Hs|(pkt & Hs & Hq)] & ->); [by apply Hbad|by apply (Hgood t pkt)]. }
  2: { intros t [] (Hr & [Hs|(pkt & Hs & Hq)] & Hne); [done|by apply (Hgood t pkt)]. }
  unfold stage_C. apply wp_sys. intros intentID Hid. apply wp_print.
  apply wp_attempt; [apply EncodeIntentBody_not_Panic|intros e _; apply wp_die_bind; by auto|].
  intros body Hbody. eapply wp_must; [by apply ed25519Pub_Ok|]. apply wp_sys. intros now _.
  destruct (intent_envelope m _ _ body now Hseed Hbody) as (env & e & Hb & Hp & Hv & Hs & Ht & Hi).
  rewrite Hb. apply wp_attempt; [done|done|]. intros env' [= <-].
  apply wp_attempt.
  { by rewrite SealTransport_Ok by (unfold keyLen; lia). }
  { intros err He. apply wp_die_bind. by auto. }
  intros pkt Hpkt.
  assert (requests values m res idx cert pkt) as Hq.
  { split. do 3 eexists. split; [exact Hpkt|]. split; [exact Hp|]. split; [exact Hv|].
    split; [exact Hs|]. split; [exact Ht|]. by split; [exact Hi|]. }
  apply wp_sys. intros [err|] _; cbn [on_error]; [apply wp_die_bind; by eauto 10|apply wp_ret_bind].
  apply wp_print, wp_sys. intros [] _. intros t r (? & ? & -> & _ & -> & ->). eauto 10.
Qed.

(** A session that went through stage B, and through stage C if it was asked for. *)
Definition interop_session (values : flag_values) (t : list event) : Prop :=
  ∃ m initiation response res idx own theirs cert,
    (∀ files, reads_from files t → material_of files values = Some m) ∧
    handshaken m initiation response res idx ∧ bound m res idx own theirs cert ∧
    received t = [response; theirs] ∧
    if flag_Bool values "intent" false
    then ∃ pkt, sent t = [initiation; own; pkt] ∧ requests values m res idx cert pkt
    else sent t = [initiation; own].

Lemma early values t :
  (length (sent t) <= 2)%nat →
  Exit 1 ∈ [Exit 0; Exit 1] ∧
  (Exit 1 = Exit 0 ∨ (2 < length (sent t))%nat → interop_session values t).
Proof. intros Hl. split; [set_solver|]. intros [?|?]; [done|lia]. Qed.

(** The stages' traces, put together. *)
Lemma session_intro values t0 t1 t2 m res idx p1 d1 p2 d2 cert e t :
  (∀ files, reads_from files t0 → material_of files values = Some m) →
  sent t0 = [] → received t0 = [] →
  sent t1 = [p1] → received t1 = [d1] → handshaken m p1 d1 res idx →
  sent t2 = [p2] → received t2 = [d2] → bound m res idx p2 d2 cert →
  received t = [] →
  (if flag_Bool values "intent" false
   then ∃ pkt, sent t = [pkt] ∧ requests values m res idx cert pkt else sent t = []) →
  interop_session values (t0 ++ Ev (Dial (flag_String values "daemon" (s2b "127.0.0.1:7420"))) e
    :: Ev (SetDeadline 5) () :: t1 ++ t2 ++ t).
Proof.
  intros Hm Hs0 Hr0 Hs1 Hr1 Hh Hs2 Hr2 Hb Hr Hs. exists m, p1, d1, res, idx, p2, d2, cert.
  split; [intros files [Hf _]%reads_from_app; by apply Hm|].
  split; [done|]. split; [done|]. destruct (flag_Bool _ _ _).
  - destruct Hs as (pkt & Hs & Hq). split; [by packets|]. exists pkt. by packets.
  - by packets.
Qed.

(** [C7] In every run of [interop] on a command line that parses, whatever the
    files, the peer and the network do: the command does not crash and ends with
    0 or 1; and if it ends with 0, or has sent more than two packets, then the
    handshake completed, the peer's second packet opened under the session's key to
    a frame bound to the session's transcript by the key of a certificate whose
    chain is valid under the trusted keys, and the packets sent are exactly the
    initiation, the command's own binding frame and, only if asked for, one
    signed intent on a resource of the peer's certified key. *)
Theorem interop_binding_first args values rest t s :
  Parse interop_flags args = Parsed values rest →
  runs (interop_main args) t s →
  s ∈ [Exit 0; Exit 1] ∧
  (s = Exit 0 ∨ (2 < length (sent t))%nat → interop_session values t).
Proof.
  intros Hparse. revert t s.
  change (wp (interop_main args) (λ t s, s ∈ [Exit 0; Exit 1] ∧
    (s = Exit 0 ∨ (2 < length (sent t))%nat → interop_session values t))).
  unfold interop_main. apply wp_finish, wp_parse_flags; try (intros; congruence).
  intros values' rest' Hp. rewrite Hparse in Hp. injection Hp as <- <-.
  apply wp_load_material.
  { intros t [Hs _] _. apply early. rewrite Hs. cbn. lia. }
  intros t0 m [Hs0 Hr0] Hok Hm. apply wp_sys. intros [err|] _; cbn [on_error].
  { apply wp_die_bind, early. packets. cbn. lia. }
  apply wp_ret_bind, wp_sys. intros [] _. apply wp_stage_A; [done|..].
  { intros t s [-> Hl]. apply early. packets. cbn. lia. }
  intros t1 p1 d1 res idx buf Hs1 Hr1 Hh Hbuf.
  destruct (handshaken_keys _ _ _ _ _ Hh) as [Hks Hkr]. apply wp_stage_B; [done..| |].
  { intros t s [-> Hl]. apply early. packets. cbn. lia. }
  intros t2 p2 d2 cert Hs2 Hr2 Hb.
  pose proof (λ t, session_intro values t0 t1 t2 m res idx p1 d1 p2 d2 cert None t Hm Hs0 Hr0
    Hs1 Hr1 Hh Hs2 Hr2 Hb) as Hsession.
  destruct (flag_Bool values "intent" false) eqn:Hflag; cbn [negb].
  - apply wp_stage_C; [done..| |].
    { intros t Hs Hr. apply early. packets. cbn. lia. }
    intros t3 pkt Hs3 Hr3 Hq. split.
    + split; [set_solver|]. intros _. apply Hsession; [done|eauto].
    + apply wp_sys. intros [] _. apply wp_ret. split; [set_solver|]. intros _.
      apply Hsession; [by packets|]. exists pkt. by packets.
  - apply wp_print, wp_sys. intros [] _. apply wp_ret. split; [set_solver|]. intros _. by apply Hsession.
Qed.

End Stages.
