(* ===== verification/Session.v ===== *)
(** The command [interop] against a conformant daemon: what [Interop.v] and a
    peer that answers with the package's own responder do together. *)

From stdpp Require Import relations.
From S2P Require Import Prelude GoBytes Stateful Crypto Toy Cursor Span Cert Validate Grant Envelope Noise.
From S2P Require Import Handshake Transport Capture Goroutines Flags Sys Interop InteropSpec.

(** * Runs in an environment *)

(** After the history [h], a continuation ends with [Q] of the whole trace,
    provided that every reply is one [P] allows. *)
Definition served {A} (P : list event → event → Prop) (h : list event) (Q : list event → A → Prop)
    : list event → A → Prop :=
  λ t a, answered P h t → Q (h ++ t) a.

Section Served.
Context {A : Type} (P : list event → event → Prop) (Q : list event → exit_status + A → Prop).

Lemma served_sys {R} h (c : sys R) (f : R → flow A) :
  (∀ r, reply_ok c r → P h (Ev c r) → wp (f r) (served P (h ++ [Ev c r]) Q)) →
  wp (sys_call c ≫= f) (served P h Q).
Proof.
  intros H. apply wp_sys. intros r Hr t a Hrun [He Ht].
  specialize (H r Hr He t a Hrun Ht). by rewrite <- (assoc_L (++)) in H.
Qed.

Lemma served_bind {B} h (m : flow B) (f : B → flow A) :
  wp m (served P h (λ h' r, match r with
    | inl s => Q h' (inl s)
    | inr b => wp (f b) (served P h' Q)
    end)) →
  wp (m ≫= f) (served P h Q).
Proof.
  intros Hm. eapply wp_bind; [exact Hm|done|].
  intros t b Hb t' r Hrun [Ht Ht']%answered_app. specialize (Hb Ht t' r Hrun Ht').
  by rewrite <- (assoc_L (++)) in Hb.
Qed.

(** A part of a program with a specification of its own. *)
Lemma served_part {B} h (m : flow B) (f : B → flow A) (R : list event → exit_status + B → Prop) :
  wp m (served P h R) →
  (∀ h' r, R h' r → match r with
    | inl s => Q h' (inl s)
    | inr b => wp (f b) (served P h' Q)
    end) →
  wp (m ≫= f) (served P h Q).
Proof. intros Hm HR. apply served_bind. intros t r Hrun Ht. by apply HR, Hm. Qed.

Lemma served_app h t (m : flow A) :
  (answered P h t → wp m (served P (h ++ t) Q)) → wp m (λ t', served P h Q (t ++ t')).
Proof.
  intros H t' r Hrun [Ht Ht']%answered_app. specialize (H Ht t' r Hrun Ht').
  by rewrite <- (assoc_L (++)) in H.
Qed.

Lemma served_last h (c : sys A) :
  (∀ r, Q (h ++ [Ev c r]) (inr r)) → wp (sys_call c) (served P h Q).
Proof. intros H t a (r & t' & -> & _ & -> & ->) _. apply H. Qed.

Lemma served_ret h (a : A) : Q h (inr a) → wp (mret a : flow A) (served P h Q).
Proof. intros H. apply wp_ret. intros _. by rewrite app_nil_r. Qed.

End Served.

(** * The daemon *)

(** The daemon's secrets and what it is known by. *)
Record daemon : Type := mk_daemon {
  d_static : bytes;
  d_staticPub : bytes;
  d_eph : bytes;
  d_sigPub : bytes;
  d_index : Z;
  d_cert : bytes;
  d_seed : bytes;
}.

Section Daemon.
Context `{P : Primitives}.

(** The sender's index in a handshake message. *)
Definition sender_of (msg : bytes) : Z := unbe (take 4 (drop 4 msg)).

(** It answers an initiation with the package's responder, *)
Definition daemon_handshake (D : daemon) (initiation : bytes) : option (Responder * bytes) :=
  match ReadInitiation initiation (d_sigPub D) (NewResponder (d_static D) (d_staticPub D)) with
  | (Ok _, R1) =>
      match WriteResponse (d_index D) (sender_of initiation) (d_eph D) (d_sigPub D) (zeros 16)
              (R1, zeros Msg2Size) with
      | (Ok _, (R2, response)) => Some (R2, response)
      | _ => None
      end
  | _ => None
  end.

(** sends its binding frame over the session, *)
Definition daemon_binding (D : daemon) (initiation : bytes) (R2 : Responder) : option bytes :=
  let res := Responder_Finalize R2 in
  match BuildBindingFrame (d_cert D) (d_seed D) (H res) with
  | Ok frame =>
      match SealTransport (SendKey res) (sender_of initiation) 0 frame with
      | Ok pkt => Some pkt
      | _ => None
      end
  | _ => None
  end.

Definition daemon_reply (D : daemon) (packets : list bytes) : option bytes :=
  match packets with
  | [initiation] => snd <$> daemon_handshake D initiation
  | [initiation; _] =>
      '(R2, _) ← daemon_handshake D initiation; daemon_binding D initiation R2
  | _ => None
  end.

(** and takes the client's packets as those of a session when they are addressed
    to the session's index and open in order to a binding frame valid under its own trusted keys and to an envelope of the
    bound key that holds the intent [it]. *)
Definition daemon_accepts (D : daemon) (trusted : list bytes) (initiation own request : bytes)
    (client : Cert) (it : Intent) : Prop :=
  ∃ R2 response frame env e,
    daemon_handshake D initiation = Some (R2, response) ∧
    let res := Responder_Finalize R2 in
    receiver_index own = be 4 (d_index D) ∧ receiver_index request = be 4 (d_index D) ∧
    OpenTransport (RecvKey res) own = Ok (frame, 0) ∧
    VerifyBindingFrame frame (H res) trusted = Ok client ∧
    OpenTransport (RecvKey res) request = Ok (env, 1) ∧
    ParseEnvelope env = Ok e ∧ Envelope_VerifySig e = Ok tt ∧
    e_Sender e = ct_SigPubkey client ∧ e_BodyType e = BodyIntent ∧
    ParseIntent (e_Body e) = Ok it.

(** The replies of a machine with the files [files] and the random bytes [eph],
    on a network that delivers, in both directions, between it and the daemon: a
    read returns the datagram, as far as the buffer goes. *)
Definition daemon_env (files : path → option bytes) (eph : bytes) (D : daemon)
    (h : list event) (e : event) : Prop :=
  match e with
  | Ev c r =>
      (match c in sys R return R → Prop with
       | ReadFile p => λ r, reply_of (files p) r
       | RandRead 32 => λ r, r = inl eph
       | Dial _ => λ r, r = None
       | ConnWrite _ => λ r, r = None
       | ConnRead n => λ r, ∀ d, daemon_reply D (sent h) = Some d → r = inl (take n d)
       | _ => λ _, True
       end) r
  end.

(** What the two machines must agree on beforehand. *)
Record setup (m : material) (eph : bytes) (D : daemon) (trusted : list bytes)
    (client peer : Cert) : Prop := {
  su_keys : ∃ qI qR,
    parties (goStaticSec m) (goStaticPub m) (d_static D) (d_staticPub D) eph qI (d_eph D) qR;
  su_daemonStatic : daemonStatic m = d_staticPub D;
  su_daemonSigpub : daemonSigpub m = d_sigPub D;
  su_seed : length (d_seed D) = 32%nat;
  (** the client's certificate is for its signing key, and valid at the daemon *)
  su_client : ParseCert (goCert m) = Ok client ∧ ValidateCertChainNoClock client trusted = Ok tt;
  su_clientKey : ct_SigPubkey client = prim_public (prim_key_from_seed (goSigSeed m));
  (** and conversely *)
  su_peer : ParseCert (d_cert D) = Ok peer ∧ ValidateCertChainNoClock peer (trustedKeys m) = Ok tt;
  su_peerKey : ct_SigPubkey peer = prim_public (prim_key_from_seed (d_seed D));
}.

End Daemon.

Section Session.
Context `{P : Primitives} {L : PrimitivesLaws}.
Context (files : path → option bytes) (eph : bytes) (D : daemon).
Context (m : material) (trusted : list bytes) (client peer : Cert).
Hypothesis Hsetup : setup m eph D trusted client peer.
Hypothesis Hm : material_ok m.

Abbreviation serve := (served (daemon_env files eph D)).

(** The session both ends hold after stage A. *)
Record agreed (initiation : bytes) (R2 : Responder) (res : HandshakeResult) (idx : Z) : Prop := {
  ag_daemon : ∃ response, daemon_handshake D initiation = Some (R2, response);
  ag_send : SendKey res = RecvKey (Responder_Finalize R2);
  ag_recv : RecvKey res = SendKey (Responder_Finalize R2);
  ag_hash : H res = H (Responder_Finalize R2);
  ag_lengths : length (SendKey res) = 32%nat ∧ length (RecvKey res) = 32%nat;
  ag_index : be 4 idx = be 4 (d_index D);
}.

Lemma take_drop_seg (pre x post : bytes) n k :
  length pre = n → length x = k → take k (drop n (pre ++ x ++ post)) = x.
Proof. intros <- <-. by rewrite drop_app_length, take_app_length. Qed.

Lemma stage_A_served h :
  sent h = [] →
  wp (stage_A m) (serve h (λ h' r, ∃ initiation R2 res idx buf,
    r = inr (res, idx, buf) ∧ len buf = bufSize ∧ sent h' = [initiation] ∧
    agreed initiation R2 res idx)).
Proof using Hsetup L.
  intros Hh. destruct Hsetup as [(qI & qR & Hkeys) Hds Hdp _ _ _ _ _].
  unfold stage_A. apply served_sys. intros r _ ->. cbn [or_else]. apply wp_ret_bind.
  apply served_sys. intros now _ _.
  destruct (handshake_run _ _ _ _ _ _ _ _ (d_sigPub D) senderIndex (d_index D) (u64 now) (zeros 16)
    (zeros 16) (zeros Msg1Size) (zeros Msg2Size) Hkeys) as
    (I1 & m1 & R1 & R2 & m2 & I2 & H1 & H2 & H3 & H4 & _ & Hsym & (b1 & Hm1) & _ & (b2 & Hm2) & Hl2);
    [done..|].
  rewrite Hds, Hdp, H1. cbn [attempt]. apply wp_ret_bind.
  apply served_sys. intros r _ ->. cbn [on_error]. apply wp_ret_bind.
  apply served_sys. intros [] _ _. apply served_sys. intros r _ Hreply.
  assert (daemon_handshake D m1 = Some (R2, m2)) as Hdaemon.
  { unfold daemon_handshake, sender_of. rewrite H2.
    rewrite Hm1 at 1. rewrite take_drop_seg by (done || apply length_be).
    rewrite unbe_be_small by done. by rewrite H3. }
  assert (len m2 = 92) as Hlen by (rewrite Hl2; done).
  assert (r = inl m2) as ->.
  { rewrite <- (take_ge m2 (Z.to_nat bufSize)) by (unfold bufSize; lia). apply Hreply.
    packets. cbn [daemon_reply]. by rewrite Hdaemon. }
  cbn [or_else]. apply wp_ret_bind.
  rewrite copy_at_read by (change (length (zeros bufSize)) with 2048%nat; lia).
  set (buf := m2 ++ drop (length m2) (zeros bufSize)).
  assert (buf = x02 :: tail buf) as Hhead by (unfold buf; rewrite Hm2; done).
  eapply wp_must; [rewrite Hhead; apply index_0|]. cbv zeta. rewrite Hlen. cbn [when].
  rewrite bool_decide_true by done. change ((92 <? Msg2Size) || negb true) with false.
  eapply wp_must; [apply slice_read; unfold Msg2Size; lia|].
  change (take _ (drop _ m2)) with (take 92 m2). rewrite take_ge, H4 by lia.
  apply wp_ret_bind.
  eapply wp_must; [apply slice_read; unfold off2SenderConformant; lia|].
  eapply wp_must; [apply slice_read; unfold off2ReceiverConformant; lia|].
  change (take _ (drop _ m2)) with (take 4 (drop 4 m2)) at 2.
  apply served_sys. intros [] _ _. apply served_ret.
  exists m1, R2. do 3 eexists. split; [reflexivity|].
  split; [unfold buf; rewrite length_app, length_drop; change (length (zeros bufSize)) with (Z.to_nat 2048);
    unfold bufSize; lia|].
  split; [packets; done|].
  split; [by exists m2|..]; unfold Initiator_Finalize, Responder_Finalize; rewrite ?Hsym;
    try (by destruct (split _)).
  - pose proof (length_transport_keys I2) as Hl. unfold Initiator_Finalize in Hl. by rewrite Hsym in Hl.
  - rewrite Hm2. rewrite take_drop_seg by (done || apply length_be).
    apply be_unbe. by rewrite length_be.
Qed.

Lemma stage_B_served h initiation R2 res idx buf :
  sent h = [initiation] → agreed initiation R2 res idx → len buf = bufSize →
  wp (stage_B m res idx buf) (serve h (λ h' r, ∃ own frame,
    r = inr peer ∧ sent h' = [initiation; own] ∧ receiver_index own = be 4 (d_index D) ∧
    OpenTransport (RecvKey (Responder_Finalize R2)) own = Ok (frame, 0) ∧
    VerifyBindingFrame frame (H (Responder_Finalize R2)) trusted = Ok client)).
Proof using Hsetup Hm L.
  intros Hh [[response Hd] Hs Hr HH [Hls Hlr] Hidx] Hbuf.
  destruct Hsetup as [_ _ _ Hseed [Hc1 Hc2] Hck [Hp1 Hp2] Hpk].
  assert (len (goSigSeed m) = ed25519_SeedSize) as Hgs by (destruct Hm; unfold ed25519_SeedSize; lia).
  destruct (binding_roundtrip _ _ (goSigSeed m) (H res) _ Hc1 Hc2 Hgs Hck) as (own & Hown & Hvown).
  destruct (binding_roundtrip _ _ (d_seed D) (H res) _ Hp1 Hp2) as (theirs & Htheirs & Hvtheirs);
    [unfold ed25519_SeedSize; lia|done|].
  destruct (transport_roundtrip (SendKey res) idx 0 own) as (p1 & Hp & Ho); [unfold keyLen; lia|done|].
  destruct (transport_roundtrip (RecvKey res) (sender_of initiation) 0 theirs) as (p2 & Hp' & Ho');
    [unfold keyLen; lia|done|].
  unfold stage_B. eapply wp_must; [exact Hown|]. rewrite Hp. cbn [attempt]. apply wp_ret_bind.
  apply served_sys. intros r _ ->. cbn [on_error]. apply wp_ret_bind.
  apply served_sys. intros [] _ _. apply served_sys. intros [] _ _.
  apply served_sys. intros r Hlen Hreply.
  assert (r = inl p2) as ->.
  { assert (len p2 ≤ 696) by (eapply length_binding_packet; [exact Hp1|..|exact Htheirs| |exact Hp'];
      unfold ed25519_SeedSize, keyLen; lia).
    rewrite <- (take_ge p2 (Z.to_nat bufSize)) by (unfold bufSize; lia). apply Hreply.
    packets. cbn [daemon_reply]. rewrite Hd. cbn [mbind option_bind].
    unfold daemon_binding. by rewrite <- Hr, <- HH, Htheirs, Hp'. }
  cbn [or_else reply_ok] in *. apply wp_ret_bind.
  rewrite copy_at_read by (unfold bufSize in *; lia).
  eapply wp_must; [apply slice_read; lia|].
  assert (take (Z.to_nat (len p2 - 0)) (drop (Z.to_nat 0) p2) = p2) as ->
    by (apply take_ge; cbn; lia).
  rewrite Ho'. cbn [attempt]. apply wp_ret_bind. rewrite Hvtheirs. cbn [attempt]. apply wp_ret_bind.
  apply served_sys. intros [] _ _. apply served_ret. exists p1, own.
  split; [done|]. split; [packets; done|].
  split; [rewrite <- Hidx; eapply SealTransport_index; [|exact Hp]; unfold keyLen; lia|].
  by rewrite <- Hs, <- HH.
Qed.

Lemma stage_C_served values h initiation own R2 res idx :
  sent h = [initiation; own] → agreed initiation R2 res idx →
  len (intent_resource values peer) ≤ MaxResource →
  wp (stage_C values m res idx peer) (serve h (λ h' r, ∃ request env e it,
    r = inr tt ∧ sent h' = [initiation; own; request] ∧
    receiver_index request = be 4 (d_index D) ∧
    OpenTransport (RecvKey (Responder_Finalize R2)) request = Ok (env, 1) ∧
    ParseEnvelope env = Ok e ∧ Envelope_VerifySig e = Ok tt ∧
    e_Sender e = ct_SigPubkey client ∧ e_BodyType e = BodyIntent ∧
    ParseIntent (e_Body e) = Ok it ∧ it_ResourceID it = intent_resource values peer)).
Proof using Hsetup Hm L.
  intros Hh [_ Hs _ _ [Hls _] Hidx] Hlen.
  destruct Hsetup as [_ _ _ _ _ Hck _ _]. destruct Hm as [_ _ Hseed _ _ _].
  unfold stage_C. apply served_sys. intros intentID Hid _. cbn [reply_ok] in Hid.
  apply served_sys. intros [] _ _. fold (the_intent intentID (intent_resource values peer)).
  destruct (intent_encodes intentID (intent_resource values peer) Hid Hlen) as [body Hbody].
  rewrite Hbody.
  cbn [attempt]. apply wp_ret_bind. eapply wp_must; [by apply ed25519Pub_Ok|].
  apply served_sys. intros now _ _.
  destruct (intent_envelope m _ _ body now Hseed Hbody) as (env & e & Hb & Hp & Hv & Hse & Ht & Hi).
  destruct (transport_roundtrip (SendKey res) idx 1 env) as (pkt & Hpkt & Ho); [unfold keyLen; lia|done|].
  rewrite Hb. cbn [attempt]. apply wp_ret_bind. rewrite Hpkt. cbn [attempt]. apply wp_ret_bind.
  apply served_sys. intros r _ ->. cbn [on_error]. apply wp_ret_bind.
  apply served_sys. intros [] _ _. apply served_sys. intros [] _ _.
  apply served_last. intros []. exists pkt, env, e. eexists.
  split; [done|]. split; [packets; done|].
  split; [rewrite <- Hidx; eapply SealTransport_index; [|exact Hpkt]; unfold keyLen; lia|].
  rewrite <- Hs. split; [exact Ho|].
  split; [exact Hp|]. split; [exact Hv|]. split; [by rewrite Hse|]. split; [exact Ht|].
  by split; [exact Hi|].
Qed.

End Session.

(** [C6] Against a daemon that answers with the package's own responder, with keys
    none of whose shared secrets is refused, certificates each side accepts,
    the daemon's public keys in the client's files, and a network that delivers:
    every run of [interop --intent] ends with 0, and the daemon takes the three
    packets it sent: it opens them under its own keys of the session, in
    order, to the client's certificate bound to the session and to an intent on
    the resource of the daemon's own key, signed by the certified key. *)
Theorem interop_completes `{P : Primitives} {L : PrimitivesLaws} files eph D trusted client peer
    args values rest m t s :
  Parse interop_flags args = Parsed values rest →
  flag_Bool values "intent" false = true →
  material_of files values = Some m →
  setup m eph D trusted client peer →
  len (intent_resource values peer) ≤ MaxResource →
  runs (interop_main args) t s →
  answered (daemon_env files eph D) [] t →
  s = Exit 0 ∧
  ∃ initiation own request it,
    sent t = [initiation; own; request] ∧
    daemon_accepts D trusted initiation own request client it ∧
    it_ResourceID it = intent_resource values peer.
Proof.
  intros Hparse Hintent Hfiles Hsetup Hlen. revert t s.
  set (Q := λ t s, s = Exit 0 ∧ ∃ initiation own request it,
    sent t = [initiation; own; request] ∧
    daemon_accepts D trusted initiation own request client it ∧
    it_ResourceID it = intent_resource values peer).
  enough (wp (interop_main args) (served (daemon_env files eph D) [] Q)) as Hwp.
  { intros t s Hrun Ht. by apply (Hwp t s). }
  unfold interop_main. apply wp_finish.
  change (λ t r, _) with (served (daemon_env files eph D) []
    (λ t (r : exit_status + Z), Q t (match r with inl s => s | inr code => Exit code end))).
  apply wp_parse_flags; try (intros; congruence).
  intros values' rest' Hp. rewrite Hparse in Hp. injection Hp as <- <-.
  assert (∀ h t, answered (daemon_env files eph D) h t → reads_from files t) as Hreads.
  { intros h t. apply answered_reads. clear. intros h [R c r] He.
    destruct c; cbn in *; try constructor; [done|done]. }
  apply wp_load_material.
  { intros t _ Hnone Ht. apply Hreads, Hnone in Ht. congruence. }
  intros t0 m' [Hs0 _] Hok Hm. apply served_app. intros Ht0. apply Hreads, Hm in Ht0.
  assert (m' = m) as -> by congruence. cbn [app].
  apply served_sys. intros r _ ->. cbn [on_error]. apply wp_ret_bind.
  apply served_sys. intros [] _ _.
  eapply served_part; [eapply stage_A_served; [done|by packets]|].
  intros h1 _ (initiation & R2 & res & idx & buf & -> & Hbuf & Hs1 & Hag).
  eapply served_part; [by eapply stage_B_served|].
  intros h2 _ (own & frame & -> & Hs2 & Hi1 & Hopen & Hframe). rewrite Hintent. cbn [negb].
  eapply served_part; [by eapply stage_C_served|].
  intros h3 _ (request & env & e & it & -> & Hs3 & Hi2 & Hopen' & Hp & Hv & Hse & Ht & Hi & Hres).
  apply served_sys. intros [] _ _. apply served_ret. split; [done|].
  exists initiation, own, request, it. split; [by packets|]. split; [|exact Hres].
  destruct (ag_daemon _ _ _ _ _ Hag) as [response Hd]. by exists R2, response, frame, env, e.
Qed.

(** * Witnesses *)

Definition example_files (p : path) : option bytes :=
  match p with
  | PArg name =>
      snd <$> find (λ nd, bytes_Equal (s2b nd.1) name)
        [("node-go/static.key", example_secret 1); ("node-go/static.pub", example_point 1);
         ("node-go/sig.key", replicate 32 (z2b 5));
         ("node-go/cert.bin", example_cert_bytes RoleAgent 5);
         ("static.pub", example_point 2); ("sig.pub", example_pub 6);
         ("node-go/ca/ca0.pub", example_pub 1); ("node-go/ca/ca1.pub", example_pub 2)]%string
  | _ => None
  end.

Definition example_daemon : daemon :=
  mk_daemon (example_secret 2) (example_point 2) (example_secret 4) (example_pub 6) 77
    (example_cert_bytes RoleExecutor 6) (replicate 32 (z2b 6)).

(** Replies in which every call succeeds and the daemon answers. *)
Definition session_env (h : list event) : environment := λ R c,
  match c in sys R return R with
  | ReadFile p =>
      match example_files p with Some d => inl d | None => inr (errors_New "no such file") end
  | RandRead n => inl (replicate n (z2b 3))
  | RandFill n => replicate n (z2b 8)
  | NowMilli => 1700000000000
  | ConnRead n =>
      match daemon_reply example_daemon (sent h) with
      | Some d => inl (take n d)
      | None => inr (errors_New "i/o timeout")
      end
  | MkdirAll _ | Stat _ | WriteFile _ _ _ | Start _ _ | Dial _ | ConnWrite _ => None
  | Output _ _ => inl []
  | Wait cap => (cap, WaitOk)
  | SetDeadline _ | ConnClose | Sleep _ | Print _ _ _ => tt
  end.

Definition example_args : list bytes :=
  map s2b ["--daemon-static"; "static.pub"; "-daemon-sigpub=sig.pub"; "--intent"]%string.

Definition example_session : list event * exit_status :=
  play_from session_env [] (interop_main example_args).

Lemma session_env_ok h R (c : sys R) : reply_ok c (session_env h R c).
Proof.
  destruct c; cbn; try done; try apply length_replicate.
  - exists [], [], false. split; [apply captures_copies, rtc_refl|done].
  - destruct (daemon_reply _ _); [|done]. rewrite length_take. lia.
Qed.

Definition example_values : flag_values :=
  match Parse interop_flags example_args with Parsed values _ => values | _ => [] end.
Definition example_material : material :=
  match material_of example_files example_values with
  | Some m => m
  | None => mk_material [] [] [] [] [] [] []
  end.

Lemma example_setup :
  setup example_material (example_secret 3) example_daemon example_trusted
    (example_cert RoleAgent 5) (example_cert RoleExecutor 6).
Proof.
  split.
  - exists (example_point 3), (example_point 4). split. all: vm_compute. all: done.
  - vm_compute; reflexivity.
  - vm_compute; reflexivity.
  - vm_compute; reflexivity.
  - split; vm_compute; reflexivity.
  - vm_compute; reflexivity.
  - split; vm_compute; reflexivity.
  - vm_compute; reflexivity.
Qed.

Lemma example_answered :
  answered (daemon_env example_files (example_secret 3) example_daemon) [] example_session.1.
Proof.
  apply play_answered. intros h R c.
  destruct c as [| |p| |n| | | | | | | | | | | |]; cbn; try done.
  - unfold reply_of. by destruct (example_files p).
  - by repeat case_match.
  - by intros d ->.
Qed.

Lemma example_session_runs : runs (interop_main example_args) example_session.1 example_session.2.
Proof. unfold example_session. apply play_from_runs. intros h R c. apply session_env_ok. Qed.

Lemma interop_completes_witness :
  example_session.2 = Exit 0 ∧
  ∃ initiation own request it,
    sent example_session.1 = [initiation; own; request] ∧
    daemon_accepts example_daemon example_trusted initiation own request (example_cert RoleAgent 5) it ∧
    it_ResourceID it = intent_resource example_values (example_cert RoleExecutor 6).
Proof.
  apply (interop_completes example_files (example_secret 3) example_daemon example_trusted
    (example_cert RoleAgent 5) (example_cert RoleExecutor 6) example_args example_values []
    example_material).
  - vm_compute. reflexivity.
  - vm_compute. reflexivity.
  - vm_compute. reflexivity.
  - exact example_setup.
  - vm_compute. discriminate.
  - exact example_session_runs.
  - exact example_answered.
Defined.

(** The same session, as one against any peer. *)
Lemma interop_binding_first_witness :
  example_session.2 = Exit 0 ∧
  example_session.2 ∈ [Exit 0; Exit 1] ∧
  (example_session.2 = Exit 0 ∨ (2 < length (sent example_session.1))%nat →
   interop_session example_values example_session.1).
Proof.
  split; [vm_compute; reflexivity|].
  exact (interop_binding_first example_args example_values [] _ _
           ltac:(vm_compute; reflexivity) example_session_runs).
Defined.
